(* ===== verification/_CoqProject ===== *)
-Q . S2P
Prelude.v
GoLib.v
GoStrings.v
GoUtf8.v
GoStrconv.v
GoJson.v
KVServer.v
KVModel.v
KVClerk.v
KVTest.v
KVCalls.v
KVTestSafety.v
KVAppendSafety.v
KVSpread.v
KVHistory.v
LockService.v
ShardCfg.v
GoSlice.v
RaftNode.v
RaftSpec.v
RaftRepair.v
RaftSystem.v
RaftSafety.v
RaftElection.v
RaftRaces.v
RaftTotal.v
RaftLog.v
RaftValidity.v
MRText.v
MRJob.v
MRCoordinator.v
MRFiles.v
MRSafety.v
MRApps.v
MRTiming.v
MRRun.v
MRWorker.v
MRUtil.v
LabRpc.v
RaftTester.v
RaftChecks.v
RaftTested.v
Labgob.v
Annotation.v
AnnotationSafety.v
KVPorcupine.v
Demux.v
DemuxSafety.v
TesterNet.v
TesterGroups.v
TesterConfig.v
KVGroupTest.v
Daemon.v
DaemonFlags.v
Sockrpc.v
Rsm.v
Stubs.v
Programs.v
Skeletons.v
KVNet.v
ShardTest.v
ShardCtrlTest.v
ShardRace.v
