(* ===== verification/Prelude.v ===== *)
(** * mr-go-local: a verification development

    The repository holds a set of distributed systems in Go and the harness that tests them:
    a key/value server with a clerk and a lock service, Raft, shard configurations for a
    sharded store, MapReduce, and below the tests a simulated network, a tester that
    supervises groups of servers, and a protocol that multiplexes calls over one connection.
    This development models them from the source and proves what makes them correct; where
    the code does not have the property one expects, the theorem is the run that shows it.

    ** Conventions

    - An operation is a function on the state it works on.  What can stop a Go program is a
      value of [outcome] below: [Ret], [Panic] (an index or slice out of range, a nil
      dereference, a panic of the code's own) and [Fatal] (the log.Fatal family).  Loops
      are folds ([go_for]) or recursions.
    - Code under a mutex is one function.  Code that drops its mutex is cut into one function
      per critical section, and a record carries the local variables from one to the next;
      a step function on the whole system interleaves the sections in every way.
    - What the environment chooses (time, timeouts, random numbers, the fate of a message,
      the order of a map's range, the spare capacity of a grown slice) is an argument; a
      theorem holds for every choice.
    - Integers of a fixed width wrap around where the code computes with them ([i32], [i64],
      [u32], [u64]); a counter that the code only increases towards 2^63 is a number.
    - A struct is a record with the source's field names, a field of two structs prefixed;
      assignment to a field is [r <| f := v |>].  A Go map is a [gmap], or an association
      list where the order in which it is ranged over shows.

    ** Files

    Shared ground.  [Prelude] has the record updates, the outcomes, the integers and the
    generic lemmas; [GoLib], [GoStrings], [GoUtf8], [GoStrconv] and [GoJson] the functions of
    Go's standard library that the program computes with.

    Key/value store.  [KVServer] is src/src/kvsrv1/server.go with rpc/rpc.go;
    [KVModel] is src/src/models1/kv.go, the model a linearizability checker runs histories
    against, and the proof that the server refines it; [KVClerk] is
    src/src/kvsrv1/client.go with the interface of src/src/kvtest1/kvtest.go, the class
    [IKVClerk]; [LockService] is src/src/kvsrv1/lock/lock.go.  The lock is proved against
    [IKVClerk] alone and the clerk is an instance of it.

    Key/value tests.  [KVTest] is src/src/kvtest1/kvtest.go with the operation log of
    porcupine.go: clients as programs over [IKVClerk], a step system that interleaves their
    calls and records each, and the checks.  [KVCalls] holds what a call may do in the
    meantime; [KVTestSafety], [KVAppendSafety], [KVSpread] and [KVHistory] are the proofs for
    the concurrent Put test, the concurrent append test, the Puts that are spread over keys and
    the recorded history; [KVPorcupine] is checkPorcupine.  [KVNet] puts the server of
    [KVServer] on the network of [LabRpc] and [KVGroupTest] the tests on the servers of
    [TesterConfig] (src/src/kvraft1/test.go, src/src/kvsrv1/test.go).

    Shard configurations.  [ShardCfg] is src/src/shardkv1/shardcfg/shardcfg.go; [ShardTest]
    the groups that join and leave in src/src/shardkv1/test.go, over the controller as the
    class [ShardCtrler]; [ShardCtrlTest] the tests with a group that is down and a controller
    that is cut off; [ShardRace] the controllers that compete, goroutine by goroutine.

    Raft.  [GoSlice] models slices with shared backing arrays, which the log depends on;
    [RaftNode] is src/src/raft1/raft.go section by section; [RaftSpec] gives every section
    its effect on the log seen as a list; [RaftRepair] composes the sections of one leader
    and one follower into rounds; [RaftSystem] is a cluster with all its goroutines,
    [RaftSafety] and [RaftElection] hold its invariants and [RaftRaces] the runs in which its
    sections interleave badly; [RaftTotal] says which sections can panic and [RaftLog] how a
    log and a mode may change; [RaftValidity] follows the cells of the arrays behind the log
    and shows that what is applied was submitted.

    MapReduce.  [MRText] is the intermediate files (src/src/mr/worker.go); [MRJob] the data
    flow of src/src/main/mrsequential.go and of the distributed job; [MRCoordinator] the task
    table, the worker and their system (src/src/mr/coordinator.go, worker.go, rpc.go,
    src/src/main/mrcoordinator.go), where a worker does its file operations one by one between
    those of the others; [MRFiles] what files hold that several workers write, and which runs
    are [undisturbed]; [MRSafety] the invariants of the table; [MRApps] the applications of
    src/src/mrapps and [MRTiming] those that count each other's processes; [MRWorker] the loop
    of a worker and the calls it makes; [MRRun] a job from its input files to its output files;
    [MRUtil] the tests' directory and comparison, src/src/mr/util.go.

    Network and tester. [LabRpc] is src/src/labrpc/labrpc.go; [RaftTester] and [RaftChecks]
    are src/src/raft1/server.go, proxy.go and test.go, and [RaftTested] feeds the runs of
    [RaftSystem] to that tester; [Rsm] is the replicated counter and its tester,
    src/src/kvraft1/rsm; [Skeletons] the servers whose bodies are empty; [Demux] and
    [DemuxSafety] are src/src/tester1/demux; [TesterNet] and [TesterGroups] are
    src/src/tester1/persister.go, srv.go, group.go and clnts.go, over the network of [LabRpc]
    and with a daemon reduced to the persister it holds; [Daemon] is the start of such a
    daemon, daemonclnt.go and daemonsrv.go, with its flags in [DaemonFlags]; [Programs] the
    main functions of src/src/main; [TesterConfig] is config.go, a test's network, groups,
    clients and statistics under one record; and [Sockrpc] a call from one daemon to another,
    sockrpc/, testsrv.go and the forwarding of the other two, over [LabRpc]; [Stubs] has the
    calls of the tester and the servers by name, with their arguments and replies, over
    [Sockrpc]. [Labgob] is the checking in src/src/labgob/labgob.go. [Annotation] and
    [AnnotationSafety] are src/src/tester1/annotation.go and annotator.go.

    ** What the theorems show

    - Key/value store: each branch of [Put]; the version of a key counts its successful
      puts; every request on the server is a step of the linearizability model, with
      the one answer the model refuses; a clerk's [Put] takes effect at most once under any
      loss and retry, its answer tells whether it did, and it ends once one call goes
      through; the lock excludes, for any clerk that keeps the laws, and an uncontended
      Acquire succeeds; on the network, with late handlers and clients that have gone on,
      everything that runs is one sequential history in the order of time.
    - Key/value tests: over any clerk that keeps the laws, in every interleaving and under
      every loss, the recorded history is linearizable and the linearizability check passes
      exactly when no Put was answered ErrNoKey,
      the concurrent append test leaves a slice that CheckAppends accepts, the concurrent
      Put test a version that CheckPutConcurrent accepts, and SpreadPuts reads back what it
      put; servers that are killed and restarted keep what they had saved when the tester took
      its checkpoint of them, and lose what they saved after it.
    - Shards: [Rebalance] ends and leaves the groups within one shard of each other; [Join],
      [JoinBalance] and [LeaveBalance] as functions; in every configuration they reach each
      key has a group that exists; over a lawful controller groups that join and leave one
      by one all succeed, while there are no more groups than shards; and controllers that
      compete, with changes that supersede each other, never stop the test, nor do they, within
      the same bound, leave a configuration with a group that does not run.
    - Raft: a peer's handlers as functions on its list of entries, in spite of aliased
      arrays; a follower of the leader's term ends with the leader's log after rounds bounded
      by its length, when both logs come from one log per term; in every run of a cluster each
      peer applies commands in index order without gap and only commands that clients
      submitted, a leader has votes from a majority, only
      appends to its log, modes take the listed transitions only, and no section panics but
      those that find an index past the end of the log; the tester reports on a run exactly a
      disagreement; and runs in which two peers lead one term, a vote is given
      twice or counted late, and a committed command is overwritten.
    - MapReduce: the distributed job writes the lines of the sequential one, file by file, and
      the tests' comparison passes, when no task was skipped and no worker that has lost a
      reduce task gets in the way of the one that has it (runs in which one does, and an output
      is lost, are in [MRRun]); results of a task are merged once whatever workers die or
      are timed out; the files round trip; word count counts, and a task that counts the others
      beside it counts the living; when exactly [Done] answers true before the reduce tasks are
      made, which ends the job with no output.
    - Network: a request is executed at most once, a reliable call between connected ends is
      delivered, and a reply that crosses the deletion of its server is dropped; a call
      between server processes, through the tester, is as good as a direct one and runs its
      handler at most once whichever trip is lost; the stubs over sockets do what the stubs do
      whose calls merely have a fate.
    - Tester: a new configuration has all its servers running, on the network and connected to
      each other, and a group that exits leaves nothing behind; when the Raft tester reports
      nothing, the servers applied the same commands in the same order; [one] and
      [checkOneLeader] conclude only what they saw; a snapshot carries the log it replaces;
      over a multiplexed connection each call gets the answer to its own request and none
      waits for ever once the reader ends, and frames round trip; [Partition] cuts the leader
      off from a majority; a server keeps the state it had saved at the tester's checkpoint,
      and nothing else, across a restart; a program reads off its command line what the tester put on it and serves what
      is called on it, is ready when it is added to the network, and its start does not
      deadlock; increments of the replicated counter by several threads are not lost, and its
      tester asks every server that qualifies; the ongoing failure annotation tells the state
      of the servers unless [AnnotateTwoPartitions] put a partition in its place, and the continuous annotations of a tag form a timeline; labgob's walk
      over mutually recursive types ends and complains of exactly the fields it should.

    ** Fuel and bounds

    [Rebalance] runs on fuel of the square of the number of shards, which bounds the potential
    that every step of its loop lowers, and is proved to end within it; loops over a slice
    that consume it ([take_run], [group_loop], [strings.FieldsFunc]) have the slice's length;
    [read_stream] needs one more than the number of messages. Rounds of Raft repair are
    bounded by the difference of the indices. The polling checks look as often as the code
    does: ten passes for a leader, thirty iterations of [wait]. A multiplexed connection is
    bounded to fewer than 2^32 - 1 calls, where its tags start to repeat. Runs of the
    key/value tests have fewer than 2^64 events (2^63 for the append test, which converts the
    version to int), so no version wraps. [checkType] has fuel for one more call than there
    are types, and every nested call but the last marks one. The dialling of a socket tries a
    hundred times, as the code does.

    ** What is not modelled

    The bytes of encoding/gob, porcupine's search and drawing, plugins, the regular expression
    engine, find, sort and cmp, sockets and processes are parameters or absent; of encoding/json
    only the two shapes the tests store, of flag.Parse decimal numbers.  The controller, clerks
    and servers of src/src/kvraft1 and src/src/shardkv1 are skeletons with empty bodies, and so
    is Submit of the replicated state machine: the tests are proved over the interfaces these
    have to implement, and [Skeletons] says what they do as they are.  In raft.go the
    persistence functions are empty, so a restarted peer is a fresh one.  A MapReduce
    worker reads a whole file in one step, and applies the application's functions in that
    step.  The first controller of partitionCtrler,
    which is cut off in the middle of a change, needs the recovery that InitController is to
    have and that nothing here specifies: only the checks after it are modelled.  The programs
    for diskv, pbservice, viewservice and lockservice import packages the repository does not
    have.
    The opening of a socket for the coordinator, log and debug printing, the stack trace of a
    failed test and the seeds of random numbers are input and output alone. *)
From Stdlib Require Import ZArith Lia.
From stdpp Require Import base tactics numbers list fin_maps gmap strings.

(** ** Scopes and global settings *)

Declare Scope go_scope.
Delimit Scope go_scope with go.

#[global] Open Scope Z_scope.
#[global] Open Scope go_scope.

(** ** Record update

    [r <| f := v |>] is the Go assignment [r.f = v] seen as a pure function.  A record
    type declares one [Eta] instance, its field-by-field rebuild; the update of a single
    field is derived from it by replacing that field in the rebuilt record. *)

Class Eta (R : Type) := eta : R → R.
Class Update {R T : Type} (p : R → T) := update : (T → T) → R → R.
Arguments update {R T} p {_} g r : simpl nomatch.
#[global] Hint Mode Update + + + : typeclass_instances.

Ltac rebuild_field R p g r :=
  let i := constr:(_ : Eta R) in
  let i' := eval hnf in i in
  let e := eval cbv beta in (i' r) in
  match eval pattern (p r) in e with
  | ?F _ => let t := eval cbv beta in (F (g (p r))) in exact t
  end.

Ltac derive_update :=
  match goal with
  | |- @Update ?R ?T ?p =>
      exact (fun (g : T → T) (r : R) => ltac:(rebuild_field R p g r))
  end.

#[global] Hint Extern 1 (Update _) => derive_update : typeclass_instances.

Notation "r <| f := v |>" := (update f (fun _ => v) r)
  (at level 1, left associativity, format "r  <| f  :=  v |>") : go_scope.

(** ** Outcomes of Go code

    [Ret] is normal return; [Panic] a run-time panic (index or slice bounds, nil
    dereference); [Fatal] a call of [log.Fatal*], [os.Exit] or [t.Fatalf], which ends the
    process or the test goroutine. *)

Inductive outcome (A : Type) : Type :=
  | Ret (a : A)
  | Panic (why : string)
  | Fatal (msg : string).
Arguments Ret {A} a.
Arguments Panic {A} why.
Arguments Fatal {A} msg.

#[global] Instance outcome_ret : MRet outcome := @Ret.
#[global] Instance outcome_bind : MBind outcome := λ A B f m,
  match m with Ret a => f a | Panic w => Panic w | Fatal m => Fatal m end.
#[global] Instance outcome_fmap : FMap outcome := λ A B f m,
  match m with Ret a => Ret (f a) | Panic w => Panic w | Fatal m => Fatal m end.

#[global] Instance outcome_eq_dec {A} `{EqDecision A} : EqDecision (outcome A).
Proof. solve_decision. Defined.

Definition is_ret {A} (m : outcome A) : Prop := ∃ a, m = Ret a.

Lemma bind_ret_inv {A B} (m : outcome A) (f : A → outcome B) b :
  m ≫= f = Ret b → ∃ a, m = Ret a ∧ f a = Ret b.
Proof. destruct m; naive_solver. Qed.

Lemma bind_ret_l {A B} (a : A) (f : A → outcome B) : Ret a ≫= f = f a.
Proof. done. Qed.

(** ** Machine integers

    Go's [int] is 64 bits wide on every platform the program is built for.  Counters that
    only a bounded resource can drive (list lengths, loop indices) are plain [Z]; an
    increment of a value that arrives from the wire or is only bounded by its type is
    written with its wrap-around. *)

Definition u32 (z : Z) : Z := z `mod` 2 ^ 32.
Definition u64 (z : Z) : Z := z `mod` 2 ^ 64.
Definition i64 (z : Z) : Z := (z + 2 ^ 63) `mod` 2 ^ 64 - 2 ^ 63.

Definition i32 (z : Z) : Z := (z + 2 ^ 31) `mod` 2 ^ 32 - 2 ^ 31.

Definition max_u64 : Z := 2 ^ 64 - 1.
Definition max_i64 : Z := 2 ^ 63 - 1.

Lemma u32_range z : 0 ≤ u32 z < 2 ^ 32.
Proof. apply Z.mod_pos_bound; lia. Qed.
Lemma u64_range z : 0 ≤ u64 z < 2 ^ 64.
Proof. apply Z.mod_pos_bound; lia. Qed.
Lemma i64_range z : - 2 ^ 63 ≤ i64 z < 2 ^ 63.
Proof. unfold i64. pose proof (Z.mod_pos_bound (z + 2 ^ 63) (2 ^ 64)). lia. Qed.
Lemma u32_small z : 0 ≤ z < 2 ^ 32 → u32 z = z.
Proof. apply Z.mod_small. Qed.
Lemma u64_small z : 0 ≤ z < 2 ^ 64 → u64 z = z.
Proof. apply Z.mod_small. Qed.
Lemma i64_small z : - 2 ^ 63 ≤ z < 2 ^ 63 → i64 z = z.
Proof. intros. unfold i64. rewrite Z.mod_small; lia. Qed.

(** ** Lists as Go slices read by index *)

Section zlist.
Context {A : Type}.
Implicit Types (l : list A) (i : Z).

Definition zlen l : Z := Z.of_nat (length l).

Definition go_index l i : outcome A :=
  if decide (0 ≤ i) then
    match l !! Z.to_nat i with Some x => Ret x | None => Panic "index out of range" end
  else Panic "index out of range".

Definition go_update l i (x : A) : outcome (list A) :=
  if decide (0 ≤ i < zlen l) then Ret (<[Z.to_nat i := x]> l)
  else Panic "index out of range".

Lemma zlen_nonneg l : 0 ≤ zlen l.
Proof. unfold zlen. lia. Qed.
Lemma zlen_nil : zlen [] = 0.
Proof. done. Qed.
Lemma zlen_cons x l : zlen (x :: l) = zlen l + 1.
Proof. unfold zlen. simpl. lia. Qed.
Lemma zlen_app l1 l2 : zlen (l1 ++ l2) = zlen l1 + zlen l2.
Proof. unfold zlen. rewrite length_app. lia. Qed.
Lemma zlen_insert l (n : nat) x : zlen (<[n := x]> l) = zlen l.
Proof. unfold zlen. by rewrite length_insert. Qed.

Lemma go_index_Ret l i x :
  go_index l i = Ret x ↔ 0 ≤ i ∧ l !! Z.to_nat i = Some x.
Proof.
  unfold go_index. case_decide; [|naive_solver].
  destruct (l !! Z.to_nat i) eqn:E; naive_solver.
Qed.

Lemma go_index_in_range l i : 0 ≤ i < zlen l → ∃ x, go_index l i = Ret x ∧ l !! Z.to_nat i = Some x.
Proof.
  unfold go_index, zlen. intros. rewrite decide_True by lia.
  destruct (lookup_lt_is_Some_2 l (Z.to_nat i)) as [x ->]; [lia|eauto].
Qed.

Lemma go_index_is_ret l i : is_ret (go_index l i) ↔ 0 ≤ i < zlen l.
Proof.
  split.
  - intros [x [? Hx]%go_index_Ret]. apply lookup_lt_Some in Hx. unfold zlen. lia.
  - intros (x & Hx & _)%go_index_in_range. by exists x.
Qed.

Lemma go_index_nat l (k : nat) x : l !! k = Some x → go_index l (Z.of_nat k) = Ret x.
Proof. intros Hk. apply go_index_Ret. split; [lia|by rewrite Nat2Z.id]. Qed.

Lemma go_update_nat l (k : nat) x : (k < length l)%nat → go_update l (Z.of_nat k) x = Ret (<[k := x]> l).
Proof. intros Hk. unfold go_update. rewrite decide_True by (unfold zlen; lia). by rewrite Nat2Z.id. Qed.

Lemma go_update_Ret l i x l' :
  go_update l i x = Ret l' ↔ 0 ≤ i < zlen l ∧ l' = <[Z.to_nat i := x]> l.
Proof. unfold go_update. case_decide; naive_solver. Qed.
End zlist.

(** ** Filters that keep nothing or everything *)

Section filters.
Context {A : Type}.

Lemma nil_or_elem (l : list A) : l = [] ∨ ∃ x, x ∈ l.
Proof. destruct l as [|x l]; [by left|]. right. exists x. left. Qed.

Context (P : A → Prop) `{!∀ x, Decision (P x)}.

Lemma filter_none (l : list A) : (∀ x, x ∈ l → ¬ P x) → filter P l = [].
Proof.
  induction l as [|x l IH]; intros Hno; [done|].
  rewrite filter_cons, decide_False by (apply Hno; left). apply IH. intros y Hy. apply Hno. by right.
Qed.

Lemma filter_all (l : list A) : (∀ x, x ∈ l → P x) → filter P l = l.
Proof.
  induction l as [|x l IH]; intros Hall; [done|].
  rewrite filter_cons, decide_True by (apply Hall; left). f_equal. apply IH. intros y Hy.
  apply Hall. by right.
Qed.

Lemma Forall_filter (Q : A → Prop) (l : list A) : Forall Q l → Forall Q (filter P l).
Proof.
  rewrite !Forall_forall. intros Hall x [_ Hx]%list_elem_of_filter. by apply Hall.
Qed.
End filters.

Lemma filter_ne_Permutation {A} `{EqDecision A} (x : A) (l : list A) :
  NoDup l → x ∈ l → filter (λ y, y ≠ x) l ++ [x] ≡ₚ l.
Proof.
  intros Hnd Hx. transitivity (filter (λ y, y ≠ x) l ++ filter (λ y, ¬ y ≠ x) l);
    [|apply (filter_app_complement (λ y, y ≠ x))]. apply reflexive_eq. f_equal. symmetry.
  induction Hnd as [|y l Hy Hnd IH]; [by apply elem_of_nil in Hx|].
  rewrite filter_cons. apply elem_of_cons in Hx as [->|Hx].
  - rewrite decide_True by naive_solver. rewrite filter_none; [done|]. intros z Hz Hn. apply Hn.
    by intros ->.
  - rewrite decide_False; [by apply IH|]. intros Hn. apply Hn. by intros ->.
Qed.

(** What an updated list holds. *)
Lemma lookup_insert_cases {A} (l : list A) k j (x y : A) :
  <[k := x]> l !! j = Some y → (j = k ∧ y = x) ∨ (j ≠ k ∧ l !! j = Some y).
Proof.
  rewrite list_lookup_insert. case_decide as Hd; [destruct Hd as [-> _]; intros [= <-]; by left|].
  intros Hj. right. split; [|done]. intros ->. apply Hd. split; [done|]. by eapply lookup_lt_Some.
Qed.

Lemma lookup_insert_same {A} (l : list A) k (x y : A) : l !! k = Some x → <[k := y]> l !! k = Some y.
Proof. intros Hk. apply list_lookup_insert_eq. by eapply lookup_lt_Some. Qed.

(** ** [for _, x := range l], with a body that may panic *)

Fixpoint go_for {A S} (f : A → S → outcome S) (l : list A) (s : S) : outcome S :=
  match l with [] => Ret s | x :: l => s ← f x s; go_for f l s end.

(** The loop ends when every turn does and keeps the invariant, indexed by what is done. *)
Lemma go_for_ind {A S} (f : A → S → outcome S) (P : list A → S → Prop) l done s :
  P done s →
  (∀ x done s, x ∈ l → P done s → ∃ s', f x s = Ret s' ∧ P (done ++ [x]) s') →
  ∃ s', go_for f l s = Ret s' ∧ P (done ++ l) s'.
Proof.
  revert done s. induction l as [|x l IH]; intros dn s Hs Hstep; cbn.
  { exists s. by rewrite app_nil_r. }
  destruct (Hstep x dn s) as (s1 & -> & H1); [left|done|]. rewrite bind_ret_l.
  destruct (IH (dn ++ [x]) s1 H1) as (s' & E & H2).
  { intros y dn' s'' Hy. apply Hstep. by right. }
  exists s'. split; [done|]. by rewrite <- app_assoc in H2.
Qed.

Lemma go_for_rel {A S} (R : S → S → Prop) `{!PreOrder R} (f : A → S → outcome S) l s s' :
  (∀ x s s', f x s = Ret s' → R s s') → go_for f l s = Ret s' → R s s'.
Proof.
  intros Hf. revert s. induction l as [|x l IH]; intros s E; cbn in E; [by simplify_eq|].
  apply bind_ret_inv in E as (s1 & E1 & E). transitivity s1; [by eapply Hf|by apply IH].
Qed.

Lemma go_for_app {A S} (f : A → S → outcome S) l1 l2 s :
  go_for f (l1 ++ l2) s = s' ← go_for f l1 s; go_for f l2 s'.
Proof. revert s. induction l1 as [|x l1 IH]; intros s; cbn; [done|]. destruct (f x s); cbn; [apply IH|done..]. Qed.

Lemma go_for_ext {A S} (f g : A → S → outcome S) l s :
  (∀ x s, x ∈ l → f x s = g x s) → go_for f l s = go_for g l s.
Proof.
  revert s. induction l as [|x l IH]; intros s Hfg; cbn; [done|]. rewrite Hfg by left.
  destruct (g x s); cbn; [|done..]. apply IH. intros y s' Hy. apply Hfg. by right.
Qed.

(** ** Sums *)

Definition zsum (l : list Z) : Z := foldr Z.add 0 l.

Lemma zsum_cons x l : zsum (x :: l) = x + zsum l.
Proof. done. Qed.

Lemma zsum_app l1 l2 : zsum (l1 ++ l2) = zsum l1 + zsum l2.
Proof. induction l1 as [|x l1 IH]; cbn; [done|]. unfold zsum in *. lia. Qed.

Lemma zsum_insert l i x y : l !! i = Some x → zsum (<[i := y]> l) = zsum l - x + y.
Proof.
  revert i. induction l as [|z l IH]; intros [|i] Hi; [done..| |].
  - injection Hi as ->. change (<[0%nat:=y]> (x :: l)) with (y :: l). rewrite !zsum_cons. lia.
  - change (<[S i:=y]> (z :: l)) with (z :: <[i:=y]> l). rewrite !zsum_cons, (IH i Hi). lia.
Qed.

Lemma zsum_le {A} (f g : A → Z) l : (∀ x, x ∈ l → f x ≤ g x) → zsum (f <$> l) ≤ zsum (g <$> l).
Proof.
  unfold zsum. induction l as [|x l IH]; intros Hle; cbn; [done|].
  apply Z.add_le_mono; [apply Hle; left|]. apply IH. intros y Hy. apply Hle. by right.
Qed.
