(* ===== verification/GoLib.v ===== *)
(** * The parts of Go's standard library that the program computes with

    Grouping into a [map[K][]V], [sort.Strings], the functions of [strings] the program
    calls, decimal printing, and FNV-1a.  Each is the documented behaviour of the library
    function on the inputs it is given here; nothing below is specific to one component. *)
From Stdlib Require Import Sorting.Sorted.
From stdpp Require Import base tactics numbers list fin_maps gmap strings sorting pretty.
From S2P Require Import Prelude.

(** ** [m[k] = append(m[k], v)] *)

Section grouping.
Context {K V : Type} `{Countable K}.
Implicit Types (m : gmap K (list V)) (l : list V).

Definition map_push m (k : K) (v : V) : gmap K (list V) :=
  <[k := default [] (m !! k) ++ [v]]> m.

Definition group_by (f : V → K) l : gmap K (list V) :=
  foldl (λ m v, map_push m (f v) v) ∅ l.

(** The list a missing key stands for: indexing a Go map yields the nil slice. *)
Definition group_at m (k : K) : list V := default [] (m !! k).

Lemma group_at_push m k k' v :
  group_at (map_push m k v) k' = if decide (k = k') then group_at m k' ++ [v] else group_at m k'.
Proof. unfold group_at, map_push. rewrite lookup_insert. by case_decide; subst. Qed.

Lemma group_at_foldl f m l k :
  group_at (foldl (λ m v, map_push m (f v) v) m l) k =
    group_at m k ++ filter (λ v, f v = k) l.
Proof.
  revert m. induction l as [|v l IH]; intros m; simpl.
  - by rewrite filter_nil, app_nil_r.
  - rewrite IH, group_at_push, filter_cons.
    case_decide; [by rewrite <- app_assoc|done].
Qed.

Lemma group_at_group_by f l k : group_at (group_by f l) k = filter (λ v, f v = k) l.
Proof. unfold group_by. rewrite group_at_foldl. done. Qed.

Lemma map_push_lookup_Some m k v k' l :
  map_push m k v !! k' = Some l → l ≠ [] ∨ m !! k' = Some l.
Proof.
  unfold map_push. rewrite lookup_insert. case_decide; [|eauto].
  intros [= <-]. left. by destruct (default _ _).
Qed.

Lemma group_by_nonempty f l k l' : group_by f l !! k = Some l' → l' ≠ [].
Proof.
  unfold group_by. enough (∀ m, (∀ k l', m !! k = Some l' → l' ≠ []) →
    foldl (λ m v, map_push m (f v) v) m l !! k = Some l' → l' ≠ []) as Hgen.
  { apply Hgen. intros ??. by rewrite lookup_empty. }
  induction l as [|v l IH]; intros m Hm; simpl; [apply Hm|].
  apply IH. intros k' l'' [|]%map_push_lookup_Some; eauto.
Qed.

Lemma group_by_lookup f l k :
  group_by f l !! k =
    match filter (λ v, f v = k) l with [] => None | l' => Some l' end.
Proof.
  pose proof (group_at_group_by f l k) as Hk. unfold group_at in Hk.
  destruct (group_by f l !! k) as [l'|] eqn:E; simpl in Hk.
  - pose proof (group_by_nonempty f l k l' E). rewrite <- Hk. by destruct l'.
  - by rewrite <- Hk.
Qed.

Lemma group_by_dom f l k : is_Some (group_by f l !! k) ↔ k ∈ f <$> l.
Proof.
  rewrite group_by_lookup, list_elem_of_fmap. split.
  - destruct (filter _ _) as [|v l'] eqn:E; [by intros [? ?]|]. intros _. exists v.
    assert (v ∈ filter (λ v, f v = k) l) as [<- ?]%list_elem_of_filter; [|done].
    rewrite E. left.
  - intros (v & -> & Hv).
    assert (v ∈ filter (λ v', f v' = f v) l) as Hin by (by apply list_elem_of_filter).
    destruct (filter _ _); [by apply elem_of_nil in Hin|eauto].
Qed.

(** Concatenating the groups of any enumeration of the keys gives back the list. *)
Lemma group_by_Permutation f l ks :
  NoDup ks → (∀ v, v ∈ l → f v ∈ ks) →
  concat ((λ k, group_at (group_by f l) k) <$> ks) ≡ₚ l.
Proof.
  intros Hnd Hin. transitivity (concat ((λ k, filter (λ v, f v = k) l) <$> ks)).
  { apply reflexive_eq. f_equal. apply list_fmap_ext. intros ?? _. apply group_at_group_by. }
  revert l Hin. induction ks as [|k ks IH]; intros l Hin; simpl.
  { destruct l as [|v l]; [done|]. destruct (elem_of_nil (f v)).
    exfalso. eapply not_elem_of_nil, Hin. left. }
  apply NoDup_cons in Hnd as [Hk Hnd].
  transitivity (filter (λ v, f v = k) l ++ filter (λ v, ¬ f v = k) l);
    [|apply (filter_app_complement (λ v, f v = k))].
  apply Permutation_app_head. rewrite <- (IH Hnd (filter (λ v, ¬ f v = k) l)).
  - apply reflexive_eq. f_equal. apply list_fmap_ext. intros i k' Hk'.
    rewrite list_filter_filter. apply list_filter_iff. intros v.
    apply list_elem_of_lookup_2 in Hk'. naive_solver.
  - intros v [Hne Hv]%list_elem_of_filter. apply Hin in Hv.
    apply elem_of_cons in Hv as [|]; done.
Qed.
End grouping.

(** ** [sort.Strings] *)

Definition sort_Strings (l : list string) : list string := merge_sort String.le l.

Lemma sort_Strings_Permutation l : sort_Strings l ≡ₚ l.
Proof. apply merge_sort_Permutation. Qed.

Lemma sort_Strings_Sorted l : Sorted String.le (sort_Strings l).
Proof. apply Sorted_merge_sort, _. Qed.

(** ** [slices.Sort] on integers *)

Definition slices_Sort (l : list Z) : list Z := merge_sort Z.le l.

Lemma slices_Sort_Permutation l : slices_Sort l ≡ₚ l.
Proof. apply merge_sort_Permutation. Qed.

Lemma slices_Sort_Sorted l : Sorted Z.le (slices_Sort l).
Proof. apply Sorted_merge_sort, _. Qed.

(** ** Counting in a [map[K]int] *)

Section counting.
Context {K : Type} `{Countable K}.

Definition count_occ (k : K) (l : list K) : nat := length (filter (λ x, x = k) l).

#[local] Arguments count_occ : simpl never.

(** [for _, k := range l { counts[k] += 1 }] *)
Definition go_counts (l : list K) : gmap K Z :=
  foldl (λ (m : gmap K Z) k, <[k := default 0 (m !! k) + 1]> m) ∅ l.

Lemma go_counts_spec l k : default 0 (go_counts l !! k) = Z.of_nat (count_occ k l).
Proof.
  unfold go_counts, count_occ. enough (∀ m : gmap K Z,
    default 0 (foldl (λ (m : gmap K Z) k, <[k := default 0 (m !! k) + 1]> m) m l !! k) =
    default 0 (m !! k) + Z.of_nat (length (filter (λ x, x = k) l))) as Hgen.
  { rewrite Hgen, lookup_empty. simpl. lia. }
  induction l as [|x l IH]; intros m; simpl; [lia|].
  rewrite IH, filter_cons, lookup_insert. case_decide as Hx; [|lia].
  subst. simpl. lia.
Qed.

Lemma count_occ_cons k x l : count_occ k (x :: l) = ((if decide (x = k) then 1 else 0) + count_occ k l)%nat.
Proof. unfold count_occ. rewrite filter_cons. by case_decide. Qed.

Lemma count_occ_app k l1 l2 : count_occ k (l1 ++ l2) = (count_occ k l1 + count_occ k l2)%nat.
Proof. unfold count_occ. by rewrite filter_app, length_app. Qed.

Lemma count_occ_single k x : count_occ k [x] = if decide (x = k) then 1%nat else 0%nat.
Proof. rewrite count_occ_cons. unfold count_occ. cbn. case_decide; done. Qed.

#[global] Instance count_occ_Permutation k : Proper ((≡ₚ) ==> eq) (count_occ k).
Proof. intros l1 l2 Hl. unfold count_occ. by rewrite Hl. Qed.

Lemma count_occ_le k l : (count_occ k l ≤ length l)%nat.
Proof. apply length_filter. Qed.

Lemma count_occ_elem k l : k ∈ l ↔ (0 < count_occ k l)%nat.
Proof.
  unfold count_occ. split.
  - intros Hk. assert (k ∈ filter (λ x, x = k) l) as Hf by (by apply list_elem_of_filter).
    destruct (filter _ _); [by apply elem_of_nil in Hf|simpl; lia].
  - intros Hl. destruct (filter _ l) as [|x l'] eqn:E; [simpl in Hl; lia|].
    assert (x ∈ filter (λ x, x = k) l) as [-> ?]%list_elem_of_filter; [rewrite E; left|done].
Qed.

(** Overwriting one occurrence of [a] by [b] moves one unit of count. *)
Lemma count_occ_insert k l i a b :
  l !! i = Some a →
  (count_occ k (<[i := b]> l) + (if decide (a = k) then 1 else 0) =
   count_occ k l + (if decide (b = k) then 1 else 0))%nat.
Proof.
  revert i. induction l as [|x l IH]; intros [|i] Hi; simpl in *; simplify_eq.
  - rewrite !count_occ_cons. lia.
  - rewrite !count_occ_cons. specialize (IH i Hi). lia.
Qed.
End counting.
#[global] Arguments count_occ : simpl never.

(** ** [hash/fnv]: 32-bit FNV-1a *)

Definition byte_of (a : Ascii.ascii) : Z := Z.of_N (Ascii.N_of_ascii a).

Fixpoint bytes_of (s : string) : list Z :=
  match s with EmptyString => [] | String a s => byte_of a :: bytes_of s end.

Definition fnv32a (s : string) : Z :=
  foldl (λ h b, u32 (Z.lxor h b * 16777619)) 2166136261 (bytes_of s).

Lemma fnv32a_range s : 0 ≤ fnv32a s < 2 ^ 32.
Proof.
  unfold fnv32a. generalize (bytes_of s). intros l.
  enough (∀ h, 0 ≤ h < 2 ^ 32 →
    0 ≤ foldl (λ h b, u32 (Z.lxor h b * 16777619)) h l < 2 ^ 32) as Hgen
    by (apply Hgen; lia).
  induction l as [|b l IH]; intros h Hh; simpl; [done|]. apply IH, u32_range.
Qed.

(** ** Calls that may fail *)

(** What becomes of one [Clnt.Call], as labrpc documents it: [Call] returns true exactly
    when the handler ran and its reply came back. *)
Inductive call_fate := RequestLost | ReplyLost | Delivered.

#[export] Instance call_fate_eq_dec : EqDecision call_fate.
Proof. solve_decision. Defined.
