(* ===== verification/GoStrings.v ===== *)
(** * Strings and paths of Go's standard library

    The functions of [strings] and [path/filepath] the program calls, on the inputs it gives
    them, with the lemmas on splitting and joining that the components share. *)
From Stdlib Require Import Ascii.
From stdpp Require Import base tactics numbers list strings.
From S2P Require Import Prelude.

Definition newline : ascii := "010".
Definition space : ascii := " ".
Definition slash : ascii := "/".

(** [strings.Split(s, sep)] for a separator of one byte; never empty. *)
Fixpoint strings_Split (s : string) (sep : ascii) : list string :=
  match s with
  | EmptyString => [EmptyString]
  | String a s =>
      if decide (a = sep) then EmptyString :: strings_Split s sep
      else match strings_Split s sep with
           | [] => [String a EmptyString]
           | w :: ws => String a w :: ws
           end
  end.

(** [strings.TrimSuffix(s, c)] for a suffix of one byte. *)
Fixpoint strings_TrimSuffix (s : string) (c : ascii) : string :=
  match s with
  | EmptyString => EmptyString
  | String a EmptyString => if decide (a = c) then EmptyString else s
  | String a s => String a (strings_TrimSuffix s c)
  end.

(** [filepath.Join(dir, name)] of a clean directory and a file name (a clean relative path);
    the empty name adds nothing. *)
Definition path_Join (dir name : string) : string :=
  if decide (name = "") then dir else dir +:+ "/" +:+ name.

(** [filepath.Base] of a clean path that names a file. *)
Definition path_Base (p : string) : string := List.last (strings_Split p slash) "".

Fixpoint join_with (sep : string) (ws : list string) : string :=
  match ws with
  | [] => ""
  | [w] => w
  | w :: ws => w +:+ sep +:+ join_with sep ws
  end.

(** [filepath.Dir] of a clean path: all but the last element. *)
Definition path_Dir (p : string) : string := join_with "/" (removelast (strings_Split p slash)).

Definition concat_str (l : list string) : string := foldr String.append "" l.

Fixpoint contains (c : ascii) (s : string) : bool :=
  match s with
  | EmptyString => false
  | String a s => bool_decide (a = c) || contains c s
  end.

Lemma append_nil_r s : (s +:+ "") = s.
Proof. induction s; cbn; [done|]. unfold String.append in *. by f_equal. Qed.

Lemma append_assoc s t u : ((s +:+ t) +:+ u) = (s +:+ (t +:+ u)).
Proof. induction s as [|a s IH]; cbn; [done|]. unfold String.append in *. by f_equal. Qed.

Lemma append_cons a s t : ((String a s) +:+ t) = String a (s +:+ t).
Proof. done. Qed.

Lemma contains_append c s t : contains c (s +:+ t) = contains c s || contains c t.
Proof.
  induction s as [|a s IH]; [done|]. rewrite append_cons. cbn. by rewrite IH, orb_assoc.
Qed.

Lemma strings_Split_cons a s sep :
  strings_Split (String a s) sep =
    if decide (a = sep) then "" :: strings_Split s sep
    else match strings_Split s sep with [] => [String a ""] | w :: ws => String a w :: ws end.
Proof. done. Qed.

Lemma strings_TrimSuffix_one c : strings_TrimSuffix (String c "") c = "".
Proof. change (strings_TrimSuffix (String c "") c) with (if decide (c = c) then "" else String c ""). by rewrite decide_True. Qed.

Lemma strings_Split_none s sep : contains sep s = false → strings_Split s sep = [s].
Proof.
  induction s as [|a s IH]; [done|]. rewrite strings_Split_cons. cbn [contains].
  rewrite orb_false_iff. intros [Ha Hs].
  apply bool_decide_eq_false in Ha. by rewrite decide_False, IH.
Qed.

Lemma strings_Split_cut s t sep :
  contains sep s = false → strings_Split (s +:+ String sep t) sep = s :: strings_Split t sep.
Proof.
  induction s as [|a s IH].
  { intros _. change ("" +:+ String sep t) with (String sep t). rewrite strings_Split_cons. by rewrite decide_True. }
  rewrite append_cons, strings_Split_cons. cbn [contains]. rewrite orb_false_iff. intros [Ha Hs].
  apply bool_decide_eq_false in Ha. by rewrite decide_False, IH.
Qed.

Lemma strings_TrimSuffix_cons a s c :
  s ≠ "" → strings_TrimSuffix (String a s) c = String a (strings_TrimSuffix s c).
Proof. by destruct s. Qed.

Lemma strings_TrimSuffix_end s c : strings_TrimSuffix (s +:+ String c "") c = s.
Proof.
  induction s as [|a s IH]; [apply strings_TrimSuffix_one|].
  rewrite append_cons, strings_TrimSuffix_cons, IH; [done|by destruct s].
Qed.

(** ** Paths put together *)

Lemma strings_Split_app s t sep :
  strings_Split (s +:+ String sep t) sep = strings_Split s sep ++ strings_Split t sep.
Proof.
  induction s as [|a s IH].
  { change ("" +:+ String sep t) with (String sep t). rewrite strings_Split_cons. by rewrite decide_True. }
  rewrite append_cons, !strings_Split_cons. case_decide; [by rewrite IH|]. rewrite IH.
  destruct (strings_Split s sep) as [|w ws] eqn:E; [|done]. exfalso. revert E. clear.
  destruct s; [done|]. rewrite strings_Split_cons. case_decide; [done|]. by case_match.
Qed.

Lemma strings_Split_nonempty s sep : strings_Split s sep ≠ [].
Proof. destruct s; [done|]. rewrite strings_Split_cons. case_decide; [done|]. by case_match. Qed.

Lemma join_Split s : join_with "/" (strings_Split s slash) = s.
Proof.
  induction s as [|a s IH]; [done|]. rewrite strings_Split_cons.
  pose proof (strings_Split_nonempty s slash) as Hne.
  case_decide as Ha; destruct (strings_Split s slash) as [|w ws]; try done.
  - subst a. change (("" +:+ "/" +:+ join_with "/" (w :: ws)) = String slash s). by rewrite IH.
  - destruct ws; [cbn in *; by rewrite <- IH|].
    change (String a (join_with "/" (w :: s0 :: ws)) = String a s). by rewrite IH.
Qed.

Lemma path_Join_name dir n : n ≠ "" → path_Join dir n = dir +:+ String slash n.
Proof. intros Hn. unfold path_Join. by rewrite decide_False. Qed.

(** A name is a string without slash, and not empty. *)
Definition is_name (n : string) : Prop := n ≠ "" ∧ contains slash n = false.

Lemma path_Split_Join dir n : is_name n → strings_Split (path_Join dir n) slash = strings_Split dir slash ++ [n].
Proof. intros [Hn Hs]. rewrite path_Join_name by done. by rewrite strings_Split_app, (strings_Split_none n). Qed.

Lemma path_Dir_Join dir n : is_name n → path_Dir (path_Join dir n) = dir.
Proof. intros Hn. unfold path_Dir. rewrite path_Split_Join, removelast_last by done. apply join_Split. Qed.

Lemma path_Base_Join dir n : is_name n → path_Base (path_Join dir n) = n.
Proof. intros Hn. unfold path_Base. rewrite path_Split_Join by done. apply last_last. Qed.

Lemma path_Join_inj dir dir' n n' :
  is_name n → is_name n' → path_Join dir n = path_Join dir' n' → dir = dir' ∧ n = n'.
Proof.
  intros Hn Hn' E. split.
  - rewrite <- (path_Dir_Join dir n), <- (path_Dir_Join dir' n') by done. by rewrite E.
  - rewrite <- (path_Base_Join dir n), <- (path_Base_Join dir' n') by done. by rewrite E.
Qed.

Lemma contains_prefix_name p n : contains slash p = false → contains slash n = false → p ≠ "" → is_name (p +:+ n).
Proof. intros Hp Hn Hne. split; [by destruct p|]. by rewrite contains_append, Hp, Hn. Qed.
