(* ===== verification/GoUtf8.v ===== *)
(** * Runes of UTF-8 strings

    [utf8.DecodeRune] of Go's standard library, on the bytes of a string. *)
From Stdlib Require Import Ascii.
From stdpp Require Import base tactics numbers list strings.
From S2P Require Import Prelude GoLib.

Definition in_range (lo hi : Z) (a : ascii) : bool := bool_decide (lo ≤ byte_of a ≤ hi).

Definition cont_byte : ascii → bool := in_range 0x80 0xBF.

Definition RuneError : Z := 0xFFFD.

Definition low6 (a : ascii) : Z := Z.land (byte_of a) 0x3F.

(** The rune at the head of a string and its width: [utf8.DecodeRune]. *)
Definition decode_rune (s : list ascii) : Z * nat :=
  match s with
  | [] => (RuneError, 0%nat)
  | a :: s =>
      let b := byte_of a in
      if decide (b < 0x80) then (b, 1%nat)
      else
        match s with
        | b1 :: s =>
            if in_range 0xC2 0xDF a && cont_byte b1 then
              (Z.lor (Z.shiftl (Z.land b 0x1F) 6) (low6 b1), 2%nat)
            else
              match s with
              | b2 :: s =>
                  let ok3 := if decide (b = 0xE0) then in_range 0xA0 0xBF b1
                             else if decide (b = 0xED) then in_range 0x80 0x9F b1 else cont_byte b1 in
                  if in_range 0xE0 0xEF a && ok3 && cont_byte b2 then
                    (Z.lor (Z.shiftl (Z.land b 0x0F) 12) (Z.lor (Z.shiftl (low6 b1) 6) (low6 b2)), 3%nat)
                  else
                    match s with
                    | b3 :: _ =>
                        let ok4 := if decide (b = 0xF0) then in_range 0x90 0xBF b1
                                   else if decide (b = 0xF4) then in_range 0x80 0x8F b1 else cont_byte b1 in
                        if in_range 0xF0 0xF4 a && ok4 && cont_byte b2 && cont_byte b3 then
                          (Z.lor (Z.shiftl (Z.land b 0x07) 18)
                             (Z.lor (Z.shiftl (low6 b1) 12) (Z.lor (Z.shiftl (low6 b2) 6) (low6 b3))),
                           4%nat)
                        else (RuneError, 1%nat)
                    | [] => (RuneError, 1%nat)
                    end
              | [] => (RuneError, 1%nat)
              end
        | [] => (RuneError, 1%nat)
        end
  end.
