(* ===== verification/GoStrconv.v ===== *)
(** * Numbers as text

    [strconv.Itoa] and [strconv.Atoi]: decimal printing and reading of integers; and
    [base64.URLEncoding.EncodeToString]. *)
From Stdlib Require Import Ascii.
From stdpp Require Import base tactics numbers list strings pretty.
From S2P Require Import Prelude GoStrings.

(** ** Decimal digits *)

Definition digit_of (a : ascii) : option Z :=
  let n := Z.of_N (N_of_ascii a) in
  if decide (48 ≤ n ≤ 57) then Some (n - 48) else None.

(** The digits a string starts with, as a number behind [acc], and what follows them. *)
Fixpoint scan_digits (acc : Z) (s : string) : Z * string :=
  match s with
  | EmptyString => (acc, "")
  | String a s' => match digit_of a with Some d => scan_digits (acc * 10 + d) s' | None => (acc, s) end
  end.

Definition starts_with_digit (s : string) : bool :=
  match s with EmptyString => false | String a _ => bool_decide (is_Some (digit_of a)) end.

(** [strconv.Itoa] and [strconv.Atoi]; [None] is the error. *)
Definition strconv_Itoa (z : Z) : string := pretty z.

Definition atoi_digits (neg : bool) (s : string) : option Z :=
  if starts_with_digit s then
    let '(n, rest) := scan_digits 0 s in
    let z := if neg then - n else n in
    if decide (rest = "" ∧ - 2 ^ 63 ≤ z < 2 ^ 63) then Some z else None
  else None.

Definition strconv_Atoi (s : string) : option Z :=
  match s with
  | String "-" s' => atoi_digits true s'
  | String "+" s' => atoi_digits false s'
  | _ => atoi_digits false s
  end.

Lemma digit_of_char (n : N) : (n < 10)%N → digit_of (pretty_N_char n) = Some (Z.of_N n).
Proof.
  intros Hn. assert (n = 0 ∨ n = 1 ∨ n = 2 ∨ n = 3 ∨ n = 4 ∨ n = 5 ∨ n = 6 ∨ n = 7 ∨ n = 8 ∨ n = 9)%N
    as H by lia. by repeat destruct H as [->|H]; [..|subst].
Qed.

Lemma scan_pretty_go (n : N) s : scan_digits 0 (pretty_N_go n s) = scan_digits (Z.of_N n) s.
Proof.
  revert s. induction (N.lt_wf_0 n) as [n _ IH]. intros s.
  assert (n = 0 ∨ 0 < n)%N as [->|Hn] by lia; [by rewrite pretty_N_go_0|].
  rewrite pretty_N_go_step by done. rewrite IH by (by apply N.div_lt).
  cbn [scan_digits]. rewrite digit_of_char by (by apply N.mod_lt).
  f_equal. rewrite (N.div_mod n 10) at 3 by done. lia.
Qed.

Lemma pretty_go_append (n : N) s t : pretty_N_go n (s +:+ t) = pretty_N_go n s +:+ t.
Proof.
  revert s. induction (N.lt_wf_0 n) as [n _ IH]. intros s.
  assert (n = 0 ∨ 0 < n)%N as [->|Hn] by lia; [by rewrite !pretty_N_go_0|].
  rewrite (pretty_N_go_step n), (pretty_N_go_step n s) by done.
  by rewrite <- (IH (n `div` 10)%N) by (by apply N.div_lt).
Qed.

Lemma scan_digits_stop n s : starts_with_digit s = false → scan_digits n s = (n, s).
Proof.
  destruct s as [|a s]; [done|]. cbn. intros Ha%bool_decide_eq_false.
  destruct (digit_of a); [|done]. destruct Ha. eauto.
Qed.

Lemma scan_pretty (n : N) s :
  starts_with_digit s = false → scan_digits 0 (pretty n +:+ s) = (Z.of_N n, s).
Proof.
  intros Hs. unfold pretty, pretty_N. case_decide as Hn.
  - subst n. exact (scan_digits_stop 0 s Hs).
  - rewrite <- pretty_go_append. rewrite scan_pretty_go. by rewrite scan_digits_stop.
Qed.

Lemma pretty_go_digit (n : N) s :
  starts_with_digit s = true → starts_with_digit (pretty_N_go n s) = true.
Proof.
  revert s. induction (N.lt_wf_0 n) as [n _ IH]. intros s Hs.
  assert (n = 0 ∨ 0 < n)%N as [->|Hn] by lia; [by rewrite pretty_N_go_0|].
  rewrite pretty_N_go_step by done. apply IH; [by apply N.div_lt|].
  cbn. rewrite digit_of_char by (by apply N.mod_lt). by apply bool_decide_eq_true.
Qed.

Lemma pretty_digit (n : N) s : starts_with_digit (pretty n +:+ s) = true.
Proof.
  unfold pretty, pretty_N. case_decide as Hn; [done|]. rewrite <- pretty_go_append.
  change (pretty_N_go n ("" +:+ s)) with (pretty_N_go n s).
  rewrite pretty_N_go_step by lia. apply pretty_go_digit. cbn.
  rewrite digit_of_char by (by apply N.mod_lt). by apply bool_decide_eq_true.
Qed.

Lemma pretty_Z_cases (z : Z) :
  pretty z = if decide (z < 0) then "-" +:+ pretty (Z.to_N (- z)) else pretty (Z.to_N z).
Proof. by destruct z. Qed.

(** A printed number does not start with a sign a reader would take off. *)
Lemma digit_not_sign a s :
  starts_with_digit (String a s) = true → a ≠ "-"%char ∧ a ≠ "+"%char.
Proof. cbn. intros [d Hd]%bool_decide_eq_true. split; intros ->; discriminate. Qed.

Lemma Atoi_unsigned s : starts_with_digit s = true → strconv_Atoi s = atoi_digits false s.
Proof.
  destruct s as [|a s]; [done|]. intros [Hm Hp]%digit_not_sign.
  destruct a as [[] [] [] [] [] [] [] []]; done.
Qed.

Lemma Atoi_Itoa z : - 2 ^ 63 ≤ z < 2 ^ 63 → strconv_Atoi (strconv_Itoa z) = Some z.
Proof.
  intros Hz. unfold strconv_Itoa. rewrite pretty_Z_cases.
  pose proof (λ n, scan_pretty n "" eq_refl) as Hs. pose proof (λ n, pretty_digit n "") as Hd.
  setoid_rewrite append_nil_r in Hs. setoid_rewrite append_nil_r in Hd.
  case_decide.
  - change (strconv_Atoi ("-" +:+ pretty (Z.to_N (- z)))) with (atoi_digits true (pretty (Z.to_N (- z)))).
    unfold atoi_digits. rewrite Hd, Hs, Z2N.id by lia.
    rewrite decide_True by (split; [done|lia]). f_equal. lia.
  - rewrite Atoi_unsigned by done. unfold atoi_digits. rewrite Hd, Hs, Z2N.id by lia.
    by rewrite decide_True.
Qed.

(** ** Names that end in a number *)

Lemma pretty_go_contains c (n : N) s :
  digit_of c = None → contains c (pretty_N_go n s) = contains c s.
Proof.
  intros Hc. revert s. induction (N.lt_wf_0 n) as [n _ IH]. intros s.
  assert (n = 0 ∨ 0 < n)%N as [->|Hn] by lia; [by rewrite pretty_N_go_0|].
  rewrite pretty_N_go_step by done. rewrite IH by (by apply N.div_lt). cbn [contains].
  case_bool_decide as E; [|done]. subst c. by rewrite digit_of_char in Hc by (by apply N.mod_lt).
Qed.

Lemma pretty_N_contains c (n : N) : digit_of c = None → contains c (pretty n) = false.
Proof.
  intros Hc. unfold pretty, pretty_N. case_decide; [|by apply pretty_go_contains].
  cbn. rewrite orb_false_r. case_bool_decide as E; [|done]. by subst c.
Qed.

Lemma pretty_Z_slash (z : Z) : contains slash (pretty z) = false.
Proof.
  rewrite pretty_Z_cases. case_decide; [rewrite contains_append|]; by rewrite pretty_N_contains.
Qed.

Lemma pretty_nat_slash (i : nat) : contains slash (pretty i) = false.
Proof. by apply (pretty_N_contains slash (N.of_nat i)). Qed.

Lemma pretty_nat_digit (i : nat) : starts_with_digit (pretty i) = true.
Proof. pose proof (pretty_digit (N.of_nat i) "") as H. by rewrite append_nil_r in H. Qed.

(** A number up to nine is one digit. *)
Lemma pretty_one_digit (z : Z) : 0 ≤ z ≤ 9 → ∃ a, pretty z = String a "" ∧ digit_of a = Some z.
Proof.
  intros Hz. assert (z = 0 ∨ z = 1 ∨ z = 2 ∨ z = 3 ∨ z = 4 ∨ z = 5 ∨ z = 6 ∨ z = 7 ∨ z = 8 ∨ z = 9) as H by lia.
  repeat destruct H as [->|H]; [by eexists..|subst z; by eexists].
Qed.

(** ** Base64 *)

Definition base64_alphabet : string :=
  "ABCDEFGHIJKLMNOPQRSTUVWXYZabcdefghijklmnopqrstuvwxyz0123456789-_".
Definition base64_char (v : Z) : ascii :=
  default "="%char (String.get (Z.to_nat (Z.land v 63)) base64_alphabet).

(** [base64.URLEncoding.EncodeToString]: three bytes give four characters, and the end is
    padded. *)
Fixpoint EncodeToString (b : list Z) : string :=
  match b with
  | x :: y :: z :: b =>
      String (base64_char (Z.shiftr x 2))
        (String (base64_char (Z.lor (Z.shiftl x 4) (Z.shiftr y 4)))
          (String (base64_char (Z.lor (Z.shiftl y 2) (Z.shiftr z 6)))
            (String (base64_char z) (EncodeToString b))))
  | [x; y] =>
      String (base64_char (Z.shiftr x 2))
        (String (base64_char (Z.lor (Z.shiftl x 4) (Z.shiftr y 4)))
          (String (base64_char (Z.shiftl y 2)) "="))
  | [x] =>
      String (base64_char (Z.shiftr x 2)) (String (base64_char (Z.shiftl x 4)) "==")
  | [] => ""
  end.

Lemma EncodeToString_length b : (4 * length b ≤ 3 * String.length (EncodeToString b))%nat.
Proof.
  revert b. fix IH 1. intros [|x [|y [|z b]]]; cbn; [lia..|]. specialize (IH b). lia.
Qed.

Lemma substring_length n s : (n ≤ String.length s)%nat → String.length (String.substring 0 n s) = n.
Proof. revert s. induction n as [|n IH]; intros [|c s] Hn; cbn in *; [done..|lia|]. f_equal. apply IH. lia. Qed.

(** The first half of what random bytes give is letters, digits, [-] and [_]. *)
Fixpoint base64_text (s : string) : bool :=
  match s with
  | EmptyString => true
  | String a s => existsb (λ b, bool_decide (a = b)) (String.list_ascii_of_string base64_alphabet) && base64_text s
  end.

Lemma base64_char_text v : existsb (λ b, bool_decide (base64_char v = b)) (String.list_ascii_of_string base64_alphabet) = true.
Proof.
  assert (0 ≤ Z.land v 63 < 64) as Hv.
  { change 63 with (Z.ones 6). rewrite Z.land_ones by lia. by apply Z.mod_pos_bound. }
  unfold base64_char. revert Hv. generalize (Z.land v 63). intros z Hz.
  assert (forallb (λ z, existsb (λ b, bool_decide (default "="%char (String.get (Z.to_nat z) base64_alphabet) = b))
     (String.list_ascii_of_string base64_alphabet)) (Z.of_nat <$> seq 0 64) = true) as H by (vm_compute; reflexivity).
  rewrite forallb_forall in H. apply H, list_elem_of_In, list_elem_of_fmap. exists (Z.to_nat z).
  rewrite elem_of_seq. lia.
Qed.

Lemma Encode_text b n : (n ≤ length b)%nat → base64_text (String.substring 0 n (EncodeToString b)) = true.
Proof.
  revert b n. fix IH 1. intros [|x [|y [|z b]]] n Hn; cbn in Hn.
  - by assert (n = 0%nat) as -> by lia.
  - destruct n as [|[|n]]; [done| |lia]. cbn [EncodeToString String.substring base64_text]. by rewrite base64_char_text.
  - destruct n as [|[|[|n]]]; [done| | |lia]; cbn [EncodeToString String.substring base64_text]; by rewrite !base64_char_text.
  - destruct n as [|[|[|[|n]]]]; cbn [EncodeToString String.substring base64_text]; rewrite ?base64_char_text; [done..|].
    apply IH. lia.
Qed.
