(* ===== verification/GoJson.v ===== *)
(** * [encoding/json] on the structs the program stores

    The key/value tests keep structs of two integer fields, and slices of them, as JSON texts
    under a key.  [json.Unmarshal] is only ever given what [json.Marshal] printed for the same
    type, so the readers below take exactly that form: fields in order, no white space. *)
From Stdlib Require Import Ascii.
From stdpp Require Import base tactics numbers list strings pretty.
From S2P Require Import Prelude GoStrings GoStrconv.

(** ** Reading a prefix *)

Fixpoint strip_prefix (w s : string) : option string :=
  match w, s with
  | EmptyString, _ => Some s
  | String a w, String b s => if decide (a = b) then strip_prefix w s else None
  | String _ _, EmptyString => None
  end.

(** A number at the front of the text. *)
Definition scan_int (s : string) : option (Z * string) :=
  let '(neg, s') := match strip_prefix "-" s with Some s' => (true, s') | None => (false, s) end in
  if starts_with_digit s' then
    let '(n, rest) := scan_digits 0 s' in Some (if neg then - n else n : Z, rest)
  else None.

Lemma strip_prefix_append w s : strip_prefix w (w +:+ s) = Some s.
Proof. induction w as [|a w IH]; [done|]. rewrite append_cons. cbn. by rewrite decide_True. Qed.

Lemma scan_int_Itoa z s :
  starts_with_digit s = false → scan_int (strconv_Itoa z +:+ s) = Some (z, s).
Proof.
  intros Hs. unfold scan_int, strconv_Itoa. rewrite pretty_Z_cases. case_decide.
  - rewrite append_assoc, strip_prefix_append, pretty_digit, scan_pretty by done.
    rewrite Z2N.id by lia. by rewrite Z.opp_involutive.
  - pose proof (pretty_digit (Z.to_N z) s) as Hd.
    replace (strip_prefix "-" (pretty (Z.to_N z) +:+ s)) with (@None string).
    + rewrite Hd, scan_pretty by done. by rewrite Z2N.id by lia.
    + destruct (pretty (Z.to_N z) +:+ s) as [|a s']; [done|]. apply digit_not_sign in Hd as [Hm _].
      cbn. by rewrite decide_False by congruence.
Qed.

(** ** A struct of two integers *)

Definition quoted (name : string) : string :=
  let q := String "034" "" in q +:+ name +:+ q +:+ ":".

Definition json_pair (f1 f2 : string) (v : Z * Z) : string :=
  "{" +:+ quoted f1 +:+ strconv_Itoa (v.1) +:+ "," +:+ quoted f2 +:+ strconv_Itoa (v.2) +:+ "}".

Definition read_pair (f1 f2 : string) (s : string) : option (Z * Z * string) :=
  s ← strip_prefix "{" s;
  s ← strip_prefix (quoted f1) s;
  '(a, s) ← scan_int s;
  s ← strip_prefix "," s;
  s ← strip_prefix (quoted f2) s;
  '(b, s) ← scan_int s;
  s ← strip_prefix "}" s;
  Some (a, b, s).

Lemma read_pair_json f1 f2 v s : read_pair f1 f2 (json_pair f1 f2 v +:+ s) = Some (v, s).
Proof.
  unfold read_pair, json_pair. rewrite !append_assoc. do 2 (rewrite strip_prefix_append; cbn [mbind option_bind]).
  rewrite scan_int_Itoa by done. cbn [mbind option_bind].
  do 2 (rewrite strip_prefix_append; cbn [mbind option_bind]).
  rewrite scan_int_Itoa by done. cbn [mbind option_bind]. rewrite strip_prefix_append. by destruct v.
Qed.

(** ** A slice of such structs *)

Definition json_pairs (f1 f2 : string) (l : list (Z * Z)) : string :=
  "[" +:+ join_with "," (json_pair f1 f2 <$> l) +:+ "]".

(** The elements up to the closing bracket; every element takes at least one byte. *)
Fixpoint read_elems (fuel : nat) (f1 f2 : string) (s : string) : option (list (Z * Z) * string) :=
  match fuel with
  | O => None
  | S fuel =>
      '(v, s) ← read_pair f1 f2 s;
      match strip_prefix "," s with
      | Some s => '(l, s) ← read_elems fuel f1 f2 s; Some (v :: l, s)
      | None => s ← strip_prefix "]" s; Some ([v], s)
      end
  end.

Definition read_pairs (f1 f2 : string) (s : string) : option (list (Z * Z)) :=
  s ← strip_prefix "[" s;
  if decide (s = "]") then Some [] else
  '(l, s) ← read_elems (String.length s) f1 f2 s;
  if decide (s = "") then Some l else None.

Lemma read_elems_json f1 f2 v l fuel :
  (length l < fuel)%nat →
  read_elems fuel f1 f2 (join_with "," (json_pair f1 f2 <$> v :: l) +:+ "]") = Some (v :: l, "").
Proof.
  revert v fuel. induction l as [|v' l IH]; intros v [|fuel] Hf; cbn in Hf; try lia.
  - cbn [fmap list_fmap join_with read_elems]. by rewrite read_pair_json.
  - specialize (IH v' fuel ltac:(lia)). cbn [fmap list_fmap join_with read_elems] in *.
    rewrite !append_assoc, read_pair_json. cbn [mbind option_bind].
    rewrite strip_prefix_append. by rewrite IH.
Qed.

Lemma length_append s t : String.length (s +:+ t) = (String.length s + String.length t)%nat.
Proof. induction s as [|a s IH]; [done|]. rewrite append_cons. cbn. by rewrite IH. Qed.

Lemma json_pairs_length f1 f2 l : (length l ≤ String.length (join_with "," (json_pair f1 f2 <$> l)))%nat.
Proof.
  induction l as [|v l IH]; [done|]. destruct l as [|v' l]; cbn [fmap list_fmap join_with length] in *.
  - unfold json_pair. rewrite length_append. cbn. lia.
  - rewrite !length_append. cbn [String.length]. lia.
Qed.

Lemma read_pairs_json f1 f2 l : read_pairs f1 f2 (json_pairs f1 f2 l) = Some l.
Proof.
  unfold read_pairs, json_pairs. rewrite strip_prefix_append. cbn [mbind option_bind].
  destruct l as [|v l]; [done|]. rewrite decide_False.
  - rewrite read_elems_json; [done|]. rewrite length_append.
    pose proof (json_pairs_length f1 f2 (v :: l)). cbn [length String.length] in *. lia.
  - cbn [fmap list_fmap]. destruct l as [|v' l]; cbn [fmap list_fmap join_with]; unfold json_pair at 1;
      rewrite !append_assoc; discriminate.
Qed.
