(* ===== verification/KVServer.v ===== *)
(** * The single-machine key/value server

    [src/src/kvsrv1/rpc/rpc.go] (error strings, RPC arguments and replies) and
    [src/src/kvsrv1/server.go] (the server's map and its handlers).  Every handler runs
    under [kv.mu] from its first to its last line, so a handler is one function on the
    server state; registering the RPC service and the debugging output are not modelled. *)
From stdpp Require Import base tactics numbers list fin_maps gmap strings.
From S2P Require Import Prelude.

(** ** [rpc.go] *)

Abbreviation Err := string (only parsing).

Definition OK : Err := "OK".
Definition ErrNoKey : Err := "ErrNoKey".
Definition ErrVersion : Err := "ErrVersion".
Definition ErrMaybe : Err := "ErrMaybe".
Definition ErrWrongLeader : Err := "ErrWrongLeader".
Definition ErrWrongGroup : Err := "ErrWrongGroup".

(** [type Tversion uint64]: a [Z] in the range of [u64]. *)
Abbreviation Tversion := Z (only parsing).

Record PutArgs := { pa_Key : string; pa_Value : string; pa_Version : Tversion }.
Record PutReply := { pr_Err : Err }.
Record GetArgs := { ga_Key : string }.
Record GetReply := { gr_Value : string; gr_Version : Tversion; gr_Err : Err }.

#[export] Instance eta_PutReply : Eta PutReply := λ r, {| pr_Err := pr_Err r |}.
#[export] Instance eta_GetReply : Eta GetReply := λ r,
  {| gr_Value := gr_Value r; gr_Version := gr_Version r; gr_Err := gr_Err r |}.

(** The zero values [types.PutReply{}] and [types.GetReply{}]. *)
Definition PutReply_zero : PutReply := {| pr_Err := "" |}.
Definition GetReply_zero : GetReply := {| gr_Value := ""; gr_Version := 0; gr_Err := "" |}.

(** ** [server.go] *)

Record KeyValueItem := { kvi_Key : string; kvi_Value : string; kvi_Version : Tversion }.

Record KVServer := { KeyValueItems : gmap string KeyValueItem }.

#[export] Instance eta_KVServer : Eta KVServer := λ kv,
  {| KeyValueItems := KeyValueItems kv |}.

#[export] Instance KeyValueItem_eq_dec : EqDecision KeyValueItem.
Proof. solve_decision. Defined.

Definition MakeKVServer : KVServer := {| KeyValueItems := ∅ |}.

Definition KVServer_Get (kv : KVServer) (args : GetArgs) (reply : GetReply) : GetReply :=
  match KeyValueItems kv !! ga_Key args with
  | None => reply <| gr_Err := ErrNoKey |>
  | Some existing =>
      reply <| gr_Err := OK |>
            <| gr_Version := kvi_Version existing |>
            <| gr_Value := kvi_Value existing |>
  end.

Definition handlePut (kv : KVServer) (kvi : KeyValueItem) : KVServer * Err :=
  match KeyValueItems kv !! kvi_Key kvi with
  | None =>
      if decide (kvi_Version kvi ≠ 0) then (kv, ErrNoKey)
      else (kv <| KeyValueItems :=
                    <[kvi_Key kvi := {| kvi_Key := kvi_Key kvi; kvi_Value := kvi_Value kvi;
                                        kvi_Version := 1 |}]> (KeyValueItems kv) |>, OK)
  | Some existing =>
      if decide (kvi_Version existing ≠ kvi_Version kvi) then (kv, ErrVersion)
      else (kv <| KeyValueItems :=
                    <[kvi_Key kvi := {| kvi_Key := kvi_Key kvi; kvi_Value := kvi_Value kvi;
                                        kvi_Version := u64 (kvi_Version existing + 1) |}]>
                      (KeyValueItems kv) |>, OK)
  end.

Definition KVServer_Put (kv : KVServer) (args : PutArgs) (reply : PutReply)
    : KVServer * PutReply :=
  let '(kv', res) := handlePut kv {| kvi_Key := pa_Key args; kvi_Value := pa_Value args;
                                     kvi_Version := pa_Version args |} in
  (kv', reply <| pr_Err := res |>).

(** ** Views of the server state *)

(** The version a client must name to overwrite [k]: 0 while [k] is absent. *)
Definition version_of (kv : KVServer) (k : string) : Tversion :=
  match KeyValueItems kv !! k with Some it => kvi_Version it | None => 0 end.

Definition value_of (kv : KVServer) (k : string) : string :=
  match KeyValueItems kv !! k with Some it => kvi_Value it | None => "" end.

(** Every item sits under its own key and carries a positive version.  A version is only
    bounded by its 64 bits: after [max_u64] overwrites it wraps to 0. *)
Definition kv_wf (kv : KVServer) : Prop :=
  ∀ k it, KeyValueItems kv !! k = Some it → kvi_Key it = k ∧ 0 ≤ kvi_Version it ≤ max_u64.

(** [put_ok kv args]: the server accepts the Put. *)
Definition put_ok (kv : KVServer) (args : PutArgs) : Prop :=
  version_of kv (pa_Key args) = pa_Version args.

#[export] Instance put_ok_dec kv args : Decision (put_ok kv args).
Proof. unfold put_ok. apply _. Defined.

(** The version an accepted Put installs: 1 for a new key, else the successor mod 2^64. *)
Definition next_version (kv : KVServer) (k : string) : Tversion :=
  match KeyValueItems kv !! k with Some it => u64 (kvi_Version it + 1) | None => 1 end.

(** ** Properties of one handler *)

Section handlers.
Implicit Types (kv : KVServer) (args : PutArgs).

Lemma Put_reply kv args r :
  (KVServer_Put kv args r).2 =
    {| pr_Err := if decide (put_ok kv args) then OK
                 else match KeyValueItems kv !! pa_Key args with
                      | Some _ => ErrVersion | None => ErrNoKey end |}.
Proof.
  destruct (decide (put_ok kv args)) as [Hok|Hok]; unfold put_ok, version_of in Hok;
    unfold KVServer_Put, handlePut; cbn;
    destruct (KeyValueItems kv !! pa_Key args); case_decide; by try congruence.
Qed.

Lemma Put_accepted_iff kv args r :
  pr_Err (KVServer_Put kv args r).2 = OK ↔ put_ok kv args.
Proof.
  rewrite Put_reply; cbn. case_decide; [done|].
  by destruct (KeyValueItems kv !! pa_Key args).
Qed.

Lemma Put_state_rejected kv args r :
  ¬ put_ok kv args → (KVServer_Put kv args r).1 = kv.
Proof.
  unfold KVServer_Put, handlePut, put_ok, version_of; cbn.
  destruct (KeyValueItems kv !! pa_Key args); case_decide; naive_solver.
Qed.

Lemma Put_state_accepted kv args r :
  put_ok kv args →
  KeyValueItems (KVServer_Put kv args r).1 =
    <[pa_Key args := {| kvi_Key := pa_Key args; kvi_Value := pa_Value args;
                        kvi_Version := next_version kv (pa_Key args) |}]>
      (KeyValueItems kv).
Proof.
  unfold KVServer_Put, handlePut, put_ok, version_of, next_version; cbn.
  destruct (KeyValueItems kv !! pa_Key args) eqn:E; intros <-; cbn;
    by rewrite decide_False by naive_solver.
Qed.

Lemma Put_other_key kv args r k :
  k ≠ pa_Key args →
  KeyValueItems (KVServer_Put kv args r).1 !! k = KeyValueItems kv !! k.
Proof.
  intros. destruct (decide (put_ok kv args)).
  - rewrite Put_state_accepted by done. by rewrite lookup_insert_ne.
  - by rewrite Put_state_rejected.
Qed.

Lemma Put_keeps_key kv args r k :
  is_Some (KeyValueItems kv !! k) →
  is_Some (KeyValueItems (KVServer_Put kv args r).1 !! k).
Proof.
  intros. destruct (decide (k = pa_Key args)) as [->|].
  - destruct (decide (put_ok kv args)).
    + rewrite Put_state_accepted by done. rewrite lookup_insert_eq. eauto.
    + by rewrite Put_state_rejected.
  - by rewrite Put_other_key.
Qed.

Lemma Put_wf kv args r : kv_wf kv → kv_wf (KVServer_Put kv args r).1.
Proof.
  intros Hwf k it. destruct (decide (put_ok kv args)).
  - rewrite Put_state_accepted by done. rewrite lookup_insert. case_decide; [|by apply Hwf].
    intros [= <-]; cbn. split; [done|]. unfold next_version, max_u64.
    destruct (KeyValueItems kv !! _) as [it'|]; [|lia].
    pose proof (u64_range (kvi_Version it' + 1)). lia.
  - rewrite Put_state_rejected by done. apply Hwf.
Qed.

Lemma MakeKVServer_wf : kv_wf MakeKVServer.
Proof. intros k it. cbn. by rewrite lookup_empty. Qed.

Lemma version_of_range kv k : kv_wf kv → 0 ≤ version_of kv k ≤ max_u64.
Proof.
  unfold version_of. destruct (KeyValueItems kv !! k) eqn:E; intros Hwf.
  - by destruct (Hwf _ _ E).
  - unfold max_u64. lia.
Qed.

(** Below the last representable version, an accepted Put raises the version by one. *)
Lemma Put_version_accepted kv args r :
  kv_wf kv → put_ok kv args → pa_Version args < max_u64 →
  version_of (KVServer_Put kv args r).1 (pa_Key args) = pa_Version args + 1.
Proof.
  intros Hwf Hok Hlt. pose proof (version_of_range kv (pa_Key args) Hwf) as Hr.
  unfold version_of. rewrite Put_state_accepted by done. rewrite lookup_insert_eq; cbn.
  unfold put_ok, next_version, version_of in *.
  destruct (KeyValueItems kv !! pa_Key args); [|lia].
  rewrite u64_small; unfold max_u64 in *; lia.
Qed.

Lemma Put_value_accepted kv args r :
  put_ok kv args → value_of (KVServer_Put kv args r).1 (pa_Key args) = pa_Value args.
Proof.
  intros Hok. unfold value_of. rewrite Put_state_accepted by done.
  by rewrite lookup_insert_eq.
Qed.

Lemma Get_reply kv (args : GetArgs) r :
  KVServer_Get kv args r =
    match KeyValueItems kv !! ga_Key args with
    | Some it => {| gr_Value := kvi_Value it; gr_Version := kvi_Version it; gr_Err := OK |}
    | None => {| gr_Value := gr_Value r; gr_Version := gr_Version r; gr_Err := ErrNoKey |}
    end.
Proof. unfold KVServer_Get. by destruct (KeyValueItems kv !! ga_Key args). Qed.
End handlers.

Create HintDb kv discriminated.
#[export] Hint Resolve Put_wf MakeKVServer_wf Put_keeps_key : kv.

(** ** What the server promises *)

(** The server performs a Put exactly when the named version is the stored one (0 for a
    missing key); it then stores the value under the next version and touches no other key,
    and otherwise it changes nothing and answers [ErrVersion], or [ErrNoKey] for a missing
    key. *)
Theorem KVServer_Put_functional kv args r :
  (KVServer_Put kv args r).2 =
    {| pr_Err := if decide (put_ok kv args) then OK
                 else match KeyValueItems kv !! pa_Key args with
                      | Some _ => ErrVersion | None => ErrNoKey end |} ∧
  KeyValueItems (KVServer_Put kv args r).1 =
    if decide (put_ok kv args)
    then <[pa_Key args := {| kvi_Key := pa_Key args; kvi_Value := pa_Value args;
                             kvi_Version := next_version kv (pa_Key args) |}]> (KeyValueItems kv)
    else KeyValueItems kv.
Proof.
  split; [apply Put_reply|]. case_decide; [by apply Put_state_accepted|].
  by rewrite Put_state_rejected.
Qed.
