(* ===== verification/KVModel.v ===== *)
(** * The linearizability model of the key/value store

    [src/src/models1/kv.go]: the porcupine model that every test of the key/value services
    is judged by, and the proof that [KVServer.KVServer] refines it.  [porcupine.Operation]
    belongs to a third-party package: an operation is any type that yields its [Input]. *)
From Stdlib Require Import Sorting.Sorted.
From stdpp Require Import base tactics numbers list fin_maps gmap strings sorting pretty.
From S2P Require Import Prelude GoLib KVServer.

(** ** [kv.go] *)

Record KvInput := { ki_Op : Z; ki_Key : string; ki_Value : string; ki_Version : Z }.
Record KvOutput := { ko_Value : string; ko_Version : Z; ko_Err : string }.
Record KvState := { ks_Value : string; ks_Version : Z }.

(** What [Step] returns as the next state: a [KvState], or the string of the default case. *)
Inductive StepState := StState (st : KvState) | StString (s : string).

Definition KvModel_Init : KvState := {| ks_Value := ""; ks_Version := 0 |}.

Definition KvModel_Step (st : KvState) (inp : KvInput) (out : KvOutput) : bool * StepState :=
  if decide (ki_Op inp = 0) then
    (bool_decide (ko_Value out = ks_Value st), StState st)
  else if decide (ki_Op inp = 1) then
    if decide (ks_Version st = ki_Version inp) then
      (bool_decide (ko_Err out = "OK") || bool_decide (ko_Err out = "ErrMaybe"),
       StState {| ks_Value := ki_Value inp; ks_Version := u64 (ks_Version st + 1) |})
    else
      (bool_decide (ko_Err out = "ErrVersion") || bool_decide (ko_Err out = "ErrMaybe"),
       StState st)
  else (false, StString "<invalid>").

Definition KvModel_DescribeOperation (inp : KvInput) (out : KvOutput) : string :=
  if decide (ki_Op inp = 0) then
    "get('" +:+ ki_Key inp +:+ "') -> ('" +:+ ko_Value out +:+ "', '"
      +:+ pretty (ko_Version out) +:+ "', '" +:+ ko_Err out +:+ "')"
  else if decide (ki_Op inp = 1) then
    "put('" +:+ ki_Key inp +:+ "', '" +:+ ki_Value inp +:+ "', '"
      +:+ pretty (ki_Version inp) +:+ "') -> ('" +:+ ko_Err out +:+ "')"
  else "<invalid>".

Section partition.
Context {Operation : Type} (Input : Operation → KvInput).

(** Ranging over the map gives its keys in some order; [sort.Strings] makes it definite. *)
Definition KvModel_Partition (history : list Operation) : list (list Operation) :=
  let m := group_by (λ v, ki_Key (Input v)) history in
  let keys := sort_Strings ((map_to_list m).*1) in
  (λ k, group_at m k) <$> keys.

Definition partition_keys (history : list Operation) : list string :=
  sort_Strings ((map_to_list (group_by (λ v, ki_Key (Input v)) history)).*1).

Lemma partition_keys_spec history :
  NoDup (partition_keys history) ∧
  Sorted String.le (partition_keys history) ∧
  ∀ k, k ∈ partition_keys history ↔ k ∈ (λ v, ki_Key (Input v)) <$> history.
Proof.
  unfold partition_keys. split_and!.
  - rewrite sort_Strings_Permutation. apply NoDup_fst_map_to_list.
  - apply sort_Strings_Sorted.
  - intros k. rewrite sort_Strings_Permutation, <- (group_by_dom (λ v, ki_Key (Input v))).
    rewrite list_elem_of_fmap. split.
    + intros ([k' l] & -> & Hl%elem_of_map_to_list). eauto.
    + intros [l Hl]. exists (k, l). by rewrite elem_of_map_to_list.
Qed.

Lemma Partition_unfold history :
  KvModel_Partition history =
    (λ k, filter (λ v, ki_Key (Input v) = k) history) <$> partition_keys history.
Proof.
  unfold KvModel_Partition. apply list_fmap_ext. intros ?? _. apply group_at_group_by.
Qed.

Lemma Partition_perm history : concat (KvModel_Partition history) ≡ₚ history.
Proof.
  destruct (partition_keys_spec history) as (Hnd & _ & Hin).
  unfold KvModel_Partition. apply (group_by_Permutation (λ v, ki_Key (Input v))); [done|].
  intros v Hv. apply Hin, list_elem_of_fmap. eauto.
Qed.
End partition.

(** ** A sequential history of the model *)

Fixpoint model_run (st : KvState) (h : list (KvInput * KvOutput)) : option KvState :=
  match h with
  | [] => Some st
  | (i, o) :: h =>
      match KvModel_Step st i o with
      | (true, StState st') => model_run st' h
      | _ => None
      end
  end.

Lemma model_run_app st h1 h2 :
  model_run st (h1 ++ h2) = model_run st h1 ≫= λ st', model_run st' h2.
Proof.
  revert st. induction h1 as [|[i o] h1 IH]; intros st; simpl; [done|].
  destruct (KvModel_Step st i o) as [[] []]; simpl; auto.
Qed.

(** ** The server run on the model's inputs *)

Definition serve (kv : KVServer) (i : KvInput) : KVServer * KvOutput :=
  if decide (ki_Op i = 0) then
    let r := KVServer_Get kv {| ga_Key := ki_Key i |} GetReply_zero in
    (kv, {| ko_Value := gr_Value r; ko_Version := gr_Version r; ko_Err := gr_Err r |})
  else
    let '(kv', r) := KVServer_Put kv {| pa_Key := ki_Key i; pa_Value := ki_Value i;
                                        pa_Version := ki_Version i |} PutReply_zero in
    (kv', {| ko_Value := ""; ko_Version := 0; ko_Err := pr_Err r |}).

Fixpoint serve_all (kv : KVServer) (reqs : list KvInput) : KVServer * list (KvInput * KvOutput) :=
  match reqs with
  | [] => (kv, [])
  | i :: reqs =>
      let '(kv1, o) := serve kv i in
      let '(kv2, h) := serve_all kv1 reqs in
      (kv2, (i, o) :: h)
  end.

(** The abstraction function: what the model knows of one key. *)
Definition abs_key (kv : KVServer) (k : string) : KvState :=
  {| ks_Value := value_of kv k; ks_Version := version_of kv k |}.

(** An input of the two operations the model has, and an output it can judge: the model has
    no [ErrNoKey]. *)
Definition in_model (i : KvInput) : Prop := ki_Op i = 0 ∨ ki_Op i = 1.
Definition judged (io : KvInput * KvOutput) : Prop :=
  ki_Op (io.1) = 1 → ko_Err (io.2) ≠ ErrNoKey.

#[export] Instance judged_dec io : Decision (judged io).
Proof. unfold judged. apply _. Defined.

Section refinement.
Implicit Types (kv : KVServer) (i : KvInput).

Lemma version_of_wrap kv k : next_version kv k = u64 (version_of kv k + 1).
Proof.
  unfold next_version, version_of. by destruct (KeyValueItems kv !! k).
Qed.

Lemma serve_other_key kv i k : k ≠ ki_Key i → abs_key (serve kv i).1 k = abs_key kv k.
Proof.
  intros Hne. unfold serve. case_decide; [done|].
  pose proof (Put_other_key kv {| pa_Key := ki_Key i; pa_Value := ki_Value i;
    pa_Version := ki_Version i |} PutReply_zero k Hne) as Ho.
  destruct (KVServer_Put _ _ _) as [kv' r]; simpl in *.
  unfold abs_key, value_of, version_of. by rewrite Ho.
Qed.

(** One request is one accepted step of the model on the request's key. *)
Lemma serve_step kv i :
  in_model i → judged (i, (serve kv i).2) →
  KvModel_Step (abs_key kv (ki_Key i)) i (serve kv i).2 =
    (true, StState (abs_key (serve kv i).1 (ki_Key i))).
Proof.
  intros Hi Hj. unfold KvModel_Step, serve, judged in *. case_decide as H0; simpl in *.
  - rewrite Get_reply. unfold abs_key, value_of; simpl.
    by destruct (KeyValueItems kv !! ki_Key i); rewrite bool_decide_true.
  - destruct Hi as [|Hop]; [done|]. rewrite decide_True by done.
    set (args := {| pa_Key := ki_Key i; pa_Value := ki_Value i; pa_Version := ki_Version i |}) in *.
    pose proof (Put_reply kv args PutReply_zero) as Hr.
    destruct (decide (put_ok kv args)) as [Hok|Hok].
    + pose proof (Put_state_accepted kv args PutReply_zero Hok) as Hs.
      destruct (KVServer_Put kv args _) as [kv' r]; simpl in *; subst r; simpl.
      rewrite decide_True by done. rewrite <- version_of_wrap.
      unfold abs_key, value_of, version_of. by rewrite Hs, lookup_insert_eq.
    + pose proof (Put_state_rejected kv args PutReply_zero Hok) as Hs.
      destruct (KVServer_Put kv args _) as [kv' r]; simpl in *; subst r kv'; simpl.
      rewrite decide_False by done.
      by destruct (KeyValueItems kv !! ki_Key i); [|destruct (Hj Hop)].
Qed.

(** The operations on one key, in the order the server ran them, are a run of the model
    that ends in what the server stores under that key. *)
Lemma serve_all_key kv reqs k :
  Forall in_model reqs →
  Forall judged (filter (λ io, ki_Key (io.1) = k) (serve_all kv reqs).2) →
  model_run (abs_key kv k) (filter (λ io, ki_Key (io.1) = k) (serve_all kv reqs).2) =
    Some (abs_key (serve_all kv reqs).1 k).
Proof.
  revert kv. induction reqs as [|i reqs IH]; intros kv Hin; simpl; [done|].
  apply Forall_cons in Hin as [Hi Hin].
  pose proof (serve_step kv i Hi) as Hst. pose proof (serve_other_key kv i k) as Ho.
  destruct (serve kv i) as [kv1 o]; simpl in *.
  specialize (IH kv1 Hin). destruct (serve_all kv1 reqs) as [kv2 h]; simpl in *.
  rewrite filter_cons; simpl. case_decide as Hk; simpl.
  - intros [Hj Hjs]%Forall_cons. subst k. rewrite Hst by done. by apply IH.
  - rewrite <- Ho by done. apply IH.
Qed.
End refinement.

(** The model has no [ErrNoKey]: a run of it holds no Put with that answer. *)
Lemma model_run_judged st h st' : model_run st h = Some st' → Forall judged h.
Proof.
  revert st. induction h as [|[i o] h IH]; intros st; [by constructor|]. cbn [model_run].
  destruct (KvModel_Step st i o) as [[] [st1|]] eqn:E; [|done..]. intros Hr. constructor; [|by eapply IH].
  intros Hop Herr. cbn in Hop, Herr. revert E. unfold KvModel_Step. rewrite Hop, Herr.
  rewrite decide_False by done. rewrite decide_True by done. by case_decide.
Qed.

(** The partitions of a history of the server are runs of the model exactly when the model
    can judge every answer in it. *)
Lemma serve_all_partitions reqs :
  Forall in_model reqs →
  Forall (λ part, is_Some (model_run KvModel_Init part)) (KvModel_Partition fst (serve_all MakeKVServer reqs).2) ↔
  Forall judged (serve_all MakeKVServer reqs).2.
Proof.
  intros Hin. split.
  - intros Hp. rewrite <- (Partition_perm fst) at 1. apply Forall_concat.
    eapply Forall_impl; [exact Hp|]. intros part [st Hst]. by eapply model_run_judged.
  - intros Hj. rewrite Partition_unfold. apply Forall_fmap, Forall_true. intros k; cbn.
    assert (abs_key MakeKVServer k = KvModel_Init) as <-
      by (unfold abs_key, value_of, version_of; cbn; by rewrite lookup_empty).
    rewrite (serve_all_key MakeKVServer reqs k Hin); [eauto|]. by apply Forall_filter.
Qed.

(** ** Histories of the whole server *)

Section history.
Implicit Types (kv : KVServer) (i : KvInput) (reqs : list KvInput).

(** The Puts on [k] that the server answered with [OK]. *)
Definition accepted (k : string) (h : list (KvInput * KvOutput)) : Z :=
  zlen (filter (λ io, ki_Op (io.1) = 1 ∧ ki_Key (io.1) = k ∧ ko_Err (io.2) = OK) h).

Lemma serve_version kv i k :
  in_model i →
  version_of (serve kv i).1 k =
    if decide (ki_Op i = 1 ∧ ki_Key i = k ∧ ko_Err (serve kv i).2 = OK)
    then u64 (version_of kv k + 1) else version_of kv k.
Proof.
  intros Hi. unfold serve. destruct (decide (ki_Op i = 0)) as [H0|H0].
  { rewrite decide_False by lia. done. }
  destruct Hi as [|H1]; [done|].
  set (args := {| pa_Key := ki_Key i; pa_Value := ki_Value i; pa_Version := ki_Version i |}).
  pose proof (Put_accepted_iff kv args PutReply_zero) as Hok.
  pose proof (Put_other_key kv args PutReply_zero k) as Ho.
  pose proof (Put_state_accepted kv args PutReply_zero) as Ha.
  pose proof (Put_state_rejected kv args PutReply_zero) as Hr.
  destruct (KVServer_Put kv args _) as [kv' r]; cbn [fst snd ko_Err] in *.
  destruct (decide (ki_Key i = k)) as [<-|Hk].
  - case_decide as Hd; [|rewrite Hr; [done|intros Hp; apply Hd; by rewrite Hok]].
    rewrite <- version_of_wrap. unfold version_of at 1. rewrite Ha by (apply Hok, Hd). cbn.
    by rewrite lookup_insert_eq.
  - rewrite decide_False by naive_solver. unfold version_of. by rewrite Ho by done.
Qed.

Lemma serve_wf kv i : kv_wf kv → kv_wf (serve kv i).1.
Proof.
  intros Hwf. unfold serve. destruct (decide (ki_Op i = 0)); [done|].
  set (args := {| pa_Key := ki_Key i; pa_Value := ki_Value i; pa_Version := ki_Version i |}).
  pose proof (Put_wf kv args PutReply_zero Hwf). by destruct (KVServer_Put kv args _).
Qed.

Lemma serve_all_version kv reqs k :
  kv_wf kv → Forall in_model reqs →
  version_of (serve_all kv reqs).1 k =
    u64 (version_of kv k + accepted k (serve_all kv reqs).2).
Proof.
  revert kv. induction reqs as [|i reqs IH]; intros kv Hwf Hin; cbn.
  { pose proof (version_of_range kv k Hwf). unfold accepted; cbn.
    rewrite zlen_nil, Z.add_0_r, u64_small; [done|]. unfold max_u64 in *. lia. }
  apply Forall_cons in Hin as [Hi Hin]. pose proof (serve_version kv i k Hi) as Hv.
  pose proof (serve_wf kv i Hwf) as Hwf1.
  destruct (serve kv i) as [kv1 o]; cbn [fst snd] in *. specialize (IH kv1 Hwf1 Hin).
  destruct (serve_all kv1 reqs) as [kv2 h]; cbn [fst snd] in *. rewrite IH, Hv.
  unfold accepted. rewrite filter_cons; cbn [fst snd]. case_decide; [|done].
  rewrite zlen_cons. unfold u64. rewrite Zplus_mod_idemp_l. f_equal. lia.
Qed.
End history.

(** A stored version counts the accepted Puts of its key, modulo 2^64, in every history
    of the server; items stay under their own key. *)
Theorem server_versions_count reqs k :
  Forall in_model reqs →
  version_of (serve_all MakeKVServer reqs).1 k =
    accepted k (serve_all MakeKVServer reqs).2 `mod` 2 ^ 64.
Proof.
  intros Hin. rewrite serve_all_version by eauto with kv. f_equal.
Qed.

Definition put_req (k v : string) (ver : Z) : KvInput :=
  {| ki_Op := 1; ki_Key := k; ki_Value := v; ki_Version := ver |}.
Definition get_req (k : string) : KvInput :=
  {| ki_Op := 0; ki_Key := k; ki_Value := ""; ki_Version := 0 |}.

Lemma server_versions_count_witness :
  Forall in_model [put_req "a" "x" 0; put_req "b" "y" 0; put_req "a" "z" 1; put_req "a" "w" 1] ∧
  version_of (serve_all MakeKVServer
    [put_req "a" "x" 0; put_req "b" "y" 0; put_req "a" "z" 1; put_req "a" "w" 1]).1 "a" = 2.
Proof.
  assert (Forall in_model [put_req "a" "x" 0; put_req "b" "y" 0; put_req "a" "z" 1; put_req "a" "w" 1])
    as H by (repeat constructor; by right).
  split; [exact H|]. rewrite (server_versions_count _ "a" H). vm_compute. reflexivity.
Defined.

(** C10: the server is a sequential key/value store.  The partitions [KvModel_Partition] makes
    of its history, whatever requests it was sent, are all runs of the linearizability model
    from its initial state exactly when no Put in the history was answered [ErrNoKey]; the
    model has no such answer. *)
Theorem server_refines_model reqs :
  Forall in_model reqs →
  Forall (λ part, is_Some (model_run KvModel_Init part))
         (KvModel_Partition fst (serve_all MakeKVServer reqs).2) ↔
  Forall judged (serve_all MakeKVServer reqs).2.
Proof. apply serve_all_partitions. Qed.

Lemma server_refines_model_witness :
  is_Some (model_run KvModel_Init
    [(put_req "a" "x" 0, {| ko_Value := ""; ko_Version := 0; ko_Err := OK |});
     (get_req "a", {| ko_Value := "x"; ko_Version := 1; ko_Err := OK |})]).
Proof.
  assert ((serve_all MakeKVServer [put_req "a" "x" 0; get_req "a"]).2 =
    [(put_req "a" "x" 0, {| ko_Value := ""; ko_Version := 0; ko_Err := OK |});
     (get_req "a", {| ko_Value := "x"; ko_Version := 1; ko_Err := OK |})]) as E
    by (vm_compute; reflexivity).
  pose proof (server_refines_model [put_req "a" "x" 0; get_req "a"]) as H. rewrite E in H.
  assert (KvModel_Partition fst
    [(put_req "a" "x" 0, {| ko_Value := ""; ko_Version := 0; ko_Err := OK |});
     (get_req "a", {| ko_Value := "x"; ko_Version := 1; ko_Err := OK |})] =
    [[(put_req "a" "x" 0, {| ko_Value := ""; ko_Version := 0; ko_Err := OK |});
      (get_req "a", {| ko_Value := "x"; ko_Version := 1; ko_Err := OK |})]]) as E2
    by (vm_compute; reflexivity).
  rewrite E2 in H. refine (Forall_inv (proj2 (H _) _)).
  - constructor; [by right|]. constructor; [by left|constructor].
  - repeat constructor; discriminate.
Defined.

(** The model refuses what the server answers to a Put that names a nonzero version of a
    missing key: [ErrNoKey] is no answer of the model, in any state. *)
Theorem model_refuses_NoKey kv st k v ver :
  ver ≠ 0 → KeyValueItems kv !! k = None → ks_Version st = version_of kv k →
  (KvModel_Step st (put_req k v ver) (serve kv (put_req k v ver)).2).1 = false.
Proof.
  intros Hver Hk Hst. unfold serve, put_req; cbn. unfold KVServer_Put, handlePut; cbn.
  rewrite Hk, (decide_True (P := ver ≠ 0)) by exact Hver. unfold KvModel_Step; cbn.
  rewrite (decide_False (P := ks_Version st = ver)); [done|]. unfold version_of in Hst. rewrite Hk in Hst. congruence.
Qed.

Lemma model_refuses_NoKey_witness :
  (KvModel_Step KvModel_Init (put_req "a" "x" 3) (serve MakeKVServer (put_req "a" "x" 3)).2).1 = false.
Proof. apply (model_refuses_NoKey MakeKVServer KvModel_Init "a" "x" 3); [lia|reflexivity|reflexivity]. Defined.

(** Partitioning splits a history by key and loses nothing: the parts are, in increasing
    key order, the operations of each key that occurs, in their order; together they are the
    history. *)
Theorem Partition_functional {Operation} (Input : Operation → KvInput) history :
  KvModel_Partition Input history =
    (λ k, filter (λ v, ki_Key (Input v) = k) history) <$> partition_keys Input history ∧
  NoDup (partition_keys Input history) ∧
  Sorted String.le (partition_keys Input history) ∧
  (∀ k, k ∈ partition_keys Input history ↔ k ∈ (λ v, ki_Key (Input v)) <$> history) ∧
  concat (KvModel_Partition Input history) ≡ₚ history.
Proof.
  destruct (partition_keys_spec Input history) as (? & ? & ?).
  split_and!; auto using Partition_unfold, Partition_perm.
Qed.
