(* ===== verification/KVClerk.v ===== *)
(** * The key/value clerk

    The interface [IKVClerk] of [src/src/kvtest1/kvtest.go] as a type class of calls in
    progress, its laws, and [src/src/kvsrv1/client.go], the clerk that implements it over an
    unreliable network.  A call is a sequence of RPC attempts; between two attempts the
    server may run any number of other clients' requests. *)
From stdpp Require Import base tactics numbers list fin_maps gmap strings.
From S2P Require Import Prelude GoLib KVServer.

(** ** The interface of a clerk *)

Class IKVClerk := {
  put_call : Type;
  put_begin : PutArgs → put_call;
  put_args : put_call → PutArgs;
  put_attempt : call_fate → KVServer → put_call → KVServer * put_call;
  put_result : put_call → option Err;
  put_sent : put_call → bool;
  get_call : Type;
  get_begin : GetArgs → get_call;
  get_args : get_call → GetArgs;
  get_attempt : call_fate → KVServer → get_call → get_call;
  get_result : get_call → option (string * Tversion * Err)
}.

(** What a clerk may answer to a Put that its last attempt ran on the server: what the server
    said, but [ErrMaybe] in place of [ErrVersion] when earlier attempts went unanswered. *)
Inductive put_verdict (kv : KVServer) (args : PutArgs) (sent : bool) : Err → Prop :=
  | verdict_OK : put_ok kv args → put_verdict kv args sent OK
  | verdict_Version it :
      KeyValueItems kv !! pa_Key args = Some it → ¬ put_ok kv args →
      put_verdict kv args sent (if sent then ErrMaybe else ErrVersion)
  | verdict_NoKey :
      KeyValueItems kv !! pa_Key args = None → ¬ put_ok kv args → put_verdict kv args sent ErrNoKey.

(** What [kvtest.go] and the comments of [client.go] promise of every clerk: an attempt does
    nothing to the server or performs the Put there; a call that returns ran the Put in that
    very attempt and answers by [put_verdict]; a Get reports what is stored at its last
    attempt.  [put_sent] tells that an attempt went unanswered; a delivered reply ends a call. *)
Class IKVClerkLaws (C : IKVClerk) : Prop := {
  put_begin_args a : put_args (put_begin a) = a;
  put_begin_result a : put_result (put_begin a) = None;
  put_attempt_args f kv p : put_args (put_attempt f kv p).2 = put_args p;
  put_attempt_server f kv p :
    (put_attempt f kv p).1 = kv ∨
    (put_attempt f kv p).1 = (KVServer_Put kv (put_args p) PutReply_zero).1;
  put_begin_sent a : put_sent (put_begin a) = false;
  put_attempt_sent f kv p :
    put_result p = None → put_result (put_attempt f kv p).2 = None →
    put_sent (put_attempt f kv p).2 = true;
  put_attempt_result f kv p e :
    put_result p = None → put_result (put_attempt f kv p).2 = Some e →
    put_verdict kv (put_args p) (put_sent p) e ∧
    (put_attempt f kv p).1 = (KVServer_Put kv (put_args p) PutReply_zero).1;
  put_attempt_delivered kv p : put_result p = None → is_Some (put_result (put_attempt Delivered kv p).2);
  get_attempt_delivered kv g : get_result g = None → is_Some (get_result (get_attempt Delivered kv g));
  get_begin_args a : get_args (get_begin a) = a;
  get_begin_result a : get_result (get_begin a) = None;
  get_attempt_args f kv g : get_args (get_attempt f kv g) = get_args g;
  get_attempt_result f kv g v ver err :
    get_result g = None → get_result (get_attempt f kv g) = Some (v, ver, err) →
    match KeyValueItems kv !! ga_Key (get_args g) with
    | Some it => v = kvi_Value it ∧ ver = kvi_Version it ∧ err = OK
    | None => v = "" ∧ ver = 0 ∧ err = ErrNoKey
    end
}.

Lemma put_attempt_ok {C : IKVClerk} {HC : IKVClerkLaws C} f kv p :
  put_result p = None → put_result (put_attempt f kv p).2 = Some OK →
  put_ok kv (put_args p) ∧
  (put_attempt f kv p).1 = (KVServer_Put kv (put_args p) PutReply_zero).1.
Proof.
  intros Hp Hr. destruct (put_attempt_result f kv p OK Hp Hr) as [Hv ->]. split; [|done].
  inversion Hv; [done|]. by destruct (put_sent p).
Qed.

(** ** [client.go] *)

Record ClerkPut := {
  cp_args : PutArgs;
  cp_reply : PutReply;
  cp_isRetried : bool;
  cp_ret : option Err
}.
#[export] Instance eta_ClerkPut : Eta ClerkPut := λ c,
  {| cp_args := cp_args c; cp_reply := cp_reply c; cp_isRetried := cp_isRetried c;
     cp_ret := cp_ret c |}.

Definition Clerk_Put_begin (args : PutArgs) : ClerkPut :=
  {| cp_args := args; cp_reply := PutReply_zero; cp_isRetried := false; cp_ret := None |}.

(** After the loop: a version error on a resent request may hide a success. *)
Definition Clerk_Put_finish (c : ClerkPut) : ClerkPut :=
  let reply := if cp_isRetried c && bool_decide (pr_Err (cp_reply c) = ErrVersion)
               then (cp_reply c) <| pr_Err := ErrMaybe |> else cp_reply c in
  c <| cp_reply := reply |> <| cp_ret := Some (pr_Err reply) |>.

(** One evaluation of the loop's condition: the [Call], and on failure the loop body. *)
Definition Clerk_Put_attempt (f : call_fate) (kv : KVServer) (c : ClerkPut)
    : KVServer * ClerkPut :=
  match f with
  | RequestLost => (kv, c <| cp_isRetried := true |>)
  | ReplyLost => ((KVServer_Put kv (cp_args c) PutReply_zero).1, c <| cp_isRetried := true |>)
  | Delivered =>
      let '(kv', r) := KVServer_Put kv (cp_args c) PutReply_zero in
      (kv', Clerk_Put_finish (c <| cp_reply := r |>))
  end.

Record ClerkGet := {
  cg_args : GetArgs;
  cg_reply : GetReply;
  cg_ret : option (string * Tversion * Err)
}.
#[export] Instance eta_ClerkGet : Eta ClerkGet := λ c,
  {| cg_args := cg_args c; cg_reply := cg_reply c; cg_ret := cg_ret c |}.

Definition Clerk_Get_begin (args : GetArgs) : ClerkGet :=
  {| cg_args := args; cg_reply := GetReply_zero; cg_ret := None |}.

Definition Clerk_Get_finish (c : ClerkGet) : ClerkGet :=
  let r := cg_reply c in
  c <| cg_ret := Some (if decide (gr_Err r = OK) then (gr_Value r, gr_Version r, OK)
                       else if decide (gr_Err r = ErrNoKey) then ("", 0, ErrNoKey)
                       else ("", 0, "")) |>.

Definition Clerk_Get_attempt (f : call_fate) (kv : KVServer) (c : ClerkGet) : ClerkGet :=
  match f with
  | RequestLost | ReplyLost => c
  | Delivered => Clerk_Get_finish (c <| cg_reply := KVServer_Get kv (cg_args c) GetReply_zero |>)
  end.

#[export] Instance kvsrv_Clerk : IKVClerk := {
  put_call := ClerkPut;
  put_begin := Clerk_Put_begin;
  put_args := cp_args;
  put_attempt := Clerk_Put_attempt;
  put_result := cp_ret;
  put_sent := cp_isRetried;
  get_call := ClerkGet;
  get_begin := Clerk_Get_begin;
  get_args := cg_args;
  get_attempt := Clerk_Get_attempt;
  get_result := cg_ret
}.

(** ** A whole call

    A script says, for every attempt, which Puts of other clients the server runs before it
    and what becomes of it.  The third component of the result lists the server's replies
    to this call's own attempts, those the network lost included. *)

Definition script := list (list PutArgs * call_fate).

Definition run_others (kv : KVServer) (others : list PutArgs) : KVServer :=
  foldl (λ kv a, (KVServer_Put kv a PutReply_zero).1) kv others.

Definition own_reply (f : call_fate) (kv : KVServer) (args : PutArgs) : list Err :=
  match f with
  | RequestLost => []
  | ReplyLost | Delivered => [pr_Err (KVServer_Put kv args PutReply_zero).2]
  end.

Fixpoint Clerk_Put_loop (sc : script) (kv : KVServer) (c : ClerkPut)
    : KVServer * ClerkPut * list Err :=
  match sc with
  | [] => (kv, c, [])
  | (others, f) :: sc =>
      let kv := run_others kv others in
      let '(kv', c') := Clerk_Put_attempt f kv c in
      match cp_ret c' with
      | Some _ => (kv', c', own_reply f kv (cp_args c))
      | None => let '(kv'', c'', log) := Clerk_Put_loop sc kv' c' in
                (kv'', c'', own_reply f kv (cp_args c) ++ log)
      end
  end.

Definition Clerk_Put (sc : script) (kv : KVServer) (key value : string) (version : Tversion)
    : KVServer * ClerkPut * list Err :=
  Clerk_Put_loop sc kv
    (Clerk_Put_begin {| pa_Key := key; pa_Value := value; pa_Version := version |}).

Fixpoint Clerk_Get_loop (sc : script) (kv : KVServer) (c : ClerkGet) : KVServer * ClerkGet :=
  match sc with
  | [] => (kv, c)
  | (others, f) :: sc =>
      let kv := run_others kv others in
      let c' := Clerk_Get_attempt f kv c in
      match cg_ret c' with Some _ => (kv, c') | None => Clerk_Get_loop sc kv c' end
  end.

Definition Clerk_Get (sc : script) (kv : KVServer) (key : string) : KVServer * ClerkGet :=
  Clerk_Get_loop sc kv (Clerk_Get_begin {| ga_Key := key |}).

(** Every Put the script can make the server run, this call's own included. *)
Definition script_ops (sc : script) : Z :=
  foldr (λ oc n, zlen (oc.1) + 1 + n) 0 sc.

Definition performed (log : list Err) : nat := length (filter (λ e, e = OK) log).

(** ** The clerk keeps the interface's laws *)

Lemma Clerk_Put_attempt_ret f kv c :
  cp_ret c = None →
  cp_ret (Clerk_Put_attempt f kv c).2 =
    match f with
    | Delivered =>
        let e := pr_Err (KVServer_Put kv (cp_args c) PutReply_zero).2 in
        Some (if cp_isRetried c && bool_decide (e = ErrVersion) then ErrMaybe else e)
    | _ => None
    end.
Proof.
  intros Hn. destruct f; cbn; [done|done|].
  destruct (KVServer_Put kv (cp_args c) PutReply_zero) as [kv' r]; cbn.
  by destruct (cp_isRetried c && _).
Qed.

Lemma Clerk_Put_attempt_args f kv c : cp_args (Clerk_Put_attempt f kv c).2 = cp_args c.
Proof. destruct f; cbn; [done|done|]. by destruct (KVServer_Put _ _ _). Qed.

Lemma Clerk_Put_attempt_server f kv c :
  (Clerk_Put_attempt f kv c).1 =
    match f with RequestLost => kv | _ => (KVServer_Put kv (cp_args c) PutReply_zero).1 end.
Proof. destruct f; cbn; [done|done|]. by destruct (KVServer_Put _ _ _). Qed.

Lemma Clerk_Get_attempt_ret f kv c :
  cg_ret c = None →
  cg_ret (Clerk_Get_attempt f kv c) =
    match f with
    | Delivered => Some (match KeyValueItems kv !! ga_Key (cg_args c) with
                         | Some it => (kvi_Value it, kvi_Version it, OK)
                         | None => ("", 0, ErrNoKey) end)
    | _ => None
    end.
Proof.
  intros. destruct f; cbn; [done|done|]. rewrite Get_reply.
  by destruct (KeyValueItems kv !! ga_Key (cg_args c)).
Qed.

#[export] Instance kvsrv_Clerk_laws : IKVClerkLaws kvsrv_Clerk.
Proof.
  split; cbn [put_call put_begin put_args put_attempt put_result put_sent get_call get_begin get_args
              get_attempt get_result kvsrv_Clerk]; try done.
  - apply Clerk_Put_attempt_args.
  - intros f kv c. rewrite Clerk_Put_attempt_server. destruct f; auto.
  - intros f kv c Hn. destruct f; [done..|]. by rewrite Clerk_Put_attempt_ret.
  - intros f kv c e Hn. rewrite Clerk_Put_attempt_ret by done. rewrite Clerk_Put_attempt_server.
    destruct f; try done. cbv zeta. rewrite Put_reply; cbn [pr_Err]. case_decide as Hok.
    + rewrite andb_false_r. intros [= <-]. split; [by apply verdict_OK|done].
    + destruct (KeyValueItems kv !! pa_Key (cp_args c)) as [it|] eqn:Hit.
      * rewrite andb_true_r. intros [= <-]. split; [by eapply verdict_Version|done].
      * rewrite andb_false_r. intros [= <-]. split; [by apply verdict_NoKey|done].
  - intros kv c Hn. rewrite Clerk_Put_attempt_ret by done. cbn. eauto.
  - by intros [].
  - intros f kv c v ver err Hn. rewrite Clerk_Get_attempt_ret by done.
    destruct f; try done. destruct (KeyValueItems kv !! _); naive_solver.
Qed.

(** ** At most once *)

Section at_most_once.
Implicit Types (kv : KVServer) (args : PutArgs) (c : ClerkPut) (sc : script).

Lemma Put_version_step kv args r k :
  kv_wf kv → version_of kv k < max_u64 →
  version_of kv k ≤ version_of (KVServer_Put kv args r).1 k ≤ version_of kv k + 1.
Proof.
  intros Hwf Hlt. destruct (decide (put_ok kv args)) as [Hok|].
  - destruct (decide (k = pa_Key args)) as [->|Hne].
    + rewrite Put_version_accepted; [unfold put_ok in *; lia|done..|unfold put_ok in *; lia].
    + unfold version_of. rewrite Put_other_key by done. lia.
  - rewrite Put_state_rejected by done. lia.
Qed.

Lemma run_others_spec kv others k :
  kv_wf kv → version_of kv k + zlen others ≤ max_u64 →
  kv_wf (run_others kv others) ∧
  version_of kv k ≤ version_of (run_others kv others) k ≤ version_of kv k + zlen others.
Proof.
  revert kv. induction others as [|a others IH]; intros kv Hwf; simpl.
  - rewrite zlen_nil. split; [done|lia].
  - rewrite zlen_cons. intros Hb. pose proof (zlen_nonneg others).
    destruct (Put_version_step kv a PutReply_zero k Hwf) as [??]; [lia|].
    destruct (IH (KVServer_Put kv a PutReply_zero).1) as [? ?]; [eauto with kv|lia|].
    split; [done|]. unfold run_others in *. lia.
Qed.

Lemma run_others_keeps kv others k :
  is_Some (KeyValueItems kv !! k) → is_Some (KeyValueItems (run_others kv others) !! k).
Proof. revert kv. induction others; simpl; eauto with kv. Qed.

Lemma script_ops_nonneg sc : 0 ≤ script_ops sc.
Proof.
  induction sc as [|[o f] sc]; simpl; [done|]. pose proof (zlen_nonneg o). lia.
Qed.

Lemma performed_own_reply f kv args :
  performed (own_reply f kv args) =
    match f with RequestLost => 0%nat | _ => if decide (put_ok kv args) then 1%nat else 0%nat end.
Proof.
  unfold performed, own_reply. destruct f; [done|..];
    rewrite filter_cons, filter_nil; case_decide as H1; rewrite Put_accepted_iff in H1;
    case_decide; done.
Qed.

Lemma performed_app l1 l2 : performed (l1 ++ l2) = (performed l1 + performed l2)%nat.
Proof. unfold performed. by rewrite filter_app, length_app. Qed.

(** Once the stored version has moved past the one the call names, and the key exists, the
    rest of the call cannot take effect, nor report that the key is missing. *)
Lemma Put_loop_past sc kv c :
  kv_wf kv → cp_ret c = None →
  version_of kv (pa_Key (cp_args c)) + script_ops sc ≤ max_u64 →
  pa_Version (cp_args c) < version_of kv (pa_Key (cp_args c)) →
  is_Some (KeyValueItems kv !! pa_Key (cp_args c)) →
  ∀ kv' c' log, Clerk_Put_loop sc kv c = (kv', c', log) →
  performed log = 0%nat ∧ cp_ret c' ≠ Some OK ∧ cp_ret c' ≠ Some ErrNoKey.
Proof.
  revert kv c. induction sc as [|[others f] sc IH]; intros kv c Hwf Hret Hb Hlt Hkey kv' c' log;
    cbn [Clerk_Put_loop script_ops foldr fst] in *.
  { intros [= <- <- <-]. rewrite Hret. done. }
  fold (script_ops sc) in *. pose proof (script_ops_nonneg sc). pose proof (zlen_nonneg others).
  destruct (run_others_spec kv others (pa_Key (cp_args c)) Hwf) as [Hwf1 Hv1]; [lia|].
  apply (run_others_keeps kv others) in Hkey. revert Hwf1 Hv1 Hkey.
  generalize (run_others kv others). intros kv1 Hwf1 Hv1 Hkey.
  assert (¬ put_ok kv1 (cp_args c)) as Hno by (unfold put_ok; lia).
  pose proof (Clerk_Put_attempt_ret f kv1 c Hret) as Hr.
  pose proof (Clerk_Put_attempt_args f kv1 c) as Ha.
  pose proof (Clerk_Put_attempt_server f kv1 c) as Hs.
  rewrite Put_reply, Put_state_rejected, decide_False in * by done.
  pose proof (performed_own_reply f kv1 (cp_args c)) as Hp. rewrite decide_False in Hp by done.
  assert (performed (own_reply f kv1 (cp_args c)) = 0%nat) as Hp0 by (by destruct f).
  assert ((Clerk_Put_attempt f kv1 c).1 = kv1) as Hs1 by (by destruct f). clear Hs Hp.
  destruct (Clerk_Put_attempt f kv1 c) as [kv2 c2]; simpl in *; subst kv2.
  destruct (cp_ret c2) as [e|] eqn:He.
  - intros [= <- <- <-]. split; [done|]. rewrite He. destruct f; try done.
    destruct Hkey as [it Hit]. rewrite Hit in Hr. simplify_eq/=.
    by destruct (cp_isRetried c).
  - destruct (Clerk_Put_loop sc kv1 c2) as [[kv3 c3] log3] eqn:E. intros [= <- <- <-].
    rewrite performed_app, Hp0. eapply (IH kv1 c2); eauto; rewrite ?Ha; [lia..|done].
Qed.

Lemma Clerk_Put_attempt_retried f kv c :
  cp_ret c = None → cp_ret (Clerk_Put_attempt f kv c).2 = None →
  cp_isRetried (Clerk_Put_attempt f kv c).2 = true.
Proof. intros Hn. destruct f; [done..|]. by rewrite Clerk_Put_attempt_ret. Qed.

Lemma Put_loop_retried sc kv c :
  cp_isRetried c = true → cp_ret c = None →
  ∀ kv' c' log, Clerk_Put_loop sc kv c = (kv', c', log) → cp_ret c' ≠ Some ErrVersion.
Proof.
  revert kv c. induction sc as [|[others f] sc IH]; intros kv c Hre Hret kv' c' log;
    cbn [Clerk_Put_loop].
  { intros [= <- <- <-]. by rewrite Hret. }
  generalize (run_others kv others). intros kv1.
  pose proof (Clerk_Put_attempt_ret f kv1 c Hret) as Hr.
  pose proof (Clerk_Put_attempt_retried f kv1 c Hret) as Hre2.
  destruct (Clerk_Put_attempt f kv1 c) as [kv2 c2]; simpl in *.
  destruct (cp_ret c2) as [e|] eqn:He.
  - intros [= <- <- <-]. rewrite He, Hr. destruct f; [done..|]. simpl. rewrite Hre; simpl.
    case_bool_decide; naive_solver.
  - destruct (Clerk_Put_loop sc kv2 c2) as [[kv3 c3] log3] eqn:E. intros [= <- <- <-].
    eapply IH; [| |done]; auto.
Qed.

(** A first attempt that gets through answers what the server says, never [ErrMaybe]. *)
Lemma Put_loop_maybe sc kv c :
  cp_ret c = None → cp_isRetried c = false →
  ∀ kv' c' log, Clerk_Put_loop sc kv c = (kv', c', log) →
  cp_ret c' = Some ErrMaybe → ∃ others f sc', sc = (others, f) :: sc' ∧ f ≠ Delivered.
Proof.
  intros Hret Hre kv' c' log. destruct sc as [|[others f] sc]; cbn [Clerk_Put_loop].
  { intros [= <- <- <-]. by rewrite Hret. }
  destruct (decide (f = Delivered)) as [->|Hf]; [|by eauto 6].
  generalize (run_others kv others). intros kv1.
  pose proof (Clerk_Put_attempt_ret Delivered kv1 c Hret) as Hr. rewrite Put_reply, Hre in Hr.
  destruct (Clerk_Put_attempt Delivered kv1 c) as [kv2 c2]; simpl in *. rewrite Hr.
  intros [= <- <- <-]. rewrite Hr. intros [= Hm]. revert Hm.
  repeat case_match; done.
Qed.

(** The effects of a call that starts at any point, by what it returns. *)
Lemma Put_loop_effects sc kv c :
  kv_wf kv → cp_ret c = None → 0 ≤ pa_Version (cp_args c) →
  version_of kv (pa_Key (cp_args c)) + script_ops sc ≤ max_u64 →
  ∀ kv' c' log, Clerk_Put_loop sc kv c = (kv', c', log) →
  (performed log ≤ 1)%nat ∧
  (cp_ret c' = Some OK → performed log = 1%nat) ∧
  (cp_ret c' = Some ErrVersion → performed log = 0%nat) ∧
  (cp_ret c' = Some ErrNoKey → performed log = 0%nat).
Proof.
  revert kv c. induction sc as [|[others f] sc IH]; intros kv c Hwf Hret Hpos Hb kv' c' log;
    cbn [Clerk_Put_loop script_ops foldr fst] in *.
  { intros [= <- <- <-]. rewrite Hret. unfold performed. cbn. split_and!; [lia|done..]. }
  fold (script_ops sc) in *. pose proof (script_ops_nonneg sc). pose proof (zlen_nonneg others).
  destruct (run_others_spec kv others (pa_Key (cp_args c)) Hwf) as [Hwf1 Hv1]; [lia|].
  revert Hwf1 Hv1. generalize (run_others kv others). intros kv1 Hwf1 Hv1.
  pose proof (Clerk_Put_attempt_ret f kv1 c Hret) as Hr.
  pose proof (Clerk_Put_attempt_args f kv1 c) as Ha.
  pose proof (Clerk_Put_attempt_server f kv1 c) as Hs.
  pose proof (Clerk_Put_attempt_retried f kv1 c Hret) as Hre.
  pose proof (performed_own_reply f kv1 (cp_args c)) as Hp. rewrite Put_reply in Hr.
  pose proof (Put_version_step kv1 (cp_args c) PutReply_zero (pa_Key (cp_args c)) Hwf1) as Hstep.
  destruct (Clerk_Put_attempt f kv1 c) as [kv2 c2]; simpl in *.
  destruct (cp_ret c2) as [e|] eqn:He.
  - intros [= <- <- <-]. rewrite Hp, He. destruct f; try done. simpl in Hr.
    injection Hr as Hr. case_decide; simplify_eq/=.
    + rewrite andb_false_r. naive_solver.
    + destruct (KeyValueItems kv1 !! _), (cp_isRetried c); naive_solver.
  - destruct (Clerk_Put_loop sc kv2 c2) as [[kv3 c3] log3] eqn:E. intros [= <- <- <-].
    pose proof (Put_loop_retried sc kv2 c2 (Hre eq_refl) He _ _ _ E) as Hnv.
    rewrite performed_app, Hp. destruct (decide (f ≠ RequestLost ∧ put_ok kv1 (cp_args c)))
      as [[Hf Hok]|Hno].
    + (* the lost attempt took effect: nothing can follow it *)
      assert (kv2 = (KVServer_Put kv1 (cp_args c) PutReply_zero).1) as Hk2 by (by destruct f).
      destruct (Put_loop_past sc kv2 c2) with (kv' := kv3) (c' := c3) (log := log3)
        as (-> & ? & ?); rewrite ?Ha, ?Hk2 in *; eauto with kv.
      * unfold put_ok in *. lia.
      * rewrite Put_version_accepted by (unfold put_ok in *; auto; lia). lia.
      * rewrite Put_state_accepted by done. rewrite lookup_insert_eq. eauto.
      * destruct f; [done|..]; rewrite decide_True by done; naive_solver.
    + replace (match f with RequestLost => 0%nat | _ => _ end) with 0%nat
        by (destruct f; [done|..]; rewrite decide_False; naive_solver).
      eapply (IH kv2 c2); eauto; rewrite ?Ha; [|done|].
      * subst kv2. destruct f; eauto with kv.
      * subst kv2. destruct f; lia.
Qed.
End at_most_once.

(** ** What a clerk call promises *)

(** C9: however often a Put is resent, the server performs it at most once; the call answers
    [OK] only if it was performed, [ErrVersion] and [ErrNoKey] only if it was not, and
    [ErrMaybe] only when its first attempt was lost.  The bound on the version keeps the key's version from
    wrapping around during the call. *)
Theorem Clerk_Put_at_most_once sc kv key value version kv' c log :
  kv_wf kv → 0 ≤ version → version_of kv key + script_ops sc ≤ max_u64 →
  Clerk_Put sc kv key value version = (kv', c, log) →
  (performed log ≤ 1)%nat ∧
  (cp_ret c = Some OK → performed log = 1%nat) ∧
  (cp_ret c = Some ErrVersion → performed log = 0%nat) ∧
  (cp_ret c = Some ErrNoKey → performed log = 0%nat) ∧
  (cp_ret c = Some ErrMaybe → ∃ others f sc', sc = (others, f) :: sc' ∧ f ≠ Delivered).
Proof.
  intros Hwf Hver Hb Hrun. pose proof (Put_loop_maybe _ _ (Clerk_Put_begin _) eq_refl eq_refl _ _ _ Hrun).
  eapply Put_loop_effects in Hrun; naive_solver.
Qed.

(** The second attempt finds the version moved on by the first, whose reply was lost. *)
Lemma Clerk_Put_at_most_once_witness :
  ∃ kv' c log,
    Clerk_Put [([], ReplyLost); ([{| pa_Key := "b"; pa_Value := "y"; pa_Version := 0 |}], Delivered)]
              MakeKVServer "a" "x" 0 = (kv', c, log) ∧
    cp_ret c = Some ErrMaybe ∧ log = [OK; ErrVersion] ∧ (performed log ≤ 1)%nat.
Proof.
  destruct (Clerk_Put [([], ReplyLost);
    ([{| pa_Key := "b"; pa_Value := "y"; pa_Version := 0 |}], Delivered)]
    MakeKVServer "a" "x" 0) as [[kv' c] log] eqn:E.
  exists kv', c, log. split; [done|].
  split; [vm_compute in E; by injection E as <- <- <-|].
  split; [vm_compute in E; by injection E as <- <- <-|].
  refine (proj1 (Clerk_Put_at_most_once _ MakeKVServer "a" "x" 0 kv' c log MakeKVServer_wf _ _ E));
    [lia|vm_compute; discriminate].
Defined.

(** *** Calls end *)

Section ends.
Implicit Types (c : ClerkPut) (g : ClerkGet) (sc : script).

Lemma Put_loop_ends sc kv c :
  cp_ret c = None → Exists (λ oc, oc.2 = Delivered) sc →
  is_Some (cp_ret (Clerk_Put_loop sc kv c).1.2).
Proof.
  revert kv c. induction sc as [|[others f] sc IH]; intros kv c Hret; [by rewrite Exists_nil|].
  rewrite Exists_cons; cbn [snd Clerk_Put_loop]. generalize (run_others kv others). intros kv1 He.
  pose proof (Clerk_Put_attempt_ret f kv1 c Hret) as Hr.
  destruct (Clerk_Put_attempt f kv1 c) as [kv2 c2]; cbn [fst snd] in *.
  destruct (cp_ret c2) as [e|] eqn:E; [cbn; rewrite E; eauto|].
  assert (Exists (λ oc, oc.2 = Delivered) sc) as He' by (destruct He as [->|]; done).
  specialize (IH kv2 c2 E He'). by destruct (Clerk_Put_loop sc kv2 c2) as [[??]?].
Qed.

(** A Get leaves with what is stored at its first attempt that gets through. *)
Lemma Get_loop_reads sc1 others sc2 kv g :
  cg_ret g = None → Forall (λ oc, oc.2 ≠ Delivered) sc1 →
  let kv1 := run_others kv (concat (sc1.*1) ++ others) in
  let '(kv', g') := Clerk_Get_loop (sc1 ++ (others, Delivered) :: sc2) kv g in
  kv' = kv1 ∧
  cg_ret g' = Some (match KeyValueItems kv1 !! ga_Key (cg_args g) with
                    | Some it => (kvi_Value it, kvi_Version it, OK)
                    | None => ("", 0, ErrNoKey) end).
Proof.
  revert kv. induction sc1 as [|[o f] sc1 IH]; intros kv Hret Hall; cbn [app Clerk_Get_loop].
  - cbn [fmap list_fmap concat app]. generalize (run_others kv others). intros kv1.
    pose proof (Clerk_Get_attempt_ret Delivered kv1 g Hret) as ->. split; [done|].
    by rewrite Clerk_Get_attempt_ret.
  - apply Forall_cons in Hall as [Hf Hall].
    rewrite Clerk_Get_attempt_ret by done.
    assert (Clerk_Get_attempt f (run_others kv o) g = g) as -> by (by destruct f).
    assert (match f with Delivered => false | _ => true end = true) as Hf' by (by destruct f).
    specialize (IH (run_others kv o) Hret Hall).
    cbn [fmap list_fmap concat fst]. rewrite <- app_assoc.
    assert (∀ l, run_others (run_others kv o) l = run_others kv (o ++ l)) as Happ
      by (intros l; unfold run_others; by rewrite foldl_app).
    rewrite Happ in IH. by destruct f.
Qed.
End ends.

(** A Put returns as soon as one of its attempts gets through both ways. *)
Theorem Clerk_Put_terminates sc kv key value version :
  Exists (λ oc, oc.2 = Delivered) sc →
  is_Some (cp_ret (Clerk_Put sc kv key value version).1.2).
Proof. intros He. by apply Put_loop_ends. Qed.

Lemma Clerk_Put_terminates_witness :
  is_Some (cp_ret (Clerk_Put [([], RequestLost); ([], ReplyLost); ([], Delivered)]
                             MakeKVServer "a" "x" 0).1.2).
Proof.
  apply Clerk_Put_terminates. apply Exists_cons_tl, Exists_cons_tl, Exists_cons_hd. reflexivity.
Defined.

(** A Get retries until an attempt gets through and returns what the server stores then:
    value, version and [OK], or [ErrNoKey]; it never changes the server itself. *)
Theorem Clerk_Get_reads sc1 others sc2 kv key :
  Forall (λ oc, oc.2 ≠ Delivered) sc1 →
  let kv1 := run_others kv (concat (sc1.*1) ++ others) in
  let '(kv', g) := Clerk_Get (sc1 ++ (others, Delivered) :: sc2) kv key in
  kv' = kv1 ∧
  cg_ret g = Some (match KeyValueItems kv1 !! key with
                   | Some it => (kvi_Value it, kvi_Version it, OK)
                   | None => ("", 0, ErrNoKey) end).
Proof. intros Hall. by apply (Get_loop_reads sc1 others sc2 kv (Clerk_Get_begin {| ga_Key := key |})). Qed.

Lemma Clerk_Get_reads_witness :
  cg_ret (Clerk_Get [([], ReplyLost);
                     ([{| pa_Key := "a"; pa_Value := "x"; pa_Version := 0 |}], Delivered)]
                    MakeKVServer "a").2 = Some ("x", 1, OK).
Proof.
  pose proof (Clerk_Get_reads [([], ReplyLost)]
    [{| pa_Key := "a"; pa_Value := "x"; pa_Version := 0 |}] [] MakeKVServer "a") as H.
  cbn [app] in H. destruct (Clerk_Get _ _ _) as [kv' g]. cbn [snd].
  destruct H as [_ ->]; [repeat constructor; discriminate|]. vm_compute. reflexivity.
Defined.
