(* ===== verification/KVTest.v ===== *)
(** * The key/value tests

    [src/src/kvtest1/kvtest.go] and the recording part of [porcupine.go]: the clients the
    tests spawn, the log of their operations, and the checks of what they leave behind.

    A client is a [client_prog]: what it does at its next turn, and how it goes on with the
    answer of a clerk call.  [kt_step] runs any number of clients of one program over the
    clerk interface [IKVClerk] of [KVClerk], with every call recorded as [Get] and [Put]
    record it.  What a select or the random generator chooses is the argument of a turn; time
    is in nanoseconds.  The structs stored under a key are JSON texts ([GoJson]). *)
From stdpp Require Import base tactics numbers list fin_maps gmap strings pretty.
From S2P Require Import Prelude GoLib GoStrconv GoJson KVServer KVModel KVClerk.

(** ** [porcupine.go]: the log of operations *)

(** What the code fills in of a [porcupine.Operation]. *)
Record Operation := {
  op_ClientId : Z;
  op_Input : KvInput;
  op_Output : KvOutput;
  op_Call : Z;
  op_Return : Z
}.

Definition OpLog := list Operation.
Definition OpLog_Len (log : OpLog) : Z := zlen log.
Definition OpLog_Append (op : Operation) (log : OpLog) : OpLog := log ++ [op].
Definition OpLog_Read (log : OpLog) : list Operation := log.

(** The part of a [Test] that changes: its log and the count [ops] of its [Config]. *)
Record Test := { ts_oplog : OpLog; ts_ops : Z }.
#[export] Instance eta_Test : Eta Test := λ t, {| ts_oplog := ts_oplog t; ts_ops := ts_ops t |}.

Definition OpInc (ts : Test) : Test := ts <| ts_ops := i32 (ts_ops ts + 1) |>.

(** Through which function a client reaches its clerk: the methods [ts.Get] and [ts.Put], the
    package's [Get] and [Put] behind [GetJson] and [PutJson], or the clerk itself. *)
Inductive via := ViaTest | ViaJson | Direct.

Definition get_op (cli : Z) (key : string) (r : string * Tversion * Err) (start end_ : Z) : Operation :=
  {| op_ClientId := cli;
     op_Input := {| ki_Op := 0; ki_Key := key; ki_Value := ""; ki_Version := 0 |};
     op_Output := {| ko_Value := r.1.1; ko_Version := r.1.2; ko_Err := r.2 |};
     op_Call := start; op_Return := end_ |}.

Definition put_op (cli : Z) (a : PutArgs) (err : Err) (start end_ : Z) : Operation :=
  {| op_ClientId := cli;
     op_Input := {| ki_Op := 1; ki_Key := pa_Key a; ki_Value := pa_Value a; ki_Version := pa_Version a |};
     op_Output := {| ko_Value := ""; ko_Version := 0; ko_Err := err |};
     op_Call := start; op_Return := end_ |}.

(** What follows the clerk call: both Gets count the operation, of the Puts only the
    package's. *)
Definition Get_return (v : via) (op : Operation) (ts : Test) : Test :=
  match v with
  | Direct => ts
  | _ => let ts := OpInc ts in ts <| ts_oplog := OpLog_Append op (ts_oplog ts) |>
  end.

Definition Put_return (v : via) (op : Operation) (ts : Test) : Test :=
  match v with
  | Direct => ts
  | ViaTest => ts <| ts_oplog := OpLog_Append op (ts_oplog ts) |>
  | ViaJson => let ts := OpInc ts in ts <| ts_oplog := OpLog_Append op (ts_oplog ts) |>
  end.

(** ** Clients *)

Inductive turn (S : Type) :=
  | Local (s : S)
  | CallPut (v : via) (cli : Z) (a : PutArgs)
  | CallGet (v : via) (cli : Z) (key : string)
  | Returned.
Arguments Local {S} s.
Arguments CallPut {S} v cli a.
Arguments CallGet {S} v cli key.
Arguments Returned {S}.

Record client_prog (Ch S : Type) := {
  cl_turn : Ch → S → outcome (turn S);
  cl_put : S → Err → outcome S;
  cl_get : S → string * Tversion * Err → outcome S
}.
Arguments cl_turn {Ch S} _ _ _.
Arguments cl_put {Ch S} _ _ _.
Arguments cl_get {Ch S} _ _ _.

Section system.
Context `{C : IKVClerk} {Ch S : Type} (prog : client_prog Ch S).

(** A client between two calls, or in one that began at time [start]. *)
Inductive call_state :=
  | Ready
  | Putting (v : via) (cli : Z) (p : put_call) (start : Z)
  | Getting (v : via) (cli : Z) (g : get_call) (start : Z).

Record kt_sys := {
  kt_kv : KVServer;
  kt_test : Test;
  kt_now : Z;
  kt_clients : list (S * call_state)
}.

(** [d] nanoseconds after the last event: client [i] takes its next turn, makes one RPC
    attempt of its call, or its call returns. *)
Inductive kt_event :=
  | KTurn (i : nat) (d : N) (ch : Ch)
  | KRpc (i : nat) (d : N) (f : call_fate)
  | KReturn (i : nat) (d : N).

Definition kt_set (s : kt_sys) (kv : KVServer) (ts : Test) (now : Z) (i : nat) (c : S * call_state)
    : kt_sys :=
  {| kt_kv := kv; kt_test := ts; kt_now := now; kt_clients := <[i := c]> (kt_clients s) |}.

(** [TestClerk] counts every call before it makes it. *)
Definition kt_turn (i : nat) (now : Z) (ch : Ch) (st : S) (s : kt_sys) : outcome kt_sys :=
  t ← cl_turn prog ch st;
  match t with
  | Local st' => Ret (kt_set s (kt_kv s) (kt_test s) now i (st', Ready))
  | CallPut v cli a =>
      Ret (kt_set s (kt_kv s) (OpInc (kt_test s)) now i (st, Putting v cli (put_begin a) now))
  | CallGet v cli key =>
      Ret (kt_set s (kt_kv s) (OpInc (kt_test s)) now i
             (st, Getting v cli (get_begin {| ga_Key := key |}) now))
  | Returned => Ret s
  end.

Definition kt_rpc (i : nat) (now : Z) (f : call_fate) (st : S) (c : call_state) (s : kt_sys) : kt_sys :=
  match c with
  | Ready => s
  | Putting v cli p start =>
      match put_result p with
      | Some _ => s
      | None => let '(kv', p') := put_attempt f (kt_kv s) p in
                kt_set s kv' (kt_test s) now i (st, Putting v cli p' start)
      end
  | Getting v cli g start =>
      match get_result g with
      | Some _ => s
      | None => kt_set s (kt_kv s) (kt_test s) now i
                  (st, Getting v cli (get_attempt f (kt_kv s) g) start)
      end
  end.

Definition kt_return (i : nat) (now : Z) (st : S) (c : call_state) (s : kt_sys) : outcome kt_sys :=
  match c with
  | Ready => Ret s
  | Putting v cli p start =>
      match put_result p with
      | None => Ret s
      | Some err =>
          let ts := Put_return v (put_op cli (put_args p) err start now) (kt_test s) in
          st' ← cl_put prog st err;
          Ret (kt_set s (kt_kv s) ts now i (st', Ready))
      end
  | Getting v cli g start =>
      match get_result g with
      | None => Ret s
      | Some r =>
          let ts := Get_return v (get_op cli (ga_Key (get_args g)) r start now) (kt_test s) in
          st' ← cl_get prog st r;
          Ret (kt_set s (kt_kv s) ts now i (st', Ready))
      end
  end.

Definition kt_step (e : kt_event) (s : kt_sys) : outcome kt_sys :=
  match e with
  | KTurn i d ch =>
      match kt_clients s !! i with
      | Some (st, Ready) => kt_turn i (kt_now s + Z.of_N d) ch st s
      | _ => Ret s
      end
  | KRpc i d f =>
      match kt_clients s !! i with
      | Some (st, c) => Ret (kt_rpc i (kt_now s + Z.of_N d) f st c s)
      | None => Ret s
      end
  | KReturn i d =>
      match kt_clients s !! i with
      | Some (st, c) => kt_return i (kt_now s + Z.of_N d) st c s
      | None => Ret s
      end
  end.

Fixpoint kt_run (es : list kt_event) (s : kt_sys) : outcome kt_sys :=
  match es with [] => Ret s | e :: es => s ← kt_step e s; kt_run es s end.

(** [SpawnClientsAndWait] starts [clients] on a server with state [kv]. *)
Definition kt_init (kv : KVServer) (now : Z) (clients : list S) : kt_sys :=
  {| kt_kv := kv; kt_test := {| ts_oplog := []; ts_ops := 0 |}; kt_now := now;
     kt_clients := (λ st, (st, Ready)) <$> clients |}.

(** Every spawned client has returned, with no call under way. *)
Definition kt_idle (s : kt_sys) : Prop := Forall (λ c, c.2 = Ready) (kt_clients s).
End system.
Arguments call_state {C}.
Arguments kt_sys {C} S.
Arguments kt_event _ : clear implicits.

(** ** The clients of [kvtest.go] *)

Definition RandValue_letters : string := "abcdefghijklmnopqrstuvwxyzABCDEFGHIJKLMNOPQRSTUVWXYZ".

(** [RandValue(n)], from the [n] numbers [rand.Int63] returns. *)
Definition RandValue (rands : list Z) : string :=
  String.concat "" ((λ r, String.substring (Z.to_nat (r `mod` 52)) 1 RandValue_letters) <$> rands).

Record ClntRes := { Nok : Z; Nmaybe : Z }.
#[export] Instance eta_ClntRes : Eta ClntRes := λ r, {| Nok := Nok r; Nmaybe := Nmaybe r |}.
Definition ClntRes_zero : ClntRes := {| Nok := 0; Nmaybe := 0 |}.

(** [EntryV] is [{Id, V}]; [entry] and [EntryN] are [{Id, N}]. *)
Definition json_EntryV (e : Z * Z) : string := json_pair "Id" "V" e.
Definition read_EntryV (s : string) : option (Z * Z) :=
  match read_pair "Id" "V" s with Some (e, "") => Some e | _ => None end.
Definition json_entries (es : list (Z * Z)) : string := json_pairs "Id" "N" es.
Definition read_entries (s : string) : option (list (Z * Z)) := read_pairs "Id" "N" s.

(** [GetJson], after its Get: the decoded value and the version. *)
Definition GetJson {A} (read : string → option A) (r : string * Tversion * Err) : outcome (A * Tversion) :=
  let '(val, ver, err) := r in
  if decide (err = OK) then
    match read val with Some a => Ret (a, ver) | None => Fatal "Unmarshal err" end
  else Fatal "Get err".

(** What a turn chooses at a select: the [done] signal, or [default] with the number
    [rand.Int] would return. *)
Definition choice := option Z.

(** *** [OneClientPut] and its [OnePut] *)

Inductive put_at :=
  | PutSelect
  | PutPut (k : string) (ver : Tversion)
  | PutGet (k : string) (ver : Tversion) (err : Err)
  | PutReturned.

Record put_client := {
  pc_me : Z; pc_ka : list string; pc_randomkeys : bool;
  pc_verm : gmap string Tversion; pc_res : ClntRes; pc_at : put_at
}.
#[export] Instance eta_put_client : Eta put_client := λ c,
  {| pc_me := pc_me c; pc_ka := pc_ka c; pc_randomkeys := pc_randomkeys c;
     pc_verm := pc_verm c; pc_res := pc_res c; pc_at := pc_at c |}.

Definition OneClientPut (me : Z) (ka : list string) (randomkeys : bool) : put_client :=
  {| pc_me := me; pc_ka := ka; pc_randomkeys := randomkeys;
     pc_verm := list_to_map ((λ k, (k, 0)) <$> ka); pc_res := ClntRes_zero; pc_at := PutSelect |}.

Definition put_turn (ch : choice) (c : put_client) : outcome (turn put_client) :=
  match pc_at c with
  | PutSelect =>
      match ch with
      | None => Ret (Local (c <| pc_at := PutReturned |>))
      | Some r =>
          k ← (if pc_randomkeys c then
                 if decide (zlen (pc_ka c) = 0) then Panic "integer divide by zero"
                 else go_index (pc_ka c) (r `mod` zlen (pc_ka c))
               else go_index (pc_ka c) 0);
          Ret (Local (c <| pc_at := PutPut k (default 0 (pc_verm c !! k)) |>))
      end
  | PutPut k ver =>
      Ret (CallPut ViaJson (pc_me c)
             {| pa_Key := k; pa_Value := json_EntryV (pc_me c, ver); pa_Version := ver |})
  | PutGet k _ _ => Ret (CallGet ViaJson (pc_me c) k)
  | PutReturned => Ret Returned
  end.

Definition put_put (c : put_client) (err : Err) : outcome put_client :=
  match pc_at c with
  | PutPut k ver =>
      if decide (err = OK ∨ err = ErrVersion ∨ err = ErrMaybe)
      then Ret (c <| pc_at := PutGet k ver err |>) else Fatal "Wrong error"
  | _ => Ret c
  end.

Definition put_get (c : put_client) (r : string * Tversion * Err) : outcome put_client :=
  match pc_at c with
  | PutGet k ver err =>
      '(e, ver0) ← GetJson read_EntryV r;
      if decide (err = OK ∧ ver0 = u64 (ver + 1) ∧ e.1 ≠ pc_me c ∧ e.2 ≠ ver)
      then Fatal "Wrong value"
      else if decide (err = OK ∨ err = ErrMaybe) then
        let res := if decide (err = OK) then (pc_res c) <| Nok := Nok (pc_res c) + 1 |>
                   else (pc_res c) <| Nmaybe := Nmaybe (pc_res c) + 1 |> in
        Ret (c <| pc_verm := <[k := ver0]> (pc_verm c) |> <| pc_res := res |> <| pc_at := PutSelect |>)
      else Ret (c <| pc_at := PutPut k ver0 |>)
  | _ => Ret c
  end.

Definition put_prog : client_prog choice put_client :=
  {| cl_turn := put_turn; cl_put := put_put; cl_get := put_get |}.

(** [CheckPutConcurrent], from the answer [r] of its own Get; it adds to the caller's [res]. *)
Definition sum_results (rs : list ClntRes) (res : ClntRes) : ClntRes :=
  foldl (λ res r, {| Nok := Nok res + Nok r; Nmaybe := Nmaybe res + Nmaybe r |}) res rs.

Definition CheckPutConcurrent (r : string * Tversion * Err) (rs : list ClntRes) (res : ClntRes)
    (reliable : bool) : outcome ClntRes :=
  '(_, ver0) ← GetJson read_EntryV r;
  let res := sum_results rs res in
  if reliable then
    if decide (ver0 ≠ u64 (Nok res)) then Fatal "Reliable: Wrong number of puts" else Ret res
  else if decide (ver0 > u64 (Nok res + Nmaybe res)) then Fatal "Unreliable: Wrong number of puts"
  else Ret res.

(** *** [OneClientAppend] *)

Inductive app_at :=
  | AppSelect
  | AppGet
  | AppPut (es : list (Z * Z)) (ver : Tversion)
  | AppReturned.

Record app_client := { ac_me : Z; ac_i : Z; ac_nok : Z; ac_nmay : Z; ac_at : app_at }.
#[export] Instance eta_app_client : Eta app_client := λ c,
  {| ac_me := ac_me c; ac_i := ac_i c; ac_nok := ac_nok c; ac_nmay := ac_nmay c; ac_at := ac_at c |}.

Definition OneClientAppend (me : Z) : app_client :=
  {| ac_me := me; ac_i := 0; ac_nok := 0; ac_nmay := 0; ac_at := AppSelect |}.

Definition app_result (c : app_client) : ClntRes := {| Nok := ac_nok c; Nmaybe := ac_nmay c |}.

Definition append_key : string := "k".

Definition app_turn (ch : choice) (c : app_client) : outcome (turn app_client) :=
  match ac_at c with
  | AppSelect =>
      Ret (Local (c <| ac_at := match ch with None => AppReturned | Some _ => AppGet end |>))
  | AppGet => Ret (CallGet ViaJson (ac_me c) append_key)
  | AppPut es ver =>
      Ret (CallPut ViaJson (ac_me c)
             {| pa_Key := append_key; pa_Value := json_entries es; pa_Version := ver |})
  | AppReturned => Ret Returned
  end.

Definition app_get (c : app_client) (r : string * Tversion * Err) : outcome app_client :=
  match ac_at c with
  | AppGet =>
      '(es, ver) ← GetJson read_entries r;
      Ret (c <| ac_at := AppPut (es ++ [(ac_me c, ac_i c)]) ver |>)
  | _ => Ret c
  end.

Definition app_put (c : app_client) (err : Err) : outcome app_client :=
  match ac_at c with
  | AppPut _ _ =>
      if decide (err = OK) then
        Ret (c <| ac_nok := ac_nok c + 1 |> <| ac_i := ac_i c + 1 |> <| ac_at := AppSelect |>)
      else if decide (err = ErrMaybe) then
        Ret (c <| ac_nmay := ac_nmay c + 1 |> <| ac_i := ac_i c + 1 |> <| ac_at := AppSelect |>)
      else Ret (c <| ac_at := AppGet |>)
  | _ => Ret c
  end.

Definition app_prog : client_prog choice app_client :=
  {| cl_turn := app_turn; cl_put := app_put; cl_get := app_get |}.

(** *** [CheckAppends] *)

Abbreviation zmap := (gmap Z Z).
Definition at0 (m : zmap) (k : Z) : Z := default 0 (m !! k).

(** One entry: the maps [expect] and [skipped] after it. *)
Definition check_entry (e : Z * Z) (m : zmap * zmap) : outcome (zmap * zmap) :=
  let '(expect, skipped) := m in
  let '(id, n) := e in
  if decide (at0 expect id > n) then Fatal "wrong expecting"
  else if decide (at0 expect id = n) then Ret (<[id := at0 expect id + 1]> expect, skipped)
  else
    let s := n - at0 expect id in
    Ret (<[id := n + 1]> expect, <[id := at0 skipped id + s]> skipped).

Definition check_client (skipped : zmap) (rs : list ClntRes) (cn : Z * Z) (_ : unit) : outcome unit :=
  let '(c, n) := cn in
  r ← go_index rs c;
  if decide (at0 skipped c > Nmaybe r) then Fatal "skipped puts > maybe"
  else if decide (n > Nok r + Nmaybe r) then Fatal "puts on server > ok+maybe"
  else Ret tt.

(** [range_order] is the order in which Go ranges over [expect]. *)
Definition CheckAppends (range_order : list (Z * Z) → list (Z * Z)) (es : list (Z * Z)) (nclnt : nat)
    (rs : list ClntRes) (ver : Tversion) : outcome unit :=
  let m0 : zmap := list_to_map ((λ i, (Z.of_nat i, 0)) <$> seq 0 nclnt) in
  '(expect, skipped) ← go_for check_entry es (m0, m0);
  if decide (zlen es + 1 ≠ i64 ver) then Fatal "appends in val != puts on server"
  else go_for (check_client skipped rs) (range_order (map_to_list expect)) tt.

(** *** Single calls *)

(** One turn of [PutAtLeastOnce]'s loop, after its Put: the version and whether it is done. *)
Definition PutAtLeastOnce_put (ver : Tversion) (err : Err) : outcome (Tversion * bool) :=
  if decide (err = OK) then Ret (u64 (ver + 1), true)
  else if decide (err = ErrMaybe ∨ err = ErrVersion) then Ret (u64 (ver + 1), false)
  else if decide (ver ≠ 0) then Fatal "Put err" else Ret (ver, false).

(** [PutAtLeastOnceJson] sends version 0 every time and counts the [ErrMaybe]s. *)
Definition PutAtLeastOnceJson_put (ver : Tversion) (err : Err) : Tversion * bool :=
  if decide (err ≠ ErrMaybe) then (ver, true) else (u64 (ver + 1), false).

(** [CheckGet], after its Get. *)
Definition CheckGet (value : string) (version : Tversion) (r : string * Tversion * Err) : outcome unit :=
  let '(val, ver, err) := r in
  if decide (err ≠ OK) then Fatal "Get returns error"
  else if decide (val ≠ value ∨ ver ≠ version) then Fatal "Get returns another value"
  else Ret tt.

Definition MakeKeys (n : nat) : list string := (λ i : nat, "k" +:+ strconv_Itoa (Z.of_nat i)) <$> seq 0 n.
