(* ===== verification/KVCalls.v ===== *)
(** * Calls in progress on a key/value server

    What a clerk that keeps [IKVClerkLaws] can do to the server with one attempt of a Put, and
    what stays true of a pending Put while other clients' requests run.  The proofs about
    clients ([KVTestSafety], [KVHistory]) rest on these lemmas alone. *)
From stdpp Require Import base tactics numbers list fin_maps gmap strings.
From S2P Require Import Prelude GoLib KVServer KVClerk.

(** ** A server only moves forward *)

Definition kv_le (kv kv' : KVServer) : Prop :=
  ∀ k, version_of kv k ≤ version_of kv' k ∧
       (is_Some (KeyValueItems kv !! k) → is_Some (KeyValueItems kv' !! k)).

#[export] Instance kv_le_preorder : PreOrder kv_le.
Proof.
  split; [intros kv k; naive_solver|].
  intros a b c Hab Hbc k. destruct (Hab k), (Hbc k). split; [lia|auto].
Qed.

(** The versions of a server that ran at most [n] Puts. *)
Definition kv_bounded (n : Z) (kv : KVServer) : Prop := kv_wf kv ∧ ∀ k, version_of kv k ≤ n.

Lemma MakeKVServer_bounded : kv_bounded 0 MakeKVServer.
Proof. split; [apply MakeKVServer_wf|]. intros k. unfold version_of. cbn. by rewrite lookup_empty. Qed.

Section put.
Implicit Types (kv : KVServer) (a : PutArgs).

Abbreviation run_put kv a := (KVServer_Put kv a PutReply_zero).1.

Lemma Put_bounded n kv a : kv_bounded n kv → n < max_u64 → kv_bounded (n + 1) (run_put kv a).
Proof.
  intros [Hwf Hb] Hn. split; [eauto with kv|]. intros k. specialize (Hb k).
  pose proof (Put_version_step kv a PutReply_zero k Hwf). lia.
Qed.

Lemma Put_le n kv a : kv_bounded n kv → n < max_u64 → kv_le kv (run_put kv a).
Proof.
  intros [Hwf Hb] Hn k. specialize (Hb k). split; [|eauto with kv].
  pose proof (Put_version_step kv a PutReply_zero k Hwf). lia.
Qed.

(** What an accepted Put leaves behind. *)
Lemma Put_accepted_after n kv a :
  kv_bounded n kv → n < max_u64 → put_ok kv a →
  version_of (run_put kv a) (pa_Key a) = pa_Version a + 1 ∧
  value_of (run_put kv a) (pa_Key a) = pa_Value a ∧
  is_Some (KeyValueItems (run_put kv a) !! pa_Key a).
Proof.
  intros [Hwf Hb] Hn Hok. split_and!; [|by apply Put_value_accepted|].
  - apply Put_version_accepted; [done..|]. unfold put_ok in Hok. specialize (Hb (pa_Key a)). lia.
  - rewrite Put_state_accepted by done. rewrite lookup_insert_eq. eauto.
Qed.

Lemma Put_other kv a k :
  k ≠ pa_Key a → version_of (run_put kv a) k = version_of kv k ∧ value_of (run_put kv a) k = value_of kv k.
Proof. intros Hk. unfold version_of, value_of. by rewrite Put_other_key. Qed.
End put.

(** ** A pending Put *)

Section pending.
Context {C : IKVClerk} {HC : IKVClerkLaws C}.
Implicit Types (kv : KVServer) (p : put_call).

(** The call has not returned; [done] tells whether some attempt performed it. *)
Record put_pending (kv : KVServer) (p : put_call) (done : bool) : Prop := {
  pp_result : put_result p = None;
  pp_done : done = true →
    put_sent p = true ∧ pa_Version (put_args p) < version_of kv (pa_Key (put_args p)) ∧
    is_Some (KeyValueItems kv !! pa_Key (put_args p))
}.

Lemma put_begin_pending kv a : put_pending kv (put_begin a) false.
Proof. split; [apply put_begin_result|done]. Qed.

Lemma put_pending_le kv kv' p b : kv_le kv kv' → put_pending kv p b → put_pending kv' p b.
Proof.
  intros Hle [Hr Hd]. split; [done|]. intros Hb. destruct (Hd Hb) as (? & ? & ?).
  destruct (Hle (pa_Key (put_args p))). split_and!; [done|lia|auto].
Qed.

(** One attempt: lost, performed without an answer, or returning one of the four errors.  A
    Put is performed only while [done] is false. *)
Inductive put_moved (kv : KVServer) (p : put_call) (done : bool) (kv' : KVServer) (p' : put_call) : Prop :=
  | moved_lost : kv' = kv → put_pending kv' p' done → put_moved kv p done kv' p'
  | moved_performed :
      done = false → put_ok kv (put_args p) → kv' = (KVServer_Put kv (put_args p) PutReply_zero).1 →
      put_pending kv' p' true → put_moved kv p done kv' p'
  | moved_OK :
      done = false → put_ok kv (put_args p) → kv' = (KVServer_Put kv (put_args p) PutReply_zero).1 →
      put_result p' = Some OK → put_moved kv p done kv' p'
  | moved_Version :
      done = false → kv' = kv → ¬ put_ok kv (put_args p) →
      is_Some (KeyValueItems kv !! pa_Key (put_args p)) →
      put_result p' = Some ErrVersion → put_moved kv p done kv' p'
  | moved_Maybe :
      put_sent p = true → kv' = kv → ¬ put_ok kv (put_args p) →
      is_Some (KeyValueItems kv !! pa_Key (put_args p)) →
      put_result p' = Some ErrMaybe → put_moved kv p done kv' p'
  | moved_NoKey :
      done = false → kv' = kv → KeyValueItems kv !! pa_Key (put_args p) = None →
      ¬ put_ok kv (put_args p) →
      put_result p' = Some ErrNoKey → put_moved kv p done kv' p'.

Lemma put_attempt_moved n f kv p b :
  kv_bounded n kv → n < max_u64 → put_pending kv p b →
  put_args (put_attempt f kv p).2 = put_args p ∧
  put_moved kv p b (put_attempt f kv p).1 (put_attempt f kv p).2.
Proof.
  intros Hb Hn [Hres Hdone]. pose proof (put_attempt_args f kv p) as Ha. split; [done|].
  pose proof (put_attempt_server f kv p) as Hsrv. pose proof (put_attempt_sent f kv p Hres) as Hsent.
  pose proof (λ e, put_attempt_result f kv p e Hres) as Hverd.
  destruct (put_attempt f kv p) as [kv' p']; cbn [fst snd] in *.
  assert (b = true → ¬ put_ok kv (put_args p)) as Hstale.
  { intros ->. destruct (Hdone eq_refl) as (_ & ? & _). unfold put_ok. lia. }
  destruct (put_result p') as [e|] eqn:Hr.
  - destruct (Hverd e eq_refl) as [Hv ->]. destruct Hv as [Hok|it Hit Hno|Hnone Hno].
    + apply moved_OK; try done. destruct b; [by destruct (Hstale eq_refl)|done].
    + rewrite Put_state_rejected by done. destruct (put_sent p) eqn:Hs.
      * apply moved_Maybe; eauto.
      * apply moved_Version; eauto. destruct b; [by destruct (Hdone eq_refl)|done].
    + rewrite Put_state_rejected by done. apply moved_NoKey; auto.
      destruct b; [|done]. destruct (Hdone eq_refl) as (_ & _ & [? ?]). congruence.
  - specialize (Hsent eq_refl). destruct Hsrv as [->| ->].
    { apply moved_lost; [done|]. split; [done|]. rewrite Ha. naive_solver. }
    destruct (decide (put_ok kv (put_args p))) as [Hok|Hno].
    + destruct (Put_accepted_after n kv (put_args p) Hb Hn Hok) as (Hver & _ & Hsome).
      apply moved_performed; try done; [destruct b; [by destruct (Hstale eq_refl)|done]|].
      split; [done|]. rewrite Ha, Hver. unfold put_ok in Hok. intros _. split_and!; [done|lia|done].
    + rewrite Put_state_rejected by done. apply moved_lost; [done|]. split; [done|]. rewrite Ha. naive_solver.
Qed.

(** Whatever happened, the server moved forward by at most one version. *)
Lemma put_attempt_bounded n f kv p :
  kv_bounded n kv → n < max_u64 →
  kv_bounded (n + 1) (put_attempt f kv p).1 ∧ kv_le kv (put_attempt f kv p).1.
Proof.
  intros Hb Hn. destruct (put_attempt_server f kv p) as [->| ->].
  - split; [|done]. destruct Hb as [? Hb]. split; [done|]. intros k. specialize (Hb k). lia.
  - split; [by apply Put_bounded|by eapply Put_le].
Qed.
End pending.
