(* ===== verification/KVTestSafety.v ===== *)
(** * The key/value tests pass

    Over any clerk that keeps [IKVClerkLaws], whatever the network loses and however the
    clients interleave: the clients of [OneClientPut] and [OneClientAppend] never end in one
    of their own failures, and [CheckPutConcurrent] and [CheckAppends] accept what they leave
    on the server. *)
From stdpp Require Import base tactics numbers list fin_maps gmap strings.
From S2P Require Import Prelude GoLib GoStrings GoJson KVServer KVModel KVClerk KVTest KVCalls.

(** ** Runs *)

Section runs.
Context {C : IKVClerk} {Ch S : Type} (prog : client_prog Ch S).
Implicit Types (s : kt_sys S) (es : list (kt_event Ch)).

(** No step adds or loses a client. *)
Lemma kt_step_length e s s' : kt_step prog e s = Ret s' → length (kt_clients s') = length (kt_clients s).
Proof.
  assert (∀ kv ts now i c, length (kt_clients (kt_set s kv ts now i c)) = length (kt_clients s)) as Hset
    by (intros; apply length_insert).
  destruct e as [i d ch|i d f|i d]; cbn [kt_step]; destruct (kt_clients s !! i) as [[st call]|];
    try by intros [= <-].
  - destruct call; try by intros [= <-]. unfold kt_turn. intros (t & _ & E)%bind_ret_inv.
    destruct t; injection E as <-; auto.
  - intros [= <-]. unfold kt_rpc. repeat case_match; auto.
  - unfold kt_return. repeat case_match; try by intros [= <-].
    all: intros (st' & _ & [= <-])%bind_ret_inv; auto.
Qed.

(** An invariant indexed by the number of events so far. *)
Lemma kt_run_inv (Inv : Z → kt_sys S → Prop) (ok : kt_event Ch → Prop) es n s :
  (∀ n e s, n < max_u64 → ok e → Inv n s → ∃ s', kt_step prog e s = Ret s' ∧ Inv (n + 1) s') →
  Forall ok es → n + zlen es ≤ max_u64 → Inv n s →
  ∃ s', kt_run prog es s = Ret s' ∧ Inv (n + zlen es) s'.
Proof.
  intros Hstep Hok. revert n s. induction Hok as [|e es He Hes IH]; intros n s Hn Hinv; cbn.
  { exists s. rewrite zlen_nil, Z.add_0_r. done. }
  rewrite zlen_cons in *. pose proof (zlen_nonneg es).
  destruct (Hstep n e s) as (s1 & -> & H1); [lia|done..|]. rewrite bind_ret_l.
  destruct (IH (n + 1) s1) as (s' & ? & ?); [lia|done|]. exists s'. split; [done|].
  by replace (n + (zlen es + 1)) with (n + 1 + zlen es) by lia.
Qed.
End runs.

Lemma pair_json_inj f1 f2 (v w : Z * Z) : json_pair f1 f2 v = json_pair f1 f2 w → v = w.
Proof.
  intros Heq. pose proof (read_pair_json f1 f2 v "") as Hv. rewrite Heq, read_pair_json in Hv.
  by simplify_eq.
Qed.

Lemma read_json_EntryV e : read_EntryV (json_EntryV e) = Some e.
Proof.
  unfold read_EntryV, json_EntryV. rewrite <- (append_nil_r (json_pair _ _ e)).
  by rewrite read_pair_json.
Qed.

(** ** [OneClientPut] *)

Section put_test.
Context {C : IKVClerk} {HC : IKVClerkLaws C} (rel : bool) (k : string).
Implicit Types (s : kt_sys put_client) (kv : KVServer) (c : put_client).

(** A version a client may know: one the key has had. *)
Definition known kv (ver : Z) : Prop :=
  0 ≤ ver ≤ version_of kv k ∧ (ver = 0 ∨ is_Some (KeyValueItems kv !! k)).

(** The least and the most Puts that an answer, not yet counted by the client, stands for;
    on a reliable network there is no [ErrMaybe]. *)
Definition answered (e : Err) (lo hi : Z) : Prop :=
  (e = OK ∧ lo = 1 ∧ hi = 1) ∨ (e = ErrVersion ∧ lo = 0 ∧ hi = 0) ∨
  (e = ErrMaybe ∧ rel = false ∧ lo = 0 ∧ hi = 1).

Definition put_place kv (me : Z) (at_ : put_at) (call : call_state) (lo hi : Z) : Prop :=
  match at_, call with
  | PutSelect, Ready | PutReturned, Ready => lo = 0 ∧ hi = 0
  | PutPut k' ver, Ready => k' = k ∧ known kv ver ∧ lo = 0 ∧ hi = 0
  | PutPut k' ver, Putting ViaJson _ p _ =>
      k' = k ∧ known kv ver ∧
      put_args p = {| pa_Key := k; pa_Value := json_EntryV (me, ver); pa_Version := ver |} ∧
      match put_result p with
      | None => ∃ b, put_pending kv p b ∧ (rel = true → put_sent p = false) ∧
                     lo = Z.b2z b ∧ hi = Z.b2z b
      | Some e => is_Some (KeyValueItems kv !! k) ∧ answered e lo hi
      end
  | PutGet k' ver e, Ready =>
      k' = k ∧ known kv ver ∧ is_Some (KeyValueItems kv !! k) ∧ answered e lo hi
  | PutGet k' ver e, Getting ViaJson _ g _ =>
      k' = k ∧ known kv ver ∧ is_Some (KeyValueItems kv !! k) ∧ answered e lo hi ∧
      get_args g = {| ga_Key := k |} ∧
      match get_result g with
      | None => True
      | Some r => ∃ id ver0, r = (json_EntryV (id, ver0 - 1), ver0, OK) ∧ known kv ver0
      end
  | _, _ => False
  end.

(** A client that performed [w] Puts so far. *)
Record put_client_ok kv (me : Z) c (call : call_state) (w : Z) : Prop := {
  pk_me : pc_me c = me;
  pk_ka : pc_ka c = [k];
  pk_verm : known kv (default 0 (pc_verm c !! k));
  pk_res : 0 ≤ Nok (pc_res c) ∧ 0 ≤ Nmaybe (pc_res c);
  pk_rel : rel = true → Nmaybe (pc_res c) = 0;
  pk_place : ∃ lo hi, put_place kv me (pc_at c) call lo hi ∧
    Nok (pc_res c) + lo ≤ w ≤ Nok (pc_res c) + Nmaybe (pc_res c) + hi
}.

(** What is stored was put at the version before. *)
Definition stored kv : Prop :=
  is_Some (KeyValueItems kv !! k) → ∃ id, value_of kv k = json_EntryV (id, version_of kv k - 1).

Definition total c : Z := Nok (pc_res c) + Nmaybe (pc_res c).

Record put_inv (n : Z) s (w : list Z) : Prop := {
  pi_bounded : kv_bounded n (kt_kv s);
  pi_stored : stored (kt_kv s);
  pi_sum : version_of (kt_kv s) k = zsum w;
  pi_count : zsum (total ∘ fst <$> kt_clients s) ≤ n;
  pi_len : length w = length (kt_clients s);
  pi_clients (i : nat) c call x : kt_clients s !! i = Some (c, call) → w !! i = Some x →
    put_client_ok (kt_kv s) (Z.of_nat i) c call x
}.

Lemma known_le kv kv' ver : kv_le kv kv' → known kv ver → known kv' ver.
Proof. intros Hle [? ?]. destruct (Hle k). split; [lia|naive_solver]. Qed.

Lemma put_place_le kv kv' me at_ call lo hi :
  kv_le kv kv' → put_place kv me at_ call lo hi → put_place kv' me at_ call lo hi.
Proof.
  intros Hle. pose proof (known_le kv kv') as Hk. pose proof (proj2 (Hle k)) as Hsome. unfold put_place.
  destruct at_; destruct call as [|[] ? ? ?|[] ? ? ?]; try done.
  - intros (-> & ? & ?). auto.
  - intros (-> & ? & ? & Hr). split_and!; [done|by apply Hk|done|]. destruct (put_result p).
    { destruct Hr. auto. }
    destruct Hr as (b & ? & ? & ?). exists b. split_and!; [by eapply put_pending_le|tauto..].
  - intros (-> & ? & ? & ?). auto.
  - intros (-> & ? & ? & ? & ? & Hr). split_and!; auto.
    destruct (get_result g); [|done]. destruct Hr as (id & v0 & ? & ?). eauto.
Qed.

Lemma put_client_ok_le kv kv' me c call w :
  kv_le kv kv' → put_client_ok kv me c call w → put_client_ok kv' me c call w.
Proof.
  intros Hle [? ? ? ? ? (lo & hi & Hp & ?)]. split; try done; [by eapply known_le|].
  exists lo, hi. split; [|done]. by eapply put_place_le.
Qed.

Lemma put_inv_mono n s w : put_inv n s w → put_inv (n + 1) s w.
Proof.
  intros [[? Hb] ? ? ? ? ?]. split; try done; [|lia]. split; [done|]. intros j. specialize (Hb j). lia.
Qed.

(** A step of client [i] that raises the key's version by what the client performed. *)
Lemma put_inv_set n s w i c call x kv' ts now c' call' x' :
  put_inv n s w → kt_clients s !! i = Some (c, call) → w !! i = Some x →
  kv_bounded (n + 1) kv' → kv_le (kt_kv s) kv' → stored kv' →
  version_of kv' k = version_of (kt_kv s) k - x + x' → total c' ≤ total c + 1 →
  put_client_ok kv' (Z.of_nat i) c' call' x' →
  put_inv (n + 1) (kt_set s kv' ts now i (c', call')) (<[i := x']> w).
Proof.
  intros [? ? Hsum Hcount Hlen Hcl] Hi Hx Hb Hle Hst Hver Htot Hok. split; cbn; try done.
  - rewrite (zsum_insert w i x) by done. lia.
  - rewrite list_fmap_insert. erewrite zsum_insert by (rewrite list_lookup_fmap, Hi; done). cbn. lia.
  - by rewrite !length_insert.
  - intros j c1 call1 x1 Hj Hxj. destruct (decide (i = j)) as [<-|Hij].
    + rewrite list_lookup_insert_eq in Hj by (by eapply lookup_lt_Some).
      rewrite list_lookup_insert_eq in Hxj by (by eapply lookup_lt_Some). by simplify_eq.
    + rewrite (list_lookup_insert_ne _ _ _ _ Hij) in Hj. rewrite (list_lookup_insert_ne _ _ _ _ Hij) in Hxj.
      eapply put_client_ok_le; [done|by eapply Hcl].
Qed.

(** The common case: the server stays as it is. *)
Lemma put_inv_set_same n s w i c call x ts now c' call' :
  put_inv n s w → kt_clients s !! i = Some (c, call) → w !! i = Some x → total c' ≤ total c + 1 →
  put_client_ok (kt_kv s) (Z.of_nat i) c' call' x →
  put_inv (n + 1) (kt_set s (kt_kv s) ts now i (c', call')) w.
Proof.
  intros Hinv Hi Hx Htot Hok. rewrite <- (list_insert_id w i x) by done.
  eapply put_inv_set; try done; [apply (put_inv_mono _ _ _ Hinv)|apply (pi_stored _ _ _ Hinv)|lia].
Qed.

(** *** The steps *)

Ltac total_lia := unfold total; cbn; lia.

Lemma put_turn_ok n s w i c x ch now :
  put_inv n s w → kt_clients s !! i = Some (c, Ready) → w !! i = Some x →
  ∃ s', kt_turn put_prog i now ch c s = Ret s' ∧ put_inv (n + 1) s' w.
Proof.
  intros Hinv Hi Hx. destruct (pi_clients _ _ _ Hinv i c Ready x Hi Hx) as [Hme Hka Hv Hres Hrel (lo & hi & Hp & Hw)].
  unfold kt_turn. cbn [cl_turn put_prog]. unfold put_turn. destruct (pc_at c) as [|k' ver|k' ver e|] eqn:Hat.
  - destruct ch as [r|].
    + assert ((if pc_randomkeys c then if decide (zlen (pc_ka c) = 0) then Panic "integer divide by zero"
               else go_index (pc_ka c) (r `mod` zlen (pc_ka c)) else go_index (pc_ka c) 0) = Ret k) as ->.
      { rewrite Hka. change (zlen [k]) with 1. rewrite Z.mod_1_r. by destruct (pc_randomkeys c). }
      rewrite !bind_ret_l. eexists. split; [done|]. eapply put_inv_set_same; eauto; [total_lia|].
      split; try done. exists 0, 0. cbn. destruct Hp as [-> ->]. done.
    + eexists. split; [done|]. eapply put_inv_set_same; eauto; [total_lia|].
      split; try done. exists lo, hi. done.
  - destruct Hp as (-> & ? & -> & ->). eexists. split; [done|]. eapply put_inv_set_same; eauto; [total_lia|].
    split; try done. exists 0, 0. split; [|done]. rewrite Hat. cbn.
    rewrite put_begin_args, put_begin_result, Hme. split_and!; [done..|].
    exists false. split_and!; [apply put_begin_pending|by rewrite put_begin_sent|done..].
  - destruct Hp as (-> & ? & ? & ?). eexists. split; [done|]. eapply put_inv_set_same; eauto; [total_lia|].
    split; try done. exists lo, hi. split; [|done]. rewrite Hat. cbn.
    by rewrite get_begin_args, get_begin_result.
  - eexists. split; [done|]. by apply put_inv_mono.
Qed.

(** One attempt of a client's Put. *)
Lemma put_rpc_ok n s w i c v cli p start x f now :
  n < max_u64 → (rel = true → f = Delivered) → put_inv n s w →
  kt_clients s !! i = Some (c, Putting v cli p start) → w !! i = Some x → put_result p = None →
  ∃ w', put_inv (n + 1) (kt_set s (put_attempt f (kt_kv s) p).1 (kt_test s) now i
                           (c, Putting v cli (put_attempt f (kt_kv s) p).2 start)) w'.
Proof.
  intros Hn Hf Hinv Hi Hx Hres.
  destruct (pi_clients _ _ _ Hinv i c _ x Hi Hx) as [Hme Hka Hv Hrs Hrel (lo & hi & Hp & Hw)].
  destruct (pc_at c) as [|k' ver|k' ver e|] eqn:Hat; [done| |done..]. destruct v; try done.
  destruct Hp as (-> & Hkn & Hargs & Hp). rewrite Hres in Hp. destruct Hp as (b & Hpend & Hsent & -> & ->).
  pose proof (pi_bounded _ _ _ Hinv) as Hb. pose proof (pi_stored _ _ _ Hinv) as Hst.
  destruct (put_attempt_moved n f (kt_kv s) p b Hb Hn Hpend) as [Ha Hm].
  destruct (put_attempt_bounded n f (kt_kv s) p Hb Hn) as [Hb' Hle].
  pose proof (λ Hr, put_attempt_delivered (kt_kv s) p Hr) as Hdel.
  destruct (put_attempt f (kt_kv s) p) as [kv' p'] eqn:Hatt; cbn [fst snd] in *.
  assert (∀ x' lo' hi', version_of kv' k = version_of (kt_kv s) k - x + x' → stored kv' →
    match put_result p' with
      | None => ∃ b, put_pending kv' p' b ∧ (rel = true → put_sent p' = false) ∧
                     lo' = Z.b2z b ∧ hi' = Z.b2z b
      | Some e => is_Some (KeyValueItems kv' !! k) ∧ answered e lo' hi'
    end → Nok (pc_res c) + lo' ≤ x' ≤ Nok (pc_res c) + Nmaybe (pc_res c) + hi' →
    ∃ w', put_inv (n + 1) (kt_set s kv' (kt_test s) now i (c, Putting ViaJson cli p' start)) w') as Hdone.
  { intros x' lo' hi' Hver Hst' Hplace Hx'. exists (<[i:=x']> w). eapply put_inv_set; eauto; [total_lia|].
    split; try done; [by eapply known_le|]. exists lo', hi'. split; [|done]. rewrite Hat. cbn.
    rewrite Ha, Hargs. split_and!; [done|by eapply known_le|done..]. }
  assert (rel = true → is_Some (put_result p')) as Hans.
  { intros Hr. specialize (Hf Hr). subst f. rewrite Hatt in Hdel. by apply Hdel. }
  assert (put_ok (kt_kv s) (put_args p) → kv' = (KVServer_Put (kt_kv s) (put_args p) PutReply_zero).1 →
    version_of kv' k = version_of (kt_kv s) k + 1 ∧ stored kv' ∧ is_Some (KeyValueItems kv' !! k)) as Hperf.
  { intros Hok ->. destruct (Put_accepted_after n _ _ Hb Hn Hok) as (Hver & Hval & Hsome).
    unfold put_ok in Hok. rewrite Hargs in *. cbn [pa_Key pa_Value pa_Version] in *.
    split_and!; [lia| |done]. intros _. exists (pc_me c). rewrite Hval, Hver, Hme.
    do 2 f_equal. lia. }
  destruct Hm as [-> Hp'| -> Hok Hkv Hp'| -> Hok Hkv Hr| -> -> Hno Hs Hr|Hsn -> Hno Hs Hr| -> -> Hnone Hno Hr];
    try (rewrite Hr in Hdone).
  - apply (Hdone x (Z.b2z b) (Z.b2z b)); [lia|done| |done]. rewrite (pp_result _ _ _ Hp') in *.
    exists b. split_and!; [done| |done..]. intros Hr. destruct (Hans Hr); congruence.
  - destruct (Hperf Hok Hkv) as (? & ? & ?). apply (Hdone (x + 1) 1 1); [lia|done| |cbn in *; lia].
    rewrite (pp_result _ _ _ Hp') in *. exists true. split_and!; [done| |done..].
    intros Hr. destruct (Hans Hr); congruence.
  - destruct (Hperf Hok Hkv) as (? & ? & ?). apply (Hdone (x + 1) 1 1); [lia|done| |cbn in *; lia].
    split; [done|]. by left.
  - apply (Hdone x 0 0); [lia|done| |done]. rewrite Hargs in Hs. split; [done|]. right; by left.
  - apply (Hdone x 0 1); [lia|done| |destruct b; cbn in *; lia]. rewrite Hargs in Hs. split; [done|].
    right; right. split_and!; [done| |done..]. destruct rel; [|done]. by rewrite Hsent in Hsn.
  - exfalso. rewrite Hargs in *. cbn in Hnone, Hno. destruct Hkn as [_ [->|Hsome]].
    + apply Hno. unfold put_ok, version_of. cbn. by rewrite Hnone.
    + rewrite Hnone in Hsome. by destruct Hsome.
Qed.

Lemma get_rpc_ok n s w i c v cli g start x f now :
  n < max_u64 → put_inv n s w →
  kt_clients s !! i = Some (c, Getting v cli g start) → w !! i = Some x → get_result g = None →
  put_inv (n + 1) (kt_set s (kt_kv s) (kt_test s) now i
                     (c, Getting v cli (get_attempt f (kt_kv s) g) start)) w.
Proof.
  intros Hn Hinv Hi Hx Hres.
  destruct (pi_clients _ _ _ Hinv i c _ x Hi Hx) as [Hme Hka Hv Hrs Hrel (lo & hi & Hp & Hw)].
  destruct (pc_at c) as [|k' ver|k' ver e|] eqn:Hat; [done..| |done]. destruct v; try done.
  destruct Hp as (-> & Hkn & Hsome & Hans & Hargs & _).
  eapply put_inv_set_same; eauto; [total_lia|]. split; try done. exists lo, hi. split; [|done].
  rewrite Hat. cbn. rewrite get_attempt_args. split_and!; [done..|].
  destruct (get_result (get_attempt f (kt_kv s) g)) as [[[v ver0] err]|] eqn:Hr; [|done].
  pose proof (get_attempt_result _ _ _ _ _ _ Hres Hr) as Hg. rewrite Hargs in Hg. cbn in Hg.
  destruct (pi_stored _ _ _ Hinv Hsome) as [id Hid]. destruct Hsome as [it Hit].
  pose proof (version_of_range (kt_kv s) k (proj1 (pi_bounded _ _ _ Hinv))).
  unfold value_of, known, version_of in *. rewrite Hit in *. destruct Hg as (-> & -> & ->).
  exists id, (kvi_Version it). split; [by rewrite <- Hid|]. split; [lia|eauto].
Qed.

Lemma put_return_ok n s w i c call x now :
  n < max_u64 → put_inv n s w → kt_clients s !! i = Some (c, call) → w !! i = Some x →
  ∃ s', kt_return put_prog i now c call s = Ret s' ∧ put_inv (n + 1) s' w.
Proof.
  intros Hn Hinv Hi Hx. pose proof (put_inv_mono _ _ _ Hinv) as Hmono.
  destruct (pi_clients _ _ _ Hinv i c call x Hi Hx) as [Hme Hka Hv Hrs Hrel (lo & hi & Hp & Hw)].
  unfold kt_return. cbn [cl_put cl_get put_prog]. unfold put_put, put_get.
  destruct call as [|v cli p start|v cli g start]; [by eauto|..].
  - destruct (pc_at c) as [|k' ver|k' ver e|] eqn:Hat; [done| |done..]. destruct v; try done.
    destruct Hp as (-> & Hkn & Hargs & Hp). destruct (put_result p) as [e|] eqn:Hr; [|by eauto].
    destruct Hp as [Hsome Hans]. rewrite decide_True by (unfold answered in Hans; tauto).
    rewrite bind_ret_l. eexists. split; [done|]. eapply put_inv_set_same; eauto; [total_lia|].
    split; try done. exists lo, hi. done.
  - destruct (pc_at c) as [|k' ver|k' ver e|] eqn:Hat; [done..| |done]. destruct v; try done.
    destruct Hp as (-> & Hkn & Hsome & Hans & Hargs & Hp). destruct (get_result g) as [r|] eqn:Hr; [|by eauto].
    destruct Hp as (id & ver0 & -> & Hkn0). cbn [GetJson]. rewrite (decide_True (P := OK = OK)) by done.
    rewrite read_json_EntryV, !bind_ret_l. cbn [fst snd].
    pose proof (proj2 (pi_bounded _ _ _ Hinv) k). destruct Hkn as [Hkn Hknx].
    rewrite (decide_False (P := _ ∧ _ ∧ _)).
    2:{ intros (_ & Hver & _ & Hne). rewrite u64_small in Hver by (unfold max_u64 in *; lia). lia. }
    destruct Hans as [(-> & -> & ->)|[(-> & -> & ->)|(-> & Hrl & -> & ->)]].
    + rewrite !decide_True by tauto. eexists. split; [done|].
      eapply put_inv_set_same; eauto; [total_lia|]. split; cbn; rewrite ?lookup_insert_eq; try done; [lia|].
      exists 0, 0. split; [done|lia].
    + rewrite decide_False by (intros [|]; discriminate). eexists. split; [done|].
      eapply put_inv_set_same; eauto; [total_lia|]. split; try done. exists 0, 0. split; [done|cbn; lia].
    + rewrite decide_True, decide_False by (tauto || discriminate). eexists. split; [done|].
      eapply put_inv_set_same; eauto; [total_lia|]. split; cbn; rewrite ?lookup_insert_eq; try done; [lia| |].
      { intros Hrt. congruence. }
      exists 0, 0. split; [done|lia].
Qed.

Definition fate_ok (e : kt_event choice) : Prop :=
  rel = true → match e with KRpc _ _ f => f = Delivered | _ => True end.

Lemma put_step_ok n e s :
  n < max_u64 → fate_ok e → (∃ w, put_inv n s w) →
  ∃ s', kt_step put_prog e s = Ret s' ∧ ∃ w, put_inv (n + 1) s' w.
Proof.
  intros Hn Hf [w Hinv]. pose proof (put_inv_mono _ _ _ Hinv) as Hmono.
  assert (∀ i c call, kt_clients s !! i = Some (c, call) → ∃ x, w !! i = Some x) as Hw.
  { intros i c call Hi. apply lookup_lt_is_Some. rewrite (pi_len _ _ _ Hinv). by eapply lookup_lt_Some. }
  destruct e as [i d ch|i d f|i d]; cbn [kt_step];
    destruct (kt_clients s !! i) as [[c call]|] eqn:Hi; try by eauto.
  - destruct call; try by eauto. destruct (Hw _ _ _ Hi) as [x Hx].
    destruct (put_turn_ok n s w i c x ch (kt_now s + Z.of_N d) Hinv Hi Hx) as (? & ? & ?). eauto.
  - destruct (Hw _ _ _ Hi) as [x Hx]. eexists. split; [done|]. unfold kt_rpc.
    destruct call as [|v cli p start|v cli g start]; [by eauto|..].
    + destruct (put_result p) as [r|] eqn:Hr; [by eauto|].
      rewrite (surjective_pairing (put_attempt f (kt_kv s) p)). by eapply put_rpc_ok.
    + destruct (get_result g) as [r|] eqn:Hr; [by eauto|]. exists w. by eapply get_rpc_ok.
  - destruct (Hw _ _ _ Hi) as [x Hx].
    destruct (put_return_ok n s w i c call x (kt_now s + Z.of_N d) Hn Hinv Hi Hx) as (? & ? & ?). eauto.
Qed.

Definition put_clients (nclnt : nat) (randomkeys : bool) : list put_client :=
  (λ i : nat, OneClientPut (Z.of_nat i) [k] randomkeys) <$> seq 0 nclnt.

Lemma put_inv_init nclnt randomkeys now :
  put_inv 0 (kt_init MakeKVServer now (put_clients nclnt randomkeys)) (replicate nclnt 0).
Proof.
  assert (∀ l, zsum ((λ _ : nat, 0) <$> l) = 0) as H0 by (induction l; cbn in *; done).
  unfold kt_init, put_clients. split; cbn.
  - apply MakeKVServer_bounded.
  - intros [it Hit]. cbn in Hit. by rewrite lookup_empty in Hit.
  - unfold version_of. cbn. rewrite lookup_empty. by induction nclnt.
  - rewrite <- !list_fmap_compose. rewrite (list_fmap_ext _ (λ _, 0)) by done. by rewrite H0.
  - by rewrite length_replicate, !length_fmap, length_seq.
  - intros i c call x Hi [-> Hx]%lookup_replicate. rewrite !list_lookup_fmap in Hi.
    destruct (seq 0 nclnt !! i) as [j|] eqn:Hj; [|done]. apply lookup_seq in Hj as [-> _].
    cbn in Hi. simplify_eq. split; cbn; try done.
    + unfold known, version_of. cbn. rewrite lookup_insert_eq. cbn. rewrite lookup_empty. split; [lia|auto].
    + by exists 0, 0.
Qed.

Lemma sum_results_spec rs res :
  Nok (sum_results rs res) = Nok res + zsum (Nok <$> rs) ∧
  Nmaybe (sum_results rs res) = Nmaybe res + zsum (Nmaybe <$> rs).
Proof.
  unfold sum_results. revert res. induction rs as [|r rs IH]; intros res; cbn; [lia|].
  destruct (IH {| Nok := Nok res + Nok r; Nmaybe := Nmaybe res + Nmaybe r |}) as [-> ->]. cbn.
  unfold zsum, fmap. lia.
Qed.

(** The results of the clients once all have returned. *)
Definition put_results s : list ClntRes := (λ cl, pc_res (cl.1)) <$> kt_clients s.

Lemma put_inv_results n s w :
  put_inv n s w → Forall (λ cl, pc_at (cl.1) = PutReturned) (kt_clients s) →
  zsum (Nok <$> put_results s) ≤ version_of (kt_kv s) k ≤
    zsum (Nok <$> put_results s) + zsum (Nmaybe <$> put_results s) ≤ n ∧
  (rel = true → zsum (Nmaybe <$> put_results s) = 0).
Proof.
  intros [_ _ Hsum Hcount Hlen Hcl] Hall. rewrite Hsum. unfold put_results.
  clear Hsum.
  assert (∀ (i : nat) c call x, kt_clients s !! i = Some (c, call) → w !! i = Some x →
    Nok (pc_res c) ≤ x ≤ Nok (pc_res c) + Nmaybe (pc_res c) ∧ (rel = true → Nmaybe (pc_res c) = 0)) as Hc.
  { intros i c call x Hi Hx. destruct (Hcl i c call x Hi Hx) as [_ _ _ _ Hr (lo & hi & Hp & ?)].
    rewrite Forall_lookup in Hall. specialize (Hall i (c, call) Hi). cbn in Hall. rewrite Hall in Hp.
    destruct call; [|done..]. destruct Hp as [-> ->]. split; [lia|done]. }
  clear Hcl Hall. revert n w Hlen Hc Hcount. induction (kt_clients s) as [|[c call] l IH]; intros n [|x w] Hlen Hc Hcount;
    try done. cbn in *. destruct (Hc 0%nat c call x) as [? Hr]; [done..|].
  destruct (IH (n - total c) w) as [? Hr']; [lia| |unfold total, zsum in *; lia|].
  { intros i. apply (Hc (S i)). }
  unfold total, zsum, fmap in *. split; [lia|]. intros Ht. specialize (Hr Ht). specialize (Hr' Ht). lia.
Qed.
End put_test.

Definition delivered {Ch} (e : kt_event Ch) : Prop :=
  match e with KRpc _ _ f => f = Delivered | _ => True end.

(** The answer to a Get of [k]. *)
Definition get_answer (kv : KVServer) (k : string) : string * Tversion * Err :=
  (value_of kv k, version_of kv k, OK).

Lemma put_inv_passes {C : IKVClerk} rel k n (s : kt_sys put_client) w :
  n ≤ max_u64 → put_inv rel k n s w → Forall (λ cl, pc_at (cl.1) = PutReturned) (kt_clients s) →
  is_Some (KeyValueItems (kt_kv s) !! k) →
  ∃ res, CheckPutConcurrent (get_answer (kt_kv s) k) (put_results s) ClntRes_zero rel = Ret res.
Proof.
  intros Hn Hinv Hall Hsome. destruct (put_inv_results rel k n s w Hinv Hall) as [Hv Hr].
  pose proof (version_of_range (kt_kv s) k (proj1 (pi_bounded _ _ _ _ _ Hinv))).
  unfold CheckPutConcurrent, get_answer. cbn [GetJson]. rewrite (decide_True (P := OK = OK)) by done.
  destruct (pi_stored _ _ _ _ _ Hinv Hsome) as [id ->]. rewrite read_json_EntryV, !bind_ret_l. cbv zeta.
  destruct (sum_results_spec (put_results s) ClntRes_zero) as [-> ->]. unfold max_u64 in *. cbn [Nok Nmaybe ClntRes_zero].
  destruct rel; [specialize (Hr eq_refl)|]; (rewrite u64_small by lia); (rewrite decide_False by lia); eauto.
Qed.

(** C14: The test of concurrent Puts cannot fail on a correct service: however the clients of
    [OneClientPut] race for one key and whatever the network loses, none of them ends in a
    failure of its own, and once all have returned [CheckPutConcurrent] accepts the number of
    Puts the server counted, exactly so when nothing was lost. *)
Theorem put_test_passes (C : IKVClerk) (HC : IKVClerkLaws C) k nclnt randomkeys now es :
  zlen es ≤ max_u64 →
  ∃ s, kt_run put_prog es (kt_init MakeKVServer now (put_clients k nclnt randomkeys)) = Ret s ∧
    (Forall (λ cl, pc_at (cl.1) = PutReturned) (kt_clients s) →
     is_Some (KeyValueItems (kt_kv s) !! k) →
     (∃ res, CheckPutConcurrent (get_answer (kt_kv s) k) (put_results s) ClntRes_zero false = Ret res) ∧
     (Forall delivered es →
      ∃ res, CheckPutConcurrent (get_answer (kt_kv s) k) (put_results s) ClntRes_zero true = Ret res)).
Proof.
  intros Hes. set (init := kt_init _ _ _).
  assert (∀ rel, Forall (fate_ok rel) es →
    ∃ s, kt_run put_prog es init = Ret s ∧ ∃ w, put_inv rel k (zlen es) s w) as Hrun.
  { intros rel Hok. apply (kt_run_inv put_prog (λ n s, ∃ w, put_inv rel k n s w) (fate_ok rel) es 0);
      [|done|lia|eexists; apply put_inv_init]. intros n e s. apply put_step_ok. }
  destruct (Hrun false) as (s & Hs & w & Hinv); [apply Forall_true; by intros ? ?|].
  exists s. split; [done|]. intros Hall Hsome. split; [by eapply put_inv_passes|].
  intros Hdel. destruct (Hrun true) as (s' & Hs' & w' & Hinv').
  { eapply Forall_impl; [exact Hdel|]. by intros e ? _. }
  rewrite Hs in Hs'. injection Hs' as <-. by eapply put_inv_passes.
Qed.

(** Two clients; the first Put's reply is lost, so its client counts it as a maybe. *)
Definition put_race (f : call_fate) : list (kt_event choice) :=
  [KTurn 0 1 (Some 7); KTurn 0 1 None; KRpc 0 1 f; KTurn 1 1 (Some 3); KTurn 1 1 None; KRpc 1 1 Delivered;
   KReturn 1 1; KTurn 1 1 None; KRpc 1 1 Delivered; KReturn 1 1; KRpc 0 1 Delivered; KReturn 0 1;
   KTurn 0 1 None; KRpc 0 1 Delivered; KReturn 0 1; KTurn 0 1 None; KTurn 1 1 None; KRpc 1 1 Delivered;
   KReturn 1 1; KTurn 1 1 None; KRpc 1 1 Delivered; KReturn 1 1; KTurn 1 1 None].

Lemma put_test_passes_witness :
  ∃ s, kt_run put_prog (put_race ReplyLost) (kt_init MakeKVServer 0 (put_clients "k" 2 false)) = Ret s ∧
    put_results s = [{| Nok := 0; Nmaybe := 1 |}; {| Nok := 1; Nmaybe := 0 |}] ∧
    ∃ res, CheckPutConcurrent (get_answer (kt_kv s) "k") (put_results s) ClntRes_zero false = Ret res.
Proof.
  destruct (put_test_passes kvsrv_Clerk _ "k" 2 false 0 (put_race ReplyLost)) as (s & Hs & Hpass);
    [vm_compute; discriminate|].
  assert ((λ s, (put_results s, pc_at ∘ fst <$> kt_clients s, bool_decide (is_Some (KeyValueItems (kt_kv s) !! "k"))))
    <$> kt_run put_prog (put_race ReplyLost) (kt_init MakeKVServer 0 (put_clients "k" 2 false)) =
    Ret ([{| Nok := 0; Nmaybe := 1 |}; {| Nok := 1; Nmaybe := 0 |}], [PutReturned; PutReturned], true)) as Hobs
    by (vm_compute; reflexivity).
  rewrite Hs in Hobs. injection Hobs as Hres Hat Hk. apply bool_decide_eq_true in Hk.
  exists s. split; [done|]. split; [exact Hres|]. refine (proj1 (Hpass _ Hk)).
  assert (Forall (λ a, a = PutReturned) (pc_at ∘ fst <$> kt_clients s)) as Hall
    by (rewrite Hat; repeat constructor).
  by apply Forall_fmap in Hall.
Defined.
