(* ===== verification/KVAppendSafety.v ===== *)
(** * The append test passes

    [CheckAppends] of [src/src/kvtest1/kvtest.go] as a condition on the entries it reads, and
    the clients of [OneClientAppend]: over any clerk that keeps [IKVClerkLaws], what they
    leave under the key satisfies it. *)
From stdpp Require Import base tactics numbers list fin_maps gmap strings.
From S2P Require Import Prelude GoLib GoStrings GoJson KVServer KVModel KVClerk KVTest KVCalls KVTestSafety.

(** ** [CheckAppends] *)

(** The counters of one client, in the order they are stored. *)
Definition ns (id : Z) (es : list (Z * Z)) : list Z := snd <$> filter (λ e, e.1 = id) es.

(** Numbers that only rise, from [b] on, and the least one that may follow. *)
Fixpoint rising (b : Z) (l : list Z) : Prop :=
  match l with [] => True | n :: l => b ≤ n ∧ rising (n + 1) l end.
Fixpoint next (b : Z) (l : list Z) : Z :=
  match l with [] => b | n :: l => next (n + 1) l end.

Lemma ns_app id es1 es2 : ns id (es1 ++ es2) = ns id es1 ++ ns id es2.
Proof. unfold ns. by rewrite filter_app, fmap_app. Qed.

Lemma ns_cons id e es : ns id (e :: es) = (if decide (e.1 = id) then [e.2] else []) ++ ns id es.
Proof. unfold ns. rewrite filter_cons. by case_decide. Qed.

Lemma ns_other id es : (∀ e, e ∈ es → e.1 ≠ id) → ns id es = [].
Proof. intros He. unfold ns. by rewrite filter_none. Qed.

Lemma rising_snoc b l n : rising b (l ++ [n]) ↔ rising b l ∧ next b l ≤ n.
Proof. revert b. induction l as [|m l IH]; intros b; cbn; [tauto|]. rewrite IH. tauto. Qed.

Lemma next_snoc b l n : next b (l ++ [n]) = n + 1.
Proof. revert b. induction l as [|m l IH]; intros b; cbn; [done|]. apply IH. Qed.

Lemma rising_next b l : rising b l → b + zlen l ≤ next b l.
Proof.
  revert b. induction l as [|n l IH]; intros b; cbn; [rewrite zlen_nil; lia|].
  intros [Hb Hl]. specialize (IH _ Hl). rewrite zlen_cons. lia.
Qed.

Section check.
Implicit Types (es : list (Z * Z)) (ex sk : zmap).

Lemma at0_insert (m : zmap) i x j : at0 (<[i := x]> m) j = if decide (i = j) then x else at0 m j.
Proof. unfold at0. rewrite lookup_insert. by case_decide. Qed.

(** One accepted entry. *)
Lemma check_entry_ok i n ex sk :
  at0 ex i ≤ n → ∃ ex2 sk2, check_entry (i, n) (ex, sk) = Ret (ex2, sk2) ∧
    (∀ id, at0 ex2 id = if decide (i = id) then n + 1 else at0 ex id) ∧
    (∀ id, at0 sk2 id = at0 sk id + (if decide (i = id) then n - at0 ex id else 0)) ∧
    (∀ id, is_Some (ex2 !! id) ↔ is_Some (ex !! id) ∨ id = i).
Proof.
  intros Hle. unfold check_entry. rewrite decide_False by lia.
  case_decide; (do 2 eexists; split; [done|]); split_and!; intros id;
    rewrite ?at0_insert; try (case_decide; subst; lia);
    rewrite lookup_insert_is_Some; destruct (decide (i = id)); naive_solver.
Qed.

Lemma check_entries_rising es ex sk m :
  go_for check_entry es (ex, sk) = Ret m → ∀ id, rising (at0 ex id) (ns id es).
Proof.
  revert ex sk. induction es as [|[i n] es IH]; intros ex sk; [done|]. cbn [go_for].
  intros ([ex1 sk1] & Hs & E)%bind_ret_inv id. specialize (IH ex1 sk1 E id). rewrite ns_cons. cbn [fst snd].
  destruct (decide (at0 ex i ≤ n)) as [Hle|Hgt].
  - destruct (check_entry_ok i n ex sk Hle) as (ex2 & sk2 & Hs2 & Hex & _). rewrite Hs in Hs2. simplify_eq.
    rewrite Hex in IH. case_decide; [|done]. subst. done.
  - unfold check_entry in Hs. rewrite decide_True in Hs by lia. done.
Qed.

(** What the loop counts. *)
Lemma check_entries es ex sk :
  (∀ id, rising (at0 ex id) (ns id es)) →
  ∃ ex' sk', go_for check_entry es (ex, sk) = Ret (ex', sk') ∧
    (∀ id, at0 ex' id = next (at0 ex id) (ns id es)) ∧
    (∀ id, at0 sk' id = at0 sk id + (next (at0 ex id) (ns id es) - at0 ex id - zlen (ns id es))) ∧
    (∀ id, is_Some (ex' !! id) ↔ is_Some (ex !! id) ∨ id ∈ es.*1).
Proof.
  revert ex sk. induction es as [|[i n] es IH]; intros ex sk Hr; cbn [go_for].
  { exists ex, sk. split_and!; [done|done|intros; cbn; rewrite zlen_nil; lia|].
    intros id. cbn. rewrite elem_of_nil. tauto. }
  setoid_rewrite ns_cons in Hr. cbn [fst snd] in Hr.
  destruct (check_entry_ok i n ex sk) as (ex2 & sk2 & -> & Hex & Hsk & Hdom).
  { specialize (Hr i). rewrite decide_True in Hr by done. apply Hr. }
  rewrite bind_ret_l. destruct (IH ex2 sk2) as (ex' & sk' & E & H1 & H2 & H3).
  { intros id. specialize (Hr id). rewrite Hex. case_decide; [apply Hr|done]. }
  exists ex', sk'. split; [done|]. split_and!; intros id;
    [rewrite H1, Hex|rewrite H2, Hex, Hsk|rewrite H3, Hdom; cbn; rewrite elem_of_cons; tauto];
    rewrite ns_cons; cbn [fst snd]; case_decide; cbn [app next]; rewrite ?zlen_cons; lia.
Qed.

(** The last loop: every client of [expect] has an account in [rs] that covers it. *)
Lemma check_clients sk rs l :
  (∀ c n, (c, n) ∈ l → 0 ≤ c < zlen rs) →
  go_for (check_client sk rs) l tt = Ret tt ↔
  ∀ c n r, (c, n) ∈ l → rs !! Z.to_nat c = Some r → at0 sk c ≤ Nmaybe r ∧ n ≤ Nok r + Nmaybe r.
Proof.
  induction l as [|[c n] l IH]; intros Hin; cbn [go_for].
  { split; [|done]. intros _ c n r Hc. by apply elem_of_nil in Hc. }
  destruct (go_index_in_range rs c) as (r & Hgo & Hr); [apply (Hin c n); left|].
  assert (go_for (check_client sk rs) l tt = Ret tt ↔ ∀ c n r, (c, n) ∈ l → rs !! Z.to_nat c = Some r →
    at0 sk c ≤ Nmaybe r ∧ n ≤ Nok r + Nmaybe r) as IH' by (apply IH; intros; eapply Hin; by right).
  cbn [check_client]. rewrite Hgo, bind_ret_l. split.
  - intros E c' n' r' [[= -> ->]|Hc']%elem_of_cons Hr'.
    + simplify_eq. repeat case_decide; [done..|lia].
    + repeat case_decide; [done..|]. rewrite bind_ret_l in E. rewrite IH' in E. by eapply E.
  - intros Hall. destruct (Hall c n r) as [? ?]; [left|done|].
    rewrite !decide_False by lia. rewrite bind_ret_l. apply IH'. intros c' n' r' Hc'. apply Hall. by right.
Qed.

(** The condition [CheckAppends] tests. *)
Definition appends_ok es (rs : list ClntRes) (ver : Tversion) : Prop :=
  (∀ id, rising 0 (ns id es)) ∧ zlen es + 1 = i64 ver ∧
  ∀ (i : nat) r, rs !! i = Some r →
    next 0 (ns (Z.of_nat i) es) - zlen (ns (Z.of_nat i) es) ≤ Nmaybe r ∧
    next 0 (ns (Z.of_nat i) es) ≤ Nok r + Nmaybe r.

Lemma at0_clients nclnt id : at0 (list_to_map ((λ i : nat, (Z.of_nat i, 0)) <$> seq 0 nclnt)) id = 0.
Proof.
  unfold at0. destruct (_ !! id) as [x|] eqn:E; [|done]. apply elem_of_list_to_map_2 in E.
  apply list_elem_of_fmap in E as (i & [= -> ->] & _). done.
Qed.

Lemma CheckAppends_iff (range_order : list (Z * Z) → list (Z * Z)) es nclnt rs ver :
  (∀ l, range_order l ≡ₚ l) → length rs = nclnt → (∀ e, e ∈ es → 0 ≤ e.1 < Z.of_nat nclnt) →
  CheckAppends range_order es nclnt rs ver = Ret tt ↔ appends_ok es rs ver.
Proof.
  intros Hord Hlen Hids. unfold CheckAppends, appends_ok. set (m0 := list_to_map _).
  assert (∀ id, at0 m0 id = 0) as H0 by apply at0_clients.
  assert (∀ id, is_Some (m0 !! id) ↔ 0 ≤ id < Z.of_nat nclnt) as Hdom0.
  { intros id. unfold m0. split.
    - intros [x E]. apply elem_of_list_to_map_2, list_elem_of_fmap in E as (i & [= -> ->] & Hi%elem_of_seq). lia.
    - intros Hid. exists 0. apply elem_of_list_to_map_1'.
      + intros y (i & [= _ ->] & _)%list_elem_of_fmap. done.
      + apply list_elem_of_fmap. exists (Z.to_nat id). rewrite elem_of_seq. split; [f_equal; lia|lia]. }
  assert ((∀ id, rising 0 (ns id es)) ↔ ∀ id, rising (at0 m0 id) (ns id es)) as Hr0
    by (split; intros H id; specialize (H id); by rewrite H0 in *).
  destruct (go_for check_entry es (m0, m0)) as [[ex sk]|w|m] eqn:E; cycle 1.
  1, 2: split; [done|]; intros (Hr & _);
    destruct (check_entries es m0 m0 (proj1 Hr0 Hr)) as (? & ? & E' & _); congruence.
  pose proof (check_entries_rising _ _ _ _ E) as Hr.
  destruct (check_entries es m0 m0 Hr) as (ex' & sk' & E' & H1 & H2 & H3). rewrite E in E'.
  injection E' as <- <-. rewrite bind_ret_l. case_decide as Hver; [split; [done|naive_solver]|].
  assert (∀ id, is_Some (ex !! id) ↔ 0 ≤ id < Z.of_nat nclnt) as Hdom.
  { intros id. rewrite H3, Hdom0. split; [|tauto]. intros [|Hid]; [done|].
    apply list_elem_of_fmap in Hid as (e & -> & He). by apply Hids. }
  assert (∀ c n, (c, n) ∈ range_order (map_to_list ex) ↔ ex !! c = Some n) as Hrange
    by (intros c n; rewrite Hord; apply elem_of_map_to_list).
  rewrite check_clients.
  2:{ intros c n Hc%Hrange. unfold zlen. rewrite Hlen. apply Hdom. eauto. }
  assert (∀ c n, ex !! c = Some n → n = next 0 (ns c es) ∧ at0 sk c = next 0 (ns c es) - zlen (ns c es)) as Hcn.
  { intros c n Hc. specialize (H1 c). specialize (H2 c). rewrite H0 in H1, H2. unfold at0 in H1. rewrite Hc in H1.
    cbn in H1. split; [done|]. rewrite H2. lia. }
  split.
  - intros Hall. split_and!; [exact (proj2 Hr0 Hr)|done|]. intros i r Hi.
    destruct (proj2 (Hdom (Z.of_nat i))) as [n Hn]; [apply lookup_lt_Some in Hi; lia|].
    destruct (Hcn _ _ Hn) as [-> Hsk]. specialize (Hall (Z.of_nat i) _ r (proj2 (Hrange _ _) Hn)).
    rewrite Nat2Z.id in Hall. specialize (Hall Hi). lia.
  - intros (_ & _ & Hall) c n r Hc%Hrange Hrs. destruct (Hcn _ _ Hc) as [-> ->].
    specialize (Hall (Z.to_nat c) r Hrs). rewrite Z2Nat.id in Hall; [lia|]. by apply Hdom.
Qed.
End check.

(** ** [OneClientAppend] *)

Section append_test.
Context {C : IKVClerk} {HC : IKVClerkLaws C}.
Implicit Types (s : kt_sys app_client) (kv : KVServer) (c : app_client) (es : list (Z * Z)).

(** The server holds the entries [es]; its version counts the Put that created the key. *)
Definition holds_entries kv es : Prop :=
  is_Some (KeyValueItems kv !! append_key) ∧ value_of kv append_key = json_entries es ∧
  version_of kv append_key = zlen es + 1.

(** What a client puts: an earlier content with its own entry behind. *)
Definition built es (me i : Z) (es0 : list (Z * Z)) (ver : Tversion) : Prop :=
  ∃ old, es0 = old ++ [(me, i)] ∧ ver = zlen old + 1 ∧ old `prefix_of` es.

Definition app_place kv es (me i : Z) (at_ : app_at) (call : call_state) (lo hi : Z) : Prop :=
  match at_, call with
  | AppSelect, Ready | AppReturned, Ready | AppGet, Ready => lo = 0 ∧ hi = 0
  | AppGet, Getting ViaJson _ g _ =>
      lo = 0 ∧ hi = 0 ∧ get_args g = {| ga_Key := append_key |} ∧
      match get_result g with
      | None => True
      | Some r => ∃ old, r = (json_entries old, zlen old + 1, OK) ∧ old `prefix_of` es
      end
  | AppPut es0 ver, Ready => built es me i es0 ver ∧ lo = 0 ∧ hi = 0
  | AppPut es0 ver, Putting ViaJson _ p _ =>
      built es me i es0 ver ∧
      put_args p = {| pa_Key := append_key; pa_Value := json_entries es0; pa_Version := ver |} ∧
      match put_result p with
      | None => ∃ b, put_pending kv p b ∧ lo = Z.b2z b ∧ hi = Z.b2z b
      | Some e => answered false e lo hi
      end
  | _, _ => False
  end.

Record app_client_ok kv es (me : Z) c (call : call_state) : Prop := {
  ak_me : ac_me c = me;
  ak_i : 0 ≤ ac_nok c ∧ 0 ≤ ac_nmay c ∧ ac_i c = ac_nok c + ac_nmay c;
  ak_rising : rising 0 (ns me es);
  ak_place : ∃ lo hi, app_place kv es me (ac_i c) (ac_at c) call lo hi ∧
    ac_nok c + lo ≤ zlen (ns me es) ∧ next 0 (ns me es) ≤ ac_i c + hi
}.

Record app_inv (n : Z) s es : Prop := {
  ai_bounded : kv_bounded n (kt_kv s);
  ai_holds : holds_entries (kt_kv s) es;
  ai_ids e : e ∈ es → 0 ≤ e.1 < zlen (kt_clients s);
  ai_clients (i : nat) c call : kt_clients s !! i = Some (c, call) →
    app_client_ok (kt_kv s) es (Z.of_nat i) c call
}.

Lemma built_le es es' me i es0 ver : es `prefix_of` es' → built es me i es0 ver → built es' me i es0 ver.
Proof. intros Hp (old & ? & ? & ?). exists old. split_and!; [done..|]. by transitivity es. Qed.

Lemma app_place_le kv kv' es es' me i at_ call lo hi :
  kv_le kv kv' → es `prefix_of` es' → app_place kv es me i at_ call lo hi →
  app_place kv' es' me i at_ call lo hi.
Proof.
  intros Hle Hp. unfold app_place. destruct at_; destruct call as [|[] ? ? ?|[] ? ? ?]; try done.
  - intros (? & ? & ? & Hr). split_and!; [done..|]. destruct (get_result g); [|done].
    destruct Hr as (old & ? & ?). exists old. split; [done|]. by transitivity es.
  - intros (? & ? & ?). split_and!; [by eapply built_le|done..].
  - intros (? & ? & Hr). split_and!; [by eapply built_le|done|]. destruct (put_result p); [done|].
    destruct Hr as (b & ? & ?). exists b. split; [by eapply put_pending_le|done].
Qed.

(** A client sees another client's entry come. *)
Lemma app_client_ok_le kv kv' es e me c call :
  kv_le kv kv' → e.1 ≠ me → app_client_ok kv es me c call → app_client_ok kv' (es ++ [e]) me c call.
Proof.
  intros Hle Hne [Hme Hi Hr (lo & hi & Hp & Hb)].
  assert (ns me (es ++ [e]) = ns me es) as Hns.
  { rewrite ns_app, ns_cons, decide_False by done. cbn. by rewrite app_nil_r. }
  split; [done..|by rewrite Hns|]. rewrite Hns. exists lo, hi. split; [|done].
  eapply app_place_le; [done| |done]. by apply prefix_app_r.
Qed.

Lemma app_inv_mono n s es : app_inv n s es → app_inv (n + 1) s es.
Proof.
  intros [[? Hb] ? ? ?]. split; try done. split; [done|]. intros j. specialize (Hb j). lia.
Qed.

(** Client [i] moved and the server stayed as it is. *)
Lemma app_inv_set n s es i c call ts now c' call' :
  app_inv n s es → kt_clients s !! i = Some (c, call) →
  app_client_ok (kt_kv s) es (Z.of_nat i) c' call' →
  app_inv (n + 1) (kt_set s (kt_kv s) ts now i (c', call')) es.
Proof.
  intros Hinv Hi Hok. destruct (app_inv_mono _ _ _ Hinv) as [? ? Hids Hcl]. split; cbn; try done.
  - intros e He. rewrite zlen_insert. by apply Hids.
  - intros j c1 call1 [[-> [= -> ->]]|[? ?]]%lookup_insert_cases; [done|by apply Hcl].
Qed.

(** Client [i] appended its entry. *)
Lemma app_inv_append n s es i c call kv' ts now c' call' m :
  app_inv n s es → kt_clients s !! i = Some (c, call) →
  kv_bounded (n + 1) kv' → kv_le (kt_kv s) kv' → holds_entries kv' (es ++ [(Z.of_nat i, m)]) →
  app_client_ok kv' (es ++ [(Z.of_nat i, m)]) (Z.of_nat i) c' call' →
  app_inv (n + 1) (kt_set s kv' ts now i (c', call')) (es ++ [(Z.of_nat i, m)]).
Proof.
  intros [? ? Hids Hcl] Hi Hb Hle Hh Hok. split; cbn; try done.
  - intros e [He| ->%list_elem_of_singleton]%elem_of_app; rewrite zlen_insert; [by apply Hids|].
    cbn. apply lookup_lt_Some in Hi. unfold zlen. lia.
  - intros j c1 call1 [[-> [= -> ->]]|[? ?]]%lookup_insert_cases; [done|].
    eapply app_client_ok_le; [done|cbn; lia|by apply Hcl].
Qed.

(** *** The steps *)

Lemma app_turn_ok n s es i c ch now :
  app_inv n s es → kt_clients s !! i = Some (c, Ready) →
  ∃ s', kt_turn app_prog i now ch c s = Ret s' ∧ app_inv (n + 1) s' es.
Proof.
  intros Hinv Hi. destruct (ai_clients _ _ _ Hinv i c _ Hi) as [Hme Hci Hr (lo & hi & Hp & Hb)].
  unfold kt_turn. cbn [cl_turn app_prog]. unfold app_turn. destruct (ac_at c) as [| |es0 ver|] eqn:Hat.
  - eexists. split; [done|]. eapply app_inv_set; eauto. split; try done. exists lo, hi.
    split; [by destruct ch|done].
  - eexists. split; [done|]. eapply app_inv_set; eauto. split; try done. exists lo, hi. split; [|done].
    rewrite Hat. cbn. destruct Hp. by rewrite get_begin_args, get_begin_result.
  - destruct Hp as (? & -> & ->). eexists. split; [done|]. eapply app_inv_set; eauto. split; try done.
    exists 0, 0. split; [|done]. rewrite Hat. cbn. rewrite put_begin_args, put_begin_result.
    split_and!; [done..|]. exists false. split; [apply put_begin_pending|done].
  - eexists. split; [done|]. by apply app_inv_mono.
Qed.

Lemma app_put_rpc_ok n s es i c v cli p start f now :
  n < max_u64 → app_inv n s es →
  kt_clients s !! i = Some (c, Putting v cli p start) → put_result p = None →
  ∃ es', app_inv (n + 1) (kt_set s (put_attempt f (kt_kv s) p).1 (kt_test s) now i
                            (c, Putting v cli (put_attempt f (kt_kv s) p).2 start)) es'.
Proof.
  intros Hn Hinv Hi Hres.
  destruct (ai_clients _ _ _ Hinv i c _ Hi) as [Hme Hci Hrise (lo & hi & Hp & Hcnt)].
  destruct (ac_at c) as [| |es0 ver|] eqn:Hat; [done..| |done]. destruct v; try done.
  destruct Hp as (Hbuilt & Hargs & Hp). rewrite Hres in Hp. destruct Hp as (b & Hpend & -> & ->).
  pose proof (ai_bounded _ _ _ Hinv) as Hb. destruct (ai_holds _ _ _ Hinv) as (Hsome & Hval & Hver).
  destruct (put_attempt_moved n f (kt_kv s) p b Hb Hn Hpend) as [Ha Hm].
  destruct (put_attempt_bounded n f (kt_kv s) p Hb Hn) as [Hb' Hle].
  destruct (put_attempt f (kt_kv s) p) as [kv' p']; cbn [fst snd] in *.
  assert (∀ lo' hi', kv' = kt_kv s → match put_result p' with
      | None => ∃ b, put_pending kv' p' b ∧ lo' = Z.b2z b ∧ hi' = Z.b2z b
      | Some e => answered false e lo' hi' end → lo' ≤ Z.b2z b → Z.b2z b ≤ hi' →
    ∃ es', app_inv (n + 1) (kt_set s kv' (kt_test s) now i (c, Putting ViaJson cli p' start)) es') as Hsame.
  { intros lo' hi' -> Hpl ? ?. exists es. eapply app_inv_set; eauto. split; try done. exists lo', hi'.
    split; [|lia]. rewrite Hat. cbn. by rewrite Ha. }
  assert (b = false → put_ok (kt_kv s) (put_args p) →
    kv' = (KVServer_Put (kt_kv s) (put_args p) PutReply_zero).1 → match put_result p' with
      | None => put_pending kv' p' true
      | Some e => answered false e 1 1 end →
    ∃ es', app_inv (n + 1) (kt_set s kv' (kt_test s) now i (c, Putting ViaJson cli p' start)) es') as Hperf.
  { intros -> Hok Hkv Hpl. destruct (Put_accepted_after n _ _ Hb Hn Hok) as (Hver' & Hval' & Hsome').
    rewrite <- Hkv in *. unfold put_ok in Hok. rewrite Hargs in *. cbn [pa_Key pa_Value pa_Version] in *.
    destruct Hbuilt as (old & -> & -> & Hpre). assert (old = es) as ->.
    { apply prefix_length_eq; [done|]. unfold zlen in *. lia. }
    exists (es ++ [(Z.of_nat i, ac_i c)]). eapply app_inv_append; eauto.
    - split_and!; [done..|]. rewrite zlen_app. change (zlen [_]) with 1. lia.
    - assert (ns (Z.of_nat i) (es ++ [(Z.of_nat i, ac_i c)]) = ns (Z.of_nat i) es ++ [ac_i c]) as Hns
        by (rewrite ns_app, ns_cons, decide_True by done; done).
      cbn in Hcnt. split; [done..| |]; rewrite Hns.
      + apply rising_snoc. split; [done|lia].
      + exists 1, 1. rewrite next_snoc, zlen_app. change (zlen [_]) with 1. split; [|lia].
        rewrite Hat. cbn. rewrite Ha. split_and!; [|done|].
        * exists es. split_and!; [done..|]. by apply prefix_app_r.
        * destruct (put_result p'); [done|]. by exists true. }
  destruct Hm as [Hkv Hp'|Hbf Hok Hkv Hp'|Hbf Hok Hkv Hr|Hbf Hkv Hno Hs Hr|Hsn Hkv Hno Hs Hr|Hbf Hkv Hnone Hno Hr];
    try (rewrite Hr in Hsame, Hperf).
  - apply (Hsame (Z.b2z b) (Z.b2z b)); [done| |done..]. rewrite (pp_result _ _ _ Hp'). by exists b.
  - apply Hperf; [done..|]. by rewrite (pp_result _ _ _ Hp').
  - apply Hperf; [done..|]. by left.
  - subst b. apply (Hsame 0 0); [done| |done..]. right; by left.
  - apply (Hsame 0 1); [done|by right; right| |]; destruct b; cbn; lia.
  - exfalso. rewrite Hargs in Hnone. cbn in Hnone. rewrite Hnone in Hsome. by destruct Hsome.
Qed.

Lemma app_get_rpc_ok n s es i c v cli g start f now :
  app_inv n s es → kt_clients s !! i = Some (c, Getting v cli g start) → get_result g = None →
  app_inv (n + 1) (kt_set s (kt_kv s) (kt_test s) now i
                     (c, Getting v cli (get_attempt f (kt_kv s) g) start)) es.
Proof.
  intros Hinv Hi Hres.
  destruct (ai_clients _ _ _ Hinv i c _ Hi) as [Hme Hci Hrise (lo & hi & Hp & Hcnt)].
  destruct (ac_at c) as [| |es0 ver|] eqn:Hat; [done| |done..]. destruct v; try done.
  destruct Hp as (-> & -> & Hargs & _). eapply app_inv_set; eauto. split; try done. exists 0, 0.
  split; [|done]. rewrite Hat. cbn. rewrite get_attempt_args. split_and!; [done..|].
  destruct (get_result (get_attempt f (kt_kv s) g)) as [[[v ver] err]|] eqn:Hr; [|done].
  pose proof (get_attempt_result _ _ _ _ _ _ Hres Hr) as Hg. rewrite Hargs in Hg. cbn in Hg.
  destruct (ai_holds _ _ _ Hinv) as ([it Hit] & Hval & Hver). unfold value_of, version_of in *.
  rewrite Hit in *. destruct Hg as (-> & -> & ->). exists es. split; [congruence|done].
Qed.

Lemma app_return_ok n s es i c call now :
  app_inv n s es → kt_clients s !! i = Some (c, call) →
  ∃ s', kt_return app_prog i now c call s = Ret s' ∧ app_inv (n + 1) s' es.
Proof.
  intros Hinv Hi. pose proof (app_inv_mono _ _ _ Hinv) as Hmono.
  destruct (ai_clients _ _ _ Hinv i c _ Hi) as [Hme Hci Hrise (lo & hi & Hp & Hcnt)].
  unfold kt_return. cbn [cl_put cl_get app_prog]. unfold app_put, app_get.
  destruct call as [|v cli p start|v cli g start]; [by eauto|..].
  - destruct (ac_at c) as [| |es0 ver|] eqn:Hat; [done..| |done]. destruct v; try done.
    destruct Hp as (Hbuilt & Hargs & Hp). destruct (put_result p) as [e|] eqn:Hr; [|by eauto].
    destruct Hp as [(-> & -> & ->)|[(-> & -> & ->)|(-> & _ & -> & ->)]].
    + rewrite decide_True by done. eexists. split; [done|]. eapply app_inv_set; eauto.
      split; try done; [cbn; lia|]. exists 0, 0. split; [done|cbn; lia].
    + rewrite !decide_False by done. eexists. split; [done|]. eapply app_inv_set; eauto.
      split; try done. exists 0, 0. done.
    + rewrite decide_False, decide_True by done. eexists. split; [done|]. eapply app_inv_set; eauto.
      split; try done; [cbn; lia|]. exists 0, 0. split; [done|cbn; lia].
  - destruct (ac_at c) as [| |es0 ver|] eqn:Hat; [done| |done..]. destruct v; try done.
    destruct Hp as (-> & -> & Hargs & Hp). destruct (get_result g) as [r|] eqn:Hr; [|by eauto].
    destruct Hp as (old & -> & Hpre). cbn [GetJson]. rewrite (decide_True (P := OK = OK)) by done.
    unfold read_entries, json_entries. rewrite read_pairs_json, !bind_ret_l. eexists. split; [done|].
    eapply app_inv_set; eauto. split; try done. exists 0, 0. split; [|done]. cbn.
    split_and!; [|done..]. exists old. by rewrite Hme.
Qed.

Lemma app_step_ok n e s :
  n < max_u64 → (∃ es, app_inv n s es) →
  ∃ s', kt_step app_prog e s = Ret s' ∧ ∃ es, app_inv (n + 1) s' es.
Proof.
  intros Hn [es Hinv]. pose proof (app_inv_mono _ _ _ Hinv) as Hmono.
  destruct e as [i d ch|i d f|i d]; cbn [kt_step];
    destruct (kt_clients s !! i) as [[c call]|] eqn:Hi; try by eauto.
  - destruct call; try by eauto.
    destruct (app_turn_ok n s es i c ch (kt_now s + Z.of_N d) Hinv Hi) as (? & ? & ?). eauto.
  - eexists. split; [done|]. unfold kt_rpc. destruct call as [|v cli p start|v cli g start]; [by eauto|..].
    + destruct (put_result p) as [r|] eqn:Hr; [by eauto|].
      rewrite (surjective_pairing (put_attempt f (kt_kv s) p)). by eapply app_put_rpc_ok.
    + destruct (get_result g) as [r|] eqn:Hr; [by eauto|]. exists es. by eapply app_get_rpc_ok.
  - destruct (app_return_ok n s es i c call (kt_now s + Z.of_N d) Hinv Hi) as (? & ? & ?). eauto.
Qed.

Definition app_clients (nclnt : nat) : list app_client :=
  (λ i : nat, OneClientAppend (Z.of_nat i)) <$> seq 0 nclnt.

(** The server on which the test has put the empty slice. *)
Definition app_server : KVServer :=
  (KVServer_Put MakeKVServer {| pa_Key := append_key; pa_Value := json_entries []; pa_Version := 0 |}
     PutReply_zero).1.

Lemma app_inv_init nclnt now : app_inv 1 (kt_init app_server now (app_clients nclnt)) [].
Proof.
  split; cbn [kt_init kt_kv kt_clients].
  - apply (Put_bounded 0); [apply MakeKVServer_bounded|done].
  - split_and!; [by eexists|done..].
  - intros e He. by apply elem_of_nil in He.
  - unfold app_clients. intros i c call Hi. rewrite !list_lookup_fmap in Hi.
    destruct (seq 0 nclnt !! i) as [j|] eqn:Hj; [|done]. apply lookup_seq in Hj as [-> _].
    cbn in Hi. simplify_eq. split; cbn; try done. by exists 0, 0.
Qed.

Definition app_results s : list ClntRes := (λ cl, app_result (cl.1)) <$> kt_clients s.

Lemma app_inv_passes n s es :
  n ≤ max_i64 → app_inv n s es → Forall (λ cl, ac_at (cl.1) = AppReturned) (kt_clients s) →
  appends_ok es (app_results s) (version_of (kt_kv s) append_key).
Proof.
  intros Hn [[Hwf Hb] (Hsome & Hval & Hver) Hids Hcl] Hall. split_and!.
  - intros id. destruct (decide (0 ≤ id < zlen (kt_clients s))) as [Hid|Hid].
    + destruct (lookup_lt_is_Some_2 (kt_clients s) (Z.to_nat id)) as [[c call] Hi]; [unfold zlen in *; lia|].
      pose proof (ak_rising _ _ _ _ _ (Hcl _ _ _ Hi)) as Hr. by rewrite Z2Nat.id in Hr by lia.
    + rewrite ns_other; [done|]. intros e He <-. by apply Hid, Hids.
  - specialize (Hb append_key). pose proof (zlen_nonneg es). rewrite i64_small; [done|unfold max_i64 in *; lia].
  - intros i r Hr. unfold app_results in Hr. rewrite list_lookup_fmap in Hr.
    destruct (kt_clients s !! i) as [[c call]|] eqn:Hi; [|done]. cbn in Hr. injection Hr as <-.
    destruct (Hcl _ _ _ Hi) as [_ ? _ (lo & hi & Hp & ?)]. rewrite Forall_lookup in Hall.
    specialize (Hall i _ Hi). cbn in Hall. rewrite Hall in Hp. destruct call; [|done..].
    destruct Hp as [-> ->]. cbn. lia.
Qed.
End append_test.

(** C13: The append test cannot fail on a correct service: clients that append by a Get and a
    conditional Put never fail themselves, whatever the network loses and however they
    interleave, and once all have returned the key holds a slice of entries, at the version
    one above its length, that [CheckAppends] accepts in every order it ranges over its map. *)
Theorem append_test_passes (C : IKVClerk) (HC : IKVClerkLaws C) (range_order : list (Z * Z) → list (Z * Z))
    nclnt now es :
  (∀ l, range_order l ≡ₚ l) → zlen es < max_i64 →
  ∃ s, kt_run app_prog es (kt_init app_server now (app_clients nclnt)) = Ret s ∧
    (Forall (λ cl, ac_at (cl.1) = AppReturned) (kt_clients s) →
     ∃ entries, GetJson read_entries (get_answer (kt_kv s) append_key) =
                  Ret (entries, version_of (kt_kv s) append_key) ∧
       CheckAppends range_order entries nclnt (app_results s) (version_of (kt_kv s) append_key) = Ret tt).
Proof.
  intros Hord Hes.
  destruct (kt_run_inv app_prog (λ n s, (∃ es, app_inv n s es) ∧ length (kt_clients s) = nclnt) (λ _, True) es 1
    (kt_init app_server now (app_clients nclnt))) as (s & Hs & (entries & Hinv) & Hlen).
  - intros n e s Hn _ [Hinv Hlen]. destruct (app_step_ok n e s Hn Hinv) as (s' & Hs & Hinv').
    exists s'. split_and!; [done..|]. rewrite <- Hlen. by eapply kt_step_length.
  - by apply Forall_true.
  - unfold max_i64, max_u64 in *. lia.
  - split; [eexists; apply app_inv_init|]. cbn. unfold app_clients. by rewrite !length_fmap, length_seq.
  - exists s. split; [done|]. intros Hall. exists entries.
    destruct (ai_holds _ _ _ Hinv) as (_ & Hval & Hver). split.
    + unfold get_answer. cbn [GetJson]. rewrite (decide_True (P := OK = OK)) by done. rewrite Hval.
      unfold read_entries, json_entries. by rewrite read_pairs_json.
    + apply CheckAppends_iff; [done|unfold app_results; by rewrite length_fmap| |].
      * intros e He. rewrite <- Hlen. by apply (ai_ids _ _ _ Hinv).
      * eapply app_inv_passes; [|done..]. unfold max_i64 in *. lia.
Qed.

(** Two clients; client 0's first Put is performed but its reply is lost, and its second Put
    comes after client 1 has appended: it is refused, and the client reads again. *)
Definition append_race : list (kt_event choice) :=
  let get (i : nat) : list (kt_event choice) := [KTurn i 1 None; KRpc i 1 Delivered; KReturn i 1] in
  let put (i : nat) (fs : list call_fate) : list (kt_event choice) :=
    [KTurn i 1 None] ++ (KRpc i 1 <$> fs) ++ [KReturn i 1] in
  let go (i : nat) : list (kt_event choice) := [KTurn i 1 (Some 0)] in
  go 0%nat ++ get 0%nat ++ put 0%nat [ReplyLost; Delivered] ++
  go 0%nat ++ get 0%nat ++ go 1%nat ++ get 1%nat ++ put 1%nat [Delivered] ++ put 0%nat [Delivered] ++
  get 0%nat ++ put 0%nat [RequestLost; Delivered] ++ [KTurn 0 1 None; KTurn 1 1 None].

Lemma append_test_passes_witness :
  ∃ s, kt_run app_prog append_race (kt_init app_server 0 (app_clients 2)) = Ret s ∧
    app_results s = [{| Nok := 1; Nmaybe := 1 |}; {| Nok := 1; Nmaybe := 0 |}] ∧
    CheckAppends id [(0, 0); (1, 0); (0, 1)] 2 (app_results s) 4 = Ret tt.
Proof.
  destruct (append_test_passes kvsrv_Clerk _ id 2 0 append_race) as (s & Hs & Hpass);
    [done|vm_compute; reflexivity|].
  assert ((λ s, (app_results s, ac_at ∘ fst <$> kt_clients s, get_answer (kt_kv s) append_key))
    <$> kt_run app_prog append_race (kt_init app_server 0 (app_clients 2)) =
    Ret ([{| Nok := 1; Nmaybe := 1 |}; {| Nok := 1; Nmaybe := 0 |}], [AppReturned; AppReturned],
         (json_entries [(0, 0); (1, 0); (0, 1)], 4, OK))) as Hobs by (vm_compute; reflexivity).
  rewrite Hs in Hobs. injection Hobs as Hres Hat Hval Hver.
  exists s. split; [exact Hs|]. split; [exact Hres|].
  assert (Forall (λ a, a = AppReturned) (ac_at ∘ fst <$> kt_clients s)) as Hall
    by (rewrite Hat; repeat constructor).
  apply Forall_fmap in Hall. destruct (Hpass Hall) as (entries & He & Hc).
  unfold get_answer in He. rewrite Hval, Hver in *.
  assert (GetJson read_entries (json_entries [(0, 0); (1, 0); (0, 1)], 4, OK) =
          Ret ([(0, 0); (1, 0); (0, 1)], 4)) as Hd by (vm_compute; reflexivity).
  rewrite Hd in He. injection He as <-. exact Hc.
Defined.
