(* ===== verification/KVSpread.v ===== *)
(** * Spreading keys over a key/value store

    [SpreadPutsSize] and [SpreadPuts] of src/src/kvtest1/kvtest.go: one client that puts [n]
    keys once each, without looking at what the Puts answer, and then checks every key. Over
    any clerk that keeps [IKVClerkLaws] the checks pass, whatever the network loses. *)
From stdpp Require Import base tactics numbers list fin_maps gmap strings pretty.
From S2P Require Import Prelude GoLib GoStrings GoStrconv KVServer KVModel KVClerk KVTest KVCalls.

(** ** The client

    [sp_va] are the random strings it draws. *)
Inductive spread_at := SpPut (i : nat) | SpGet (i : nat) | SpReturned.

#[export] Instance spread_at_eq_dec : EqDecision spread_at.
Proof. solve_decision. Defined.

Record spread_client := { sp_n : nat; sp_va : list string; sp_at : spread_at }.
#[export] Instance eta_spread_client : Eta spread_client := λ c,
  {| sp_n := sp_n c; sp_va := sp_va c; sp_at := sp_at c |}.

Definition SpreadPutsSize (n : nat) (va : list string) : spread_client :=
  {| sp_n := n; sp_va := va; sp_at := SpPut 0 |}.

Definition spread_put_args (i : nat) (c : spread_client) : outcome PutArgs :=
  k ← go_index (MakeKeys (sp_n c)) (Z.of_nat i); v ← go_index (sp_va c) (Z.of_nat i);
  Ret {| pa_Key := k; pa_Value := v; pa_Version := 0 |}.

Definition spread_turn (_ : unit) (c : spread_client) : outcome (turn spread_client) :=
  match sp_at c with
  | SpPut i =>
      if decide (i < sp_n c)%nat then a ← spread_put_args i c; Ret (CallPut Direct 0 a)
      else Ret (Local (c <| sp_at := SpGet 0 |>))
  | SpGet i =>
      if decide (i < sp_n c)%nat then k ← go_index (MakeKeys (sp_n c)) (Z.of_nat i); Ret (CallGet ViaTest 0 k)
      else Ret (Local (c <| sp_at := SpReturned |>))
  | SpReturned => Ret Returned
  end.

(** The answer of the Put is dropped. *)
Definition spread_put (c : spread_client) (err : Err) : outcome spread_client :=
  match sp_at c with SpPut i => Ret (c <| sp_at := SpPut (S i) |>) | _ => Ret c end.

Definition spread_get (c : spread_client) (r : string * Tversion * Err) : outcome spread_client :=
  match sp_at c with
  | SpGet i =>
      v ← go_index (sp_va c) (Z.of_nat i); _ ← CheckGet v 1 r;
      Ret (c <| sp_at := SpGet (S i) |>)
  | _ => Ret c
  end.

Definition spread_prog : client_prog unit spread_client :=
  {| cl_turn := spread_turn; cl_put := spread_put; cl_get := spread_get |}.

(** ** The checks pass *)

Definition spread_key (i : nat) : string := "k" +:+ strconv_Itoa (Z.of_nat i).

Lemma spread_key_inj i j : spread_key i = spread_key j → i = j.
Proof.
  unfold spread_key, strconv_Itoa. intros E. apply (inj (String.append "k")) in E. apply (inj pretty) in E. lia.
Qed.

Lemma MakeKeys_index n i : (i < n)%nat → go_index (MakeKeys n) (Z.of_nat i) = Ret (spread_key i).
Proof.
  intros Hi. destruct (go_index_in_range (MakeKeys n) (Z.of_nat i)) as (k & E & Hk).
  { unfold MakeKeys, zlen. rewrite length_fmap, length_seq. lia. }
  rewrite E. rewrite Nat2Z.id in Hk. unfold MakeKeys in Hk. rewrite list_lookup_fmap, lookup_seq_lt in Hk by done.
  by injection Hk as <-.
Qed.

Section spread.
Context {C : IKVClerk} {HC : IKVClerkLaws C} (n : nat) (va : list string) (Hva : length va = n).

(** Key [i] as the first accepted Put leaves it. *)
Definition spread_item (i : nat) : option KeyValueItem :=
  (λ v, {| kvi_Key := spread_key i; kvi_Value := v; kvi_Version := 1 |}) <$> va !! i.

(** Of the first [n] keys those below [i] are stored, those above are not, key [i] may be. *)
Definition spread_kv (i : nat) (kv : KVServer) : Prop :=
  ∀ j, (j < n)%nat →
    ((j < i)%nat → KeyValueItems kv !! spread_key j = spread_item j) ∧
    ((i < j)%nat → KeyValueItems kv !! spread_key j = None) ∧
    (j = i → KeyValueItems kv !! spread_key j = None ∨ KeyValueItems kv !! spread_key j = spread_item j).

Definition spread_args (i : nat) (a : PutArgs) : Prop :=
  ∃ v, va !! i = Some v ∧ a = {| pa_Key := spread_key i; pa_Value := v; pa_Version := 0 |}.

Lemma spread_run_put i kv a :
  (i < n)%nat → spread_kv i kv → spread_args i a →
  spread_kv i (KVServer_Put kv a PutReply_zero).1 ∧
  KeyValueItems (KVServer_Put kv a PutReply_zero).1 !! spread_key i = spread_item i.
Proof.
  intros Hi Hkv (v & Hv & ->).
  set (a := {| pa_Key := spread_key i; pa_Value := v; pa_Version := 0 |}).
  assert (KeyValueItems (KVServer_Put kv a PutReply_zero).1 !! spread_key i = spread_item i) as Hst.
  { destruct (Hkv i Hi) as (_ & _ & H). destruct (H eq_refl) as [Hno|Hst].
    - assert (put_ok kv a) as Hok by (unfold put_ok, version_of; cbn; by rewrite Hno).
      rewrite Put_state_accepted by done. unfold next_version. cbn. rewrite Hno, lookup_insert_eq.
      unfold spread_item. by rewrite Hv.
    - rewrite Put_state_rejected; [done|]. unfold put_ok, version_of. cbn. rewrite Hst. unfold spread_item. by rewrite Hv. }
  split; [|done]. intros j Hj. destruct (Hkv j Hj) as (H1 & H2 & _). split_and!; [| |by intros ->; right].
  - intros Hlt. rewrite Put_other_key; [auto|]. cbn. intros E%spread_key_inj. lia.
  - intros Hlt. rewrite Put_other_key; [auto|]. cbn. intros E%spread_key_inj. lia.
Qed.

Lemma spread_kv_next i kv :
  (i < n)%nat → spread_kv i kv → KeyValueItems kv !! spread_key i = spread_item i → spread_kv (S i) kv.
Proof.
  intros Hi Hkv Hst j Hj. destruct (Hkv j Hj) as (H1 & H2 & _). split_and!.
  - intros Hlt. destruct (decide (j = i)) as [->|]; [done|]. apply H1. lia.
  - intros Hlt. apply H2. lia.
  - intros ->. left. apply H2. lia.
Qed.

(** The client and its call. *)
Definition spread_ok (kv : KVServer) (c : spread_client * call_state) : Prop :=
  sp_n c.1 = n ∧ sp_va c.1 = va ∧
  match sp_at c.1, c.2 with
  | SpPut i, Ready => (i ≤ n)%nat ∧ spread_kv i kv
  | SpPut i, Putting _ _ p _ =>
      (i < n)%nat ∧ spread_kv i kv ∧ spread_args i (put_args p) ∧
      (is_Some (put_result p) → KeyValueItems kv !! spread_key i = spread_item i)
  | SpGet i, Ready => (i ≤ n)%nat ∧ spread_kv n kv
  | SpGet i, Getting _ _ g _ =>
      (i < n)%nat ∧ spread_kv n kv ∧ get_args g = {| ga_Key := spread_key i |} ∧
      ∀ r, get_result g = Some r → spread_item i = Some {| kvi_Key := spread_key i; kvi_Value := r.1.1; kvi_Version := 1 |} ∧
                                  r.1.2 = 1 ∧ r.2 = OK
  | SpReturned, Ready => spread_kv n kv
  | _, _ => False
  end.

Lemma spread_va i : (i < n)%nat → ∃ v, go_index va (Z.of_nat i) = Ret v ∧ va !! i = Some v.
Proof.
  intros Hi. destruct (go_index_in_range va (Z.of_nat i)) as (v & E & Hv); [unfold zlen; lia|].
  exists v. by rewrite Nat2Z.id in Hv.
Qed.

Definition spread_inv (s : kt_sys spread_client) : Prop :=
  ∃ c, kt_clients s = [c] ∧ spread_ok (kt_kv s) c.

Lemma spread_kt_set s kv ts now c : length (kt_clients s) = 1%nat → spread_ok kv c → spread_inv (kt_set s kv ts now 0 c).
Proof. intros Hl Hc. exists c. split; [|done]. cbn. by destruct (kt_clients s) as [|? [|]]. Qed.

Lemma spread_turn_step s d c :
  kt_clients s = [(c, Ready)] → spread_ok (kt_kv s) (c, Ready) →
  ∃ s', kt_turn spread_prog 0 d () c s = Ret s' ∧ spread_inv s'.
Proof.
  intros Hs (Hn & Hv & Hat). assert (length (kt_clients s) = 1%nat) as Hl by by rewrite Hs.
  unfold kt_turn. cbn [cl_turn spread_prog]. unfold spread_turn. cbn [fst snd] in *. rewrite Hn.
  destruct (sp_at c) as [i|i|] eqn:Ea; [destruct Hat as [Hi Hkv]..|].
  - case_decide as Hlt.
    + destruct (spread_va i Hlt) as (v & Ev & Hvi). unfold spread_put_args. rewrite Hn, Hv, MakeKeys_index by done.
      rewrite !bind_ret_l, Ev, !bind_ret_l. eexists. split; [done|]. apply spread_kt_set; [done|].
      split_and!; [done..|]. cbn. rewrite Ea, put_begin_args, put_begin_result. split_and!; [done..|by exists v|by intros [? ?]].
    + rewrite bind_ret_l. eexists. split; [done|]. apply spread_kt_set; [done|]. split_and!; [done..|]. cbn.
      assert (i = n) as -> by lia. split; [lia|done].
  - case_decide as Hlt.
    + rewrite MakeKeys_index, !bind_ret_l by done. eexists. split; [done|]. apply spread_kt_set; [done|].
      split_and!; [done..|]. cbn. rewrite Ea, get_begin_args, get_begin_result. by split_and!.
    + rewrite bind_ret_l. eexists. split; [done|]. apply spread_kt_set; [done|]. by split_and!.
  - rewrite bind_ret_l. exists s. split; [done|]. exists (c, Ready). split; [done|]. split_and!; [done..|]. cbn. by rewrite Ea.
Qed.

Lemma spread_rpc_step s d f c call :
  kt_clients s = [(c, call)] → spread_ok (kt_kv s) (c, call) → spread_inv (kt_rpc 0 d f c call s).
Proof.
  intros Hs Hok. assert (length (kt_clients s) = 1%nat) as Hl by by rewrite Hs.
  assert (spread_inv s) as Hsame by by exists (c, call).
  destruct Hok as (Hn & Hv & Hat). cbn [fst snd] in *. unfold kt_rpc. destruct call as [|v cli p st|v cli g st]; [done|..].
  - destruct (sp_at c) as [i|i|] eqn:Ea; try done. destruct Hat as (Hi & Hkv & Ha & Hr).
    destruct (put_result p) as [e|] eqn:Ep; [done|].
    pose proof (put_attempt_server f (kt_kv s) p) as Hsrv. pose proof (put_attempt_args f (kt_kv s) p) as Hargs.
    pose proof (λ e, put_attempt_result f (kt_kv s) p e Ep) as Hres.
    destruct (put_attempt f (kt_kv s) p) as [kv' p']. cbn [fst snd] in *. apply spread_kt_set; [done|].
    destruct (spread_run_put i (kt_kv s) (put_args p) Hi Hkv Ha) as [Hkv2 Hst].
    split_and!; [done..|]. cbn. rewrite Ea, Hargs. split_and!; [done| |done|].
    + destruct Hsrv as [-> | ->]; done.
    + intros [e He]. destruct (Hres e He) as [_ ->]. done.
  - destruct (sp_at c) as [i|i|] eqn:Ea; try done. destruct Hat as (Hi & Hkv & Ha & Hr).
    destruct (get_result g) as [e|] eqn:Eg; [done|]. apply spread_kt_set; [done|].
    split_and!; [done..|]. cbn. rewrite Ea, get_attempt_args. split_and!; [done..|].
    intros [[v0 ver] err] Hg. pose proof (get_attempt_result f (kt_kv s) g v0 ver err Eg Hg) as H.
    rewrite Ha in H. cbn in H. destruct (Hkv i Hi) as (Hst & _). rewrite (Hst Hi) in H.
    destruct (spread_va i Hi) as (v1 & _ & Hvi). unfold spread_item in *. rewrite Hvi in *. cbn in *. naive_solver.
Qed.

Lemma spread_return_step s d c call :
  kt_clients s = [(c, call)] → spread_ok (kt_kv s) (c, call) →
  ∃ s', kt_return spread_prog 0 d c call s = Ret s' ∧ spread_inv s'.
Proof.
  intros Hs Hok. assert (length (kt_clients s) = 1%nat) as Hl by by rewrite Hs.
  assert (spread_inv s) as Hsame by by exists (c, call).
  destruct Hok as (Hn & Hv & Hat). cbn [fst snd] in *. unfold kt_return. destruct call as [|v cli p st|v cli g st]; [by exists s|..].
  - destruct (sp_at c) as [i|i|] eqn:Ea; try done. destruct Hat as (Hi & Hkv & Ha & Hr).
    destruct (put_result p) as [e|] eqn:Ep; [|by exists s]. cbn [cl_put spread_prog]. unfold spread_put. rewrite Ea, bind_ret_l.
    eexists. split; [done|]. apply spread_kt_set; [done|]. split_and!; [done..|]. cbn. split; [lia|].
    apply spread_kv_next; [done|done|]. by apply Hr.
  - destruct (sp_at c) as [i|i|] eqn:Ea; try done. destruct Hat as (Hi & Hkv & Ha & Hr).
    destruct (get_result g) as [[[v0 ver] err]|] eqn:Eg; [|by exists s]. cbn [cl_get spread_prog]. unfold spread_get. rewrite Ea.
    destruct (spread_va i Hi) as (v1 & Ev & Hvi). rewrite Hv, Ev, bind_ret_l.
    destruct (Hr _ eq_refl) as (Hit & Hver & Herr). cbn in Hit, Hver, Herr. subst ver err.
    unfold spread_item in Hit. rewrite Hvi in Hit. injection Hit as ->.
    unfold CheckGet. rewrite decide_False by naive_solver. rewrite decide_False by naive_solver. rewrite bind_ret_l.
    eexists. split; [done|]. apply spread_kt_set; [done|]. split_and!; [done..|]. cbn. split; [lia|done].
Qed.

Lemma spread_step e s : spread_inv s → ∃ s', kt_step spread_prog e s = Ret s' ∧ spread_inv s'.
Proof.
  intros ([c call] & Hs & Hok). assert (spread_inv s) as Hsame by by exists (c, call).
  destruct e as [i d []|i d f|i d]; cbn [kt_step]; rewrite Hs; (destruct i as [|i]; [|by exists s]); cbn [lookup list_lookup].
  - destruct call; [|by exists s..]. by apply spread_turn_step.
  - eexists. split; [done|]. by apply spread_rpc_step.
  - by apply spread_return_step.
Qed.

Lemma spread_run es s : spread_inv s → ∃ s', kt_run spread_prog es s = Ret s' ∧ spread_inv s'.
Proof.
  revert s. induction es as [|e es IH]; intros s Hs; [by exists s|]. cbn [kt_run].
  destruct (spread_step e s Hs) as (s1 & -> & H1). rewrite bind_ret_l. by apply IH.
Qed.

(** *** It can always finish *)

Definition spread_left (c : spread_client * call_state) : nat :=
  let rem := match sp_at c.1 with SpPut i => 2 * n + 2 - i | SpGet i => n + 1 - i | SpReturned => 0 end%nat in
  (3 * rem - match c.2 with
             | Ready => 0
             | Putting _ _ p _ => if put_result p is Some _ then 2 else 1
             | Getting _ _ g _ => if get_result g is Some _ then 2 else 1
             end)%nat.

Lemma spread_set_clients (s : kt_sys spread_client) kv ts now c :
  length (kt_clients s) = 1%nat → kt_clients (kt_set s kv ts now 0 c) = [c].
Proof. cbn. by destruct (kt_clients s) as [|? [|]]. Qed.

Lemma spread_progress s c call :
  kt_clients s = [(c, call)] → spread_ok (kt_kv s) (c, call) → sp_at c ≠ SpReturned →
  ∃ e s' c', kt_step spread_prog e s = Ret s' ∧ kt_clients s' = [c'] ∧ (spread_left c' < spread_left (c, call))%nat.
Proof.
  intros Hs Hok Hat. assert (length (kt_clients s) = 1%nat) as Hl by by rewrite Hs.
  pose proof Hok as (Hn & Hv & Hm). cbn [fst snd] in *. destruct call as [|v cli p st|v cli g st].
  - exists (KTurn 0 0 ()). cbn [kt_step]. rewrite Hs. cbn [lookup list_lookup].
    unfold kt_turn. cbn [cl_turn spread_prog]. unfold spread_turn, spread_put_args. rewrite Hn, Hv.
    destruct (sp_at c) as [i|i|] eqn:Ea; [destruct Hm as [Hi _]..|done]; case_decide as Hlt;
      rewrite ?MakeKeys_index by done; try (destruct (spread_va i Hlt) as (v & -> & _)); rewrite !bind_ret_l;
      (eexists _, _; split; [done|split; [by apply spread_set_clients|]]); unfold spread_left; cbn;
      rewrite ?Ea, ?put_begin_result, ?get_begin_result; lia.
  - destruct (sp_at c) as [i|i|] eqn:Ea; try done. destruct Hm as (Hi & _). destruct (put_result p) as [e|] eqn:Ep.
    + exists (KReturn 0 0). cbn [kt_step]. rewrite Hs. cbn [lookup list_lookup]. unfold kt_return. rewrite Ep.
      cbn [cl_put spread_prog]. unfold spread_put. rewrite Ea, bind_ret_l. eexists _, _. split; [done|].
      split; [by apply spread_set_clients|]. unfold spread_left; cbn. rewrite Ea, Ep. lia.
    + exists (KRpc 0 0 Delivered). cbn [kt_step]. rewrite Hs. cbn [lookup list_lookup]. unfold kt_rpc. rewrite Ep.
      pose proof (put_attempt_delivered (kt_kv s) p Ep) as Hd. destruct (put_attempt Delivered (kt_kv s) p) as [kv' p'].
      eexists _, _. split; [done|]. split; [by apply spread_set_clients|]. unfold spread_left; cbn in *. rewrite Ea, Ep.
      destruct Hd as [? ->]. lia.
  - destruct (sp_at c) as [i|i|] eqn:Ea; try done. destruct Hm as (Hi & _). destruct (get_result g) as [e|] eqn:Eg.
    + destruct (spread_return_step s (kt_now s + Z.of_N 0) c (Getting v cli g st) Hs Hok) as (s' & E & _).
      exists (KReturn 0 0), s'. cbn [kt_step]. rewrite Hs. cbn [lookup list_lookup].
      unfold kt_return in *. rewrite Eg in *. apply bind_ret_inv in E as (c' & Ec & [= <-]). exists (c', Ready). split; [by rewrite Ec|].
      split; [by apply spread_set_clients|]. cbn [cl_get spread_prog] in Ec. unfold spread_get in Ec. rewrite Ea in Ec.
      apply bind_ret_inv in Ec as (v1 & _ & (u & _ & [= <-])%bind_ret_inv). unfold spread_left; cbn. rewrite Ea, Eg. lia.
    + exists (KRpc 0 0 Delivered). cbn [kt_step]. rewrite Hs. cbn [lookup list_lookup]. unfold kt_rpc. rewrite Eg.
      pose proof (get_attempt_delivered (kt_kv s) g Eg) as Hd.
      eexists _, _. split; [done|]. split; [by apply spread_set_clients|]. unfold spread_left; cbn in *. rewrite Ea, Eg.
      destruct Hd as [? ->]. lia.
Qed.

Lemma spread_finishes s : spread_inv s → ∃ es s' c, kt_run spread_prog es s = Ret s' ∧ kt_clients s' = [(c, Ready)] ∧ sp_at c = SpReturned.
Proof.
  intros Hs. remember (match kt_clients s with [c] => spread_left c | _ => 0%nat end) as m eqn:Em.
  revert s Hs Em. induction (lt_wf m) as [m _ IH]. intros s Hs Em.
  pose proof Hs as ([c call] & Hc & Hok). rewrite Hc in Em. destruct (decide (sp_at c = SpReturned)) as [Hr|Hr].
  - exists [], s, c. split; [done|]. destruct Hok as (_ & _ & Hm). cbn in Hm. rewrite Hr in Hm.
    destruct call; [done|contradiction..].
  - destruct (spread_progress s c call Hc Hok Hr) as (e & s1 & c1 & E & Hc1 & Hlt).
    destruct (spread_step e s Hs) as (s1' & E' & H1). rewrite E in E'. injection E' as <-.
    destruct (IH (spread_left c1) ltac:(by rewrite Em) s1 H1) as (es & s' & c' & Er & ?); [by rewrite Hc1|].
    exists (e :: es), s', c'. split; [|done]. cbn [kt_run]. by rewrite E, bind_ret_l.
Qed.
End spread.

(** C15: [SpreadPuts] over any clerk that keeps [IKVClerkLaws], on a server that has none of
    its keys: whatever the network loses and whenever, no check of it fails and it can always
    finish; once it has returned, every key holds its string at version 1, put exactly once
    although no Put's answer was looked at. *)
Theorem spread_puts_pass {C : IKVClerk} {HC : IKVClerkLaws C} n va kv now es :
  length va = n → (∀ i, (i < n)%nat → KeyValueItems kv !! spread_key i = None) →
  ∃ s, kt_run spread_prog es (kt_init kv now [SpreadPutsSize n va]) = Ret s ∧
    (∃ es' s' c, kt_run spread_prog es' s = Ret s' ∧ kt_clients s' = [(c, Ready)] ∧ sp_at c = SpReturned) ∧
    ∀ c call, kt_clients s = [(c, call)] → sp_at c = SpReturned →
      ∀ i v, va !! i = Some v →
        KeyValueItems (kt_kv s) !! spread_key i =
          Some {| kvi_Key := spread_key i; kvi_Value := v; kvi_Version := 1 |}.
Proof.
  intros Hva Hno. destruct (spread_run n va Hva es (kt_init kv now [SpreadPutsSize n va])) as (s & E & Hs).
  { eexists. split; [done|]. split_and!; [done..|]. cbn. split; [lia|]. intros j Hj. split_and!; [lia|auto|]. left. auto. }
  exists s. split; [exact E|]. split; [by eapply spread_finishes|].
  intros c call Hc Hr i v Hv. destruct Hs as (c' & Hc' & _ & _ & Hm). rewrite Hc in Hc'. injection Hc' as <-.
  cbn in Hm. rewrite Hr in Hm. destruct call; [|contradiction..].
  assert (i < n)%nat as Hi by (rewrite <- Hva; by eapply lookup_lt_Some).
  destruct (Hm i Hi) as (Hst & _). rewrite (Hst Hi). unfold spread_item. by rewrite Hv.
Qed.

(** The first Put's reply is lost; the resent one is refused, and the checks still pass. *)
Lemma spread_puts_pass_witness :
  let es := [KTurn 0 1 (); KRpc 0 1 ReplyLost; KRpc 0 1 Delivered; KReturn 0 1;
             KTurn 0 1 (); KTurn 0 1 (); KRpc 0 1 RequestLost; KRpc 0 1 Delivered; KReturn 0 1; KTurn 0 1 ()] in
  ∃ s c, kt_run spread_prog es (kt_init MakeKVServer 0 [SpreadPutsSize 1 ["x"]]) = Ret s ∧
    kt_clients s = [(c, Ready)] ∧ sp_at c = SpReturned ∧
    KeyValueItems (kt_kv s) !! "k0" = Some {| kvi_Key := "k0"; kvi_Value := "x"; kvi_Version := 1 |}.
Proof.
  intros es. destruct (spread_puts_pass 1 ["x"] MakeKVServer 0 es eq_refl) as (s & E & _ & Hend).
  - intros i _. apply lookup_empty.
  - assert (match kt_run spread_prog es (kt_init MakeKVServer 0 [SpreadPutsSize 1 ["x"]]) with
            | Ret s => match kt_clients s with [(c, Ready)] => Some c | _ => None end
            | _ => None
            end = Some {| sp_n := 1; sp_va := ["x"]; sp_at := SpReturned |}) as Hc by (vm_compute; reflexivity).
    rewrite E in Hc. destruct (kt_clients s) as [|[c []] [|]] eqn:Hs; try discriminate. injection Hc as ->.
    exists s, {| sp_n := 1; sp_va := ["x"]; sp_at := SpReturned |}.
    split; [exact E|]. split; [exact Hs|]. split; [reflexivity|]. exact (Hend _ _ eq_refl eq_refl 0%nat "x" eq_refl).
Defined.
