(* ===== verification/KVHistory.v ===== *)
(** * Recorded histories are linearizable

    What the tests check with porcupine ([src/src/kvtest1/porcupine.go],
    [src/src/models1/kv.go]): the log that any clients of [KVTest] record, over any clerk that
    keeps [IKVClerkLaws], can be ordered into a run of the model that respects real time.  The
    proof carries the order along: an operation is placed when an attempt of its call takes
    effect on the server. *)
From Stdlib Require Import Sorting.Sorted.
From stdpp Require Import base tactics numbers list fin_maps gmap strings sorting.
From S2P Require Import Prelude GoLib KVServer KVModel KVClerk KVTest KVCalls KVTestSafety.

(** ** Linearizability *)

Definition op_key (o : Operation) : string := ki_Key (op_Input o).
Definition op_io (o : Operation) : KvInput * KvOutput := (op_Input o, op_Output o).

(** [a] returned before [b] was called. *)
Definition precedes (a b : Operation) : Prop := op_Return a < op_Call b.

(** The history has an order that keeps real time and is, key by key, a run of the model. *)
Definition linearizable (h : list Operation) : Prop :=
  ∃ l, l ≡ₚ h ∧ StronglySorted (λ a b, ¬ precedes b a) l ∧
       ∀ k, is_Some (model_run KvModel_Init (op_io <$> filter (λ o, op_key o = k) l)).

(** ** The order under construction *)

(** What an operation did when it took effect. *)
Inductive lin_kind := LGet (v : string) | LPut | LRefused | LNoKey.

#[export] Instance lin_kind_eq_dec : EqDecision lin_kind.
Proof. solve_decision. Defined.

Record lin_item := {
  li_client : nat;
  li_in : KvInput;
  li_kind : lin_kind;
  li_call : Z;
  li_done : option Operation
}.
#[export] Instance eta_lin_item : Eta lin_item := λ x,
  {| li_client := li_client x; li_in := li_in x; li_kind := li_kind x; li_call := li_call x;
     li_done := li_done x |}.

Definition li_key (x : lin_item) : string := ki_Key (li_in x).

Definition kind_input (kd : lin_kind) (i : KvInput) : Prop :=
  ki_Op i = match kd with LGet _ => 0 | _ => 1 end.

Definition kind_step (st : KvState) (i : KvInput) (kd : lin_kind) : option KvState :=
  match kd with
  | LGet v => if decide (v = ks_Value st) then Some st else None
  | LPut => if decide (ks_Version st = ki_Version i)
            then Some {| ks_Value := ki_Value i; ks_Version := u64 (ks_Version st + 1) |} else None
  | LRefused => if decide (ks_Version st = ki_Version i) then None else Some st
  | LNoKey => Some st
  end.

(** The answers a call may give that did this. *)
Definition kind_admits (kd : lin_kind) (out : KvOutput) : Prop :=
  match kd with
  | LGet v => ko_Value out = v
  | LPut => ko_Err out = OK ∨ ko_Err out = ErrMaybe
  | LRefused => ko_Err out = ErrVersion ∨ ko_Err out = ErrMaybe
  | LNoKey => ko_Err out = ErrNoKey
  end.

Fixpoint lin_run (st : KvState) (l : list lin_item) : option KvState :=
  match l with [] => Some st | x :: l => st ← kind_step st (li_in x) (li_kind x); lin_run st l end.

Lemma lin_run_app st l1 l2 : lin_run st (l1 ++ l2) = lin_run st l1 ≫= λ st, lin_run st l2.
Proof.
  revert st. induction l1 as [|x l1 IH]; intros st; cbn; [done|].
  destruct (kind_step _ _ _); cbn; auto.
Qed.

Lemma kind_step_model st st' i kd out :
  kind_input kd i → kind_step st i kd = Some st' → kind_admits kd out → kd ≠ LNoKey →
  KvModel_Step st i out = (true, StState st').
Proof.
  unfold kind_input, KvModel_Step. intros -> Hs Ha Hk. destruct kd; cbn in *; try done.
  - case_decide; simplify_eq. by rewrite bool_decide_true.
  - case_decide; simplify_eq. by destruct Ha as [-> | ->].
  - case_decide; simplify_eq. by destruct Ha as [-> | ->].
Qed.

(** ** The invariant *)

Section history.
Context {C : IKVClerk} {HC : IKVClerkLaws C} {Ch S : Type} (prog : client_prog Ch S).
Implicit Types (s : kt_sys S) (lin : list lin_item) (kv : KVServer).

(** Every call of the program goes through the functions that record it. *)
Definition prog_logged : Prop := ∀ ch st t, cl_turn prog ch st = Ret t →
  match t with CallPut v _ _ | CallGet v _ _ => v ≠ Direct | _ => True end.

Definition pending (i : nat) lin : list lin_item :=
  filter (λ x, li_client x = i ∧ li_done x = None) lin.

Definition put_in (a : PutArgs) : KvInput :=
  {| ki_Op := 1; ki_Key := pa_Key a; ki_Value := pa_Value a; ki_Version := pa_Version a |}.
Definition get_in (key : string) : KvInput :=
  {| ki_Op := 0; ki_Key := key; ki_Value := ""; ki_Version := 0 |}.

Definition item_of (x : lin_item) (start : Z) (inp : KvInput) (kd : lin_kind) : Prop :=
  li_in x = inp ∧ li_call x = start ∧ li_kind x = kd.

(** What a client's call has placed in the order. *)
Definition call_lin kv (now : Z) (c : option (S * call_state)) (l : list lin_item) : Prop :=
  match c with
  | Some (_, Putting v _ p start) =>
      v ≠ Direct ∧ start ≤ now ∧
      match put_result p with
      | None => ∃ b, put_pending kv p b ∧
                  if b then ∃ x, l = [x] ∧ item_of x start (put_in (put_args p)) LPut else l = []
      | Some e => ∃ x kd, l = [x] ∧ item_of x start (put_in (put_args p)) kd ∧
                          kind_admits kd {| ko_Value := ""; ko_Version := 0; ko_Err := e |}
      end
  | Some (_, Getting v _ g start) =>
      v ≠ Direct ∧ start ≤ now ∧
      match get_result g with
      | None => l = []
      | Some r => ∃ x, l = [x] ∧ item_of x start (get_in (ga_Key (get_args g))) (LGet (r.1.1))
      end
  | _ => l = []
  end.

Definition lin_order (a b : lin_item) : Prop :=
  ∀ o, li_done b = Some o → ¬ op_Return o < li_call a.

Record hist_inv (n : Z) s lin : Prop := {
  hi_bounded : kv_bounded n (kt_kv s);
  hi_server k : lin_run KvModel_Init (filter (λ x, li_key x = k) lin) = Some (abs_key (kt_kv s) k);
  hi_items x : x ∈ lin → kind_input (li_kind x) (li_in x) ∧ li_call x ≤ kt_now s;
  hi_done x o : x ∈ lin → li_done x = Some o →
    op_Input o = li_in x ∧ op_Call o = li_call x ∧ kind_admits (li_kind x) (op_Output o);
  hi_log : omap li_done lin ≡ₚ ts_oplog (kt_test s);
  hi_order : StronglySorted lin_order lin;
  hi_clients i : call_lin (kt_kv s) (kt_now s) (kt_clients s !! i) (pending i lin)
}.

Lemma hist_inv_mono n s lin : hist_inv n s lin → hist_inv (n + 1) s lin.
Proof. intros [[? Hb] ? ? ? ? ? ?]. split; try done. split; [done|]. intros k. specialize (Hb k). lia. Qed.

Lemma call_lin_le kv kv' now now' c l :
  kv_le kv kv' → now ≤ now' → call_lin kv now c l → call_lin kv' now' c l.
Proof.
  intros Hle Hnow. unfold call_lin. destruct c as [[st [|v cli p start|v cli g start]]|]; try done.
  - intros (? & ? & Hr). split_and!; [done|lia|]. destruct (put_result p); [done|].
    destruct Hr as (b & ? & ?). exists b. split; [by eapply put_pending_le|done].
  - intros (? & ? & ?). split_and!; [done|lia|done].
Qed.

Lemma clients_set s (i : nat) (c c' : S * call_state) j :
  kt_clients s !! i = Some c →
  <[i := c']> (kt_clients s) !! j = if decide (j = i) then Some c' else kt_clients s !! j.
Proof.
  intros Hi. case_decide as Hj; [subst; by eapply lookup_insert_same|]. by apply list_lookup_insert_ne.
Qed.

(** Client [i] moved; order, log and server stay. *)
Lemma hist_inv_move n s lin i c c' ts now :
  hist_inv n s lin → kt_clients s !! i = Some c → kt_now s ≤ now →
  ts_oplog ts = ts_oplog (kt_test s) →
  call_lin (kt_kv s) now (Some c') (pending i lin) →
  hist_inv (n + 1) (kt_set s (kt_kv s) ts now i c') lin.
Proof.
  intros Hinv Hi Hnow Hts Hc. destruct (hist_inv_mono _ _ _ Hinv) as [? ? Hit ? Hlog ? Hcl].
  split; cbn [kt_set kt_kv kt_test kt_now kt_clients]; try done.
  - intros x Hx. destruct (Hit x Hx). split; [done|lia].
  - by rewrite Hts.
  - intros j. rewrite (clients_set s i c) by done. case_decide; [by subst|].
    eapply call_lin_le; [done|exact Hnow|apply Hcl].
Qed.

Lemma pending_snoc i lin x :
  pending i (lin ++ [x]) = pending i lin ++ if decide (li_client x = i ∧ li_done x = None) then [x] else [].
Proof. unfold pending. rewrite filter_app, filter_cons. by case_decide. Qed.

(** Client [i]'s call takes effect: it enters the order as [x]. *)
Lemma hist_inv_effect n s lin i c c' kv' now x :
  hist_inv n s lin → kt_clients s !! i = Some c → kt_now s ≤ now →
  kv_bounded (n + 1) kv' → kv_le (kt_kv s) kv' → li_client x = i → li_done x = None →
  kind_input (li_kind x) (li_in x) → li_call x ≤ now →
  kind_step (abs_key (kt_kv s) (li_key x)) (li_in x) (li_kind x) = Some (abs_key kv' (li_key x)) →
  (∀ k, k ≠ li_key x → abs_key kv' k = abs_key (kt_kv s) k) →
  call_lin kv' now (Some c') (pending i lin ++ [x]) →
  hist_inv (n + 1) (kt_set s kv' (kt_test s) now i c') (lin ++ [x]).
Proof.
  intros [Hb Hsrv Hit Hdone Hlog Hord Hcl] Hi Hnow Hb' Hle Hx Hxd Hin Hcall Hst Hoth Hc.
  split; cbn [kt_set kt_kv kt_test kt_now kt_clients]; try done.
  - intros k. rewrite filter_app, lin_run_app, Hsrv. cbn [mbind option_bind]. rewrite filter_cons.
    case_decide as Hk; [subst k|rewrite Hoth by congruence; done]. cbn. by rewrite Hst.
  - intros y [Hy| ->%list_elem_of_singleton]%elem_of_app; [|done]. destruct (Hit y Hy). split; [done|lia].
  - intros y o [Hy| ->%list_elem_of_singleton]%elem_of_app Ho; [by eapply Hdone|congruence].
  - rewrite omap_app. cbn. by rewrite Hxd, app_nil_r.
  - apply StronglySorted_app_2; [|done|repeat constructor].
    intros a b _ ->%list_elem_of_singleton o Ho. congruence.
  - intros j. rewrite (clients_set s i c) by done. rewrite pending_snoc. case_decide as Hj.
    + subst j. by rewrite decide_True.
    + rewrite decide_False by (rewrite Hx; naive_solver). rewrite app_nil_r.
      eapply call_lin_le; [done|exact Hnow|apply Hcl].
Qed.

(** *** A call returns *)

Definition complete_item (i : nat) (o : Operation) (x : lin_item) : lin_item :=
  if decide (li_client x = i ∧ li_done x = None) then x <| li_done := Some o |> else x.
Definition complete (i : nat) (o : Operation) lin : list lin_item := complete_item i o <$> lin.

Lemma complete_item_keeps i o x :
  li_in (complete_item i o x) = li_in x ∧ li_kind (complete_item i o x) = li_kind x ∧
  li_call (complete_item i o x) = li_call x ∧ li_client (complete_item i o x) = li_client x.
Proof. unfold complete_item. by case_decide. Qed.

Lemma lin_run_complete i o k st lin :
  lin_run st (filter (λ x, li_key x = k) (complete i o lin)) = lin_run st (filter (λ x, li_key x = k) lin).
Proof.
  revert st. induction lin as [|x lin IH]; intros st; [done|]. cbn [complete fmap list_fmap].
  destruct (complete_item_keeps i o x) as (Hin & Hk & _ & _).
  assert (li_key (complete_item i o x) = li_key x) as Hkey by (unfold li_key; by rewrite Hin).
  destruct (decide (li_key x = k)).
  - rewrite !filter_cons_True by congruence. cbn [lin_run]. rewrite Hin, Hk.
    destruct (kind_step st (li_in x) (li_kind x)); [apply IH|done].
  - rewrite !filter_cons_False by congruence. apply IH.
Qed.

Lemma pending_complete i o j lin :
  pending j (complete i o lin) = if decide (j = i) then [] else pending j lin.
Proof.
  unfold pending. induction lin as [|x lin IH]; [by case_decide|]. cbn [complete fmap list_fmap].
  rewrite !filter_cons. fold (complete i o lin). rewrite IH. unfold complete_item.
  repeat case_decide; subst; cbn in *; try naive_solver.
Qed.

Lemma complete_none i o lin : pending i lin = [] → complete i o lin = lin.
Proof.
  unfold pending. induction lin as [|x lin IH]; [done|]. cbn [complete fmap list_fmap]. rewrite filter_cons.
  unfold complete_item. case_decide; [done|]. intros Hp. f_equal. by apply IH.
Qed.

Lemma complete_log i o lin x :
  pending i lin = [x] → omap li_done (complete i o lin) ≡ₚ omap li_done lin ++ [o].
Proof.
  unfold pending. induction lin as [|y lin IH]; [done|].
  change (complete i o (y :: lin)) with (complete_item i o y :: complete i o lin). rewrite filter_cons.
  unfold complete_item. case_decide as Hy; cbn [omap list_omap].
  - intros [= _ Hp]. rewrite (complete_none i o lin Hp). destruct Hy as [_ ->]. cbn.
    apply Permutation_cons_append.
  - intros Hp. specialize (IH Hp). destruct (li_done y); [|done]. cbn. by rewrite IH.
Qed.

Lemma complete_elem i o x lin :
  x ∈ complete i o lin → ∃ y, y ∈ lin ∧ x = complete_item i o y.
Proof. intros (y & -> & Hy)%list_elem_of_fmap. eauto. Qed.

Lemma complete_order i o lin :
  (∀ x, x ∈ lin → li_call x ≤ op_Return o) → StronglySorted lin_order lin →
  StronglySorted lin_order (complete i o lin).
Proof.
  intros Hcall Hs. induction Hs as [|x lin Hs IH Hx]; [constructor|]. cbn [complete fmap list_fmap].
  constructor; [apply IH; intros y Hy; apply Hcall; by right|].
  rewrite Forall_forall in *. intros y (z & Hz & ->)%complete_elem o' Ho'.
  destruct (complete_item_keeps i o x) as (_ & _ & -> & _). unfold complete_item in Ho'. case_decide.
  - cbn in Ho'. injection Ho' as <-. specialize (Hcall x (list_elem_of_here _ _)). lia.
  - by apply (Hx z Hz).
Qed.

Lemma hist_inv_return n s lin i c st' ts now o x :
  hist_inv n s lin → kt_clients s !! i = Some c → kt_now s ≤ now →
  pending i lin = [x] → op_Input o = li_in x → op_Call o = li_call x → op_Return o = now →
  kind_admits (li_kind x) (op_Output o) → ts_oplog ts = ts_oplog (kt_test s) ++ [o] →
  hist_inv (n + 1) (kt_set s (kt_kv s) ts now i (st', Ready)) (complete i o lin).
Proof.
  intros Hinv Hi Hnow Hp Ho1 Ho2 Ho3 Ho4 Hts.
  destruct (hist_inv_mono _ _ _ Hinv) as [Hb Hsrv Hit Hdone Hlog Hord Hcl].
  assert (∀ y, y ∈ lin → li_client y = i → li_done y = None → y = x) as Hone.
  { intros y Hy Hyi Hyd. assert (y ∈ pending i lin) as Hyp by (by apply list_elem_of_filter).
    rewrite Hp in Hyp. by apply list_elem_of_singleton in Hyp. }
  split; cbn [kt_set kt_kv kt_test kt_now kt_clients]; try done.
  - intros k. by rewrite lin_run_complete.
  - intros y (z & Hz & ->)%complete_elem. destruct (complete_item_keeps i o z) as (-> & -> & -> & _).
    destruct (Hit z Hz). split; [done|lia].
  - intros y o' (z & Hz & ->)%complete_elem Ho'. destruct (complete_item_keeps i o z) as (-> & -> & -> & _).
    unfold complete_item in Ho'. case_decide as Hd; [|by eapply Hdone]. cbn in Ho'. injection Ho' as <-.
    by rewrite (Hone z Hz (proj1 Hd) (proj2 Hd)).
  - rewrite Hts, <- Hlog. by eapply complete_log.
  - apply complete_order; [|done]. intros y Hy. destruct (Hit y Hy). lia.
  - intros j. rewrite (clients_set s i c), pending_complete by done. case_decide as Hj; [done|].
    eapply call_lin_le; [done|exact Hnow|apply Hcl].
Qed.

(** *** The steps *)

Lemma hist_turn_ok n s lin i st ch now :
  prog_logged → hist_inv n s lin → kt_clients s !! i = Some (st, Ready) → kt_now s ≤ now →
  ∀ s', kt_turn prog i now ch st s = Ret s' → ∃ lin', hist_inv (n + 1) s' lin'.
Proof.
  intros Hprog Hinv Hi Hnow s' (t & Ht & E)%bind_ret_inv. exists lin. specialize (Hprog _ _ _ Ht).
  pose proof (hi_clients _ _ _ Hinv i) as Hp. rewrite Hi in Hp. cbn in Hp.
  destruct t as [st'|v cli a|v cli key|]; simplify_eq.
  - by eapply hist_inv_move.
  - eapply hist_inv_move; try done. cbn [call_lin]. rewrite put_begin_result, Hp. split_and!; [done..|].
    exists false. split; [apply put_begin_pending|done].
  - eapply hist_inv_move; try done. cbn [call_lin]. rewrite get_begin_result, Hp. done.
  - by apply hist_inv_mono.
Qed.

(** A performed Put is the model's step. *)
Lemma put_kind_step kv a :
  put_ok kv a →
  kind_step (abs_key kv (pa_Key a)) (put_in a) LPut =
    Some (abs_key (KVServer_Put kv a PutReply_zero).1 (pa_Key a)).
Proof.
  intros Hok. cbn. rewrite decide_True by done. rewrite <- version_of_wrap. unfold abs_key.
  rewrite Put_value_accepted by done. unfold version_of at 1.
  rewrite Put_state_accepted by done. by rewrite lookup_insert_eq.
Qed.

Definition item_for (i : nat) (inp : KvInput) (kd : lin_kind) (start : Z) : lin_item :=
  {| li_client := i; li_in := inp; li_kind := kd; li_call := start; li_done := None |}.

Lemma hist_put_rpc_ok n s lin i st v cli p start f now :
  n < max_u64 → hist_inv n s lin → kt_now s ≤ now →
  kt_clients s !! i = Some (st, Putting v cli p start) → put_result p = None →
  ∃ lin', hist_inv (n + 1) (kt_set s (put_attempt f (kt_kv s) p).1 (kt_test s) now i
                              (st, Putting v cli (put_attempt f (kt_kv s) p).2 start)) lin'.
Proof.
  intros Hn Hinv Hnow Hi Hres. pose proof (hi_clients _ _ _ Hinv i) as Hc. rewrite Hi in Hc.
  cbn [call_lin] in Hc. rewrite Hres in Hc. destruct Hc as (Hv & Hstart & b & Hpend & Hb).
  pose proof (hi_bounded _ _ _ Hinv) as Hbd.
  destruct (put_attempt_moved n f (kt_kv s) p b Hbd Hn Hpend) as [Ha Hm].
  destruct (put_attempt_bounded n f (kt_kv s) p Hbd Hn) as [Hb' Hle].
  destruct (put_attempt f (kt_kv s) p) as [kv' p']; cbn [fst snd] in *. set (a := put_args p) in *.
  assert (∀ kd, b = false → kind_input kd (put_in a) →
    kind_step (abs_key (kt_kv s) (pa_Key a)) (put_in a) kd = Some (abs_key kv' (pa_Key a)) →
    (∀ k, k ≠ pa_Key a → abs_key kv' k = abs_key (kt_kv s) k) →
    match put_result p' with
    | None => put_pending kv' p' true ∧ kd = LPut
    | Some e => kind_admits kd {| ko_Value := ""; ko_Version := 0; ko_Err := e |} end →
    ∃ lin', hist_inv (n + 1) (kt_set s kv' (kt_test s) now i (st, Putting v cli p' start)) lin') as Heff.
  { intros kd -> Hin Hst Hoth Hans. exists (lin ++ [item_for i (put_in a) kd start]).
    eapply hist_inv_effect; try done; [cbn; lia|]. cbn [call_lin]. rewrite Hb, Ha. split_and!; [done|lia|].
    destruct (put_result p') as [e|]; [by eexists _, kd|]. destruct Hans as [? ->]. exists true.
    split; [done|by eexists]. }
  assert (∀ kd, b = false → kv' = kt_kv s → kind_input kd (put_in a) →
    kind_step (abs_key (kt_kv s) (pa_Key a)) (put_in a) kd = Some (abs_key (kt_kv s) (pa_Key a)) →
    (∃ e, put_result p' = Some e ∧ kind_admits kd {| ko_Value := ""; ko_Version := 0; ko_Err := e |}) →
    ∃ lin', hist_inv (n + 1) (kt_set s kv' (kt_test s) now i (st, Putting v cli p' start)) lin') as Hsame.
  { intros kd Hbf -> Hin Hst (e & Hr & He). apply (Heff kd); [done..|]. by rewrite Hr. }
  assert (b = false → put_ok (kt_kv s) a → kv' = (KVServer_Put (kt_kv s) a PutReply_zero).1 →
    match put_result p' with None => put_pending kv' p' true | Some e => e = OK end →
    ∃ lin', hist_inv (n + 1) (kt_set s kv' (kt_test s) now i (st, Putting v cli p' start)) lin') as Hperf.
  { intros Hbf Hok Hkv Hans. apply (Heff LPut); [done..| | |].
    - rewrite Hkv. by apply put_kind_step.
    - intros k Hk. rewrite Hkv. unfold abs_key. by destruct (Put_other (kt_kv s) a k Hk) as [-> ->].
    - destruct (put_result p'); [subst; by left|done]. }
  destruct Hm as [Hkv Hp'|Hbf Hok Hkv Hp'|Hbf Hok Hkv Hr|Hbf Hkv Hno Hs Hr|Hsn Hkv Hno Hs Hr|Hbf Hkv Hnone Hno Hr].
  - exists lin. rewrite Hkv in *. eapply hist_inv_move; try done. cbn [call_lin].
    rewrite (pp_result _ _ _ Hp'), Ha. split_and!; [done|lia|]. by exists b.
  - apply Hperf; try done. by rewrite (pp_result _ _ _ Hp').
  - apply Hperf; try done. by rewrite Hr.
  - apply (Hsame LRefused); try done; [cbn; by rewrite decide_False|]. exists ErrVersion. split; [done|by left].
  - destruct b.
    + exists lin. rewrite Hkv in *. eapply hist_inv_move; try done. cbn [call_lin]. rewrite Hr, Ha.
      destruct Hb as (x & Hx & Hitem). split_and!; [done|lia|]. exists x, LPut. split_and!; [done..|by right].
    + apply (Hsame LRefused); try done; [cbn; by rewrite decide_False|]. exists ErrMaybe. split; [done|by right].
  - apply (Hsame LNoKey); try done. by exists ErrNoKey.
Qed.

Lemma hist_get_rpc_ok n s lin i st v cli g start f now :
  n < max_u64 → hist_inv n s lin → kt_now s ≤ now →
  kt_clients s !! i = Some (st, Getting v cli g start) → get_result g = None →
  ∃ lin', hist_inv (n + 1) (kt_set s (kt_kv s) (kt_test s) now i
                              (st, Getting v cli (get_attempt f (kt_kv s) g) start)) lin'.
Proof.
  intros Hn Hinv Hnow Hi Hres. pose proof (hi_clients _ _ _ Hinv i) as Hc. rewrite Hi in Hc.
  cbn [call_lin] in Hc. rewrite Hres in Hc. destruct Hc as (Hv & Hstart & Hp).
  pose proof (get_attempt_args f (kt_kv s) g) as Ha.
  destruct (get_result (get_attempt f (kt_kv s) g)) as [[[val ver] err]|] eqn:Hr.
  - pose proof (get_attempt_result _ _ _ _ _ _ Hres Hr) as Hg. set (key := ga_Key (get_args g)) in *.
    assert (val = value_of (kt_kv s) key) as Hval.
    { unfold value_of. destruct (KeyValueItems (kt_kv s) !! key); naive_solver. }
    exists (lin ++ [item_for i (get_in key) (LGet val) start]).
    eapply hist_inv_effect; try done; [apply (hist_inv_mono _ _ _ Hinv)|cbn; lia|cbn; by rewrite decide_True|].
    cbn [call_lin]. rewrite Hr, Hp, Ha. split_and!; [done|lia|]. by eexists.
  - exists lin. eapply hist_inv_move; try done. cbn [call_lin]. rewrite Hr. split_and!; [done|lia|done].
Qed.

Lemma hist_return_ok n s lin i st call now :
  hist_inv n s lin → kt_clients s !! i = Some (st, call) → kt_now s ≤ now →
  ∀ s', kt_return prog i now st call s = Ret s' → ∃ lin', hist_inv (n + 1) s' lin'.
Proof.
  intros Hinv Hi Hnow s'. pose proof (hist_inv_mono _ _ _ Hinv) as Hmono.
  pose proof (hi_clients _ _ _ Hinv i) as Hc. rewrite Hi in Hc. unfold kt_return.
  destruct call as [|v cli p start|v cli g start]; [intros [= <-]; by exists lin|..]; cbn [call_lin] in Hc;
    destruct Hc as (Hv & Hstart & Hc).
  - destruct (put_result p) as [e|]; [|intros [= <-]; by exists lin].
    destruct Hc as (x & kd & Hp & (Hx1 & Hx2 & Hx3) & Hk).
    intros (st' & _ & [= <-])%bind_ret_inv. eexists.
    eapply (hist_inv_return n s lin) with (o := put_op cli (put_args p) e start now); try done;
      [by rewrite Hx3|by destruct v].
  - destruct (get_result g) as [r|]; [|intros [= <-]; by exists lin].
    destruct Hc as (x & Hp & (Hx1 & Hx2 & Hx3)).
    intros (st' & _ & [= <-])%bind_ret_inv. eexists.
    eapply (hist_inv_return n s lin) with (o := get_op cli (ga_Key (get_args g)) r start now); try done;
      [by rewrite Hx3|by destruct v].
Qed.

Lemma hist_step_ok n e s s' lin :
  prog_logged → n < max_u64 → hist_inv n s lin → kt_step prog e s = Ret s' →
  ∃ lin', hist_inv (n + 1) s' lin'.
Proof.
  intros Hprog Hn Hinv. pose proof (hist_inv_mono _ _ _ Hinv) as Hmono.
  destruct e as [i d ch|i d f|i d]; cbn [kt_step];
    destruct (kt_clients s !! i) as [[st call]|] eqn:Hi; try (intros [= <-]; by exists lin);
    assert (kt_now s ≤ kt_now s + Z.of_N d) as Hnow by lia.
  - destruct call; try (intros [= <-]; by exists lin). by eapply hist_turn_ok.
  - intros [= <-]. unfold kt_rpc. destruct call as [|v cli p start|v cli g start]; [by exists lin|..].
    + destruct (put_result p) as [r|] eqn:Hr; [by exists lin|].
      rewrite (surjective_pairing (put_attempt f (kt_kv s) p)). by eapply hist_put_rpc_ok.
    + destruct (get_result g) as [r|] eqn:Hr; [by exists lin|]. by eapply hist_get_rpc_ok.
  - by eapply hist_return_ok.
Qed.

Lemma hist_run n es s s' lin :
  prog_logged → n + zlen es ≤ max_u64 → hist_inv n s lin → kt_run prog es s = Ret s' →
  ∃ lin', hist_inv (n + zlen es) s' lin'.
Proof.
  intros Hprog. revert n s lin. induction es as [|e es IH]; intros n s lin Hn Hinv; cbn.
  { intros [= <-]. exists lin. by rewrite zlen_nil, Z.add_0_r. }
  rewrite zlen_cons in *. pose proof (zlen_nonneg es). intros (s1 & E1 & E)%bind_ret_inv.
  destruct (hist_step_ok n e s s1 lin Hprog) as [lin1 H1]; [lia|done..|].
  destruct (IH (n + 1) s1 lin1) as [lin' H2]; [lia|done..|]. exists lin'.
  by replace (n + (zlen es + 1)) with (n + 1 + zlen es) by lia.
Qed.

Lemma hist_inv_init now clients : hist_inv 0 (kt_init MakeKVServer now clients) [].
Proof.
  unfold kt_init. split; cbn.
  - apply MakeKVServer_bounded.
  - intros k. unfold abs_key, value_of, version_of. cbn. by rewrite lookup_empty.
  - by intros x ?%elem_of_nil.
  - by intros x o ?%elem_of_nil.
  - done.
  - constructor.
  - intros i. rewrite list_lookup_fmap. by destruct (clients !! i).
Qed.

(** When no call is under way the order is of logged operations alone, and it is a run. *)
Lemma idle_all_done n s lin x : hist_inv n s lin → kt_idle s → x ∈ lin → is_Some (li_done x).
Proof.
  intros Hinv Hidle Hx. destruct (li_done x) eqn:Hd; [eauto|].
  assert (x ∈ pending (li_client x) lin) as Hp by (by apply list_elem_of_filter).
  pose proof (hi_clients _ _ _ Hinv (li_client x)) as Hc.
  assert (pending (li_client x) lin = []) as Hnil; [|rewrite Hnil in Hp; by apply elem_of_nil in Hp].
  destruct (kt_clients s !! li_client x) as [[st call]|] eqn:Hi; [|done].
  unfold kt_idle in Hidle. rewrite Forall_lookup in Hidle. specialize (Hidle _ _ Hi). cbn in Hidle.
  by subst call.
Qed.

Lemma lin_run_model k lin st st' :
  (∀ x, x ∈ lin → ∃ o, li_done x = Some o ∧ kind_input (li_kind x) (li_in x) ∧ op_Input o = li_in x ∧
     kind_admits (li_kind x) (op_Output o) ∧ (ki_Op (op_Input o) = 1 → ko_Err (op_Output o) ≠ ErrNoKey)) →
  lin_run st (filter (λ x, li_key x = k) lin) = Some st' →
  model_run st (op_io <$> filter (λ o, op_key o = k) (omap li_done lin)) = Some st'.
Proof.
  revert st. induction lin as [|x lin IH]; intros st Hall; [done|].
  destruct (Hall x) as (o & Ho & Hin & Hio & Ha & Hnk); [left|].
  cbn [omap list_omap]. rewrite Ho. assert (op_key o = li_key x) as Hk by (unfold op_key, li_key; by rewrite Hio).
  specialize (λ st, IH st (λ y Hy, Hall y (list_elem_of_further _ _ _ Hy))).
  destruct (decide (li_key x = k)).
  - rewrite !filter_cons_True by congruence. cbn [lin_run].
    destruct (kind_step st (li_in x) (li_kind x)) as [st1|] eqn:Hst; [|done]. intros Hrun.
    change (op_io <$> o :: filter (λ o, op_key o = k) (omap li_done lin)) with
      (op_io o :: (op_io <$> filter (λ o, op_key o = k) (omap li_done lin))).
    cbn [model_run op_io]. rewrite Hio, (kind_step_model st st1 (li_in x) (li_kind x)); [by apply IH|done..|].
    intros Hnokey. rewrite Hnokey in *. rewrite Hio in Hnk. by apply Hnk.
  - rewrite !filter_cons_False by congruence. apply IH.
Qed.

Lemma done_order lin :
  (∀ x o, x ∈ lin → li_done x = Some o → op_Call o = li_call x) →
  StronglySorted lin_order lin → StronglySorted (λ a b, ¬ precedes b a) (omap li_done lin).
Proof.
  intros Hcall Hs. induction Hs as [|x lin Hs IH Hx]; [constructor|]. cbn [omap list_omap].
  specialize (IH (λ y o Hy, Hcall y o (list_elem_of_further _ _ _ Hy))).
  destruct (li_done x) as [o|] eqn:Ho; [|done]. constructor; [done|].
  apply Forall_forall. intros o' (y & Hy & Ho')%list_elem_of_omap. rewrite Forall_forall in Hx.
  unfold precedes. rewrite (Hcall x o) by (done || left). by apply (Hx y Hy).
Qed.
End history.

Lemma kt_history_linearizable (C : IKVClerk) (HC : IKVClerkLaws C) {Ch S} (prog : client_prog Ch S) clients now es s :
  prog_logged prog → zlen es ≤ max_u64 →
  kt_run prog es (kt_init MakeKVServer now clients) = Ret s → kt_idle s →
  Forall (λ o, ki_Op (op_Input o) = 1 → ko_Err (op_Output o) ≠ ErrNoKey) (ts_oplog (kt_test s)) →
  linearizable (ts_oplog (kt_test s)).
Proof.
  intros Hprog Hes Hrun Hidle Hnk.
  destruct (hist_run prog 0 es (kt_init MakeKVServer now clients) s [] Hprog) as [lin Hinv]; [lia|apply hist_inv_init|done|].
  exists (omap li_done lin). split_and!; [apply (hi_log _ _ _ Hinv)| |].
  - apply done_order; [|apply (hi_order _ _ _ Hinv)]. intros x o Hx Ho. by destruct (hi_done _ _ _ Hinv x o Hx Ho) as (_ & ? & _).
  - intros k. eexists. eapply lin_run_model; [|apply (hi_server _ _ _ Hinv)]. intros x Hx.
    destruct (idle_all_done _ _ _ x Hinv Hidle Hx) as [o Ho]. destruct (hi_done _ _ _ Hinv x o Hx Ho) as (? & _ & ?).
    destruct (hi_items _ _ _ Hinv x Hx) as [? _]. exists o. split_and!; [done..|]. rewrite Forall_forall in Hnk.
    apply Hnk. rewrite <- (hi_log _ _ _ Hinv). apply list_elem_of_omap. eauto.
Qed.

(** A Put that was answered [ErrNoKey] is in no order a step of the model. *)
Lemma linearizable_no_NoKey h :
  linearizable h → Forall (λ o, ki_Op (op_Input o) = 1 → ko_Err (op_Output o) ≠ ErrNoKey) h.
Proof.
  intros (l & Hp & _ & Hm). rewrite <- Hp. apply Forall_forall. intros o Ho.
  destruct (Hm (op_key o)) as [st Hst]. apply model_run_judged in Hst. rewrite Forall_fmap, Forall_forall in Hst.
  apply (Hst o). by apply list_elem_of_filter.
Qed.

(** C11: The histories the tests record are linearizable but for one answer: for clients of any
    program whose calls are all logged, over any clerk that keeps the interface's laws, in
    every run in which all calls have returned, the log has an order that keeps real time and
    is a run of the key/value model on every key, exactly when no Put in it was answered
    [ErrNoKey], which the model never answers. *)
Theorem history_linearizable (C : IKVClerk) (HC : IKVClerkLaws C) {Ch S} (prog : client_prog Ch S) clients now es s :
  prog_logged prog → zlen es ≤ max_u64 →
  kt_run prog es (kt_init MakeKVServer now clients) = Ret s → kt_idle s →
  linearizable (ts_oplog (kt_test s)) ↔
  Forall (λ o, ki_Op (op_Input o) = 1 → ko_Err (op_Output o) ≠ ErrNoKey) (ts_oplog (kt_test s)).
Proof.
  intros Hprog Hes Hrun Hidle. split; [apply linearizable_no_NoKey|].
  exact (kt_history_linearizable C HC prog clients now es s Hprog Hes Hrun Hidle).
Qed.

Lemma put_prog_logged : prog_logged put_prog.
Proof.
  intros ch c t. cbn. unfold put_turn. destruct (pc_at c); [destruct ch as [r|]|..]; try by intros [= <-].
  by intros (k & _ & [= <-])%bind_ret_inv.
Qed.

Definition op_view (o : Operation) : Z * Z * Err * Z * Z :=
  (op_ClientId o, ki_Op (op_Input o), ko_Err (op_Output o), op_Call o, op_Return o).

(** The race of [KVTestSafety], its log and that no call is left. *)
Lemma put_race_log :
  ∃ s, kt_run put_prog (put_race ReplyLost) (kt_init MakeKVServer 0 (put_clients "k" 2 false)) = Ret s ∧
    op_view <$> ts_oplog (kt_test s) =
      [(1, 1, ErrVersion, 5, 7); (1, 0, OK, 8, 10); (0, 1, ErrMaybe, 2, 12); (0, 0, OK, 13, 15);
       (1, 1, OK, 17, 19); (1, 0, OK, 20, 22)] ∧
    kt_idle s ∧ Forall (λ o, ki_Op (op_Input o) = 1 → ko_Err (op_Output o) ≠ ErrNoKey) (ts_oplog (kt_test s)).
Proof.
  assert ((λ s, (op_view <$> ts_oplog (kt_test s),
      (λ cl : _ * call_state, match cl.2 with Ready => true | _ => false end) <$> kt_clients s))
    <$> kt_run put_prog (put_race ReplyLost) (kt_init MakeKVServer 0 (put_clients "k" 2 false)) =
    Ret ([(1, 1, ErrVersion, 5, 7); (1, 0, OK, 8, 10); (0, 1, ErrMaybe, 2, 12); (0, 0, OK, 13, 15);
         (1, 1, OK, 17, 19); (1, 0, OK, 20, 22)], [true; true])) as Hobs by (vm_compute; reflexivity).
  destruct (kt_run put_prog (put_race ReplyLost) (kt_init MakeKVServer 0 (put_clients "k" 2 false)))
    as [s|w|m] eqn:Hs; [|discriminate..].
  injection Hobs as Hlog Hready. exists s. split_and!; [done|done|..].
  - assert (Forall (λ b, b = true) ((λ cl : _ * call_state, match cl.2 with Ready => true | _ => false end)
      <$> kt_clients s)) as Hall by (rewrite Hready; repeat constructor).
    apply Forall_fmap in Hall. eapply Forall_impl; [exact Hall|]. intros [st []]; cbn; done.
  - apply (Forall_impl ((λ q : Z * Z * Err * Z * Z, q.1.1.2 ≠ ErrNoKey) ∘ op_view)).
    + apply Forall_fmap. rewrite Hlog. repeat constructor; discriminate.
    + by intros o Ho _.
Qed.

Lemma history_linearizable_witness :
  ∃ s, kt_run put_prog (put_race ReplyLost) (kt_init MakeKVServer 0 (put_clients "k" 2 false)) = Ret s ∧
    op_view <$> ts_oplog (kt_test s) =
      [(1, 1, ErrVersion, 5, 7); (1, 0, OK, 8, 10); (0, 1, ErrMaybe, 2, 12); (0, 0, OK, 13, 15);
       (1, 1, OK, 17, 19); (1, 0, OK, 20, 22)] ∧
    linearizable (ts_oplog (kt_test s)).
Proof.
  destruct put_race_log as (s & Hs & Hlog & Hidle & Hnk). exists s. split; [exact Hs|]. split; [exact Hlog|].
  apply (history_linearizable kvsrv_Clerk _ put_prog (put_clients "k" 2 false) 0 (put_race ReplyLost) s
    put_prog_logged); [vm_compute; discriminate|exact Hs|exact Hidle|exact Hnk].
Defined.
