(* ===== verification/LockService.v ===== *)
(** * Locks over a key/value clerk

    [src/src/kvsrv1/lock/lock.go], proved against the [IKVClerk] interface of [KVClerk]
    alone: mutual exclusion holds for every clerk that keeps the interface's laws.  A lock
    client is at one of the points where it waits for a clerk call; a step of the system
    starts an operation at one client or makes one RPC attempt of its pending call. *)
From stdpp Require Import base tactics numbers list fin_maps gmap strings.
From S2P Require Import Prelude GoLib KVServer KVClerk.

Record Lock := { LockName : string; Id : string }.

(** [MakeLock]: the identity is the random string [RandValue(12)], here an argument. *)
Definition MakeLock (lockname rand12 : string) : Lock :=
  {| LockName := lockname; Id := rand12 |}.

Section lock.
Context `{C : IKVClerk}.

(** Where a client is: outside, in the loop of [Acquire] waiting for its Get or its Put,
    between [Acquire] and [Release], or in the loop of [Release]. *)
Inductive lock_pc :=
  | Idle
  | AcquireGet (g : get_call)
  | AcquirePut (p : put_call)
  | Held
  | ReleaseGet (g : get_call)
  | ReleasePut (p : put_call).

Definition Acquire_start (lk : Lock) : lock_pc :=
  AcquireGet (get_begin {| ga_Key := LockName lk |}).

(** The body of [Acquire]'s loop after its Get returned; sleeping is a step back to the
    head of the loop. *)
Definition Acquire_after_get (lk : Lock) (r : string * Tversion * Err) : lock_pc :=
  let '(val, ver, err) := r in
  let '(val, ver) := if decide (err = ErrNoKey) then ("", 0) else (val, ver) in
  if decide (val = Id lk) then Held
  else if decide (val ≠ "") then Acquire_start lk
  else AcquirePut (put_begin {| pa_Key := LockName lk; pa_Value := Id lk; pa_Version := ver |}).

(** The rest of the body; [ErrMaybe] and every other error go round the loop again. *)
Definition Acquire_after_put (lk : Lock) (err : Err) : lock_pc :=
  if decide (err = OK) then Held else Acquire_start lk.

Definition Release_start (lk : Lock) : lock_pc :=
  ReleaseGet (get_begin {| ga_Key := LockName lk |}).

Definition Release_after_get (lk : Lock) (r : string * Tversion * Err) : lock_pc :=
  let '(val, ver, err) := r in
  if decide (err ≠ OK ∨ val ≠ Id lk) then Idle
  else ReleasePut (put_begin {| pa_Key := LockName lk; pa_Value := ""; pa_Version := ver |}).

Definition Release_after_put (lk : Lock) (err : Err) : lock_pc :=
  if decide (err = OK ∨ err = ErrMaybe) then Idle else Release_start lk.

(** One RPC attempt of the call a client waits for. *)
Definition lock_rpc (f : call_fate) (kv : KVServer) (lk : Lock) (pc : lock_pc)
    : option (KVServer * lock_pc) :=
  match pc with
  | Idle | Held => None
  | AcquireGet g =>
      let g' := get_attempt f kv g in
      Some (kv, match get_result g' with Some r => Acquire_after_get lk r | None => AcquireGet g' end)
  | AcquirePut p =>
      let '(kv', p') := put_attempt f kv p in
      Some (kv', match put_result p' with Some e => Acquire_after_put lk e | None => AcquirePut p' end)
  | ReleaseGet g =>
      let g' := get_attempt f kv g in
      Some (kv, match get_result g' with Some r => Release_after_get lk r | None => ReleaseGet g' end)
  | ReleasePut p =>
      let '(kv', p') := put_attempt f kv p in
      Some (kv', match put_result p' with Some e => Release_after_put lk e | None => ReleasePut p' end)
  end.

Record lock_sys := { ls_kv : KVServer; ls_clients : list (Lock * lock_pc) }.

Inductive lock_event := EAcquire (i : nat) | ERelease (i : nat) | ERpc (i : nat) (f : call_fate).

Definition set_client (s : lock_sys) (kv : KVServer) (i : nat) (lk : Lock) (pc : lock_pc)
    : lock_sys :=
  {| ls_kv := kv; ls_clients := <[i := (lk, pc)]> (ls_clients s) |}.

Definition lock_step (e : lock_event) (s : lock_sys) : option lock_sys :=
  match e with
  | EAcquire i =>
      '(lk, pc) ← ls_clients s !! i;
      match pc with Idle => Some (set_client s (ls_kv s) i lk (Acquire_start lk)) | _ => None end
  | ERelease i =>
      '(lk, pc) ← ls_clients s !! i;
      match pc with Held => Some (set_client s (ls_kv s) i lk (Release_start lk)) | _ => None end
  | ERpc i f =>
      '(lk, pc) ← ls_clients s !! i;
      '(kv', pc') ← lock_rpc f (ls_kv s) lk pc;
      Some (set_client s kv' i lk pc')
  end.

Fixpoint lock_run (es : list lock_event) (s : lock_sys) : option lock_sys :=
  match es with [] => Some s | e :: es => lock_step e s ≫= lock_run es end.

Definition lock_init (locks : list Lock) : lock_sys :=
  {| ls_kv := MakeKVServer; ls_clients := (λ lk, (lk, Idle)) <$> locks |}.

Definition holds (s : lock_sys) (i : nat) (lk : Lock) : Prop :=
  ls_clients s !! i = Some (lk, Held).

#[local] Instance Lock_eq_dec : EqDecision Lock.
Proof. solve_decision. Defined.

(** [holds], decided. *)
Definition holdsb (s : lock_sys) (i : nat) (lk : Lock) : bool :=
  match ls_clients s !! i with
  | Some (lk', Held) => bool_decide (lk' = lk)
  | _ => false
  end.

Lemma holdsb_spec s i lk : holdsb s i lk = true ↔ holds s i lk.
Proof.
  unfold holdsb, holds. split.
  - destruct (ls_clients s !! i) as [[lk' []]|]; try done. by intros ->%bool_decide_eq_true.
  - intros ->. by apply bool_decide_true.
Qed.

(** [RandValue(12)] draws identities that are distinct with overwhelming probability and
    are never empty: the hypothesis under which locks exclude each other. *)
Definition ids_distinct (locks : list Lock) : Prop :=
  NoDup (Id <$> locks) ∧ Forall (λ lk, Id lk ≠ "") locks.

(** ** The invariant *)

(** What a client's place in the code says about the stored lock word. *)
Definition client_inv (kv : KVServer) (lk : Lock) (pc : lock_pc) : Prop :=
  let k := LockName lk in
  match pc with
  | Idle => True
  | Held => value_of kv k = Id lk
  | AcquireGet g | ReleaseGet g => get_args g = {| ga_Key := k |} ∧ get_result g = None
  | AcquirePut p =>
      put_result p = None ∧ pa_Key (put_args p) = k ∧ pa_Value (put_args p) = Id lk ∧
      pa_Version (put_args p) ≤ version_of kv k ∧
      (version_of kv k = pa_Version (put_args p) → value_of kv k = "")
  | ReleasePut p =>
      put_result p = None ∧ pa_Key (put_args p) = k ∧ pa_Value (put_args p) = "" ∧
      pa_Version (put_args p) ≤ version_of kv k ∧
      (version_of kv k = pa_Version (put_args p) → value_of kv k = Id lk)
  end.

Record lock_inv (n : Z) (s : lock_sys) : Prop := {
  li_wf : kv_wf (ls_kv s);
  li_ver k : version_of (ls_kv s) k ≤ n;
  li_ids : ids_distinct ((ls_clients s).*1);
  li_client i lk pc : ls_clients s !! i = Some (lk, pc) → client_inv (ls_kv s) lk pc
}.

Context `{!IKVClerkLaws C}.

Lemma ids_inj (cs : list (Lock * lock_pc)) i j lk1 lk2 pc1 pc2 :
  ids_distinct (cs.*1) → cs !! i = Some (lk1, pc1) → cs !! j = Some (lk2, pc2) →
  Id lk1 = Id lk2 → i = j.
Proof.
  intros [Hnd _] Hi Hj HId. eapply (NoDup_lookup _ i j (Id lk1)) in Hnd; [done|..];
    rewrite !list_lookup_fmap; [rewrite Hi|rewrite Hj]; simpl; congruence.
Qed.

Lemma ids_nonempty (cs : list (Lock * lock_pc)) i lk pc :
  ids_distinct (cs.*1) → cs !! i = Some (lk, pc) → Id lk ≠ "".
Proof.
  intros [_ Hne] Hi. rewrite Forall_forall in Hne. apply Hne.
  apply list_elem_of_fmap. exists (lk, pc). split; [done|].
  by eapply list_elem_of_lookup_2.
Qed.

Lemma lock_inv_init locks : ids_distinct locks → lock_inv 0 (lock_init locks).
Proof.
  intros Hids. split; simpl.
  - apply MakeKVServer_wf.
  - intros k. unfold version_of; simpl. by rewrite lookup_empty.
  - rewrite <- list_fmap_compose. simpl. by rewrite list_fmap_id.
  - intros i lk pc Hi. apply list_lookup_fmap_Some in Hi as (? & [= -> ->] & _). done.
Qed.

(** Client [i] moves without touching the store. *)
Lemma lock_inv_local n s i lk pc pc' :
  lock_inv n s → ls_clients s !! i = Some (lk, pc) → client_inv (ls_kv s) lk pc' →
  lock_inv (n + 1) (set_client s (ls_kv s) i lk pc').
Proof.
  intros [Hwf Hver Hids Hcl] Hi Hpc'. pose proof (lookup_lt_Some _ _ _ Hi) as Hlt.
  split; simpl; [done|intros k; specialize (Hver k); lia|..].
  - rewrite list_fmap_insert; simpl. rewrite list_insert_id; [done|].
    by rewrite list_lookup_fmap, Hi.
  - intros j lk' pc'' Hj. apply list_lookup_insert_Some in Hj as [(<- & [= -> ->] & _)|[_ Hj]];
      [done|by eapply Hcl].
Qed.

(** Client [i]'s Put takes effect; whoever else waits with a version of the same key is
    left behind, and nobody held the lock unless [i] did. *)
Lemma client_inv_other kv lk args r pc :
  kv_wf kv → put_ok kv args → pa_Version args < max_u64 → client_inv kv lk pc →
  (pc = Held → LockName lk = pa_Key args → value_of kv (LockName lk) ≠ Id lk) →
  client_inv (KVServer_Put kv args r).1 lk pc.
Proof.
  intros Hwf Hok Hlt Hinv Hheld.
  destruct (decide (LockName lk = pa_Key args)) as [Heq|Hne].
  - pose proof (Put_version_accepted kv args r Hwf Hok Hlt) as Hv. unfold put_ok in Hok.
    destruct pc; simpl in *; rewrite ?Heq in *; rewrite ?Hv; try done.
    + destruct Hinv as (? & ? & ? & ? & ?). split_and!; try done; lia.
    + by destruct (Hheld eq_refl eq_refl).
    + destruct Hinv as (? & ? & ? & ? & ?). split_and!; try done; lia.
  - pose proof (Put_other_key kv args r _ Hne) as Ho.
    destruct pc; simpl in *; unfold value_of, version_of in *; by rewrite ?Ho.
Qed.

Lemma lock_inv_put n s i lk pc pc' args r :
  lock_inv n s → n < max_u64 → ls_clients s !! i = Some (lk, pc) →
  put_ok (ls_kv s) args → pa_Key args = LockName lk →
  (value_of (ls_kv s) (LockName lk) = "" ∨ value_of (ls_kv s) (LockName lk) = Id lk) →
  client_inv (KVServer_Put (ls_kv s) args r).1 lk pc' →
  lock_inv (n + 1) (set_client s (KVServer_Put (ls_kv s) args r).1 i lk pc').
Proof.
  intros [Hwf Hver Hids Hcl] Hn Hi Hok Hk Hval Hpc'.
  assert (pa_Version args < max_u64) as Hlt.
  { unfold put_ok in Hok. specialize (Hver (pa_Key args)). lia. }
  split; simpl.
  - by apply Put_wf.
  - intros k. specialize (Hver k). pose proof (Put_version_step (ls_kv s) args r k Hwf). lia.
  - rewrite list_fmap_insert; simpl. rewrite list_insert_id; [done|].
    by rewrite list_lookup_fmap, Hi.
  - intros j lk' pc'' Hj. apply list_lookup_insert_Some in Hj as [(<- & [= -> ->] & _)|[Hij Hj]];
      [done|]. apply client_inv_other; eauto. intros -> Hname Hv.
    rewrite <- Hk, <- Hname, Hv in Hval. destruct Hval as [Hval|Hval].
    + by eapply ids_nonempty in Hval.
    + by apply Hij; symmetry; eapply ids_inj.
Qed.

(** Where a returned Get leads, with what it read still current. *)
Lemma client_inv_after_get kv lk g f r :
  kv_wf kv →
  get_args g = {| ga_Key := LockName lk |} → get_result g = None →
  get_result (get_attempt f kv g) = Some r →
  client_inv kv lk (Acquire_after_get lk r) ∧ client_inv kv lk (Release_after_get lk r).
Proof.
  intros Hwf Ha Hn Hr. destruct r as [[val ver] err].
  pose proof (get_attempt_result f kv g val ver err Hn Hr) as Hread. rewrite Ha in Hread.
  simpl in Hread. pose proof (version_of_range kv (LockName lk) Hwf) as Hrange.
  unfold Acquire_after_get, Acquire_start, Release_after_get.
  unfold version_of, value_of in *. split.
  - destruct (KeyValueItems kv !! LockName lk) as [it|] eqn:E;
      destruct Hread as (-> & -> & ->); simpl; repeat case_decide; simpl;
      rewrite ?get_begin_args, ?get_begin_result, ?put_begin_args, ?put_begin_result; simpl;
      unfold value_of, version_of; rewrite ?E; try done; split_and!; try done; lia.
  - destruct (KeyValueItems kv !! LockName lk) as [it|] eqn:E;
      destruct Hread as (-> & -> & ->); case_decide as Hd; simpl; try done.
    + assert (kvi_Value it = Id lk) by (destruct (decide (kvi_Value it = Id lk)); tauto).
      rewrite put_begin_args, put_begin_result; simpl. unfold value_of, version_of.
      rewrite E. split_and!; try done; lia.
    + exfalso. apply Hd. by left.
Qed.

(** The state after a Put attempt in either loop: the loops differ in the value written
    ([v']), in what they rely on the stored value being ([v]) and in the continuation. *)
Lemma lock_inv_put_attempt n s i lk pc p f v v' (mk : put_call → lock_pc) after :
  lock_inv n s → n < max_u64 → ls_clients s !! i = Some (lk, pc) →
  (v = "" ∨ v = Id lk) →
  (put_result p = None ∧ pa_Key (put_args p) = LockName lk ∧ pa_Value (put_args p) = v' ∧
   pa_Version (put_args p) ≤ version_of (ls_kv s) (LockName lk) ∧
   (version_of (ls_kv s) (LockName lk) = pa_Version (put_args p) →
    value_of (ls_kv s) (LockName lk) = v)) →
  (∀ kv p', put_result p' = None → put_args p' = put_args p →
     pa_Version (put_args p) ≤ version_of kv (LockName lk) →
     (version_of kv (LockName lk) = pa_Version (put_args p) → value_of kv (LockName lk) = v) →
     client_inv kv lk (mk p')) →
  (∀ kv e, (e = OK → value_of kv (LockName lk) = v') → client_inv kv lk (after e)) →
  lock_inv (n + 1)
    (set_client s (put_attempt f (ls_kv s) p).1 i lk
       match put_result (put_attempt f (ls_kv s) p).2 with
       | Some e => after e | None => mk (put_attempt f (ls_kv s) p).2 end).
Proof.
  intros Hinv Hn Hi Hv (Hres & Hkey & Hval & Hle & Hcur) Hmk Hafter.
  pose proof (put_attempt_args f (ls_kv s) p) as Hargs.
  pose proof (put_attempt_ok f (ls_kv s) p Hres) as Hok.
  destruct (put_attempt_server f (ls_kv s) p) as [Hsrv|Hsrv];
    [|destruct (decide (put_ok (ls_kv s) (put_args p))) as [Hacc|Hrej];
      [|rewrite Put_state_rejected in Hsrv by done]].
  1, 3: rewrite Hsrv; apply (lock_inv_local n s i lk pc); [done..|].
  1, 2: destruct (put_result (put_attempt f (ls_kv s) p).2) as [e|] eqn:Hr; [|by apply Hmk].
  1, 2: apply Hafter; intros ->; destruct (Hok eq_refl) as [Hacc Heff].
  - rewrite <- Hsrv, Heff, <- Hkey, <- Hval. by apply Put_value_accepted.
  - done.
  - rewrite Hsrv. apply (lock_inv_put n s i lk pc); try done.
    { unfold put_ok in Hacc. rewrite Hkey in Hacc. rewrite (Hcur Hacc). tauto. }
    destruct (put_result (put_attempt f (ls_kv s) p).2) as [e|] eqn:Hr.
    + apply Hafter. intros _. rewrite <- Hkey, <- Hval. by apply Put_value_accepted.
    + pose proof (Put_version_accepted (ls_kv s) (put_args p) PutReply_zero) as Hver.
      destruct Hinv as [Hwf Hver' _ _]. unfold put_ok in Hver, Hacc. rewrite Hkey in *.
      specialize (Hver' (LockName lk)). apply Hmk; try done; rewrite Hver by (done || lia); lia.
Qed.

Lemma lock_step_inv n s s' e :
  lock_inv n s → n < max_u64 → lock_step e s = Some s' → lock_inv (n + 1) s'.
Proof.
  intros Hinv Hn Hstep. destruct e as [i|i|i f]; simpl in Hstep;
    destruct (ls_clients s !! i) as [[lk pc]|] eqn:Hi; simpl in Hstep; try done.
  - destruct pc; simplify_eq. apply (lock_inv_local n s i lk Idle); [done..|]. simpl.
    by rewrite get_begin_args, get_begin_result.
  - destruct pc; simplify_eq. apply (lock_inv_local n s i lk Held); [done..|]. simpl.
    by rewrite get_begin_args, get_begin_result.
  - pose proof (li_client n s Hinv i lk pc Hi) as Hc. pose proof (li_wf n s Hinv) as Hwf.
    destruct pc as [|g|p| |g|p]; simpl in Hstep; try done.
    + simplify_eq/=. destruct Hc as [Ha Hr]. apply (lock_inv_local n s i lk (AcquireGet g)); [done..|].
      destruct (get_result (get_attempt f (ls_kv s) g)) eqn:Hg; [by eapply client_inv_after_get|].
      simpl. by rewrite get_attempt_args.
    + rewrite (surjective_pairing (put_attempt _ _ _)) in Hstep. simplify_eq/=.
      eapply (lock_inv_put_attempt n s i lk _ p f "" (Id lk) AcquirePut); try done; auto.
      * intros kv p' Hr Ha. simpl. rewrite Ha. naive_solver.
      * intros kv e He. unfold Acquire_after_put. case_decide; [by apply He|].
        simpl. by rewrite get_begin_args, get_begin_result.
    + simplify_eq/=. destruct Hc as [Ha Hr]. apply (lock_inv_local n s i lk (ReleaseGet g)); [done..|].
      destruct (get_result (get_attempt f (ls_kv s) g)) eqn:Hg; [by eapply client_inv_after_get|].
      simpl. by rewrite get_attempt_args.
    + rewrite (surjective_pairing (put_attempt _ _ _)) in Hstep. simplify_eq/=.
      eapply (lock_inv_put_attempt n s i lk _ p f (Id lk) "" ReleasePut); try done; auto.
      * intros kv p' Hr Ha. simpl. rewrite Ha. naive_solver.
      * intros kv e He. unfold Release_after_put. case_decide; [done|].
        simpl. by rewrite get_begin_args, get_begin_result.
Qed.

Lemma lock_run_inv es n s s' :
  lock_inv n s → n + zlen es ≤ max_u64 → lock_run es s = Some s' → lock_inv (n + zlen es) s'.
Proof.
  revert n s. induction es as [|e es IH]; intros n s Hinv Hn; simpl.
  - intros [= <-]. by rewrite zlen_nil, Z.add_0_r.
  - rewrite zlen_cons in *. pose proof (zlen_nonneg es).
    destruct (lock_step e s) as [s1|] eqn:E; simpl; [|done]. intros Hrun.
    replace (n + (zlen es + 1)) with ((n + 1) + zlen es) by lia.
    eapply IH; [|lia|done]. eapply lock_step_inv; [done|lia|done].
Qed.

(** Two holders of one lock name would both find their identity in the lock word. *)
Lemma lock_inv_exclusive n s i j lk1 lk2 :
  lock_inv n s → holds s i lk1 → holds s j lk2 → LockName lk1 = LockName lk2 → i = j.
Proof.
  intros [_ _ Hids Hcl] Hi Hj Hname.
  pose proof (Hcl _ _ _ Hi) as H1. pose proof (Hcl _ _ _ Hj) as H2. simpl in H1, H2.
  eapply ids_inj; [done..|congruence].
Qed.
End lock.

(** ** What a lock promises *)

(** C8: two clients never hold the same lock name at once, over any clerk that keeps the
    interface's laws, however their calls interleave and whatever requests and replies the
    network loses, for identities that differ.  The number of steps is bounded so that the
    lock word's version does not wrap around. *)
Theorem lock_mutual_exclusion `{C : IKVClerk} `{!IKVClerkLaws C} locks es s i j lk1 lk2 :
  ids_distinct locks → zlen es ≤ max_u64 →
  lock_run es (lock_init locks) = Some s →
  holds s i lk1 → holds s j lk2 → LockName lk1 = LockName lk2 → i = j.
Proof.
  intros Hids Hlen Hrun. apply (lock_inv_exclusive (zlen es)).
  apply (lock_run_inv es 0 (lock_init locks)); [by apply lock_inv_init|lia|done].
Qed.

(** Client 1 tries while client 0 holds the lock, whose first reply was lost. *)
Definition lock_example : list lock_event :=
  [EAcquire 0; ERpc 0 Delivered; EAcquire 1; ERpc 1 Delivered; ERpc 0 ReplyLost;
   ERpc 1 Delivered; ERpc 0 Delivered; ERpc 1 Delivered; ERpc 0 Delivered].

Lemma lock_mutual_exclusion_witness :
  let l0 := MakeLock "l" "id0" in let l1 := MakeLock "l" "id1" in
  ∃ s, lock_run lock_example (lock_init (C := kvsrv_Clerk) [l0; l1]) = Some s ∧
       holds s 0 l0 ∧ ¬ holds s 1 l1.
Proof.
  intros l0 l1.
  assert (option_map (λ s, holdsb s 0 l0)
            (lock_run lock_example (lock_init (C := kvsrv_Clerk) [l0; l1])) = Some true) as Hrun
    by (vm_compute; reflexivity).
  destruct (lock_run lock_example (lock_init (C := kvsrv_Clerk) [l0; l1])) as [s|] eqn:E;
    [|discriminate Hrun].
  injection Hrun as H0. apply holdsb_spec in H0. exists s. split; [done|]. split; [done|].
  intros H1. assert (0%nat = 1%nat) as Hbad; [|discriminate Hbad].
  refine (lock_mutual_exclusion [l0; l1] lock_example s 0 1 l0 l1 _ _ E H0 H1 eq_refl);
    [|vm_compute; discriminate].
  split; [refine (bool_decide_unpack _ _); vm_compute; exact I|]. repeat constructor; discriminate.
Defined.

Section uncontended.
Existing Instance kvsrv_Clerk.

Lemma value_of_empty kv k : value_of kv k = "" → 
  KeyValueItems kv !! k = None ∨ ∃ it, KeyValueItems kv !! k = Some it ∧ kvi_Value it = "".
Proof. unfold value_of. destruct (KeyValueItems kv !! k); eauto. Qed.

(** The Put that takes a free lock or gives up a held one, and where it leads. *)
Lemma lock_put_delivered kv lk v mk after :
  (∀ p, mk p = AcquirePut p) ∧ after = Acquire_after_put lk ∨
  (∀ p, mk p = ReleasePut p) ∧ after = Release_after_put lk →
  let args := {| pa_Key := LockName lk; pa_Value := v; pa_Version := version_of kv (LockName lk) |} in
  lock_rpc Delivered kv lk (mk (put_begin args)) =
    Some ((KVServer_Put kv args PutReply_zero).1, after OK).
Proof.
  intros Hmk args.
  pose proof (Clerk_Put_attempt_ret Delivered kv (Clerk_Put_begin args) eq_refl) as Hr.
  pose proof (Clerk_Put_attempt_server Delivered kv (Clerk_Put_begin args)) as Hs.
  rewrite Put_reply, decide_True in Hr by done.
  destruct Hmk as [[Hmk ->]|[Hmk ->]]; rewrite Hmk; cbn [lock_rpc put_attempt put_begin put_result kvsrv_Clerk];
    destruct (Clerk_Put_attempt Delivered kv (Clerk_Put_begin args)) as [kv' p];
    cbn [fst snd] in *; rewrite Hr, Hs; done.
Qed.

Lemma lock_get_delivered kv lk after mk :
  (∀ g, mk g = AcquireGet g) ∧ after = Acquire_after_get lk ∨
  (∀ g, mk g = ReleaseGet g) ∧ after = Release_after_get lk →
  lock_rpc Delivered kv lk (mk (get_begin {| ga_Key := LockName lk |})) =
    Some (kv, after (match KeyValueItems kv !! LockName lk with
                     | Some it => (kvi_Value it, kvi_Version it, OK)
                     | None => ("", 0, ErrNoKey) end)).
Proof.
  intros Hmk.
  pose proof (Clerk_Get_attempt_ret Delivered kv (Clerk_Get_begin {| ga_Key := LockName lk |}) eq_refl) as Hr0.
  destruct Hmk as [[Hmk ->]|[Hmk ->]]; rewrite Hmk; cbn [lock_rpc get_attempt get_begin get_result kvsrv_Clerk];
    revert Hr0; generalize (Clerk_Get_attempt Delivered kv (Clerk_Get_begin {| ga_Key := LockName lk |}));
    intros g Hr; rewrite Hr; done.
Qed.

Definition alone (kv : KVServer) (lk : Lock) (pc : lock_pc) : lock_sys :=
  {| ls_kv := kv; ls_clients := [(lk, pc)] |}.

Lemma alone_rpc f kv lk pc kv' pc' :
  lock_rpc f kv lk pc = Some (kv', pc') →
  lock_step (ERpc 0 f) (alone kv lk pc) = Some (alone kv' lk pc').
Proof. intros Hr. cbn. by rewrite Hr. Qed.

Lemma Acquire_free kv lk :
  value_of kv (LockName lk) = "" → Id lk ≠ "" →
  ∃ kv', lock_run [EAcquire 0; ERpc 0 Delivered; ERpc 0 Delivered] (alone kv lk Idle) =
           Some (alone kv' lk Held) ∧
         KeyValueItems kv' !! LockName lk =
           Some {| kvi_Key := LockName lk; kvi_Value := Id lk;
                   kvi_Version := next_version kv (LockName lk) |}.
Proof.
  intros Hv Hid. cbn [lock_run].
  change (lock_step (EAcquire 0) (alone kv lk Idle)) with (Some (alone kv lk (Acquire_start lk))).
  cbn [option_bind mbind]. unfold Acquire_start at 1.
  rewrite (alone_rpc _ _ _ _ _ _ (lock_get_delivered kv lk (Acquire_after_get lk) AcquireGet
             ltac:(left; done))).
  cbn [option_bind mbind].
  assert (Acquire_after_get lk (match KeyValueItems kv !! LockName lk with
            | Some it => (kvi_Value it, kvi_Version it, OK) | None => ("", 0, ErrNoKey) end) =
          AcquirePut (put_begin {| pa_Key := LockName lk; pa_Value := Id lk;
                                   pa_Version := version_of kv (LockName lk) |})) as ->.
  { unfold Acquire_after_get, version_of.
    destruct (value_of_empty _ _ Hv) as [->|(it & -> & ->)]; repeat case_decide; naive_solver. }
  rewrite (alone_rpc _ _ _ _ _ _ (lock_put_delivered kv lk (Id lk) AcquirePut
             (Acquire_after_put lk) ltac:(left; done))).
  eexists. split; [done|]. rewrite Put_state_accepted by done. by rewrite lookup_insert_eq.
Qed.

Lemma Release_held kv lk it :
  KeyValueItems kv !! LockName lk = Some it → kvi_Value it = Id lk →
  ∃ kv', lock_run [ERelease 0; ERpc 0 Delivered; ERpc 0 Delivered] (alone kv lk Held) =
           Some (alone kv' lk Idle) ∧ value_of kv' (LockName lk) = "".
Proof.
  intros Hit Hv. cbn [lock_run].
  change (lock_step (ERelease 0) (alone kv lk Held)) with (Some (alone kv lk (Release_start lk))).
  cbn [option_bind mbind]. unfold Release_start at 1.
  rewrite (alone_rpc _ _ _ _ _ _ (lock_get_delivered kv lk (Release_after_get lk) ReleaseGet
             ltac:(right; done))).
  cbn [option_bind mbind]. rewrite Hit.
  assert (Release_after_get lk (kvi_Value it, kvi_Version it, OK) =
          ReleasePut (put_begin {| pa_Key := LockName lk; pa_Value := "";
                                   pa_Version := version_of kv (LockName lk) |})) as ->.
  { unfold Release_after_get, version_of. rewrite Hit, decide_False; naive_solver. }
  rewrite (alone_rpc _ _ _ _ _ _ (lock_put_delivered kv lk "" ReleasePut
             (Release_after_put lk) ltac:(right; done))).
  eexists. split; [done|]. unfold value_of. rewrite Put_state_accepted by done.
  by rewrite lookup_insert_eq.
Qed.
End uncontended.

(** Over the key/value service's own clerk, a client that finds the lock word empty or
    missing acquires it with one Get and one Put, and its [Release] empties the word again
    with one Get and one Put: an uncontended lock is never stuck. *)
Theorem lock_uncontended kv lk :
  value_of kv (LockName lk) = "" → Id lk ≠ "" →
  ∃ kv1 kv2,
    lock_run [EAcquire 0; ERpc 0 Delivered; ERpc 0 Delivered]
      (alone kv lk Idle) =
      Some (alone kv1 lk Held) ∧
    value_of kv1 (LockName lk) = Id lk ∧
    lock_run [ERelease 0; ERpc 0 Delivered; ERpc 0 Delivered] (alone kv1 lk Held) =
      Some (alone kv2 lk Idle) ∧
    value_of kv2 (LockName lk) = "".
Proof.
  intros Hv Hid. destruct (Acquire_free kv lk Hv Hid) as (kv1 & Hrun & Hkv1).
  destruct (Release_held kv1 lk _ Hkv1 eq_refl) as (kv2 & Hrel & Hfree).
  exists kv1, kv2. split_and!; try done. unfold value_of. by rewrite Hkv1.
Qed.

Lemma lock_uncontended_witness :
  ∃ kv1 kv2,
    lock_run [EAcquire 0; ERpc 0 Delivered; ERpc 0 Delivered]
      (alone MakeKVServer (MakeLock "l" "id0") Idle) = Some (alone kv1 (MakeLock "l" "id0") Held) ∧
    lock_run [ERelease 0; ERpc 0 Delivered; ERpc 0 Delivered] (alone kv1 (MakeLock "l" "id0") Held) =
      Some (alone kv2 (MakeLock "l" "id0") Idle).
Proof.
  destruct (lock_uncontended MakeKVServer (MakeLock "l" "id0")) as (kv1 & kv2 & H1 & _ & H2 & _);
    [vm_compute; reflexivity|discriminate|].
  exists kv1, kv2. split; [exact H1|exact H2].
Defined.
