(* ===== verification/ShardCfg.v ===== *)
(** * Shard configurations

    [src/src/shardkv1/shardcfg/shardcfg.go]: which shard a key is in, and the assignment of
    shards to replica groups with its balancing.  [String]/[FromString] are the JSON library
    and are left out.  A Go map is ranged over in an unspecified order: [Join] takes its
    argument as the list of pairs in the order they happen to come. *)
From Stdlib Require Import Sorting.Sorted.
From stdpp Require Import base tactics numbers list fin_maps gmap strings sorting.
From S2P Require Import Prelude GoLib.

Abbreviation Tshid := Z (only parsing).
Abbreviation Tnum := Z (only parsing).
Abbreviation Tgid := Z (only parsing).

Definition NShards : nat := 12.
Definition NumFirst : Tnum := 1.
Definition Gid1 : Tgid := 1.

Definition Key2Shard (key : string) : Tshid := Z.rem (fnv32a key) (Z.of_nat NShards).

(** [Shards] is an array of length [NShards]. *)
Record ShardConfig := {
  Num : Tnum;
  Shards : list Tgid;
  Groups : gmap Tgid (list string)
}.
#[export] Instance eta_ShardConfig : Eta ShardConfig := λ c,
  {| Num := Num c; Shards := Shards c; Groups := Groups c |}.

#[export] Instance ShardConfig_eq_dec : EqDecision ShardConfig.
Proof. solve_decision. Defined.

Definition MakeShardConfig : ShardConfig :=
  {| Num := 0; Shards := replicate NShards 0; Groups := ∅ |}.

(** A fresh configuration with the same contents. *)
Definition ShardConfig_Copy (cfg : ShardConfig) : ShardConfig :=
  let c := MakeShardConfig in
  let c := c <| Num := Num cfg |> in
  let c := c <| Shards := Shards cfg |> in
  c <| Groups := map_fold (λ k srvs g, <[k := srvs]> g) (Groups c) (Groups cfg) |>.

(** ** Balancing *)

Definition analyze_step (counts : gmap Tgid Z) (acc : Tgid * Z * Tgid * Z) (g : Tgid)
    : Tgid * Z * Tgid * Z :=
  let '(mg, mn, lg, ln) := acc in
  let n := default 0 (counts !! g) in
  let '(lg, ln) := if decide (n < ln) then (g, n) else (lg, ln) in
  let '(mg, mn) := if decide (n > mn) then (g, n) else (mg, mn) in
  (mg, mn, lg, ln).

(** [mostgroup, mostn, leastgroup, leastn] *)
Definition analyze (c : ShardConfig) : Tgid * Z * Tgid * Z :=
  let counts := go_counts (Shards c) in
  let groups := slices_Sort ((map_to_list (Groups c)).*1) in
  foldl (analyze_step counts) (-1, -1, -1, 257) groups.

Definition least (c : ShardConfig) : Tgid :=
  let '(_, _, lg, _) := analyze c in lg.

(** Ranging over [c.Shards] copies the array first, so [g] is the group before the loop. *)
Definition assign_one (c : ShardConfig) (sg : nat * Tgid) : ShardConfig :=
  let '(s, g) := sg in
  match Groups c !! g with
  | Some _ => c
  | None => let lg := least c in c <| Shards := <[s := lg]> (Shards c) |>
  end.

Definition assign_unassigned (c : ShardConfig) : ShardConfig :=
  foldl assign_one c (imap pair (Shards c)).

(** Move the first shard of [mg] to [lg]. *)
Fixpoint move_shard (mg lg : Tgid) (shards : list Tgid) : list Tgid :=
  match shards with
  | [] => []
  | g :: shards => if decide (g = mg) then lg :: shards else g :: move_shard mg lg shards
  end.

(** One turn of the balancing loop; [None] is its [break]. *)
Definition rebalance_step (c : ShardConfig) : option ShardConfig :=
  let '(mg, mn, lg, ln) := analyze c in
  if decide (mn < ln + 2) then None
  else Some (c <| Shards := move_shard mg lg (Shards c) |>).

(** The loop, with fuel: [None] is a loop that did not end within it. *)
Fixpoint rebalance_loop (fuel : nat) (c : ShardConfig) : option ShardConfig :=
  match rebalance_step c with
  | None => Some c
  | Some c' => match fuel with O => None | S fuel => rebalance_loop fuel c' end
  end.

(** Every move lowers the sum of the squares of the groups' loads, at most [NShards ^ 2]. *)
Definition rebalance_fuel : nat := NShards * NShards.

Definition Rebalance (c : ShardConfig) : option ShardConfig :=
  if decide (size (Groups c) < 1)%nat then
    Some (c <| Shards := (λ _, 0) <$> Shards c |>)
  else rebalance_loop rebalance_fuel (assign_unassigned c).

(** ** Joining and leaving *)

Definition shares_server (xservers servers : list string) : bool :=
  existsb (λ s1, existsb (λ s2, bool_decide (s1 = s2)) servers) xservers.

Fixpoint join_loop (cfg : ShardConfig) (servers : list (Tgid * list string)) (changed : bool)
    : outcome (ShardConfig * bool * bool) :=
  match servers with
  | [] => Ret (cfg, changed, true)
  | (gid, srvs) :: servers =>
      match Groups cfg !! gid with
      | Some _ => Ret (cfg, changed, false)
      | None =>
          if existsb (λ xg, shares_server (xg.2) srvs) (map_to_list (Groups cfg))
          then Fatal "Join puts server in two groups"
          else join_loop (cfg <| Groups := <[gid := srvs]> (Groups cfg) |>) servers true
      end
  end.

Definition Join (cfg : ShardConfig) (servers : list (Tgid * list string))
    : outcome (ShardConfig * bool) :=
  '(cfg, changed, ok) ← join_loop cfg servers false;
  if negb ok then Ret (cfg, false)
  else if negb changed then Fatal "Join but no change"
  else Ret (cfg <| Num := i64 (Num cfg + 1) |>, true).

Fixpoint leave_loop (cfg : ShardConfig) (gids : list Tgid) (changed : bool)
    : ShardConfig * bool * bool :=
  match gids with
  | [] => (cfg, changed, true)
  | gid :: gids =>
      match Groups cfg !! gid with
      | None => (cfg, changed, false)
      | Some _ => leave_loop (cfg <| Groups := delete gid (Groups cfg) |>) gids true
      end
  end.

Definition Leave (cfg : ShardConfig) (gids : list Tgid) : outcome (ShardConfig * bool) :=
  let '(cfg, changed, ok) := leave_loop cfg gids false in
  if negb ok then Ret (cfg, false)
  else if negb changed then Fatal "Leave but no change"
  else Ret (cfg <| Num := i64 (Num cfg + 1) |>, true).

(** [Rebalance] ends ([Rebalance_total] below), so the missing-fuel case is unreachable. *)
Definition rebalanced (c : ShardConfig) : ShardConfig := default c (Rebalance c).

Definition JoinBalance (cfg : ShardConfig) (servers : list (Tgid * list string))
    : outcome (ShardConfig * bool) :=
  '(cfg, ok) ← Join cfg servers;
  if negb ok then Ret (cfg, false) else Ret (rebalanced cfg, true).

Definition LeaveBalance (cfg : ShardConfig) (gids : list Tgid) : outcome (ShardConfig * bool) :=
  '(cfg, ok) ← Leave cfg gids;
  if negb ok then Ret (cfg, false) else Ret (rebalanced cfg, true).

Definition GidServers (cfg : ShardConfig) (sh : Tshid) : outcome (Tgid * list string * bool) :=
  go_index (Shards cfg) sh ≫= λ gid : Tgid,
    match Groups cfg !! gid with
    | Some srvs => Ret (gid, srvs, true)
    | None => Ret (gid, [], false)
    end.

Definition IsMember (cfg : ShardConfig) (gid : Tgid) : bool :=
  existsb (λ g, bool_decide (g = gid)) (Shards cfg).

(** ** The test's check *)

Definition minmax_step (counts : gmap Tgid Z) (acc : Z * Z) (g : Tgid) : Z * Z :=
  let '(min, max) := acc in
  let n := default 0 (counts !! g) in
  let max := if decide (n > max) then n else max in
  let min := if decide (n < min) then n else min in
  (min, max).

Definition CheckConfig (cfg : ShardConfig) (groups : list Tgid) : outcome unit :=
  if decide (size (Groups cfg) ≠ length groups) then Fatal "wanted other number of groups"
  else if existsb (λ g, bool_decide (Groups cfg !! g = None)) groups then Fatal "missing group"
  else if bool_decide (0 < length groups)%nat &&
          existsb (λ g, bool_decide (Groups cfg !! g = None)) (Shards cfg)
  then Fatal "shard -> invalid group"
  else
    let counts := go_counts (Shards cfg) in
    let '(min, max) := foldl (minmax_step counts) (257, 0) ((map_to_list (Groups cfg)).*1) in
    if decide (max > min + 1) then Fatal "max too much larger than min" else Ret tt.

(** ** Specifications *)

Definition load (c : ShardConfig) (g : Tgid) : nat := count_occ g (Shards c).

Definition assigned (c : ShardConfig) : Prop :=
  Forall (λ g, is_Some (Groups c !! g)) (Shards c).

(** What [Rebalance] promises: with no group every shard is unassigned; otherwise every shard
    is in an existing group and no two groups differ by more than one shard. *)
Definition balanced (c : ShardConfig) : Prop :=
  (Groups c = ∅ → Forall (λ g, g = 0) (Shards c)) ∧
  (Groups c ≠ ∅ → assigned c ∧
    ∀ g1 g2, is_Some (Groups c !! g1) → is_Some (Groups c !! g2) →
      (load c g1 ≤ load c g2 + 1)%nat).

Definition group_list (c : ShardConfig) : list Tgid := (map_to_list (Groups c)).*1.

Section analyze.
Implicit Types (c : ShardConfig) (g : Tgid).

Lemma elem_of_group_list c g : g ∈ group_list c ↔ is_Some (Groups c !! g).
Proof.
  unfold group_list. rewrite list_elem_of_fmap. split.
  - intros ([g' l] & -> & Hl%elem_of_map_to_list). eauto.
  - intros [l Hl]. exists (g, l). by rewrite elem_of_map_to_list.
Qed.

Lemma NoDup_group_list c : NoDup (group_list c).
Proof. apply NoDup_fst_map_to_list. Qed.

Lemma group_list_nonempty c : Groups c ≠ ∅ → group_list c ≠ [].
Proof.
  intros Hne Hnil. apply Hne. unfold group_list in Hnil.
  apply fmap_nil_inv in Hnil. by apply map_to_list_empty_iff.
Qed.

(** The four results of [analyze] over a list of groups. *)
Definition extremes (f : Tgid → Z) (gs : list Tgid) (acc : Tgid * Z * Tgid * Z) : Prop :=
  let '(mg, mn, lg, ln) := acc in
  mg ∈ gs ∧ f mg = mn ∧ lg ∈ gs ∧ f lg = ln ∧ ∀ g, g ∈ gs → ln ≤ f g ≤ mn.

Lemma analyze_fold_extremes counts gs :
  (∀ g, 0 ≤ default 0 (counts !! g) < 257) → gs ≠ [] →
  extremes (λ g, default 0 (counts !! g)) gs
    (foldl (analyze_step counts) (-1, -1, -1, 257) gs).
Proof.
  intros Hc Hne. induction gs as [|g gs IH] using rev_ind; [done|]. clear Hne.
  rewrite foldl_app; simpl. pose proof (Hc g) as Hg.
  destruct (decide (gs = [])) as [->|Hne]; simpl.
  { repeat case_decide; try lia. simpl.
    split_and!; [by apply list_elem_of_singleton|done|by apply list_elem_of_singleton|done|].
    intros g' ->%list_elem_of_singleton. lia. }
  specialize (IH Hne). destruct (foldl _ _ gs) as [[[mg mn] lg] ln].
  destruct IH as (? & ? & ? & ? & Hall). pose proof (Hall mg) as Hmg.
  unfold analyze_step, extremes.
  repeat case_decide; rewrite !elem_of_app, !list_elem_of_singleton;
    (split_and!; [tauto|done|tauto|done|]);
    intros g'; rewrite elem_of_app, list_elem_of_singleton;
    intros [Hg'| ->]; try (specialize (Hall g' Hg')); lia.
Qed.

Lemma analyze_extremes c :
  length (Shards c) = NShards → Groups c ≠ ∅ →
  extremes (λ g, Z.of_nat (load c g)) (group_list c) (analyze c).
Proof.
  intros Hlen Hne. unfold analyze. fold (group_list c).
  pose proof (slices_Sort_Permutation (group_list c)) as Hperm.
  assert (slices_Sort (group_list c) ≠ []) as Hne'.
  { intros Hnil. rewrite Hnil in Hperm. apply Permutation_nil_l in Hperm.
    by eapply group_list_nonempty. }
  assert (∀ g, default 0 (go_counts (Shards c) !! g) = Z.of_nat (load c g)) as Hcnt
    by (intros; apply go_counts_spec).
  pose proof (analyze_fold_extremes (go_counts (Shards c)) (slices_Sort (group_list c))) as Hx.
  destruct (foldl _ _ _) as [[[mg mn] lg] ln]; simpl in *.
  destruct Hx as (Hmg & <- & Hlg & <- & Hall); [|done|].
  - intros g. rewrite Hcnt. pose proof (count_occ_le g (Shards c)). unfold load, NShards in *. lia.
  - setoid_rewrite Hperm in Hall. rewrite Hperm in Hmg, Hlg. rewrite !Hcnt.
    split_and!; try done. intros g Hg. rewrite <- !Hcnt. by apply Hall.
Qed.

Lemma least_valid c :
  length (Shards c) = NShards → Groups c ≠ ∅ → is_Some (Groups c !! least c).
Proof.
  intros Hlen Hne. pose proof (analyze_extremes c Hlen Hne) as Hx. unfold least.
  destruct (analyze c) as [[[mg mn] lg] ln]. destruct Hx as (_ & _ & Hlg & _).
  by apply elem_of_group_list.
Qed.
End analyze.

(** ** The assignment loop *)

Section assign.
Implicit Types (c : ShardConfig).

Lemma assign_loop_spec xs pre c :
  Shards c = pre ++ xs → length (Shards c) = NShards → Groups c ≠ ∅ →
  let c' := foldl assign_one c (imap (λ i x, ((length pre + i)%nat, x)) xs) in
  Groups c' = Groups c ∧ Num c' = Num c ∧
  ∃ xs', Shards c' = pre ++ xs' ∧ length xs' = length xs ∧
         Forall (λ g, is_Some (Groups c !! g)) xs' ∧
         ∀ i g, xs !! i = Some g → is_Some (Groups c !! g) → xs' !! i = Some g.
Proof.
  revert pre c. induction xs as [|x xs IH]; intros pre c Hs Hlen Hne.
  { split_and!; [done..|]. exists []. simpl. rewrite Hs. split_and!; auto. }
  rewrite imap_cons. cbn [foldl].
  set (x' := match Groups c !! x with Some _ => x | None => least c end).
  assert (assign_one c ((length pre + 0)%nat, x) =
          c <| Shards := pre ++ x' :: xs |>) as ->.
  { unfold assign_one, x'. destruct (Groups c !! x) eqn:E; cbn.
    - by destruct c; simpl in *; subst.
    - by rewrite Hs, Nat.add_0_r, insert_app_r_alt, Nat.sub_diag by lia. }
  assert (is_Some (Groups c !! x')) as Hx'.
  { unfold x'. destruct (Groups c !! x) eqn:E; [eauto|by apply least_valid]. }
  destruct (IH (pre ++ [x']) (c <| Shards := pre ++ x' :: xs |>))
    as (Hg & Hn & xs' & Hsh & Hl & Hall & Hkeep); cbn.
  { by rewrite <- app_assoc. }
  { rewrite <- Hlen, Hs, !length_app. done. }
  { done. }
  rewrite length_app in *; simpl in *.
  replace (imap ((λ i x0, ((length pre + i)%nat, x0)) ∘ S) xs)
    with (imap (λ i x0, ((length pre + 1 + i)%nat, x0)) xs)
    by (apply imap_ext; intros; simpl; f_equal; lia).
  split_and!; [done..|]. exists (x' :: xs'). rewrite Hsh, <- app_assoc; simpl.
  split_and!; [done|lia|by constructor|].
  intros [|i] g; simpl; [|apply Hkeep]. intros [= ->] [l Hl']. unfold x'. by rewrite Hl'.
Qed.

Lemma assign_unassigned_spec c :
  length (Shards c) = NShards → Groups c ≠ ∅ →
  let c' := assign_unassigned c in
  Groups c' = Groups c ∧ Num c' = Num c ∧ length (Shards c') = NShards ∧ assigned c' ∧
  ∀ i g, Shards c !! i = Some g → is_Some (Groups c !! g) → Shards c' !! i = Some g.
Proof.
  intros Hlen Hne.
  destruct (assign_loop_spec (Shards c) [] c eq_refl Hlen Hne)
    as (Hg & Hn & xs' & Hs & Hl & Hall & Hkeep).
  change (imap (λ i x, ((length [] + i)%nat, x)) (Shards c)) with (imap pair (Shards c)) in *.
  fold (assign_unassigned c) in *. simpl in Hs. unfold assigned. rewrite Hs, Hg, Hl.
  done.
Qed.
End assign.

(** ** The balancing loop *)

Fixpoint sum_squares (f : Tgid → nat) (gs : list Tgid) : nat :=
  match gs with [] => 0 | g :: gs => f g * f g + sum_squares f gs end.

Fixpoint sum_loads (f : Tgid → nat) (gs : list Tgid) : nat :=
  match gs with [] => 0 | g :: gs => f g + sum_loads f gs end.

Section balance.
Implicit Types (c : ShardConfig) (f : Tgid → nat).

Lemma sum_squares_perm f gs gs' : gs ≡ₚ gs' → sum_squares f gs = sum_squares f gs'.
Proof. induction 1; simpl; lia. Qed.

Lemma sum_squares_ext f f' gs : (∀ g, g ∈ gs → f g = f' g) → sum_squares f gs = sum_squares f' gs.
Proof.
  induction gs as [|g gs IH]; intros Hf; simpl; [done|].
  rewrite (Hf g), IH; [done|set_solver|set_solver].
Qed.

(** Moving one unit from a load to one at least two below lowers the sum of squares. *)
Lemma sum_squares_move f f' gs mg lg :
  NoDup gs → mg ∈ gs → lg ∈ gs → (f lg + 2 ≤ f mg)%nat →
  f' mg = (f mg - 1)%nat → f' lg = (f lg + 1)%nat → (∀ g, g ≠ mg → g ≠ lg → f' g = f g) →
  (sum_squares f' gs < sum_squares f gs)%nat.
Proof.
  intros Hnd Hmg Hlg Hd Hm Hl Ho. assert (mg ≠ lg) by (intros ->; lia).
  destruct (proj1 (elem_of_Permutation gs mg) Hmg) as [gs1 Hp1].
  rewrite Hp1 in Hnd, Hlg. apply NoDup_cons in Hnd as [Hni1 Hnd1].
  apply elem_of_cons in Hlg as [|Hlg]; [by subst|].
  destruct (proj1 (elem_of_Permutation gs1 lg) Hlg) as [gs2 Hp2].
  rewrite Hp2 in Hnd1, Hni1. apply NoDup_cons in Hnd1 as [Hni2 _].
  assert (gs ≡ₚ mg :: lg :: gs2) as Hp by (by rewrite Hp1, Hp2).
  rewrite !(sum_squares_perm _ _ _ Hp); simpl.
  rewrite (sum_squares_ext f' f gs2).
  - rewrite Hm, Hl. nia.
  - intros g Hg. apply Ho; [set_solver|set_solver].
Qed.

Lemma sum_squares_bound f gs : (sum_squares f gs ≤ sum_loads f gs * sum_loads f gs)%nat.
Proof. induction gs as [|g gs IH]; simpl; [done|]. nia. Qed.

Lemma sum_loads_cons x l gs :
  NoDup gs →
  (sum_loads (λ g, count_occ g (x :: l)) gs ≤ sum_loads (λ g, count_occ g l) gs + 1)%nat.
Proof.
  assert (∀ gs, x ∉ gs →
    sum_loads (λ g, count_occ g (x :: l)) gs = sum_loads (λ g, count_occ g l) gs) as Hno.
  { clear gs. intros gs. induction gs as [|g gs IH]; simpl; [done|]. intros Hx.
    rewrite count_occ_cons, decide_False, IH by set_solver. done. }
  induction 1 as [|g gs Hg Hnd IH]; simpl; [lia|].
  rewrite count_occ_cons. case_decide as Hx; [|lia]. subst. rewrite Hno by done. lia.
Qed.

Lemma sum_loads_bound l gs : NoDup gs → (sum_loads (λ g, count_occ g l) gs ≤ length l)%nat.
Proof.
  intros Hnd. induction l as [|x l IH]; simpl.
  - clear Hnd. induction gs; simpl; [lia|]. unfold count_occ in *. simpl in *. lia.
  - pose proof (sum_loads_cons x l gs Hnd). lia.
Qed.

Lemma move_shard_spec mg lg shards :
  mg ∈ shards → ∃ i, shards !! i = Some mg ∧ move_shard mg lg shards = <[i := lg]> shards.
Proof.
  induction shards as [|g shards IH]; intros Hin; simpl; [by apply elem_of_nil in Hin|].
  case_decide as Hg; [exists 0%nat; by subst|].
  apply elem_of_cons in Hin as [|Hin]; [done|].
  destruct (IH Hin) as (i & Hi & ->). by exists (S i).
Qed.

Definition potential c : nat := sum_squares (load c) (group_list c).

Lemma potential_bound c : length (Shards c) = NShards → (potential c ≤ rebalance_fuel)%nat.
Proof.
  intros Hlen. unfold potential.
  pose proof (sum_squares_bound (load c) (group_list c)).
  pose proof (sum_loads_bound (Shards c) (group_list c) (NoDup_group_list c)).
  unfold load, rebalance_fuel in *. rewrite Hlen in *. unfold NShards in *. nia.
Qed.

(** One turn keeps everything but one shard, and lowers the potential. *)
Lemma rebalance_step_spec c c' :
  length (Shards c) = NShards → Groups c ≠ ∅ → rebalance_step c = Some c' →
  Groups c' = Groups c ∧ Num c' = Num c ∧ length (Shards c') = NShards ∧
  (assigned c → assigned c') ∧ (potential c' < potential c)%nat.
Proof.
  intros Hlen Hne. pose proof (analyze_extremes c Hlen Hne) as Hx. unfold rebalance_step.
  destruct (analyze c) as [[[mg mn] lg] ln]. destruct Hx as (Hmg & <- & Hlg & <- & Hall).
  cbn beta in *. case_decide as Hd; intros [= <-]; cbn.
  assert (mg ∈ Shards c) as Hin by (apply count_occ_elem; unfold load in *; lia).
  destruct (move_shard_spec mg lg (Shards c) Hin) as (i & Hi & ->).
  split_and!; [done|done|by rewrite length_insert|..].
  - unfold assigned; cbn. intros Ha. apply Forall_insert; [done|]. by apply elem_of_group_list.
  - unfold potential, group_list; cbn. fold (group_list c).
    assert (mg ≠ lg) by (intros ->; lia).
    apply (sum_squares_move (load c) _ _ mg lg); auto using NoDup_group_list; [lia|..];
      unfold load; cbn -[count_occ].
    + pose proof (count_occ_insert mg (Shards c) i mg lg Hi).
      rewrite decide_True, decide_False in * by done. lia.
    + pose proof (count_occ_insert lg (Shards c) i mg lg Hi).
      rewrite decide_False, decide_True in * by done. lia.
    + intros g Hg1 Hg2. pose proof (count_occ_insert g (Shards c) i mg lg Hi).
      rewrite !decide_False in * by done. lia.
Qed.

Lemma rebalance_step_None c :
  length (Shards c) = NShards → Groups c ≠ ∅ → rebalance_step c = None →
  ∀ g1 g2, is_Some (Groups c !! g1) → is_Some (Groups c !! g2) →
    (load c g1 ≤ load c g2 + 1)%nat.
Proof.
  intros Hlen Hne. pose proof (analyze_extremes c Hlen Hne) as Hx. unfold rebalance_step.
  destruct (analyze c) as [[[mg mn] lg] ln]. destruct Hx as (_ & _ & _ & _ & Hall).
  case_decide; [|done]. intros _ g1 g2 H1 H2. rewrite <- elem_of_group_list in H1, H2.
  apply Hall in H1. apply Hall in H2. lia.
Qed.

Lemma rebalance_loop_total fuel c :
  length (Shards c) = NShards → Groups c ≠ ∅ → (potential c ≤ fuel)%nat →
  ∃ c', rebalance_loop fuel c = Some c' ∧ rebalance_step c' = None ∧
    Groups c' = Groups c ∧ Num c' = Num c ∧ length (Shards c') = NShards ∧
    (assigned c → assigned c').
Proof.
  revert c. induction fuel as [|fuel IH]; intros c Hlen Hne Hp; simpl;
    destruct (rebalance_step c) as [c1|] eqn:E; eauto 10.
  - apply rebalance_step_spec in E as (_ & _ & _ & _ & Hlt); [lia|done..].
  - apply rebalance_step_spec in E as (Hg & Hn & Hl & Ha & Hlt); [|done..].
    destruct (IH c1) as (c' & ? & ? & ? & ? & ? & ?); [done|by rewrite Hg|lia|].
    exists c'. split_and!; try done; [congruence..|auto].
Qed.

(** [Rebalance] always ends, touches nothing but [Shards], and balances. *)
Lemma Rebalance_total c :
  length (Shards c) = NShards →
  ∃ c', Rebalance c = Some c' ∧ Groups c' = Groups c ∧ Num c' = Num c ∧
        length (Shards c') = NShards ∧ balanced c'.
Proof.
  intros Hlen. unfold Rebalance. case_decide as Hsz.
  - assert (Groups c = ∅) as He by (apply map_size_empty_iff; lia).
    eexists; split; [done|]. cbn. rewrite length_fmap. split_and!; try done.
    split; cbn; [|by rewrite He]. intros _. apply Forall_fmap, Forall_true. done.
  - assert (Groups c ≠ ∅) as Hne by (intros He; rewrite He, map_size_empty in Hsz; lia).
    destruct (assign_unassigned_spec c Hlen Hne) as (Hg & Hn & Hl & Ha & _).
    assert (Groups (assign_unassigned c) ≠ ∅) as Hne1 by (by rewrite Hg).
    destruct (rebalance_loop_total rebalance_fuel _ Hl Hne1 (potential_bound _ Hl))
      as (c' & Hc' & Hstep & Hg' & Hn' & Hl' & Ha').
    exists c'. split_and!; [done|congruence..|done|].
    split; [intros He; congruence|]. intros Hne'. split; [auto|].
    by apply rebalance_step_None.
Qed.
End balance.

(** ** Joining and leaving, one configuration after another *)

(** No server belongs to two groups. *)
Definition servers_disjoint (c : ShardConfig) : Prop :=
  ∀ g1 g2 l1 l2 s, Groups c !! g1 = Some l1 → Groups c !! g2 = Some l2 →
    s ∈ l1 → s ∈ l2 → g1 = g2.

Inductive cfg_op :=
  | OpJoin (servers : list (Tgid * list string))
  | OpLeave (gids : list Tgid).

Definition cfg_apply (op : cfg_op) (c : ShardConfig) : outcome (ShardConfig * bool) :=
  match op with
  | OpJoin servers => JoinBalance c servers
  | OpLeave gids => LeaveBalance c gids
  end.

(** The configurations a controller goes through, every change accepted. *)
Inductive cfg_reach : ShardConfig → Prop :=
  | cfg_reach_init : cfg_reach MakeShardConfig
  | cfg_reach_op op c c' : cfg_reach c → cfg_apply op c = Ret (c', true) → cfg_reach c'.

Definition cfg_inv (c : ShardConfig) : Prop :=
  length (Shards c) = NShards ∧ balanced c ∧ servers_disjoint c.

Section changes.
Implicit Types (c : ShardConfig).

Lemma shares_server_false l1 l2 :
  shares_server l1 l2 = false → ∀ s, s ∈ l1 → s ∉ l2.
Proof.
  unfold shares_server. intros Hno s H1 H2. apply not_true_iff_false in Hno. apply Hno.
  apply existsb_exists. exists s. split; [by apply list_elem_of_In|].
  apply existsb_exists. exists s. split; [by apply list_elem_of_In|]. by apply bool_decide_true.
Qed.

Lemma join_loop_spec c servers changed c' changed' ok :
  join_loop c servers changed = Ret (c', changed', ok) →
  Shards c' = Shards c ∧ Num c' = Num c ∧ (servers_disjoint c → servers_disjoint c') ∧
  (∀ g l, Groups c !! g = Some l → Groups c' !! g = Some l) ∧
  (ok = true → ∀ g l, (g, l) ∈ servers → Groups c' !! g = Some l) ∧
  (∀ g l, Groups c' !! g = Some l → Groups c !! g = Some l ∨ (g, l) ∈ servers).
Proof.
  revert c changed. induction servers as [|[gid srvs] servers IH]; intros c changed; simpl.
  { intros [= <- <- <-]. split_and!; auto. intros _ g l Hin. by apply elem_of_nil in Hin. }
  destruct (Groups c !! gid) as [l0|] eqn:Eg.
  { intros [= <- <- <-]. split_and!; auto. done. }
  destruct (existsb _ _) eqn:Ee; [done|]. intros Hj.
  apply IH in Hj as (Hs & Hn & Hd & Hold & Hnew & Honly); cbn in *. split_and!; [done|done|..].
  - intros Hdis. apply Hd. intros g1 g2 l1 l2 s; cbn. rewrite !lookup_insert.
    assert (∀ g l, Groups c !! g = Some l → s ∈ l → s ∉ srvs) as Hno.
    { intros g l Hl. apply shares_server_false. apply not_true_iff_false.
      intros Hsh. apply not_true_iff_false in Ee. apply Ee, existsb_exists.
      exists (g, l). split; [|done]. apply list_elem_of_In. by apply elem_of_map_to_list. }
    repeat case_decide; subst; intros; simplify_eq; try done.
    + by exfalso; eapply Hno.
    + by exfalso; eapply Hno.
    + by eapply Hdis.
  - intros g l Hl. apply Hold. rewrite lookup_insert_ne; [done|congruence].
  - intros -> g l [[= -> ->]|Hin]%elem_of_cons; [|by apply Hnew].
    apply Hold. by rewrite lookup_insert_eq.
  - intros g l Hl. apply Honly in Hl as [Hl|Hl]; [|right; by right].
    rewrite lookup_insert in Hl. case_decide; simplify_eq; [right; left|by left].
Qed.

Lemma leave_loop_spec c gids changed c' changed' ok :
  leave_loop c gids changed = (c', changed', ok) →
  Shards c' = Shards c ∧ Num c' = Num c ∧
  (∀ g l, Groups c' !! g = Some l → Groups c !! g = Some l) ∧
  (ok = true → ∀ g, g ∈ gids → Groups c' !! g = None) ∧
  (∀ g, g ∉ gids → Groups c' !! g = Groups c !! g).
Proof.
  revert c changed. induction gids as [|gid gids IH]; intros c changed; simpl.
  { intros [= <- <- <-]. split_and!; auto. intros _ g Hin. by apply elem_of_nil in Hin. }
  destruct (Groups c !! gid) as [l0|] eqn:Eg.
  - intros Hl. apply IH in Hl as (Hs & Hn & Hsub & Hgone & Hkeep); cbn in *.
    split_and!; [done|done|..].
    + intros g l Hl. apply Hsub in Hl. by apply lookup_delete_Some in Hl as [? ?].
    + intros -> g Hg. destruct (Groups c' !! g) as [l|] eqn:E; [|done]. exfalso.
      pose proof (Hsub g l E) as Hd. apply lookup_delete_Some in Hd as [Hne _].
      apply elem_of_cons in Hg as [->|Hg]; [done|]. by rewrite Hgone in E.
    + intros g Hg. rewrite Hkeep by set_solver. rewrite lookup_delete_ne; [done|set_solver].
  - intros [= <- <- <-]. split_and!; auto. done.
Qed.

Lemma rebalanced_spec c :
  length (Shards c) = NShards →
  Groups (rebalanced c) = Groups c ∧ Num (rebalanced c) = Num c ∧
  length (Shards (rebalanced c)) = NShards ∧ balanced (rebalanced c).
Proof.
  intros Hlen. destruct (Rebalance_total c Hlen) as (c' & Hc' & ?).
  unfold rebalanced. by rewrite Hc'.
Qed.

Lemma JoinBalance_spec c servers c' :
  length (Shards c) = NShards → JoinBalance c servers = Ret (c', true) →
  length (Shards c') = NShards ∧ balanced c' ∧ Num c' = i64 (Num c + 1) ∧
  (servers_disjoint c → servers_disjoint c') ∧
  (∀ g l, Groups c' !! g = Some l ↔ Groups c !! g = Some l ∨ (g, l) ∈ servers).
Proof.
  intros Hlen. unfold JoinBalance, Join.
  destruct (join_loop c servers false) as [[[c1 changed] ok]|w|m] eqn:E; cbn; try done.
  apply join_loop_spec in E as (Hs & Hn & Hd & Hold & Hnew & Honly).
  destruct ok, changed; cbn; try done. intros [= <-].
  destruct (rebalanced_spec (c1 <| Num := i64 (Num c1 + 1) |>)) as (Hg & Hn' & Hl & Hb); cbn in *.
  { congruence. }
  split_and!; [done|done|congruence|..].
  - intros Hdis. unfold servers_disjoint. rewrite Hg. by apply Hd.
  - intros g l. rewrite Hg. naive_solver.
Qed.

Lemma LeaveBalance_spec c gids c' :
  length (Shards c) = NShards → LeaveBalance c gids = Ret (c', true) →
  length (Shards c') = NShards ∧ balanced c' ∧ Num c' = i64 (Num c + 1) ∧
  (servers_disjoint c → servers_disjoint c') ∧
  (∀ g, Groups c' !! g = if decide (g ∈ gids) then None else Groups c !! g).
Proof.
  intros Hlen. unfold LeaveBalance, Leave.
  destruct (leave_loop c gids false) as [[c1 changed] ok] eqn:E; cbn.
  apply leave_loop_spec in E as (Hs & Hn & Hsub & Hgone & Hkeep).
  destruct ok, changed; cbn; try done. intros [= <-].
  destruct (rebalanced_spec (c1 <| Num := i64 (Num c1 + 1) |>)) as (Hg & Hn' & Hl & Hb); cbn in *.
  { congruence. }
  split_and!; [done|done|congruence|..].
  - intros Hdis g1 g2 l1 l2 s. rewrite Hg. intros H1 H2. by eapply Hdis; apply Hsub.
  - intros g. rewrite Hg. case_decide; auto.
Qed.

Lemma cfg_reach_inv c : cfg_reach c → cfg_inv c.
Proof.
  induction 1 as [|op c c' _ (Hl & Hb & Hd) Hop].
  - split_and!; [done|..].
    + split; cbn; [|done]. intros _. by repeat constructor.
    + intros g1 g2 l1 l2 s; cbn. by rewrite lookup_empty.
  - destruct op as [servers|gids]; simpl in Hop.
    + apply JoinBalance_spec in Hop as (? & ? & _ & ? & _); [|done]. by split_and!; auto.
    + apply LeaveBalance_spec in Hop as (? & ? & _ & ? & _); [|done]. by split_and!; auto.
Qed.

(** The test's check accepts every balanced configuration. *)
Lemma minmax_fold counts gs mn mx :
  foldl (minmax_step counts) (257, 0) gs = (mn, mx) →
  (mn = 257 ∨ ∃ g, g ∈ gs ∧ default 0 (counts !! g) = mn) ∧
  (mx = 0 ∨ ∃ g, g ∈ gs ∧ default 0 (counts !! g) = mx).
Proof.
  revert mn mx. induction gs as [|g gs IH] using rev_ind; intros mn mx; simpl.
  { intros [= <- <-]. auto. }
  rewrite foldl_app; simpl. destruct (foldl _ _ gs) as [mn0 mx0].
  destruct (IH mn0 mx0 eq_refl) as [H1 H2]. unfold minmax_step. intros [= <- <-].
  assert (g ∈ gs ++ [g]) by (apply elem_of_app; right; by apply list_elem_of_singleton).
  assert (∀ g', g' ∈ gs → g' ∈ gs ++ [g]) by (intros; apply elem_of_app; by left).
  split; case_decide; naive_solver.
Qed.

Lemma CheckConfig_balanced c groups :
  length (Shards c) = NShards → balanced c → groups ≡ₚ group_list c →
  CheckConfig c groups = Ret tt.
Proof.
  intros Hlen [_ Hb] Hp. unfold CheckConfig. rewrite decide_False.
  2: { rewrite Hp. unfold group_list. rewrite length_fmap, length_map_to_list. lia. }
  assert (∀ g, g ∈ groups ↔ is_Some (Groups c !! g)) as Hin
    by (intros g; rewrite Hp; apply elem_of_group_list).
  replace (existsb _ groups) with false.
  2: { symmetry. apply not_true_iff_false. intros (g & Hg & Hn)%existsb_exists.
       apply bool_decide_eq_true in Hn. apply list_elem_of_In, Hin in Hg as [? ?]. congruence. }
  destruct (decide (Groups c = ∅)) as [He|Hne].
  { assert (groups = []) as ->.
    { destruct groups as [|g gs]; [done|]. destruct (proj1 (Hin g)) as [l Hl]; [left|].
      by rewrite He, lookup_empty in Hl. }
    simpl. by rewrite He, map_to_list_empty. }
  destruct (Hb Hne) as [Ha Hbal].
  replace (existsb _ (Shards c)) with false.
  2: { symmetry. apply not_true_iff_false. intros (g & Hg & Hn)%existsb_exists.
       apply bool_decide_eq_true in Hn. unfold assigned in Ha. rewrite Forall_forall in Ha.
       apply list_elem_of_In, Ha in Hg as [? ?]. congruence. }
  rewrite andb_false_r. fold (group_list c).
  destruct (foldl _ _ (group_list c)) as [mn mx] eqn:E.
  apply minmax_fold in E as [Hmn Hmx]. setoid_rewrite go_counts_spec in Hmn.
  setoid_rewrite go_counts_spec in Hmx. setoid_rewrite elem_of_group_list in Hmn.
  setoid_rewrite elem_of_group_list in Hmx. rewrite decide_False; [done|].
  destruct Hmx as [->|(g1 & H1 & <-)], Hmn as [->|(g2 & H2 & <-)]; try lia.
  - pose proof (count_occ_le g1 (Shards c)). unfold NShards in *. lia.
  - pose proof (Hbal g1 g2 H1 H2). unfold load in *. lia.
Qed.
End changes.

(** ** What the controller's configurations promise *)

(** C18: the balancing loop ends on every configuration; it keeps the number and the groups,
    assigns every shard to an existing group (to none when there is no group), and leaves no
    two groups more than one shard apart. *)
Theorem Rebalance_terminates_balanced c :
  length (Shards c) = NShards →
  ∃ c', Rebalance c = Some c' ∧ Groups c' = Groups c ∧ Num c' = Num c ∧
        length (Shards c') = NShards ∧ balanced c'.
Proof. apply Rebalance_total. Qed.

Definition lopsided : ShardConfig :=
  {| Num := 1; Shards := replicate NShards 1;
     Groups := {[ 1 := ["a"]; 2 := ["b"]; 3 := ["c"] ]} |}.

Lemma Rebalance_terminates_balanced_witness :
  (∃ c', Rebalance lopsided = Some c' ∧ balanced c') ∧
  option_map Shards (Rebalance lopsided) = Some [2; 3; 2; 3; 2; 3; 2; 3; 1; 1; 1; 1].
Proof.
  split; [|vm_compute; reflexivity].
  destruct (Rebalance_terminates_balanced lopsided eq_refl) as (c' & Hc & _ & _ & _ & Hb).
  exists c'. split; [exact Hc|exact Hb].
Defined.

(** An accepted [JoinBalance] adds exactly the named groups, raises the number by one and
    leaves a balanced assignment; servers stay in one group each. *)
Theorem JoinBalance_functional c servers c' :
  length (Shards c) = NShards → JoinBalance c servers = Ret (c', true) →
  length (Shards c') = NShards ∧ balanced c' ∧ Num c' = i64 (Num c + 1) ∧
  (servers_disjoint c → servers_disjoint c') ∧
  (∀ g l, Groups c' !! g = Some l ↔ Groups c !! g = Some l ∨ (g, l) ∈ servers).
Proof. apply JoinBalance_spec. Qed.

Definition joined : ShardConfig :=
  {| Num := 1; Shards := [1; 2; 1; 2; 1; 2; 1; 2; 1; 2; 1; 2];
     Groups := {[ 1 := ["a"; "b"]; 2 := ["c"] ]} |}.

Lemma joined_eq : JoinBalance MakeShardConfig [(1, ["a"; "b"]); (2, ["c"])] = Ret (joined, true).
Proof. vm_compute. reflexivity. Qed.

Lemma JoinBalance_functional_witness :
  JoinBalance MakeShardConfig [(1, ["a"; "b"]); (2, ["c"])] = Ret (joined, true) ∧ balanced joined.
Proof.
  split; [exact joined_eq|].
  apply (JoinBalance_functional MakeShardConfig [(1, ["a"; "b"]); (2, ["c"])] joined eq_refl joined_eq).
Defined.

(** An accepted [LeaveBalance] removes exactly the named groups, raises the number by one
    and hands their shards to the groups that stay, balanced. *)
Theorem LeaveBalance_functional c gids c' :
  length (Shards c) = NShards → LeaveBalance c gids = Ret (c', true) →
  length (Shards c') = NShards ∧ balanced c' ∧ Num c' = i64 (Num c + 1) ∧
  (∀ g, Groups c' !! g = if decide (g ∈ gids) then None else Groups c !! g).
Proof. intros Hlen Hl. destruct (LeaveBalance_spec c gids c' Hlen Hl) as (? & ? & ? & _ & ?). done. Qed.

Lemma LeaveBalance_functional_witness :
  let c' := {| Num := 2; Shards := replicate NShards 2; Groups := {[ 2 := ["c"] ]} |} in
  LeaveBalance joined [1] = Ret (c', true) ∧ balanced c'.
Proof.
  intros c'. assert (LeaveBalance joined [1] = Ret (c', true)) as E by (vm_compute; reflexivity).
  split; [exact E|]. apply (LeaveBalance_functional joined [1] c' eq_refl E).
Defined.

(** C19: whatever sequence of joins and leaves a controller accepted, its configuration is
    balanced, no server belongs to two groups, and the tester's own [CheckConfig] passes. *)
Theorem reachable_config_ok c :
  cfg_reach c →
  length (Shards c) = NShards ∧ balanced c ∧ servers_disjoint c ∧
  CheckConfig c (group_list c) = Ret tt.
Proof.
  intros Hr. destruct (cfg_reach_inv c Hr) as (Hl & Hb & Hd).
  split_and!; [done..|]. by apply CheckConfig_balanced.
Qed.

Lemma reachable_config_ok_witness : cfg_reach joined ∧ CheckConfig joined (group_list joined) = Ret tt.
Proof.
  assert (cfg_reach joined) as Hr.
  { apply (cfg_reach_op (OpJoin [(1, ["a"; "b"]); (2, ["c"])]) MakeShardConfig joined cfg_reach_init).
    exact joined_eq. }
  split; [exact Hr|]. destruct (reachable_config_ok joined Hr) as (_ & _ & _ & H). exact H.
Defined.

(** Once there is a group, every key has one: its shard is in range and is served by the
    servers of an existing group. *)
Theorem every_key_routed c key :
  cfg_reach c → Groups c ≠ ∅ →
  ∃ gid srvs, GidServers c (Key2Shard key) = Ret (gid, srvs, true) ∧
              Groups c !! gid = Some srvs ∧ IsMember c gid = true.
Proof.
  intros Hr Hne. destruct (cfg_reach_inv c Hr) as (Hl & [_ Hb] & _).
  destruct (Hb Hne) as [Ha _]. unfold GidServers.
  destruct (go_index_in_range (Shards c) (Key2Shard key)) as (gid & -> & Hgid).
  { unfold Key2Shard, zlen. rewrite Hl. pose proof (fnv32a_range key).
    pose proof (Z.rem_bound_pos (fnv32a key) (Z.of_nat NShards)). unfold NShards in *. lia. }
  unfold assigned in Ha. rewrite Forall_lookup in Ha. destruct (Ha _ _ Hgid) as [srvs Hs].
  exists gid, srvs. cbn. rewrite Hs. split_and!; [done..|].
  apply existsb_exists. exists gid. split; [|by apply bool_decide_true].
  apply list_elem_of_In. by eapply list_elem_of_lookup_2.
Qed.

Lemma every_key_routed_witness : GidServers joined (Key2Shard "k") = Ret (1, ["a"; "b"], true).
Proof.
  destruct (every_key_routed joined "k") as (gid & srvs & H & _).
  - apply (cfg_reach_op (OpJoin [(1, ["a"; "b"]); (2, ["c"])]) MakeShardConfig joined cfg_reach_init).
    exact joined_eq.
  - intros He. apply (f_equal size) in He. vm_compute in He. discriminate.
  - rewrite H. vm_compute in H. injection H as <- <-. reflexivity.
Defined.
