(* ===== verification/GoSlice.v ===== *)
(** * Go slices with their backing arrays

    A slice is a window into an array that other slices may share.  [append] writes into
    the spare capacity of the array when there is room, so two slices can see each other's
    writes; otherwise it moves to a fresh array whose spare capacity the language leaves to
    the implementation (the argument [grow]).  A slice expression is checked against the
    capacity, not the length. *)
From stdpp Require Import base tactics numbers list strings.
From S2P Require Import Prelude.

(** The arrays a component owns, by number; an array's length is its capacity. *)
Abbreviation heap A := (list (list A)) (only parsing).

Record slice := { sl_arr : nat; sl_off : nat; sl_len : nat }.

Section slices.
Context {A : Type}.
Implicit Types (h : heap A) (s t : slice) (l es : list A).

Definition sl_array h s : list A := default [] (h !! sl_arr s).

(** The elements the slice shows. *)
Definition sl_get h s : list A := take (sl_len s) (drop (sl_off s) (sl_array h s)).

Definition sl_cap h s : Z := zlen (sl_array h s) - Z.of_nat (sl_off s).

(** [s[lo:hi]] *)
Definition sl_slice h s (lo hi : Z) : outcome slice :=
  if decide (0 ≤ lo ∧ lo ≤ hi ∧ hi ≤ sl_cap h s) then
    Ret {| sl_arr := sl_arr s; sl_off := (sl_off s + Z.to_nat lo)%nat;
           sl_len := Z.to_nat (hi - lo) |}
  else Panic "slice bounds out of range".

(** [append(s, es...)]; [zero] fills the spare capacity of a fresh array. *)
Definition sl_append (grow : nat) (zero : A) h s es : heap A * slice :=
  let a := sl_array h s in
  let e := (sl_off s + sl_len s)%nat in
  if decide (e + length es ≤ length a)%nat then
    (<[sl_arr s := take e a ++ es ++ drop (e + length es) a]> h,
     {| sl_arr := sl_arr s; sl_off := sl_off s; sl_len := (sl_len s + length es)%nat |})
  else
    (h ++ [sl_get h s ++ es ++ replicate grow zero],
     {| sl_arr := length h; sl_off := 0; sl_len := (length (sl_get h s) + length es)%nat |}).

(** A window inside an existing array. *)
Definition sl_wf h s : Prop :=
  (sl_arr s < length h)%nat ∧ (sl_off s + sl_len s ≤ length (sl_array h s))%nat.

Lemma sl_get_length h s : sl_wf h s → length (sl_get h s) = sl_len s.
Proof. intros [_ Hle]. unfold sl_get. rewrite length_take, length_drop. lia. Qed.

Lemma sl_append_wf grow zero h s es :
  sl_wf h s → let '(h', s') := sl_append grow zero h s es in sl_wf h' s'.
Proof.
  intros Hwf. pose proof (sl_get_length h s Hwf) as Hlen. destruct Hwf as [Ha Hle].
  unfold sl_append. case_decide; unfold sl_wf; simpl.
  - rewrite length_insert. split; [done|]. unfold sl_array at 1; simpl.
    rewrite list_lookup_insert_eq by done; simpl.
    rewrite !length_app, length_take, length_drop. lia.
  - rewrite length_app; simpl. split; [lia|]. unfold sl_array at 1; simpl.
    rewrite lookup_app_r, Nat.sub_diag by lia; simpl. rewrite !length_app. lia.
Qed.

Lemma sl_append_get grow zero h s es :
  sl_wf h s → let '(h', s') := sl_append grow zero h s es in sl_get h' s' = sl_get h s ++ es.
Proof.
  intros Hwf. pose proof (sl_get_length h s Hwf) as Hlen. destruct Hwf as [Ha Hle].
  unfold sl_append. case_decide; unfold sl_get at 1; simpl.
  - unfold sl_array at 1; simpl. rewrite list_lookup_insert_eq by done; simpl.
    rewrite drop_app_le by (rewrite length_take; lia).
    rewrite app_assoc, take_app_le by
      (rewrite length_app, length_drop, length_take; lia).
    rewrite take_ge by (rewrite length_app, length_drop, length_take; lia).
    unfold sl_get. by rewrite take_drop_commute.
  - unfold sl_array at 1; simpl. rewrite lookup_app_r, Nat.sub_diag by lia; simpl.
    rewrite drop_0, app_assoc, take_app_le by (rewrite length_app; lia).
    by rewrite take_ge by (rewrite length_app; lia).
Qed.

(** Appending never changes what a slice of another array shows, nor what a slice of the
    same array shows if it ends where the appended one does, or earlier. *)
Lemma sl_append_frame grow zero h s es t :
  sl_wf h t → (sl_arr t ≠ sl_arr s ∨ (sl_off t + sl_len t ≤ sl_off s + sl_len s)%nat) →
  let '(h', _) := sl_append grow zero h s es in sl_wf h' t ∧ sl_get h' t = sl_get h t.
Proof.
  intros [Ht Hle] Hor. unfold sl_append. case_decide as Hfit.
  - assert (sl_arr t = sl_arr s ∨ sl_arr t ≠ sl_arr s) as [Heq|Hne] by lia.
    + assert (sl_off t + sl_len t ≤ sl_off s + sl_len s)%nat by tauto.
      assert (sl_array h t = sl_array h s) as Harr by (unfold sl_array; by rewrite Heq).
      set (h' := <[sl_arr s := _]> h).
      assert (sl_array h' t = take (sl_off s + sl_len s) (sl_array h s) ++ es ++
                drop (sl_off s + sl_len s + length es) (sl_array h s)) as Hnew.
      { unfold sl_array at 1, h'. rewrite Heq in *. by rewrite list_lookup_insert_eq. }
      unfold sl_wf, sl_get. rewrite Hnew, Harr in *. unfold h'. rewrite length_insert.
      rewrite !length_app, length_take, length_drop. split; [lia|].
      rewrite !take_drop_commute. f_equal. rewrite take_app_le by (rewrite length_take; lia).
      rewrite take_take. f_equal. lia.
    + unfold sl_wf, sl_get, sl_array. rewrite length_insert, list_lookup_insert_ne by done. done.
  - unfold sl_wf, sl_get, sl_array in *. rewrite length_app, lookup_app_l by done. split; [|done].
    simpl. lia.
Qed.

Lemma sl_slice_Ret h s lo hi s' :
  sl_slice h s lo hi = Ret s' →
  0 ≤ lo ≤ hi ∧ hi ≤ sl_cap h s ∧ sl_arr s' = sl_arr s ∧
  sl_off s' = (sl_off s + Z.to_nat lo)%nat ∧ sl_len s' = Z.to_nat (hi - lo).
Proof. unfold sl_slice. case_decide; [|done]. intros [= <-]; simpl. lia. Qed.

Lemma sl_slice_wf h s lo hi s' : sl_wf h s → sl_slice h s lo hi = Ret s' → sl_wf h s'.
Proof.
  intros [Ha Hle] Hs. apply sl_slice_Ret in Hs as (? & ? & Harr & Hoff & Hlen).
  unfold sl_cap, zlen in *. unfold sl_wf. rewrite Harr, Hoff, Hlen. split; [done|].
  unfold sl_array in *. rewrite Harr. lia.
Qed.

(** Within the length, a slice expression shows the elements one expects. *)
Lemma sl_slice_get h s lo hi :
  sl_wf h s → 0 ≤ lo ≤ hi → hi ≤ Z.of_nat (sl_len s) →
  ∃ s', sl_slice h s lo hi = Ret s' ∧
        sl_get h s' = take (Z.to_nat (hi - lo)) (drop (Z.to_nat lo) (sl_get h s)).
Proof.
  intros [Ha Hle] Hlo Hhi. unfold sl_slice, sl_cap. rewrite decide_True by (unfold zlen; lia).
  eexists; split; [done|]. unfold sl_get, sl_array; simpl.
  rewrite <- drop_drop. rewrite skipn_firstn_comm, take_take. f_equal. lia.
Qed.
End slices.

Create HintDb goslice discriminated.
#[export] Hint Resolve sl_slice_wf sl_get_length : goslice.
