(* ===== verification/RaftNode.v ===== *)
(** * A Raft peer

    [src/src/raft1/raft.go], critical section by critical section.  The code takes and
    drops [rf.mu] several times inside one handler or goroutine; each stretch between a
    Lock and its Unlock is one function on the peer's state here, and what a goroutine
    carries across an Unlock is a record of its local variables.  [RaftSystem] interleaves
    the sections; the sequential compositions are the handlers run without interference.

    [rf.logs] is a slice over arrays of the peer's heap ([GoSlice]): the entries of an
    outgoing request and of a pending application are windows into the same arrays.
    Times are in nanoseconds and a call of [generateElectionTimeout] is an argument [et];
    the spare capacity of a grown array is an argument [grow].  Printing and the peers' RPC end
    points are left out: [rf_peers] is [len(rf.peers)].  Persistence, whose functions are empty
    in the code, is in [Skeletons]. *)
From stdpp Require Import base tactics numbers list strings list_numbers.
From S2P Require Import Prelude GoSlice.

Inductive Mode := Leader | Candidate | Follower.
#[export] Instance Mode_eq_dec : EqDecision Mode.
Proof. solve_decision. Defined.

Record LogEntry {Cmd : Type} := { le_Term : Z; le_Command : option Cmd }.
Arguments LogEntry : clear implicits.

#[export] Instance LogEntry_eq_dec `{EqDecision Cmd} : EqDecision (LogEntry Cmd).
Proof. solve_decision. Defined.

(** [raftapi.ApplyMsg]; the peer itself never sets the snapshot fields. *)
Record ApplyMsg {Cmd : Type} := {
  am_CommandValid : bool; am_Command : option Cmd; am_CommandIndex : Z;
  am_SnapshotValid : bool; am_Snapshot : option (list Z); am_SnapshotTerm : Z; am_SnapshotIndex : Z
}.
Arguments ApplyMsg : clear implicits.

(** [ApplyMsg{CommandValid: true, Command: command, CommandIndex: index}] *)
Definition CommandMsg {Cmd} (index : Z) (command : option Cmd) : ApplyMsg Cmd :=
  {| am_CommandValid := true; am_Command := command; am_CommandIndex := index;
     am_SnapshotValid := false; am_Snapshot := None; am_SnapshotTerm := 0; am_SnapshotIndex := 0 |}.

Record RequestVoteArgs := {
  va_Term : Z; va_CandidateId : Z; va_LastLogIndex : Z; va_LastLogTerm : Z
}.
Record RequestVoteReply := {
  vr_Term : Z; vr_VoteGranted : bool; vr_LastLogIndex : Z; vr_LastLogTerm : Z
}.
Record AppendLogRequest {Cmd : Type} := {
  ar_Term : Z; ar_LeaderId : Z; ar_PrevLogIndex : Z; ar_PrevLogTerm : Z;
  ar_Entries : list (LogEntry Cmd); ar_LeaderCommit : Z
}.
Arguments AppendLogRequest : clear implicits.
Record AppendLogResponse := { as_Term : Z; as_Success : bool; as_ConflictIndex : Z }.

Definition RequestVoteReply_zero : RequestVoteReply :=
  {| vr_Term := 0; vr_VoteGranted := false; vr_LastLogIndex := 0; vr_LastLogTerm := 0 |}.
Definition AppendLogResponse_zero : AppendLogResponse :=
  {| as_Term := 0; as_Success := false; as_ConflictIndex := 0 |}.

#[export] Instance eta_RequestVoteReply : Eta RequestVoteReply := λ r,
  {| vr_Term := vr_Term r; vr_VoteGranted := vr_VoteGranted r;
     vr_LastLogIndex := vr_LastLogIndex r; vr_LastLogTerm := vr_LastLogTerm r |}.
#[export] Instance eta_AppendLogResponse : Eta AppendLogResponse := λ r,
  {| as_Term := as_Term r; as_Success := as_Success r; as_ConflictIndex := as_ConflictIndex r |}.

Record Raft {Cmd : Type} := {
  rf_me : Z;
  rf_peers : nat;
  rf_Mode : Mode;
  rf_CurrentTerm : Z;
  rf_VotedFor : Z;
  rf_ElectionTimeout : Z;
  rf_heap : heap (LogEntry Cmd);
  rf_logs : slice;
  rf_commitIndex : Z;
  rf_appliedIndex : Z;
  rf_electionInProgress : bool;
  rf_pNextIndex : list Z;
  rf_pMatchIndex : list Z
}.
Arguments Raft : clear implicits.

#[export] Instance eta_Raft {Cmd} : Eta (Raft Cmd) := λ r,
  {| rf_me := rf_me r; rf_peers := rf_peers r; rf_Mode := rf_Mode r;
     rf_CurrentTerm := rf_CurrentTerm r; rf_VotedFor := rf_VotedFor r;
     rf_ElectionTimeout := rf_ElectionTimeout r; rf_heap := rf_heap r; rf_logs := rf_logs r;
     rf_commitIndex := rf_commitIndex r; rf_appliedIndex := rf_appliedIndex r;
     rf_electionInProgress := rf_electionInProgress r; rf_pNextIndex := rf_pNextIndex r;
     rf_pMatchIndex := rf_pMatchIndex r |}.

Section raft.
Context {Cmd : Type}.
Implicit Types (rf : Raft Cmd).

Definition LogEntry_zero : LogEntry Cmd := {| le_Term := 0; le_Command := None |}.

(** The contents of [rf.logs]. *)
Definition logs rf : list (LogEntry Cmd) := sl_get (rf_heap rf) (rf_logs rf).

Definition GetState rf : Z * bool :=
  (rf_CurrentTerm rf, bool_decide (rf_Mode rf = Leader)).

(** [rnd] is [rand.Intn(150)]. *)
Definition generateElectionTimeout (now rnd : Z) : Z := now + (325 + rnd) * 1000000.

Definition getLastLogIndexAndTerm rf : Z * Z :=
  match last (logs rf) with
  | Some e => (zlen (logs rf) - 1, le_Term e)
  | None => (-1, -1)
  end.

Definition setToFollower (et term : Z) rf : Raft Cmd :=
  rf <| rf_Mode := Follower |> <| rf_CurrentTerm := term |> <| rf_VotedFor := -1 |>
     <| rf_ElectionTimeout := et |>.

Definition setToLeader rf : Raft Cmd :=
  let '(lastLogIndex, _) := getLastLogIndexAndTerm rf in
  rf <| rf_Mode := Leader |> <| rf_electionInProgress := false |>
     <| rf_pNextIndex := replicate (rf_peers rf) (lastLogIndex + 1) |>
     <| rf_pMatchIndex := replicate (rf_peers rf) 0 |>.

Definition isMajority rf (n : Z) : bool :=
  let mid := Z.of_nat (rf_peers rf) / 2 + 1 in bool_decide (n >= mid).

Definition quorum_step rf (acc : outcome Z) (p : Z) : outcome Z :=
  matchCount ← acc;
  if decide (p = rf_me rf) then Ret matchCount
  else
    m ← go_index (rf_pMatchIndex rf) p;
    Ret (if decide (m = zlen (logs rf) - 1) then matchCount + 1 else matchCount).

Definition isQuorumReached rf : outcome bool :=
  matchCount ← foldl (quorum_step rf) (Ret 1) (seqZ 0 (Z.of_nat (rf_peers rf)));
  let min := Z.of_nat (rf_peers rf) / 2 + 1 in Ret (bool_decide (matchCount = min)).

(** The loop runs from the last entry down; it stops at the first match. *)
Fixpoint resolve_from (ls : list (LogEntry Cmd)) (n : nat) (prevLogTerm : Z) : Z :=
  match n with
  | O => 0
  | S i =>
      match ls !! i with
      | Some e => if decide (le_Term e = prevLogTerm) then Z.of_nat i
                  else resolve_from ls i prevLogTerm
      | None => resolve_from ls i prevLogTerm
      end
  end.

Definition resolveIndexConflict rf (prevLogTerm : Z) : Z :=
  resolve_from (logs rf) (length (logs rf)) prevLogTerm.

(** ** [RequestVote]: three critical sections *)

Record rv_locals := {
  rv_currentTerm : Z; rv_votedFor : Z; rv_lastLogIndex : Z; rv_lastLogTerm : Z
}.

Inductive rv_pc :=
  | RvStart
  | RvAdopt (l : rv_locals)
  | RvDecide (l : rv_locals)
  | RvDone (reply : RequestVoteReply).

(** The candidate's log is at least as up to date as the one read in the first section. *)
Definition up_to_date (args : RequestVoteArgs) (lastLogIndex lastLogTerm : Z) : Prop :=
  va_LastLogTerm args > lastLogTerm ∨
  (va_LastLogTerm args = lastLogTerm ∧ va_LastLogIndex args >= lastLogIndex).

#[export] Instance up_to_date_dec args i t : Decision (up_to_date args i t).
Proof. unfold up_to_date. apply _. Defined.

Definition RequestVote_section (et : Z) (args : RequestVoteArgs) rf (pc : rv_pc)
    : Raft Cmd * rv_pc :=
  match pc with
  | RvStart =>
      let '(lastLogIndex, lastLogTerm) := getLastLogIndexAndTerm rf in
      let l := {| rv_currentTerm := rf_CurrentTerm rf; rv_votedFor := rf_VotedFor rf;
                  rv_lastLogIndex := lastLogIndex; rv_lastLogTerm := lastLogTerm |} in
      if decide (va_Term args < rv_currentTerm l) then
        (rf, RvDone (RequestVoteReply_zero <| vr_VoteGranted := false |>
                                           <| vr_Term := rv_currentTerm l |>))
      else if decide (va_Term args > rv_currentTerm l) then (rf, RvAdopt l)
      else (rf, RvDecide l)
  | RvAdopt l =>
      let rf := setToFollower et (va_Term args) rf in
      (rf, RvDecide {| rv_currentTerm := rf_CurrentTerm rf; rv_votedFor := rf_VotedFor rf;
                       rv_lastLogIndex := rv_lastLogIndex l; rv_lastLogTerm := rv_lastLogTerm l |})
  | RvDecide l =>
      if decide ((rv_votedFor l = -1 ∨ rv_votedFor l = va_CandidateId args) ∧
                 up_to_date args (rv_lastLogIndex l) (rv_lastLogTerm l)) then
        (rf <| rf_VotedFor := va_CandidateId args |> <| rf_ElectionTimeout := et |>,
         RvDone (RequestVoteReply_zero <| vr_VoteGranted := true |>
                                       <| vr_Term := rv_currentTerm l |>))
      else
        (rf, RvDone (RequestVoteReply_zero <| vr_VoteGranted := false |>
                                           <| vr_Term := rv_currentTerm l |>))
  | RvDone reply => (rf, RvDone reply)
  end.

(** The handler with nothing between its sections. *)
Definition RequestVote (et1 et2 : Z) (args : RequestVoteArgs) rf
    : Raft Cmd * RequestVoteReply :=
  let '(rf, pc) := RequestVote_section et1 args rf RvStart in
  let '(rf, pc) := RequestVote_section et1 args rf pc in
  let '(rf, pc) := RequestVote_section et2 args rf pc in
  (rf, match pc with RvDone reply => reply | _ => RequestVoteReply_zero end).

(** ** [AppendLogEntry]: one critical section

    The boolean says that the handler goes on to send on [commitChan]; nothing follows
    the send. *)
Definition AppendLogEntry (et : Z) (grow : nat) (args : AppendLogRequest Cmd) rf
    : outcome (Raft Cmd * AppendLogResponse * bool) :=
  let reply := AppendLogResponse_zero in
  let currentTerm := rf_CurrentTerm rf in
  if decide (ar_Term args >= currentTerm) then
    let rf := setToFollower et (ar_Term args) rf in
    let reply := reply <| as_Term := currentTerm |> in
    let maxLogIndex := zlen (logs rf) - 1 in
    isMatchingTerms ←
      (if decide (-1 < ar_PrevLogIndex args ∧ ar_PrevLogIndex args ≤ maxLogIndex) then
         prevLog ← go_index (logs rf) (ar_PrevLogIndex args);
         Ret (bool_decide (le_Term prevLog = ar_PrevLogTerm args))
       else Ret false);
    if decide (0 < length (ar_Entries args))%nat then
      if decide (ar_PrevLogIndex args > maxLogIndex) then
        Ret (rf, reply <| as_ConflictIndex := resolveIndexConflict rf (ar_PrevLogTerm args) |>
                       <| as_Success := false |>, false)
      else if negb isMatchingTerms then
        Ret (rf, reply <| as_ConflictIndex := resolveIndexConflict rf (ar_PrevLogTerm args) |>
                       <| as_Success := false |>, false)
      else
        kept ← sl_slice (rf_heap rf) (rf_logs rf) 0 (ar_PrevLogIndex args + 1);
        let '(h, s) := sl_append grow LogEntry_zero (rf_heap rf) kept (ar_Entries args) in
        Ret (rf <| rf_heap := h |> <| rf_logs := s |>, reply <| as_Success := true |>, false)
    else if decide (isMatchingTerms = true ∧ ar_LeaderCommit args > rf_commitIndex rf) then
      Ret (rf <| rf_commitIndex := Z.min (ar_LeaderCommit args) maxLogIndex |>, reply, true)
    else Ret (rf, reply, false)
  else
    Ret (rf, reply <| as_Success := false |> <| as_Term := currentTerm |>, false).

(** ** [Start]: two critical sections *)

Definition Start_read rf : Z * Z * bool :=
  let '(lastLogIndex, _) := getLastLogIndexAndTerm rf in
  (lastLogIndex, rf_CurrentTerm rf, bool_decide (rf_Mode rf = Leader)).

Definition Start_append (grow : nat) (currentTerm : Z) (command : Cmd) rf : Raft Cmd :=
  let '(h, s) := sl_append grow LogEntry_zero (rf_heap rf) (rf_logs rf)
                   [{| le_Term := currentTerm; le_Command := Some command |}] in
  rf <| rf_heap := h |> <| rf_logs := s |>.

Definition Start (grow : nat) (command : Cmd) rf : Raft Cmd * (Z * Z * bool) :=
  let '(lastLogIndex, currentTerm, isLeader) := Start_read rf in
  (if isLeader then Start_append grow currentTerm command rf else rf,
   (lastLogIndex + 1, currentTerm, isLeader)).

(** ** [Make] and the three jobs of [ticker] *)

Definition Make (et : Z) (grow : nat) (npeers : nat) (me : Z) : Raft Cmd :=
  let '(h, s) := sl_append grow LogEntry_zero [[]] {| sl_arr := 0; sl_off := 0; sl_len := 0 |}
                   [{| le_Term := 0; le_Command := None |}] in
  {| rf_me := me; rf_peers := npeers; rf_Mode := Follower; rf_CurrentTerm := 0;
     rf_VotedFor := -1; rf_ElectionTimeout := et; rf_heap := h; rf_logs := s;
     rf_commitIndex := 0; rf_appliedIndex := 0; rf_electionInProgress := false;
     rf_pNextIndex := []; rf_pMatchIndex := [] |}.

Definition isTimedOut (now : Z) rf : Raft Cmd :=
  if decide (rf_Mode rf ≠ Follower) then rf
  else if decide (now > rf_ElectionTimeout rf) then rf <| rf_Mode := Candidate |> else rf.

(** *** [isElected] *)

(** What the goroutines of one election share: the snapshot they were started with and the
    captured variable [votes]. *)
Record election := {
  el_currentTerm : Z; el_lastLogIndex : Z; el_lastLogTerm : Z; el_votes : Z
}.

Definition isElected_guard rf : bool :=
  negb (bool_decide (rf_Mode rf ≠ Candidate) || rf_electionInProgress rf).

Definition isElected_begin rf : Raft Cmd * election :=
  let rf := rf <| rf_electionInProgress := true |> in
  let '(lastLogIndex, lastLogTerm) := getLastLogIndexAndTerm rf in
  let rf := rf <| rf_CurrentTerm := i64 (rf_CurrentTerm rf + 1) |> in
  (rf, {| el_currentTerm := rf_CurrentTerm rf; el_lastLogIndex := lastLogIndex;
          el_lastLogTerm := lastLogTerm; el_votes := 1 |}).

(** The timer goroutine, when it wakes. *)
Definition isElected_timer rf : Raft Cmd := rf <| rf_electionInProgress := false |>.

Definition isElected_args rf (el : election) : RequestVoteArgs :=
  {| va_Term := el_currentTerm el; va_CandidateId := rf_me rf;
     va_LastLogIndex := el_lastLogIndex el; va_LastLogTerm := el_lastLogTerm el |}.

(** A goroutine after its Call; the reply is zero when the Call failed. *)
Definition isElected_reply (et : Z) (reply : RequestVoteReply) rf (el : election)
    : Raft Cmd * election :=
  if decide (rf_Mode rf ≠ Candidate) then (rf <| rf_electionInProgress := false |>, el)
  else if decide (vr_Term reply > el_currentTerm el) then
    (setToFollower et (vr_Term reply) rf, el)
  else
    let votes := if vr_VoteGranted reply then el_votes el + 1 else el_votes el in
    let el := {| el_currentTerm := el_currentTerm el; el_lastLogIndex := el_lastLogIndex el;
                 el_lastLogTerm := el_lastLogTerm el; el_votes := votes |} in
    (if isMajority rf votes then setToLeader rf else rf, el).

(** *** [isLeading] *)

(** One goroutine's captured variables, and after it built its arguments, the window
    [args.Entries] (none: the fresh empty slice). *)
Record replication := {
  rp_peer : Z; rp_currentTerm : Z; rp_lastLogIndex : Z; rp_pNextIndex : Z
}.

Record AppendLogArgs := {
  aa_Term : Z; aa_LeaderId : Z; aa_PrevLogIndex : Z; aa_PrevLogTerm : Z;
  aa_Entries : option slice; aa_LeaderCommit : Z
}.

(** The snapshot the loop works with; [None] when the peer is not a leader. *)
Definition isLeading_read rf : option (Z * Z) :=
  let '(lastLogIndex, _) := getLastLogIndexAndTerm rf in
  if decide (rf_Mode rf ≠ Leader) then None else Some (rf_CurrentTerm rf, lastLogIndex).

(** The section of the loop for peer [i], which starts a goroutine. *)
Definition isLeading_peer (currentTerm lastLogIndex i : Z) rf : outcome replication :=
  pNextIndex ← go_index (rf_pNextIndex rf) i;
  Ret {| rp_peer := i; rp_currentTerm := currentTerm; rp_lastLogIndex := lastLogIndex;
         rp_pNextIndex := pNextIndex |}.

Definition isEntriesIncluded (rp : replication) : bool :=
  bool_decide (rp_lastLogIndex rp >= rp_pNextIndex rp).

Definition buildAppendLogArgs (pIndex : Z) (entries : option slice) rf : outcome AppendLogArgs :=
  let prevLogIndex := pIndex - 1 in
  prevLog ← go_index (logs rf) prevLogIndex;
  Ret {| aa_Term := rf_CurrentTerm rf; aa_LeaderId := rf_me rf;
         aa_PrevLogIndex := prevLogIndex; aa_PrevLogTerm := le_Term prevLog;
         aa_Entries := entries; aa_LeaderCommit := rf_commitIndex rf |}.

(** The goroutine's first section. *)
Definition isLeading_args (rp : replication) rf : outcome AppendLogArgs :=
  entries ← (if isEntriesIncluded rp then
               s ← sl_slice (rf_heap rf) (rf_logs rf) (rp_pNextIndex rp) (zlen (logs rf));
               Ret (Some s)
             else Ret None);
  buildAppendLogArgs (rp_pNextIndex rp) entries rf.

(** [Call] marshals the arguments without the lock: the window is read as it then is. *)
Definition marshall_args (a : AppendLogArgs) rf : AppendLogRequest Cmd :=
  {| ar_Term := aa_Term a; ar_LeaderId := aa_LeaderId a;
     ar_PrevLogIndex := aa_PrevLogIndex a; ar_PrevLogTerm := aa_PrevLogTerm a;
     ar_Entries := match aa_Entries a with Some s => sl_get (rf_heap rf) s | None => [] end;
     ar_LeaderCommit := aa_LeaderCommit a |}.

Definition len_entries (a : AppendLogArgs) : Z :=
  match aa_Entries a with Some s => Z.of_nat (sl_len s) | None => 0 end.

(** The goroutine's section after its Call ([ok] is the Call's result, and the reply is
    zero when it is false); the boolean says that it goes on to send on [commitChan]. *)
Definition isLeading_reply (et : Z) (ok : bool) (reply : AppendLogResponse)
    (rp : replication) (a : AppendLogArgs) rf : outcome (Raft Cmd * bool) :=
  if decide (as_Term reply > rp_currentTerm rp) then
    Ret (setToFollower et (as_Term reply) rf, false)
  else if decide (ok = true ∧ isEntriesIncluded rp = true ∧
                  rp_currentTerm rp = as_Term reply ∧ rf_Mode rf = Leader) then
    if as_Success reply then
      next ← go_update (rf_pNextIndex rf) (rp_peer rp) (rp_pNextIndex rp + len_entries a);
      matched ← go_update (rf_pMatchIndex rf) (rp_peer rp) (zlen (logs rf) - 1);
      let rf := rf <| rf_pNextIndex := next |> <| rf_pMatchIndex := matched |> in
      quorum ← isQuorumReached rf;
      if (quorum : bool) then Ret (rf <| rf_commitIndex := zlen (logs rf) - 1 |>, true)
      else Ret (rf, false)
    else
      next ← go_update (rf_pNextIndex rf) (rp_peer rp) (as_ConflictIndex reply + 1);
      Ret (rf <| rf_pNextIndex := next |>, false)
  else Ret (rf, false).

(** ** [handleCommits] *)

(** The variables of one turn of the loop over [commitChan]: the window being applied,
    the index before it, and the position in it. *)
Record commit_turn := { ct_appliedSS : Z; ct_entries : option slice; ct_next : nat }.

Definition handleCommits_begin rf : outcome (Raft Cmd * commit_turn) :=
  let appliedIndexSS := rf_appliedIndex rf in
  if decide (rf_commitIndex rf > rf_appliedIndex rf) then
    entries ← sl_slice (rf_heap rf) (rf_logs rf) (rf_appliedIndex rf + 1) (rf_commitIndex rf + 1);
    Ret (rf <| rf_appliedIndex := rf_appliedIndex rf + Z.of_nat (sl_len entries) |>,
         {| ct_appliedSS := appliedIndexSS; ct_entries := Some entries; ct_next := 0 |})
  else
    Ret (rf, {| ct_appliedSS := appliedIndexSS; ct_entries := None; ct_next := 0 |}).

(** The next message of a turn, its entry read from the array as it now is; [None] when
    the turn is over. *)
Definition handleCommits_next rf (ct : commit_turn) : option (ApplyMsg Cmd * commit_turn) :=
  match ct_entries ct with
  | None => None
  | Some s =>
      match sl_get (rf_heap rf) s !! ct_next ct with
      | None => None
      | Some entry =>
          Some (CommandMsg (ct_appliedSS ct + Z.of_nat (ct_next ct) + 1) (le_Command entry),
                {| ct_appliedSS := ct_appliedSS ct; ct_entries := ct_entries ct;
                   ct_next := S (ct_next ct) |})
      end
  end.
End raft.


