(* ===== verification/RaftSpec.v ===== *)
(** * What the handlers of a Raft peer do

    The representation invariant of a peer, and for every critical section of [RaftNode]
    its effect on the contents of the log, as a function on lists. *)
From stdpp Require Import base tactics numbers list strings list_numbers fin_sets gmap.
From S2P Require Import Prelude GoSlice RaftNode.

Section spec.
Context {Cmd : Type}.
Implicit Types (rf : Raft Cmd) (l : list (LogEntry Cmd)).

(** The log is a window into an array, its first entry is the sentinel [Make] put there,
    and a leader has one next and one match index per peer. *)
Record rf_inv rf : Prop := {
  ri_wf : sl_wf (rf_heap rf) (rf_logs rf);
  ri_sentinel : logs rf !! 0%nat = Some LogEntry_zero;
  ri_applied : 0 ≤ rf_appliedIndex rf;
  ri_next : rf_Mode rf = Leader → length (rf_pNextIndex rf) = rf_peers rf ∧
                                  length (rf_pMatchIndex rf) = rf_peers rf
}.

Lemma logs_length rf : rf_inv rf → length (logs rf) = sl_len (rf_logs rf).
Proof. intros [Hwf _ _ _]. by apply sl_get_length. Qed.

Lemma logs_nonempty rf : rf_inv rf → 0 < zlen (logs rf).
Proof. intros [_ Hs _ _]. apply lookup_lt_Some in Hs. unfold zlen. lia. Qed.

Lemma Make_inv et grow n me : rf_inv (Make (Cmd := Cmd) et grow n me).
Proof.
  unfold Make.
  set (s0 := {| sl_arr := 0; sl_off := 0; sl_len := 0 |}).
  set (e := {| le_Term := 0; le_Command := None |} : LogEntry Cmd).
  assert (sl_wf [[]] s0 (A := LogEntry Cmd)) as Hwf by (split; cbn; lia).
  pose proof (sl_append_wf grow LogEntry_zero [[]] s0 [e] Hwf) as H1.
  pose proof (sl_append_get grow LogEntry_zero [[]] s0 [e] Hwf) as H2.
  destruct (sl_append _ _ _ _ _) as [h s]. split; cbn; try done.
  unfold logs; cbn. by rewrite H2.
Qed.

(** The invariant only looks at the log, the applied index, the mode and the two arrays. *)
Lemma rf_inv_ext rf rf' :
  rf_inv rf → rf_heap rf' = rf_heap rf → rf_logs rf' = rf_logs rf →
  rf_appliedIndex rf' = rf_appliedIndex rf → rf_peers rf' = rf_peers rf →
  (rf_Mode rf' = Leader → rf_Mode rf = Leader) →
  rf_pNextIndex rf' = rf_pNextIndex rf → rf_pMatchIndex rf' = rf_pMatchIndex rf →
  rf_inv rf'.
Proof.
  intros [Hwf Hs Ha Hn] Hh Hl Hap Hp Hm Hn' Hm'. unfold logs in *.
  split; [by rewrite Hh, Hl|unfold logs; by rewrite Hh, Hl|by rewrite Hap|].
  rewrite Hp, Hn', Hm'. auto.
Qed.

Lemma setToFollower_inv et t rf : rf_inv rf → rf_inv (setToFollower et t rf).
Proof. intros Hinv. by apply (rf_inv_ext rf). Qed.

Lemma setToLeader_inv rf : rf_inv rf → rf_inv (setToLeader rf).
Proof.
  intros [Hwf Hs Ha Hn]. unfold setToLeader. destruct (getLastLogIndexAndTerm rf).
  split; try done. intros _; cbn. by rewrite !length_replicate.
Qed.

Lemma getLastLogIndexAndTerm_spec rf :
  rf_inv rf → ∃ e, logs rf !! (length (logs rf) - 1)%nat = Some e ∧
    getLastLogIndexAndTerm rf = (zlen (logs rf) - 1, le_Term e).
Proof.
  intros Hinv. pose proof (logs_nonempty rf Hinv) as Hpos. unfold getLastLogIndexAndTerm.
  destruct (last (logs rf)) as [e|] eqn:E.
  - exists e. rewrite last_lookup in E. replace (pred _) with (length (logs rf) - 1)%nat in E by lia.
    done.
  - apply last_None in E. rewrite E in Hpos. done.
Qed.

(** ** Conflict resolution *)

(** The highest index below [n] that holds term [t], or 0 when there is none. *)
Definition last_of_term l (n : nat) (t i : Z) : Prop :=
  (∃ e, 0 ≤ i < Z.of_nat n ∧ l !! Z.to_nat i = Some e ∧ le_Term e = t ∧
        ∀ j e', i < Z.of_nat j → (j < n)%nat → l !! j = Some e' → le_Term e' ≠ t) ∨
  (i = 0 ∧ ∀ j e', (j < n)%nat → l !! j = Some e' → le_Term e' ≠ t).

Lemma resolve_from_spec l n t : last_of_term l n t (resolve_from l n t).
Proof.
  induction n as [|n IH]; simpl.
  { right. split; [done|]. intros. lia. }
  assert (∀ P : Prop, (match l !! n with Some e => le_Term e ≠ t | None => True end → P) →
          match l !! n with Some e => le_Term e = t | None => False end ∨ P) as Hcase.
  { intros P HP. destruct (l !! n) as [e|]; [|auto]. destruct (decide (le_Term e = t)); auto. }
  assert ((match l !! n with Some e => le_Term e ≠ t | None => True end) →
          last_of_term l (S n) t (resolve_from l n t)) as Hmiss.
  { intros Hn. destruct IH as [(e & Hi & He & Ht & Hj)|[H0 Hj]].
    - left. exists e. split_and!; [lia|lia|done|done|]. intros j e' Hij Hjn Hj'.
      destruct (decide (j = n)) as [->|]; [by rewrite Hj' in Hn|]. apply (Hj j); [done|lia|done].
    - right. split; [done|]. intros j e' Hjn Hj'.
      destruct (decide (j = n)) as [->|]; [by rewrite Hj' in Hn|]. apply (Hj j); [lia|done]. }
  destruct (l !! n) as [e|] eqn:E; [|by apply Hmiss].
  case_decide as Ht; [|by apply Hmiss].
  left. exists e. rewrite Nat2Z.id. split_and!; [lia|lia|done|done|]. intros. lia.
Qed.

Lemma resolve_from_range l n t : 0 ≤ resolve_from l n t ∧ resolve_from l n t ≤ Z.max 0 (Z.of_nat n - 1).
Proof. destruct (resolve_from_spec l n t) as [(e & ? & _)|[-> _]]; lia. Qed.

(** ** [AppendLogEntry] on lists *)

Definition prev_matches l (args : AppendLogRequest Cmd) : Prop :=
  0 ≤ ar_PrevLogIndex args ∧
  ∃ e, l !! Z.to_nat (ar_PrevLogIndex args) = Some e ∧ le_Term e = ar_PrevLogTerm args.

#[export] Instance prev_matches_dec l args : Decision (prev_matches l args).
Proof.
  apply and_dec; [apply _|]. destruct (l !! _) as [e|]; [|right; naive_solver].
  destruct (decide (le_Term e = ar_PrevLogTerm args)); [left|right]; naive_solver.
Defined.

(** What a request of the current or a later term does to the log and the commit index,
    and what it answers: success and conflict index. *)
Definition append_spec l (commit : Z) (args : AppendLogRequest Cmd)
    : list (LogEntry Cmd) * Z * bool * Z * bool :=
  if decide (ar_Entries args = []) then
    if decide (prev_matches l args ∧ ar_LeaderCommit args > commit)
    then (l, Z.min (ar_LeaderCommit args) (zlen l - 1), false, 0, true)
    else (l, commit, false, 0, false)
  else if decide (prev_matches l args)
  then (take (S (Z.to_nat (ar_PrevLogIndex args))) l ++ ar_Entries args, commit, true, 0, false)
  else (l, commit, false, resolve_from l (length l) (ar_PrevLogTerm args), false).

Lemma isMatchingTerms_spec l args :
  (if decide (-1 < ar_PrevLogIndex args ∧ ar_PrevLogIndex args ≤ zlen l - 1) then
     prevLog ← go_index l (ar_PrevLogIndex args);
     Ret (bool_decide (le_Term prevLog = ar_PrevLogTerm args))
   else Ret false) = Ret (bool_decide (prev_matches l args)).
Proof.
  unfold prev_matches. case_decide as Hr.
  - destruct (go_index_in_range l (ar_PrevLogIndex args)) as (e & -> & He); [lia|]. 
    rewrite bind_ret_l. f_equal. apply bool_decide_ext. rewrite He.
    split; [intros; split; [lia|eauto]|naive_solver].
  - f_equal. symmetry. apply bool_decide_eq_false. intros (H0 & e & He & _).
    apply lookup_lt_Some in He. unfold zlen in Hr. lia.
Qed.

Lemma prev_matches_range l args :
  prev_matches l args → 0 ≤ ar_PrevLogIndex args ∧ ar_PrevLogIndex args < zlen l.
Proof. intros (? & e & He%lookup_lt_Some & _). unfold zlen. lia. Qed.

Lemma append_keeps_sentinel l es (p : nat) :
  l !! 0%nat = Some LogEntry_zero → (take (S p) l ++ es) !! 0%nat = Some LogEntry_zero.
Proof. intros Hs. destruct l; [done|]. by cbn in *. Qed.

(** What every answered request of a current term leaves besides the log. *)
Definition adopted (et : Z) (args : AppendLogRequest Cmd) rf rf' : Prop :=
  rf_Mode rf' = Follower ∧ rf_CurrentTerm rf' = ar_Term args ∧ rf_VotedFor rf' = -1 ∧
  rf_ElectionTimeout rf' = et ∧ rf_appliedIndex rf' = rf_appliedIndex rf ∧
  rf_me rf' = rf_me rf ∧ rf_peers rf' = rf_peers rf.

Lemma AppendLogEntry_spec et grow args rf :
  rf_inv rf → rf_CurrentTerm rf ≤ ar_Term args →
  ∃ rf' reply b, AppendLogEntry et grow args rf = Ret (rf', reply, b) ∧
    rf_inv rf' ∧ adopted et args rf rf' ∧ as_Term reply = rf_CurrentTerm rf ∧
    (logs rf', rf_commitIndex rf', as_Success reply, as_ConflictIndex reply, b) =
      append_spec (logs rf) (rf_commitIndex rf) args.
Proof.
  intros Hinv Hterm. unfold AppendLogEntry. rewrite decide_True by lia.
  pose proof (setToFollower_inv et (ar_Term args) rf Hinv) as Hinv1.
  change (logs (setToFollower et (ar_Term args) rf)) with (logs rf).
  rewrite isMatchingTerms_spec, bind_ret_l. unfold append_spec.
  destruct (ar_Entries args) as [|e es] eqn:Ees.
  - rewrite (decide_False (P := (0 < length _)%nat)), (decide_True (P := [] = [])) by (cbn; done || lia).
    case_decide as Hc.
    + rewrite bool_decide_eq_true in Hc. rewrite decide_True by (apply Hc).
      do 3 eexists. split; [done|]. split; [by apply (rf_inv_ext (setToFollower et (ar_Term args) rf))|].
      by split_and!.
    + rewrite bool_decide_eq_true in Hc. rewrite decide_False by (apply Hc).
      do 3 eexists. split; [done|]. by split_and!.
  - rewrite (decide_True (P := (0 < length (e :: es))%nat)), (decide_False (P := e :: es = [])) by (cbn; done || lia).
    destruct (decide (prev_matches (logs rf) args)) as [Hm|Hm].
    + rewrite bool_decide_eq_true_2 by done. apply prev_matches_range in Hm as [H0 H1].
      rewrite decide_False by lia. cbn [negb].
      destruct (sl_slice_get (rf_heap rf) (rf_logs rf) 0 (ar_PrevLogIndex args + 1)) as (s & Hs & Hget).
      { apply Hinv. } { lia. } { rewrite <- logs_length by done. unfold zlen in *. lia. }
      assert (sl_wf (rf_heap rf) s) as Hswf by (eapply sl_slice_wf; [apply Hinv|done]).
      cbn [setToFollower update rf_heap rf_logs]. rewrite Hs, bind_ret_l.
      pose proof (sl_append_wf grow LogEntry_zero (rf_heap rf) s (e :: es) Hswf) as Hwf.
      pose proof (sl_append_get grow LogEntry_zero (rf_heap rf) s (e :: es) Hswf) as Hg.
      destruct (sl_append _ _ _ _ _) as [h s'].
      assert (sl_get h s' = take (S (Z.to_nat (ar_PrevLogIndex args))) (logs rf) ++ e :: es) as Hlogs.
      { rewrite Hg, Hget. cbn [drop Z.to_nat]. do 2 f_equal. lia. }
      do 3 eexists. split; [done|]. split; [|split; [by split_and!|split; [done|]]].
      * split; cbn; try done; [|apply Hinv]. unfold logs; cbn. rewrite Hlogs.
        apply append_keeps_sentinel, Hinv.
      * unfold logs at 1; cbn. by rewrite Hlogs.
    + rewrite bool_decide_eq_false_2 by done. cbn [negb].
      assert (∀ x : outcome (Raft Cmd * AppendLogResponse * bool),
                (if decide (ar_PrevLogIndex args > zlen (logs rf) - 1) then x else x) = x) as ->.
      { intros. by case_decide. }
      do 3 eexists. split; [done|]. by split_and!.
Qed.

Lemma AppendLogEntry_stale et grow args rf :
  ar_Term args < rf_CurrentTerm rf →
  AppendLogEntry et grow args rf =
    Ret (rf, {| as_Term := rf_CurrentTerm rf; as_Success := false; as_ConflictIndex := 0 |}, false).
Proof. intros. unfold AppendLogEntry. by rewrite decide_False by lia. Qed.

Lemma AppendLogEntry_inv et grow args rf rf' reply b :
  rf_inv rf → AppendLogEntry et grow args rf = Ret (rf', reply, b) → rf_inv rf'.
Proof.
  intros Hinv. destruct (decide (rf_CurrentTerm rf ≤ ar_Term args)) as [Ht|Ht].
  - destruct (AppendLogEntry_spec et grow args rf Hinv Ht) as (? & ? & ? & -> & ? & _). naive_solver.
  - rewrite AppendLogEntry_stale by lia. naive_solver.
Qed.

(** ** [Start] *)

Lemma Start_append_logs grow t c rf :
  rf_inv rf → logs (Start_append grow t c rf) =
              logs rf ++ [{| le_Term := t; le_Command := Some c |}].
Proof.
  intros Hinv. unfold Start_append.
  pose proof (sl_append_get grow LogEntry_zero (rf_heap rf) (rf_logs rf)
    [{| le_Term := t; le_Command := Some c |}] (ri_wf _ Hinv)) as Hg.
  by destruct (sl_append _ _ _ _ _).
Qed.

Lemma Start_append_inv grow t c rf : rf_inv rf → rf_inv (Start_append grow t c rf).
Proof.
  intros Hinv. pose proof (Start_append_logs grow t c rf Hinv) as Hl. revert Hl.
  unfold Start_append.
  pose proof (sl_append_wf grow LogEntry_zero (rf_heap rf) (rf_logs rf)
    [{| le_Term := t; le_Command := Some c |}] (ri_wf _ Hinv)) as Hwf.
  destruct (sl_append _ _ _ _ _) as [h s]. intros Hl. split; try apply Hinv; [done|].
  rewrite Hl, lookup_app_l by (apply lookup_lt_is_Some; rewrite (ri_sentinel _ Hinv); eauto).
  apply Hinv.
Qed.

Lemma Start_spec grow c rf :
  rf_inv rf →
  let '(rf', (i, t, leader)) := Start grow c rf in
  rf_inv rf' ∧ i = zlen (logs rf) ∧ t = rf_CurrentTerm rf ∧
  leader = bool_decide (rf_Mode rf = Leader) ∧
  logs rf' = logs rf ++ (if leader then [{| le_Term := t; le_Command := Some c |}] else []).
Proof.
  intros Hinv. unfold Start, Start_read.
  destruct (getLastLogIndexAndTerm_spec rf Hinv) as (e & _ & ->).
  case_bool_decide; split_and!; try done; try lia.
  - by apply Start_append_inv.
  - by apply Start_append_logs.
  - by rewrite app_nil_r.
Qed.

(** ** [RequestVote] *)

(** The term and vote after the request, whether it is granted, and the answered term. *)
Definition vote_spec (term voted lastIndex lastTerm : Z) (args : RequestVoteArgs)
    : Z * Z * bool * Z :=
  if decide (va_Term args < term) then (term, voted, false, term)
  else
    let voted := if decide (va_Term args > term) then -1 else voted in
    let grant := bool_decide ((voted = -1 ∨ voted = va_CandidateId args) ∧
                              up_to_date args lastIndex lastTerm) in
    (va_Term args, if grant then va_CandidateId args else voted, grant, va_Term args).

Lemma RequestVote_spec et1 et2 args rf :
  let '(rf', reply) := RequestVote et1 et2 args rf in
  (rf_CurrentTerm rf', rf_VotedFor rf', vr_VoteGranted reply, vr_Term reply) =
    vote_spec (rf_CurrentTerm rf) (rf_VotedFor rf) (getLastLogIndexAndTerm rf).1
              (getLastLogIndexAndTerm rf).2 args ∧
  rf_Mode rf' = (if decide (va_Term args > rf_CurrentTerm rf) then Follower else rf_Mode rf) ∧
  rf_heap rf' = rf_heap rf ∧ rf_logs rf' = rf_logs rf ∧
  rf_commitIndex rf' = rf_commitIndex rf ∧ rf_appliedIndex rf' = rf_appliedIndex rf ∧
  rf_peers rf' = rf_peers rf ∧ rf_pNextIndex rf' = rf_pNextIndex rf ∧
  rf_pMatchIndex rf' = rf_pMatchIndex rf.
Proof.
  unfold RequestVote, RequestVote_section, vote_spec.
  destruct (getLastLogIndexAndTerm rf) as [li lt]; cbn.
  case_decide as Hlt; [rewrite decide_False by lia; by split_and!|].
  case_decide as Hgt; cbn.
  - rewrite bool_decide_decide. case_decide; by split_and!.
  - assert (rf_CurrentTerm rf = va_Term args) as Heq by lia.
    rewrite bool_decide_decide. case_decide; cbn; rewrite Heq; by split_and!.
Qed.

(** ** Quorums *)

(** This peer and the peers whose match index is this peer's last index. *)
Definition quorum_count rf : Z :=
  1 + zlen (filter (λ p, p ≠ rf_me rf ∧ rf_pMatchIndex rf !! Z.to_nat p = Some (zlen (logs rf) - 1))
                   (seqZ 0 (Z.of_nat (rf_peers rf)))).

Lemma quorum_step_fold rf (ps : list Z) n :
  (∀ p, p ∈ ps → 0 ≤ p < zlen (rf_pMatchIndex rf)) →
  foldl (quorum_step rf) (Ret n) ps =
    Ret (n + zlen (filter (λ p, p ≠ rf_me rf ∧
                    rf_pMatchIndex rf !! Z.to_nat p = Some (zlen (logs rf) - 1)) ps)).
Proof.
  revert n. induction ps as [|p ps IH]; intros n Hin.
  { cbn. f_equal. rewrite zlen_nil. lia. }
  assert (∀ q, q ∈ ps → 0 ≤ q < zlen (rf_pMatchIndex rf)) as Hin' by set_solver.
  cbn [foldl]. unfold quorum_step at 2. rewrite bind_ret_l. rewrite filter_cons.
  destruct (decide (p = rf_me rf)) as [Hp|Hp].
  - rewrite decide_False by naive_solver. by apply IH.
  - destruct (go_index_in_range (rf_pMatchIndex rf) p) as (m & -> & Hm); [set_solver|].
    rewrite bind_ret_l, Hm. destruct (decide (m = zlen (logs rf) - 1)) as [->|Hne].
    + rewrite decide_True by done. rewrite IH by done. f_equal. rewrite zlen_cons. lia.
    + rewrite decide_False by naive_solver. by apply IH.
Qed.

Lemma isQuorumReached_spec rf :
  (rf_peers rf ≤ length (rf_pMatchIndex rf))%nat →
  isQuorumReached rf = Ret (bool_decide (quorum_count rf = Z.of_nat (rf_peers rf) / 2 + 1)).
Proof.
  intros Hlen. unfold isQuorumReached. rewrite quorum_step_fold; [done|].
  intros p [? ?]%elem_of_seqZ. unfold zlen. lia.
Qed.

Lemma isMajority_intersect rf (A B : gset Z) :
  (∀ p, p ∈ A ∪ B → 0 ≤ p < Z.of_nat (rf_peers rf)) →
  isMajority rf (Z.of_nat (size A)) = true → isMajority rf (Z.of_nat (size B)) = true →
  ∃ p, p ∈ A ∩ B.
Proof.
  unfold isMajority. rewrite !bool_decide_eq_true. intros Hin HA HB.
  apply set_choose_L. intros Hempty.
  assert (size (A ∪ B) ≤ rf_peers rf)%nat as Hub.
  { transitivity (size (list_to_set (seqZ 0 (Z.of_nat (rf_peers rf))) : gset Z)).
    - apply subseteq_size. intros p Hp. apply elem_of_list_to_set, elem_of_seqZ.
      specialize (Hin p Hp). lia.
    - rewrite size_list_to_set by apply NoDup_seqZ. rewrite length_seqZ. lia. }
  rewrite size_union in Hub by set_solver.
  pose proof (Z.mul_succ_div_gt (Z.of_nat (rf_peers rf)) 2 ltac:(lia)). lia.
Qed.
End spec.

(** ** What the handlers promise *)

Section promises.
Context {Cmd : Type}.
Implicit Types (rf : Raft Cmd).

(** C5: [AppendLogEntry] never panics on a peer that keeps its invariant.  A request of an
    older term changes nothing and is refused; every other one makes the peer a follower of
    the request's term and does to the log, the commit index and the answer what the list
    specification [append_spec] says, aliased slices and spare capacity notwithstanding.
    The answered term is the one the peer had before. *)
Theorem AppendLogEntry_refines et grow args rf :
  rf_inv rf →
  ∃ rf' reply b, AppendLogEntry et grow args rf = Ret (rf', reply, b) ∧
    rf_inv rf' ∧ as_Term reply = rf_CurrentTerm rf ∧
    if decide (ar_Term args < rf_CurrentTerm rf)
    then rf' = rf ∧ as_Success reply = false ∧ b = false
    else adopted et args rf rf' ∧
         (logs rf', rf_commitIndex rf', as_Success reply, as_ConflictIndex reply, b) =
           append_spec (logs rf) (rf_commitIndex rf) args.
Proof.
  intros Hinv. case_decide as Ht.
  - rewrite AppendLogEntry_stale by done. do 3 eexists. by split_and!.
  - destruct (AppendLogEntry_spec et grow args rf Hinv ltac:(lia)) as (rf' & reply & b & ? & ? & ? & ? & ?).
    by exists rf', reply, b.
Qed.

(** Run without interference, [RequestVote] refuses an older term, adopts a newer one
    (forgetting the vote), and grants exactly when it has no other vote in the request's
    term and the candidate's log is at least as up to date; it never touches the log. *)
Theorem RequestVote_functional et1 et2 args rf :
  let '(rf', reply) := RequestVote et1 et2 args rf in
  (rf_CurrentTerm rf', rf_VotedFor rf', vr_VoteGranted reply, vr_Term reply) =
    vote_spec (rf_CurrentTerm rf) (rf_VotedFor rf) (getLastLogIndexAndTerm rf).1
              (getLastLogIndexAndTerm rf).2 args ∧
  rf_Mode rf' = (if decide (va_Term args > rf_CurrentTerm rf) then Follower else rf_Mode rf) ∧
  logs rf' = logs rf ∧ rf_commitIndex rf' = rf_commitIndex rf ∧
  rf_appliedIndex rf' = rf_appliedIndex rf.
Proof.
  pose proof (RequestVote_spec et1 et2 args rf) as Hs.
  destruct (RequestVote et1 et2 args rf) as [rf' reply].
  destruct Hs as (? & ? & Hh & Hl & ? & ? & _). unfold logs. by rewrite Hh, Hl.
Qed.

(** [Start] on a leader appends the command with the current term at the index it
    returns; on any other peer it changes nothing and says so. *)
Theorem Start_functional grow c rf :
  rf_inv rf →
  let '(rf', (i, t, leader)) := Start grow c rf in
  rf_inv rf' ∧ i = zlen (logs rf) ∧ t = rf_CurrentTerm rf ∧
  leader = bool_decide (rf_Mode rf = Leader) ∧
  logs rf' = logs rf ++ (if leader then [{| le_Term := t; le_Command := Some c |}] else []).
Proof. apply Start_spec. Qed.

(** [isQuorumReached] does not panic when there is a match index per peer, and answers
    whether exactly a bare majority, this peer included, has a match index equal to this
    peer's last index (more than a bare majority counts as no quorum). *)
Theorem isQuorumReached_functional rf :
  (rf_peers rf ≤ length (rf_pMatchIndex rf))%nat →
  isQuorumReached rf = Ret (bool_decide (quorum_count rf = Z.of_nat (rf_peers rf) / 2 + 1)).
Proof. apply isQuorumReached_spec. Qed.

(** Two sets of peers that [isMajority] accepts have a peer in common. *)
Theorem majorities_intersect rf (A B : gset Z) :
  (∀ p, p ∈ A ∪ B → 0 ≤ p < Z.of_nat (rf_peers rf)) →
  isMajority rf (Z.of_nat (size A)) = true → isMajority rf (Z.of_nat (size B)) = true →
  ∃ p, p ∈ A ∩ B.
Proof. apply isMajority_intersect. Qed.

(** [resolveIndexConflict] ends and returns the highest index whose entry has the
    leader's previous term, or 0 when there is none. *)
Theorem resolveIndexConflict_functional rf t :
  last_of_term (logs rf) (length (logs rf)) t (resolveIndexConflict rf t).
Proof. apply resolve_from_spec. Qed.
End promises.

(** A peer with the log of terms [0, 1, 1], in an array with spare capacity. *)
Definition example_peer : Raft Z :=
  (Make 0 2 3 1) <| rf_heap := [[]; [LogEntry_zero; {| le_Term := 1; le_Command := Some 7 |};
                                    {| le_Term := 1; le_Command := Some 8 |}; LogEntry_zero]] |>
                 <| rf_logs := {| sl_arr := 1; sl_off := 0; sl_len := 3 |} |>
                 <| rf_CurrentTerm := 1 |>.

Lemma example_peer_inv : rf_inv example_peer.
Proof. split; cbn; try done. split; cbn; lia. Qed.

Definition example_request : AppendLogRequest Z :=
  {| ar_Term := 2; ar_LeaderId := 0; ar_PrevLogIndex := 1; ar_PrevLogTerm := 1;
     ar_Entries := [{| le_Term := 2; le_Command := Some 9 |}]; ar_LeaderCommit := 0 |}.

Lemma AppendLogEntry_refines_witness :
  ∃ rf' reply b, AppendLogEntry 5 0 example_request example_peer = Ret (rf', reply, b) ∧
    logs rf' = [LogEntry_zero; {| le_Term := 1; le_Command := Some 7 |};
                {| le_Term := 2; le_Command := Some 9 |}] ∧ as_Success reply = true.
Proof.
  destruct (AppendLogEntry_refines 5 0 example_request example_peer example_peer_inv)
    as (rf' & reply & b & E & _ & _ & H). exists rf', reply, b. split; [exact E|].
  rewrite decide_False in H by (cbn; lia). destruct H as [_ H]. vm_compute in H.
  injection H as Hl _ Hs _ _. split; [exact Hl|exact Hs].
Defined.

Lemma Start_functional_witness :
  let '(rf', (i, t, leader)) := Start 0 9 (setToLeader example_peer) in
  i = 3 ∧ t = 1 ∧ leader = true ∧ logs rf' !! 3%nat = Some {| le_Term := 1; le_Command := Some 9 |}.
Proof.
  pose proof (Start_functional 0 9 (setToLeader example_peer)
                (setToLeader_inv _ example_peer_inv)) as H.
  destruct (Start 0 9 (setToLeader example_peer)) as [rf' [[i t] leader]].
  destruct H as (_ & -> & -> & -> & ->). vm_compute. repeat split; reflexivity.
Defined.

Lemma isQuorumReached_functional_witness :
  isQuorumReached ((setToLeader example_peer) <| rf_pMatchIndex := [2; 0; 1] |>) = Ret true.
Proof. rewrite isQuorumReached_functional; [vm_compute; reflexivity|vm_compute; lia]. Defined.

Lemma majorities_intersect_witness : ∃ p, p ∈ ({[0; 1]} : gset Z) ∩ {[1; 2]}.
Proof.
  apply (majorities_intersect example_peer {[0; 1]} {[1; 2]}).
  - intros p Hp. change (rf_peers example_peer) with 3%nat.
    rewrite elem_of_union, !elem_of_union, !elem_of_singleton in Hp. lia.
  - vm_compute. reflexivity.
  - vm_compute. reflexivity.
Defined.
