(* ===== verification/RaftRepair.v ===== *)
(** * How a leader brings a follower's log up to its own

    One round of [isLeading] with one follower, end to end: the loop's section, the
    goroutine's argument section, the marshalled request, the follower's handler and the
    goroutine's reply section, with nothing between them.  Rounds are repeated by [ticker];
    a rejected request moves the follower's next index back to the conflict index. *)
From stdpp Require Import base tactics numbers list strings list_numbers.
From S2P Require Import Prelude GoSlice RaftNode RaftSpec.

Section repair.
Context {Cmd : Type}.
Implicit Types (rf leader follower : Raft Cmd) (l : list (LogEntry Cmd)).

Definition repair_round (i et1 et2 : Z) (grow : nat) leader follower
    : outcome (Raft Cmd * Raft Cmd) :=
  match isLeading_read leader with
  | None => Ret (leader, follower)
  | Some (currentTerm, lastLogIndex) =>
      rp ← isLeading_peer currentTerm lastLogIndex i leader;
      a ← isLeading_args rp leader;
      '(follower, resp, _) ← AppendLogEntry et1 grow (marshall_args a leader) follower;
      '(leader, _) ← isLeading_reply et2 true resp rp a leader;
      Ret (leader, follower)
  end.

(** One round per element: the follower's new timeout, the leader's, the growth. *)
Fixpoint repair_rounds (i : Z) (ts : list (Z * Z * nat)) leader follower
    : outcome (Raft Cmd * Raft Cmd) :=
  match ts with
  | [] => Ret (leader, follower)
  | (et1, et2, grow) :: ts =>
      '(leader, follower) ← repair_round i et1 et2 grow leader follower;
      repair_rounds i ts leader follower
  end.

(** The request of a leader for next index [next]. *)
Definition request_at leader (next : Z) (prevTerm : Z) : AppendLogRequest Cmd :=
  {| ar_Term := rf_CurrentTerm leader; ar_LeaderId := rf_me leader;
     ar_PrevLogIndex := next - 1; ar_PrevLogTerm := prevTerm;
     ar_Entries := drop (Z.to_nat next) (logs leader);
     ar_LeaderCommit := rf_commitIndex leader |}.

Lemma isLeading_args_spec leader rp prev :
  rf_inv leader → rp_lastLogIndex rp = zlen (logs leader) - 1 →
  1 ≤ rp_pNextIndex rp ≤ zlen (logs leader) →
  logs leader !! Z.to_nat (rp_pNextIndex rp - 1) = Some prev →
  ∃ a, isLeading_args rp leader = Ret a ∧
       marshall_args a leader = request_at leader (rp_pNextIndex rp) (le_Term prev) ∧
       len_entries a = zlen (logs leader) - rp_pNextIndex rp.
Proof.
  intros Hinv Hlast Hn Hprev. unfold isLeading_args, isEntriesIncluded. rewrite Hlast.
  assert (go_index (logs leader) (rp_pNextIndex rp - 1) = Ret prev) as Hgo.
  { apply go_index_Ret. split; [lia|done]. }
  pose proof (logs_length leader Hinv) as Hll. unfold zlen in *.
  case_bool_decide as Hin; unfold buildAppendLogArgs.
  - destruct (sl_slice_get (rf_heap leader) (rf_logs leader) (rp_pNextIndex rp)
                (Z.of_nat (length (logs leader)))) as (s & Hs & Hget); [apply Hinv|lia|lia|].
    assert (sl_wf (rf_heap leader) s) as Hwf by (eapply sl_slice_wf; [apply Hinv|done]).
    fold (logs leader) in Hget. rewrite take_ge in Hget by (rewrite length_drop; lia).
    rewrite Hs; cbn. rewrite Hgo; cbn. eexists; split; [done|]. split.
    + unfold marshall_args, request_at; cbn. by rewrite Hget.
    + cbn. rewrite <- (sl_get_length _ _ Hwf), Hget, length_drop. lia.
  - rewrite bind_ret_l, Hgo; cbn. eexists; split; [done|]. split; [|cbn; lia].
    unfold marshall_args, request_at; cbn. by rewrite drop_ge by lia.
Qed.

(** What the leader keeps through a round. *)
Definition same_leader leader leader' : Prop :=
  rf_inv leader' ∧ rf_Mode leader' = Leader ∧ rf_CurrentTerm leader' = rf_CurrentTerm leader ∧
  logs leader' = logs leader ∧ rf_peers leader' = rf_peers leader ∧ rf_me leader' = rf_me leader.

Lemma same_leader_commit leader leader' c :
  same_leader leader leader' → same_leader leader (leader' <| rf_commitIndex := c |>).
Proof.
  intros (Hinv & ? & ? & ? & ? & ?). split_and!; try done. by apply (rf_inv_ext leader').
Qed.

Lemma same_leader_next leader next matched :
  rf_inv leader → rf_Mode leader = Leader →
  length next = rf_peers leader → length matched = rf_peers leader →
  same_leader leader (leader <| rf_pNextIndex := next |> <| rf_pMatchIndex := matched |>).
Proof. intros [? ? ? ?] ? ? ?. split_and!; try done. Qed.

Lemma isLeading_reply_success et rp a leader (i : Z) :
  rf_inv leader → rf_Mode leader = Leader → 0 ≤ rp_peer rp < Z.of_nat (rf_peers leader) →
  isEntriesIncluded rp = true → rp_currentTerm rp = rf_CurrentTerm leader →
  ∀ resp, as_Term resp = rf_CurrentTerm leader → as_Success resp = true →
  ∃ leader' b, isLeading_reply et true resp rp a leader = Ret (leader', b) ∧
    same_leader leader leader' ∧
    rf_pNextIndex leader' =
      <[Z.to_nat (rp_peer rp) := rp_pNextIndex rp + len_entries a]> (rf_pNextIndex leader) ∧
    rf_pMatchIndex leader' =
      <[Z.to_nat (rp_peer rp) := zlen (logs leader) - 1]> (rf_pMatchIndex leader).
Proof.
  intros Hinv Hm Hp Hinc Hrp resp Ht Hs. destruct (ri_next _ Hinv Hm) as [Hl1 Hl2].
  unfold isLeading_reply. rewrite decide_False, decide_True, Hs by (lia || (split_and!; congruence)).
  unfold go_update. rewrite !decide_True by (unfold zlen; lia). cbn [mbind outcome_bind].
  set (n1 := <[_ := _]> (rf_pNextIndex leader)). set (m1 := <[_ := _]> (rf_pMatchIndex leader)).
  assert (same_leader leader (leader <| rf_pNextIndex := n1 |> <| rf_pMatchIndex := m1 |>)) as Hsame
    by (apply same_leader_next; unfold n1, m1; rewrite ?length_insert; done).
  set (leader1 := leader <| rf_pNextIndex := n1 |> <| rf_pMatchIndex := m1 |>) in *.
  rewrite (isQuorumReached_spec leader1) by (cbn; unfold m1; rewrite length_insert; lia).
  cbn [mbind outcome_bind]. case_bool_decide; do 2 eexists; (split; [done|]); split_and!; try done.
  by apply same_leader_commit.
Qed.

Lemma isLeading_reply_failure et rp a leader :
  rf_inv leader → rf_Mode leader = Leader → 0 ≤ rp_peer rp < Z.of_nat (rf_peers leader) →
  isEntriesIncluded rp = true → rp_currentTerm rp = rf_CurrentTerm leader →
  ∀ resp, as_Term resp = rf_CurrentTerm leader → as_Success resp = false →
  ∃ leader' b, isLeading_reply et true resp rp a leader = Ret (leader', b) ∧
    same_leader leader leader' ∧
    rf_pNextIndex leader' =
      <[Z.to_nat (rp_peer rp) := as_ConflictIndex resp + 1]> (rf_pNextIndex leader).
Proof.
  intros Hinv Hm Hp Hinc Hrp resp Ht Hs. destruct (ri_next _ Hinv Hm) as [Hl1 Hl2].
  unfold isLeading_reply. rewrite decide_False, decide_True, Hs by (lia || (split_and!; congruence)).
  unfold go_update. rewrite decide_True by (unfold zlen; lia). cbn [mbind outcome_bind].
  do 2 eexists; split; [done|]. split; [|done].
  apply (same_leader_next leader
    (<[Z.to_nat (rp_peer rp) := as_ConflictIndex resp + 1]> (rf_pNextIndex leader))
    (rf_pMatchIndex leader)); try done. etrans; [apply length_insert|done].
Qed.

Lemma isLeading_reply_heartbeat et rp a leader resp :
  isEntriesIncluded rp = false → as_Term resp ≤ rp_currentTerm rp →
  isLeading_reply et true resp rp a leader = Ret (leader, false).
Proof.
  intros Hinc Ht. unfold isLeading_reply. rewrite !decide_False; [done|intros (_ & Hi & _); congruence|lia].
Qed.

(** ** One round *)

(** Leader and follower of the same term, with next index [next] for peer [i]. *)
Record paired (i next : Z) leader follower : Prop := {
  pa_leader : rf_inv leader;
  pa_follower : rf_inv follower;
  pa_mode : rf_Mode leader = Leader;
  pa_term : rf_CurrentTerm follower = rf_CurrentTerm leader;
  pa_peer : 0 ≤ i < Z.of_nat (rf_peers leader);
  pa_next : rf_pNextIndex leader !! Z.to_nat i = Some next;
  pa_range : 1 ≤ next ≤ zlen (logs leader)
}.

Lemma repair_round_spec i next et1 et2 grow leader follower :
  paired i next leader follower →
  ∃ prev leader' follower',
    logs leader !! Z.to_nat (next - 1) = Some prev ∧
    repair_round i et1 et2 grow leader follower = Ret (leader', follower') ∧
    same_leader leader leader' ∧ rf_inv follower' ∧
    rf_CurrentTerm follower' = rf_CurrentTerm leader ∧
    let req := request_at leader next (le_Term prev) in
    if decide (next = zlen (logs leader)) then
      logs follower' = logs follower ∧ rf_pNextIndex leader' = rf_pNextIndex leader
    else if decide (prev_matches (logs follower) req) then
      logs follower' = take (Z.to_nat next) (logs follower) ++ drop (Z.to_nat next) (logs leader) ∧
      rf_pNextIndex leader' = <[Z.to_nat i := zlen (logs leader)]> (rf_pNextIndex leader)
    else
      logs follower' = logs follower ∧
      rf_pNextIndex leader' =
        <[Z.to_nat i := resolve_from (logs follower) (length (logs follower)) (le_Term prev) + 1]>
          (rf_pNextIndex leader).
Proof.
  intros [HL HF Hm Ht Hi Hn Hr]. pose proof (logs_nonempty leader HL) as Hpos.
  destruct (go_index_in_range (logs leader) (next - 1)) as (prev & _ & Hprev); [lia|].
  exists prev. unfold repair_round, isLeading_read.
  destruct (getLastLogIndexAndTerm_spec leader HL) as (e & _ & ->).
  rewrite decide_False by naive_solver. unfold isLeading_peer.
  assert (go_index (rf_pNextIndex leader) i = Ret next) as -> by (apply go_index_Ret; auto with lia).
  rewrite bind_ret_l. set (rp := {| rp_peer := i |}).
  destruct (isLeading_args_spec leader rp prev HL eq_refl Hr Hprev) as (a & Ha & Hreq & Hlen).
  rewrite bind_ret_l, Ha, bind_ret_l, Hreq. cbn [rp_pNextIndex rp] in *.
  set (req := request_at leader next (le_Term prev)).
  destruct (AppendLogEntry_spec et1 grow req follower HF) as (F' & resp & b & -> & HF' & Had & Hrt & Hspec).
  { unfold req; cbn. lia. }
  rewrite bind_ret_l. destruct Had as (_ & HtF & _). change (ar_Term req) with (rf_CurrentTerm leader) in HtF.
  unfold append_spec in Hspec. change (ar_Entries req) with (drop (Z.to_nat next) (logs leader)) in Hspec.
  destruct (decide (next = zlen (logs leader))) as [Hend|Hend].
  - rewrite (decide_True (P := drop _ _ = [])) in Hspec
      by (apply drop_ge; unfold zlen in *; lia).
    rewrite isLeading_reply_heartbeat.
    2: { unfold isEntriesIncluded; cbn. apply bool_decide_eq_false. lia. }
    2: { cbn. lia. }
    exists leader, F'. split_and!; try done. destruct (decide _) in Hspec; naive_solver.
  - rewrite (decide_False (P := drop _ _ = [])) in Hspec.
    2: { intros Hd. apply (f_equal length) in Hd. rewrite length_drop in Hd. unfold zlen in *. cbn in Hd. lia. }
    assert (isEntriesIncluded rp = true) as Hinc by (apply bool_decide_eq_true; cbn; lia).
    destruct (decide (prev_matches (logs follower) req)) as [Hpm|Hpm]; injection Hspec as HlF _ Hs Hc _.
    + destruct (isLeading_reply_success et2 rp a leader i HL Hm Hi Hinc eq_refl resp) as
        (L' & b' & HrepL & Hsame & Hnext & _); [congruence|done|].
      rewrite HrepL, bind_ret_l. exists L', F'. split_and!; try done.
      * rewrite HlF. cbn. do 2 f_equal. lia.
      * rewrite Hnext, Hlen. cbn. f_equal. lia.
    + destruct (isLeading_reply_failure et2 rp a leader HL Hm Hi Hinc eq_refl resp) as
        (L' & b' & HrepL & Hsame & Hnext); [congruence|done|].
      rewrite HrepL, bind_ret_l. exists L', F'. split_and!; try done.
      by rewrite Hnext, Hc.
Qed.

(** ** Convergence *)

(** Every prefix that ends with an entry of term [t] is a prefix of one log [G t]: the log
    of the only leader of that term.  Two logs with this property match each other. *)
Definition generated (G : Z → list (LogEntry Cmd)) l : Prop :=
  ∀ i e, l !! i = Some e → take (S i) l = take (S i) (G (le_Term e)).

Lemma generated_matching G l1 l2 i e1 e2 :
  generated G l1 → generated G l2 → l1 !! i = Some e1 → l2 !! i = Some e2 →
  le_Term e1 = le_Term e2 → take (S i) l1 = take (S i) l2.
Proof. intros H1 H2 Hi1 Hi2 Ht. by rewrite (H1 _ _ Hi1), (H2 _ _ Hi2), Ht. Qed.

(** A rejected request moves the next index strictly down, to a position of the log. *)
Lemma conflict_decreases G leader follower next prev :
  rf_inv leader → rf_inv follower → generated G (logs leader) → generated G (logs follower) →
  1 ≤ next → logs leader !! Z.to_nat (next - 1) = Some prev →
  ¬ prev_matches (logs follower) (request_at leader next (le_Term prev)) →
  let c := resolve_from (logs follower) (length (logs follower)) (le_Term prev) in
  0 ≤ c ∧ c + 1 < next.
Proof.
  intros HL HF HGL HGF Hn Hprev Hno c. unfold prev_matches in Hno; cbn in Hno.
  assert (next ≠ 1) as Hn1.
  { intros ->. change (Z.to_nat (1 - 1)) with 0%nat in Hprev.
    rewrite (ri_sentinel _ HL) in Hprev. injection Hprev as <-.
    apply Hno. split; [lia|]. exists LogEntry_zero. split; [apply HF|done]. }
  destruct (resolve_from_spec (logs follower) (length (logs follower)) (le_Term prev))
    as [(e & Hc & He & Ht & _)|[Hc _]]; subst c; [|lia].
  set (c := resolve_from _ _ _) in *.
  split; [lia|]. destruct (decide (c + 1 < next)) as [|Hge]; [done|]. exfalso. apply Hno.
  split; [lia|]. exists prev. split; [|done].
  assert (take (S (Z.to_nat (next - 1))) (logs follower) =
          take (S (Z.to_nat (next - 1))) (logs leader)) as Heq.
  { rewrite (HGL _ _ Hprev), <- Ht.
    pose proof (f_equal (take (S (Z.to_nat (next - 1)))) (HGF _ _ He)) as Htk.
    rewrite !take_take in Htk. rewrite Nat.min_l in Htk by lia. done. }
  rewrite <- (lookup_take_lt _ (S (Z.to_nat (next - 1)))), Heq, lookup_take_lt by lia. done.
Qed.

(** The follower's log is the leader's, and the leader knows. *)
Definition caught_up (i : Z) leader follower : Prop :=
  paired i (zlen (logs leader)) leader follower ∧ logs follower = logs leader.

Lemma paired_next i next leader leader' follower' k :
  0 ≤ i < Z.of_nat (rf_peers leader) → rf_inv leader → rf_Mode leader = Leader →
  same_leader leader leader' → rf_inv follower' →
  rf_CurrentTerm follower' = rf_CurrentTerm leader →
  rf_pNextIndex leader !! Z.to_nat i = Some next →
  (rf_pNextIndex leader' = <[Z.to_nat i := k]> (rf_pNextIndex leader) ∨
   rf_pNextIndex leader' = rf_pNextIndex leader ∧ k = next) →
  1 ≤ k ≤ zlen (logs leader) → paired i k leader' follower'.
Proof.
  intros Hi HL Hm (Hinv & Hm' & Ht & Hl & Hp & _) HF HtF Hn Hk Hr.
  destruct (ri_next _ HL Hm) as [Hln _].
  split; rewrite ?Hp, ?Hl; try done; [congruence|].
  destruct Hk as [->|[-> ->]]; [|done]. apply list_lookup_insert_eq. lia.
Qed.

Lemma repair_rounds_converge G i ts next leader follower :
  paired i next leader follower → generated G (logs leader) → generated G (logs follower) →
  (next = zlen (logs leader) → logs follower = logs leader) →
  next ≤ zlen ts ∨ next = zlen (logs leader) →
  ∃ leader' follower',
    repair_rounds i ts leader follower = Ret (leader', follower') ∧
    logs leader' = logs leader ∧ caught_up i leader' follower'.
Proof.
  revert next leader follower.
  induction ts as [|[[et1 et2] grow] ts IH]; intros next leader follower Hp HGL HGF Hdone Hfuel.
  { destruct Hfuel as [Hf| ->]; [destruct Hp; rewrite zlen_nil in Hf; lia|].
    exists leader, follower. unfold caught_up. auto. }
  rewrite zlen_cons in Hfuel. cbn [repair_rounds].
  destruct (repair_round_spec i next et1 et2 grow leader follower Hp)
    as (prev & L' & F' & Hprev & -> & Hsame & HF' & HtF & Hcase).
  rewrite bind_ret_l. pose proof Hsame as (HL' & Hm' & Ht' & HlL' & _).
  destruct Hp as [HL HF Hm Ht Hi Hn Hr].
  assert (∀ k, (rf_pNextIndex L' = <[Z.to_nat i := k]> (rf_pNextIndex leader) ∨
                rf_pNextIndex L' = rf_pNextIndex leader ∧ k = next) →
               1 ≤ k ≤ zlen (logs leader) → paired i k L' F') as Hpair
    by (intros k; by apply (paired_next i next leader)).
  assert (∀ k, paired i k L' F' → generated G (logs F') →
            (k = zlen (logs leader) → logs F' = logs leader) →
            k ≤ zlen ts ∨ k = zlen (logs leader) →
            ∃ L2 F2, repair_rounds i ts L' F' = Ret (L2, F2) ∧
                     logs L2 = logs leader ∧ caught_up i L2 F2) as Hgo.
  { intros k Hk HG Hd Hf. rewrite <- HlL' in *. eapply IH; eauto. }
  destruct (decide (next = _)) as [Hend|Hend]; [|cbn zeta in Hcase;
    destruct (decide (prev_matches (logs follower) _)) as [Hpm|Hpm]];
    destruct Hcase as [HlF Hnext].
  - apply (Hgo next); [by apply Hpair; auto|by rewrite HlF|by rewrite HlF|auto].
  - assert (logs F' = logs leader) as Heq.
    { destruct Hpm as (H0 & e & He & Het); cbn in *.
      pose proof (generated_matching G _ _ _ _ _ HGF HGL He Hprev Het) as Hmt.
      replace (S (Z.to_nat (next - 1))) with (Z.to_nat next) in Hmt by lia.
      by rewrite HlF, Hmt, take_drop. }
    apply (Hgo (zlen (logs leader))); [apply Hpair; [auto|lia]|by rewrite Heq|done|auto].
  - pose proof (conflict_decreases G leader follower next prev HL HF HGL HGF ltac:(lia) Hprev Hpm) as [Hc0 Hc1].
    eapply (Hgo (_ + 1)); [apply Hpair; [left; exact Hnext|lia]|by rewrite HlF|lia|lia].
Qed.
End repair.

(** ** What repair promises *)

(** C6: a leader repairs the log of a follower of its own term, under three conditions: both
    logs come from one log per term, the leader has an entry at or above the follower's next
    index to send (a heartbeat repairs nothing), and at least as many rounds run as that index
    is high.  Then no round of either peer panics, the leader's log stays, the follower's log
    becomes the leader's, and the leader's next index for it is the end of the log; rounds
    beyond that, which are heartbeats, keep it so. *)
Theorem repair_converges {Cmd} G i ts next (leader follower : Raft Cmd) :
  paired i next leader follower → generated G (logs leader) → generated G (logs follower) →
  next < zlen (logs leader) → next ≤ zlen ts →
  ∃ leader' follower',
    repair_rounds i ts leader follower = Ret (leader', follower') ∧
    logs leader' = logs leader ∧ logs follower' = logs leader' ∧
    rf_pNextIndex leader' !! Z.to_nat i = Some (zlen (logs leader)).
Proof.
  intros Hp HL HF Hn Hts.
  destruct (repair_rounds_converge G i ts next leader follower Hp HL HF)
    as (L' & F' & Hrun & HlL & [[? ? ? ? ? Hnext ?] HlF]); [lia|by left|].
  exists L', F'. by rewrite <- HlL.
Qed.

Definition entries_of (ts : list Z) : list (LogEntry Z) :=
  (λ t, {| le_Term := t; le_Command := if decide (t = 0) then None else Some t |}) <$> ts.

Definition peer_with (m : Mode) (term : Z) (ts next : list Z) : Raft Z :=
  {| rf_me := if decide (m = Leader) then 0 else 1; rf_peers := 3; rf_Mode := m;
     rf_CurrentTerm := term; rf_VotedFor := -1; rf_ElectionTimeout := 0;
     rf_heap := [entries_of ts]; rf_logs := {| sl_arr := 0; sl_off := 0; sl_len := length ts |};
     rf_commitIndex := 0; rf_appliedIndex := 0; rf_electionInProgress := false;
     rf_pNextIndex := next; rf_pMatchIndex := (λ _, 0) <$> next |}.

Definition example_G (t : Z) : list (LogEntry Z) :=
  entries_of (if decide (t = 1) then [0; 1; 1] else if decide (t = 2) then [0; 1; 2; 2; 2]
              else if decide (t = 3) then [0; 1; 1; 3] else [0]).

(** The follower kept three entries of a lost leader; two rounds repair it, the third is a
    heartbeat. *)
Lemma repair_converges_witness :
  ∃ L' F', repair_rounds 1 [(0, 0, 0%nat); (0, 0, 0%nat); (0, 0, 0%nat)]
             (peer_with Leader 3 [0; 1; 1; 3] [4; 3; 4]) (peer_with Follower 3 [0; 1; 2; 2; 2] []) =
           Ret (L', F') ∧ logs F' = entries_of [0; 1; 1; 3].
Proof.
  destruct (repair_converges example_G 1 [(0, 0, 0%nat); (0, 0, 0%nat); (0, 0, 0%nat)] 3
    (peer_with Leader 3 [0; 1; 1; 3] [4; 3; 4]) (peer_with Follower 3 [0; 1; 2; 2; 2] []))
    as (L' & F' & Hrun & HL & HF & _).
  - split; try reflexivity; try (cbn; lia).
    + split; cbn; try done; split; cbn; lia.
    + split; cbn; try done; split; cbn; lia.
    + vm_compute. split; discriminate.
  - intros [|[|[|[|?]]]] e; cbn; intros [= <-]; reflexivity.
  - intros [|[|[|[|[|?]]]]] e; cbn; intros [= <-]; reflexivity.
  - vm_compute. reflexivity.
  - vm_compute. discriminate.
  - exists L', F'. split; [exact Hrun|]. rewrite HF, HL. vm_compute. reflexivity.
Defined.
