(* ===== verification/RaftSystem.v ===== *)
(** * A cluster of Raft peers

    The critical sections of [RaftNode] as the steps of a whole cluster.  Every goroutine the
    code starts is a piece of state: the ticker's place in its loop, the elections with their
    vote calls, the replication calls, the second halves of [Start], and the turn of the
    [commitChan] loop.  An event names the goroutine that takes its next section and supplies
    what the environment chooses (time, timeouts, spare capacity); an event that is not
    enabled changes nothing.  Calls behave as labrpc documents: a request is handled at most
    once, and [Call] may return false with a zero reply at any moment, before or after the
    handler ran. *)
From stdpp Require Import base tactics numbers list strings list_numbers fin_sets gmap.
From S2P Require Import Prelude GoSlice RaftNode RaftSpec.

Inductive ticker_pc :=
  | TkTimeout
  | TkGuard
  | TkBegin
  | TkLead
  | TkPeers (currentTerm lastLogIndex i : Z).

(** One [Call("Raft.RequestVote")]: of election [vc_el] at [vc_src]; its handler's place at
    [vc_dst]; whether the caller still waits; whether it counted the vote. *)
Record vote_call := {
  vc_src : nat; vc_dst : nat; vc_el : nat; vc_args : RequestVoteArgs;
  vc_pc : rv_pc; vc_open : bool; vc_counted : bool
}.
#[export] Instance eta_vote_call : Eta vote_call := λ c,
  {| vc_src := vc_src c; vc_dst := vc_dst c; vc_el := vc_el c; vc_args := vc_args c;
     vc_pc := vc_pc c; vc_open := vc_open c; vc_counted := vc_counted c |}.

Section system.
Context {Cmd : Type}.

(** One goroutine of [isLeading]: not started ([ac_args] empty), arguments built, request
    marshalled, handled; and whether the caller still waits. *)
Record append_call := {
  ac_src : nat; ac_rp : replication;
  ac_args : option AppendLogArgs; ac_req : option (AppendLogRequest Cmd);
  ac_resp : option AppendLogResponse; ac_open : bool
}.
#[export] Instance eta_append_call : Eta append_call := λ c,
  {| ac_src := ac_src c; ac_rp := ac_rp c; ac_args := ac_args c; ac_req := ac_req c;
     ac_resp := ac_resp c; ac_open := ac_open c |}.

(** [nd_commits] counts the goroutines blocked in their send on [commitChan]. *)
Record node := {
  nd_rf : Raft Cmd;
  nd_ticker : ticker_pc;
  nd_elections : list election;
  nd_timers : nat;
  nd_starts : list (Z * Cmd);
  nd_commits : nat;
  nd_turn : option commit_turn;
  nd_applied : list (ApplyMsg Cmd)
}.
#[export] Instance eta_node : Eta node := λ n,
  {| nd_rf := nd_rf n; nd_ticker := nd_ticker n; nd_elections := nd_elections n;
     nd_timers := nd_timers n; nd_starts := nd_starts n; nd_commits := nd_commits n;
     nd_turn := nd_turn n; nd_applied := nd_applied n |}.

(** [sy_submitted] records the commands ever given to [Start]; no step reads it. *)
Record system := {
  sy_nodes : list node;
  sy_votes : list vote_call;
  sy_appends : list append_call;
  sy_submitted : list Cmd
}.
#[export] Instance eta_system : Eta system := λ s,
  {| sy_nodes := sy_nodes s; sy_votes := sy_votes s; sy_appends := sy_appends s;
     sy_submitted := sy_submitted s |}.

Inductive event :=
  | EStart (i : nat) (c : Cmd)
  | EStartAppend (i k grow : nat)
  | ETicker (i : nat) (now : Z)
  | ETimer (i : nat)
  | EVoteSection (k : nat) (et : Z)
  | EVoteReturn (k : nat) (et : Z)
  | EVoteFail (k : nat) (et : Z)
  | EAppendArgs (k : nat)
  | EAppendMarshall (k : nat)
  | EAppendHandle (k : nat) (et : Z) (grow : nat)
  | EAppendReturn (k : nat) (et : Z)
  | EAppendFail (k : nat) (et : Z)
  | ECommit (i : nat)
  | EApply (i : nat).

Implicit Types (s : system) (nd : node).

Definition set_node (i : nat) nd s : system :=
  s <| sy_nodes := <[i := nd]> (sy_nodes s) |>.

Definition init_node (et : Z) (grow n : nat) (me : Z) : node :=
  {| nd_rf := Make et grow n me; nd_ticker := TkTimeout; nd_elections := []; nd_timers := 0;
     nd_starts := []; nd_commits := 0; nd_turn := None; nd_applied := [] |}.

(** [ets] gives every peer its first timeout. *)
Definition sys_init (ets : list Z) (grow : nat) : system :=
  {| sy_nodes := imap (λ i et, init_node et grow (length ets) (Z.of_nat i)) ets;
     sy_votes := []; sy_appends := []; sy_submitted := [] |}.

(** The calls of a new election: one per peer but this one. *)
Definition new_votes (i k : nat) (rf : Raft Cmd) (el : election) : list vote_call :=
  (λ p, {| vc_src := i; vc_dst := p; vc_el := k; vc_args := isElected_args rf el;
           vc_pc := RvStart; vc_open := true; vc_counted := false |}) <$>
  filter (λ p, p ≠ i) (seq 0 (rf_peers rf)).

Definition ticker_section (i : nat) (now : Z) nd s : outcome system :=
  let rf := nd_rf nd in
  match nd_ticker nd with
  | TkTimeout =>
      Ret (set_node i (nd <| nd_rf := isTimedOut now rf |> <| nd_ticker := TkGuard |>) s)
  | TkGuard =>
      Ret (set_node i (nd <| nd_ticker := if isElected_guard rf then TkBegin else TkLead |>) s)
  | TkBegin =>
      let '(rf', el) := isElected_begin rf in
      let nd' := nd <| nd_rf := rf' |> <| nd_ticker := TkLead |>
                    <| nd_elections := nd_elections nd ++ [el] |>
                    <| nd_timers := S (nd_timers nd) |> in
      Ret ((set_node i nd' s)
             <| sy_votes := sy_votes s ++ new_votes i (length (nd_elections nd)) rf' el |>)
  | TkLead =>
      Ret (set_node i (nd <| nd_ticker := match isLeading_read rf with
                                          | Some (t, l) => TkPeers t l 0
                                          | None => TkTimeout end |>) s)
  | TkPeers t l p =>
      if decide (p >= Z.of_nat (rf_peers rf)) then Ret (set_node i (nd <| nd_ticker := TkTimeout |>) s)
      else
        let s' := set_node i (nd <| nd_ticker := TkPeers t l (p + 1) |>) s in
        if decide (p = rf_me rf) then Ret s'
        else
          rp ← isLeading_peer t l p rf;
          Ret (s' <| sy_appends := sy_appends s ++
                 [{| ac_src := i; ac_rp := rp; ac_args := None; ac_req := None;
                     ac_resp := None; ac_open := true |}] |>)
  end.

(** The caller's section after its vote call; [pc] is the handler's reply, if it came. *)
Definition vote_return (k : nat) (et : Z) (reply : RequestVoteReply) (c : vote_call) nd s : system :=
  match nd_elections nd !! vc_el c with
  | None => s
  | Some el =>
      let '(rf', el') := isElected_reply et reply (nd_rf nd) el in
      (set_node (vc_src c)
         (nd <| nd_rf := rf' |> <| nd_elections := <[vc_el c := el']> (nd_elections nd) |>) s)
        <| sy_votes := <[k := c <| vc_open := false |>
                                <| vc_counted := bool_decide (el_votes el' ≠ el_votes el) |>]>
                         (sy_votes s) |>
  end.

Definition append_return (k : nat) (et : Z) (ok : bool) (resp : AppendLogResponse)
    (c : append_call) (a : AppendLogArgs) nd s : outcome system :=
  '(rf', b) ← isLeading_reply et ok resp (ac_rp c) a (nd_rf nd);
  let commits := if b : bool then S (nd_commits nd) else nd_commits nd in
  Ret ((set_node (ac_src c) (nd <| nd_rf := rf' |> <| nd_commits := commits |>) s)
         <| sy_appends := <[k := c <| ac_open := false |>]> (sy_appends s) |>).

Definition sys_step (e : event) s : outcome system :=
  match e with
  | EStart i c =>
      match sy_nodes s !! i with
      | None => Ret s
      | Some nd =>
          let '(_, t, isLeader) := Start_read (nd_rf nd) in
          let s := s <| sy_submitted := sy_submitted s ++ [c] |> in
          if (isLeader : bool)
          then Ret (set_node i (nd <| nd_starts := nd_starts nd ++ [(t, c)] |>) s) else Ret s
      end
  | EStartAppend i k grow =>
      match sy_nodes s !! i with
      | None => Ret s
      | Some nd =>
          match nd_starts nd !! k with
          | None => Ret s
          | Some (t, c) =>
              Ret (set_node i (nd <| nd_rf := Start_append grow t c (nd_rf nd) |>
                                  <| nd_starts := delete k (nd_starts nd) |>) s)
          end
      end
  | ETicker i now =>
      match sy_nodes s !! i with None => Ret s | Some nd => ticker_section i now nd s end
  | ETimer i =>
      match sy_nodes s !! i with
      | None => Ret s
      | Some nd =>
          match nd_timers nd with
          | O => Ret s
          | S n => Ret (set_node i (nd <| nd_rf := isElected_timer (nd_rf nd) |> <| nd_timers := n |>) s)
          end
      end
  | EVoteSection k et =>
      match sy_votes s !! k with
      | None => Ret s
      | Some c =>
          match sy_nodes s !! vc_dst c with
          | None => Ret s
          | Some nd =>
              let '(rf', pc) := RequestVote_section et (vc_args c) (nd_rf nd) (vc_pc c) in
              Ret ((set_node (vc_dst c) (nd <| nd_rf := rf' |>) s)
                     <| sy_votes := <[k := c <| vc_pc := pc |>]> (sy_votes s) |>)
          end
      end
  | EVoteReturn k et =>
      match sy_votes s !! k with
      | None => Ret s
      | Some c =>
          match sy_nodes s !! vc_src c, vc_open c, vc_pc c with
          | Some nd, true, RvDone reply => Ret (vote_return k et reply c nd s)
          | _, _, _ => Ret s
          end
      end
  | EVoteFail k et =>
      match sy_votes s !! k with
      | None => Ret s
      | Some c =>
          match sy_nodes s !! vc_src c, vc_open c with
          | Some nd, true => Ret (vote_return k et RequestVoteReply_zero c nd s)
          | _, _ => Ret s
          end
      end
  | EAppendArgs k =>
      match sy_appends s !! k with
      | None => Ret s
      | Some c =>
          match sy_nodes s !! ac_src c, ac_args c with
          | Some nd, None =>
              a ← isLeading_args (ac_rp c) (nd_rf nd);
              Ret (s <| sy_appends := <[k := c <| ac_args := Some a |>]> (sy_appends s) |>)
          | _, _ => Ret s
          end
      end
  | EAppendMarshall k =>
      match sy_appends s !! k with
      | None => Ret s
      | Some c =>
          match sy_nodes s !! ac_src c, ac_args c, ac_req c, ac_open c with
          | Some nd, Some a, None, true =>
              Ret (s <| sy_appends := <[k := c <| ac_req := Some (marshall_args a (nd_rf nd)) |>]>
                                        (sy_appends s) |>)
          | _, _, _, _ => Ret s
          end
      end
  | EAppendHandle k et grow =>
      match sy_appends s !! k with
      | None => Ret s
      | Some c =>
          let dst := Z.to_nat (rp_peer (ac_rp c)) in
          match sy_nodes s !! dst, ac_req c, ac_resp c with
          | Some nd, Some req, None =>
              '(rf', resp, b) ← AppendLogEntry et grow req (nd_rf nd);
              let commits := if b : bool then S (nd_commits nd) else nd_commits nd in
              Ret ((set_node dst (nd <| nd_rf := rf' |> <| nd_commits := commits |>) s)
                     <| sy_appends := <[k := c <| ac_resp := Some resp |>]> (sy_appends s) |>)
          | _, _, _ => Ret s
          end
      end
  | EAppendReturn k et =>
      match sy_appends s !! k with
      | None => Ret s
      | Some c =>
          match sy_nodes s !! ac_src c, ac_args c, ac_resp c, ac_open c with
          | Some nd, Some a, Some resp, true => append_return k et true resp c a nd s
          | _, _, _, _ => Ret s
          end
      end
  | EAppendFail k et =>
      match sy_appends s !! k with
      | None => Ret s
      | Some c =>
          match sy_nodes s !! ac_src c, ac_args c, ac_open c with
          | Some nd, Some a, true => append_return k et false AppendLogResponse_zero c a nd s
          | _, _, _ => Ret s
          end
      end
  | ECommit i =>
      match sy_nodes s !! i with
      | None => Ret s
      | Some nd =>
          match nd_commits nd, nd_turn nd with
          | S n, None =>
              '(rf', ct) ← handleCommits_begin (nd_rf nd);
              Ret (set_node i (nd <| nd_rf := rf' |> <| nd_commits := n |> <| nd_turn := Some ct |>) s)
          | _, _ => Ret s
          end
      end
  | EApply i =>
      match sy_nodes s !! i with
      | None => Ret s
      | Some nd =>
          match nd_turn nd with
          | None => Ret s
          | Some ct =>
              match handleCommits_next (nd_rf nd) ct with
              | None => Ret (set_node i (nd <| nd_turn := None |>) s)
              | Some (msg, ct') =>
                  Ret (set_node i (nd <| nd_turn := Some ct' |>
                                      <| nd_applied := nd_applied nd ++ [msg] |>) s)
              end
          end
      end
  end.

(** The cluster after a sequence of events; a panic of one goroutine ends the run. *)
Fixpoint sys_run (es : list event) s : outcome system :=
  match es with
  | [] => Ret s
  | e :: es => s ← sys_step e s; sys_run es s
  end.
End system.
Arguments node : clear implicits.
Arguments system : clear implicits.
Arguments event : clear implicits.
Arguments append_call : clear implicits.
