(* ===== verification/RaftSafety.v ===== *)
(** * Invariants of the cluster

    What holds of every peer in every run of [RaftSystem], whatever the network and the
    scheduler do; and the runs that show what does not hold. *)
From stdpp Require Import base tactics numbers list strings list_numbers fin_sets gmap.
From S2P Require Import Prelude GoSlice RaftNode RaftSpec RaftSystem.

Section sections.
Context {Cmd : Type}.
Implicit Types (rf : Raft Cmd) (w : slice).

(** A section keeps the peer's invariant, its applied index, and every window that a
    goroutine may hold into the peer's arrays. *)
Record keeps rf rf' : Prop := {
  kp_inv : rf_inv rf → rf_inv rf';
  kp_applied : rf_appliedIndex rf' = rf_appliedIndex rf;
  kp_window w : rf_inv rf → sl_wf (rf_heap rf) w → sl_wf (rf_heap rf') w
}.

#[export] Instance keeps_preorder : PreOrder keeps.
Proof.
  split; [by split|]. intros x y z [H1 H2 H3] [K1 K2 K3]. split; [auto|congruence|auto].
Qed.

(** Sections that leave the log alone. *)
Lemma keeps_same_log rf rf' :
  rf_heap rf' = rf_heap rf → rf_logs rf' = rf_logs rf →
  rf_appliedIndex rf' = rf_appliedIndex rf → rf_peers rf' = rf_peers rf →
  (rf_Mode rf' = Leader → rf_Mode rf = Leader) →
  rf_pNextIndex rf' = rf_pNextIndex rf → rf_pMatchIndex rf' = rf_pMatchIndex rf →
  keeps rf rf'.
Proof.
  intros Hh Hl Ha Hp Hm Hn Hmt. split; [|done|by rewrite Hh].
  intros Hinv. by apply (rf_inv_ext rf).
Qed.

Lemma keeps_isTimedOut now rf : keeps rf (isTimedOut now rf).
Proof.
  unfold isTimedOut. repeat case_decide; [done| |done]. by apply keeps_same_log.
Qed.

Lemma keeps_isElected_begin rf : keeps rf (isElected_begin rf).1.
Proof.
  unfold isElected_begin. destruct (getLastLogIndexAndTerm _). by apply keeps_same_log.
Qed.

Lemma keeps_setToFollower et t rf : keeps rf (setToFollower et t rf).
Proof. by apply keeps_same_log. Qed.

Lemma keeps_setToLeader rf : keeps rf (setToLeader rf).
Proof.
  split; [apply setToLeader_inv|..]; unfold setToLeader; by destruct (getLastLogIndexAndTerm rf).
Qed.

Lemma keeps_isElected_reply et reply rf el : keeps rf (isElected_reply et reply rf el).1.
Proof.
  unfold isElected_reply. case_decide; [by apply keeps_same_log|].
  case_decide; [by apply keeps_setToFollower|]. cbn [fst].
  destruct (isMajority rf _); [apply keeps_setToLeader|done].
Qed.

Lemma keeps_RequestVote_section et args rf pc : keeps rf (RequestVote_section et args rf pc).1.
Proof.
  destruct pc; cbn [RequestVote_section]; [| |case_decide|]; try done.
  - destruct (getLastLogIndexAndTerm rf). by repeat case_decide.
  - by apply keeps_setToFollower.
  - by apply keeps_same_log.
Qed.

Lemma sl_append_window grow zero h s (es : list (LogEntry Cmd)) w :
  sl_wf h s → sl_wf h w → let '(h', _) := sl_append grow zero h s es in sl_wf h' w.
Proof.
  intros [Hs Hsl] [Hw Hwl]. unfold sl_append. case_decide; unfold sl_wf, sl_array in *.
  - rewrite length_insert. split; [done|].
    destruct (decide (sl_arr s = sl_arr w)) as [Heq|Hne].
    + rewrite Heq in *. rewrite list_lookup_insert_eq by done; cbn.
      rewrite !length_app, length_take, length_drop. lia.
    + by rewrite list_lookup_insert_ne.
  - rewrite length_app; cbn. split; [lia|]. by rewrite lookup_app_l.
Qed.

Lemma keeps_Start_append grow t c rf : keeps rf (Start_append grow t c rf).
Proof.
  split; [apply Start_append_inv|..]; unfold Start_append.
  - by destruct (sl_append _ _ _ _ _).
  - intros w Hinv Hw. pose proof (sl_append_window grow LogEntry_zero _ _
      [{| le_Term := t; le_Command := Some c |}] w (ri_wf _ Hinv) Hw) as Hw'.
    by destruct (sl_append _ _ _ _ _).
Qed.

(** The handler either leaves the arrays alone or appends to a prefix of the log. *)
Lemma AppendLogEntry_arrays et grow args rf rf' reply b :
  AppendLogEntry et grow args rf = Ret (rf', reply, b) →
  rf_appliedIndex rf' = rf_appliedIndex rf ∧
  (rf_heap rf' = rf_heap rf ∨
   ∃ hi kept, sl_slice (rf_heap rf) (rf_logs rf) 0 hi = Ret kept ∧
              rf_heap rf' = (sl_append grow LogEntry_zero (rf_heap rf) kept (ar_Entries args)).1).
Proof.
  unfold AppendLogEntry. case_decide; [|intros [= <- <- <-]; auto].
  intros (m & _ & E)%bind_ret_inv. revert E.
  case_decide; [|case_decide; intros [= <- <- <-]; auto].
  case_decide; [intros [= <- <- <-]; auto|].
  destruct (negb m); [intros [= <- <- <-]; auto|].
  intros (kept & Hk & E)%bind_ret_inv. cbn in Hk, E.
  destruct (sl_append grow LogEntry_zero (rf_heap rf) kept (ar_Entries args)) as [h s] eqn:Ea.
  injection E as <- <- <-. split; [done|]. right. eexists _, kept. by rewrite Ea.
Qed.

Lemma keeps_AppendLogEntry et grow args rf rf' reply b :
  AppendLogEntry et grow args rf = Ret (rf', reply, b) → keeps rf rf'.
Proof.
  intros E. destruct (AppendLogEntry_arrays _ _ _ _ _ _ _ E) as [Ha Hh].
  split; [|done|]; [intros Hinv; by eapply AppendLogEntry_inv|]. intros w Hinv Hw.
  destruct Hh as [->|(hi & kept & Hk & ->)]; [done|].
  apply sl_slice_wf in Hk; [|apply Hinv].
  pose proof (sl_append_window grow LogEntry_zero _ _ (ar_Entries args) w Hk Hw).
  by destruct (sl_append _ _ _ _ _).
Qed.

Lemma keeps_isLeading_reply et ok reply rp a rf rf' b :
  isLeading_reply et ok reply rp a rf = Ret (rf', b) → keeps rf rf'.
Proof.
  assert (∀ next matched, length next = length (rf_pNextIndex rf) →
            length matched = length (rf_pMatchIndex rf) →
            keeps rf (rf <| rf_pNextIndex := next |> <| rf_pMatchIndex := matched |>)) as Hkeep.
  { intros next matched Hl1 Hl2. split; [|done|done]. intros [? ? ? Hn]. split; cbn; try done.
    by rewrite Hl1, Hl2. }
  unfold isLeading_reply. case_decide; [intros [= <- <-]; apply keeps_setToFollower|].
  case_decide; [|intros [= <- <-]; done].
  destruct (as_Success reply).
  - intros (next & [? ->]%go_update_Ret & (matched & [? ->]%go_update_Ret & (q & _ & E)%bind_ret_inv)%bind_ret_inv)%bind_ret_inv.
    set (n1 := <[_ := _]> (rf_pNextIndex rf)) in *. set (m1 := <[_ := _]> (rf_pMatchIndex rf)) in *.
    assert (keeps rf (rf <| rf_pNextIndex := n1 |> <| rf_pMatchIndex := m1 |>)) as Hk
      by (apply Hkeep; apply length_insert).
    destruct q; injection E as <- <-; [|done].
    etransitivity; [exact Hk|]. by apply keeps_same_log.
  - intros (next & [? ->]%go_update_Ret & E)%bind_ret_inv. injection E as <- <-.
    set (n1 := <[_ := _]> (rf_pNextIndex rf)).
    apply (Hkeep n1 (rf_pMatchIndex rf)); [apply length_insert|done].
Qed.
End sections.

Create HintDb keeps discriminated.
#[export] Hint Resolve keeps_isTimedOut keeps_isElected_begin keeps_isElected_reply
  keeps_RequestVote_section keeps_Start_append keeps_AppendLogEntry keeps_isLeading_reply : keeps.

(** ** Every peer, in every run *)

Section peers.
Context {Cmd : Type}.
Implicit Types (nd : node Cmd) (s : system Cmd) (e : event Cmd).

(** Where the loop over [commitChan] is: between turns everything up to the applied index
    was delivered; in a turn, as much of the window as its position says. *)
Definition turn_ok nd : Prop :=
  let rf := nd_rf nd in
  match nd_turn nd with
  | None => zlen (nd_applied nd) = rf_appliedIndex rf
  | Some ct =>
      zlen (nd_applied nd) = ct_appliedSS ct + Z.of_nat (ct_next ct) ∧
      match ct_entries ct with
      | None => ct_next ct = 0%nat ∧ rf_appliedIndex rf = ct_appliedSS ct
      | Some w => sl_wf (rf_heap rf) w ∧ (ct_next ct ≤ sl_len w)%nat ∧
                  rf_appliedIndex rf = ct_appliedSS ct + Z.of_nat (sl_len w)
      end
  end.

(** The messages on the apply channel carry the indices 1, 2, 3, ... *)
Definition in_order (ms : list (ApplyMsg Cmd)) : Prop :=
  ∀ j m, ms !! j = Some m → am_CommandIndex m = Z.of_nat j + 1 ∧ am_CommandValid m = true.

Record node_ok nd : Prop := {
  no_rf : rf_inv (nd_rf nd);
  no_turn : turn_ok nd;
  no_applied : in_order (nd_applied nd)
}.

Definition sys_ok s : Prop := Forall node_ok (sy_nodes s).

(** A section of another goroutine of the peer. *)
Lemma node_ok_keeps nd nd' :
  node_ok nd → keeps (nd_rf nd) (nd_rf nd') → nd_turn nd' = nd_turn nd →
  nd_applied nd' = nd_applied nd → node_ok nd'.
Proof.
  intros [Hrf Ht Ha] [Hi Hap Hw] Htn Han. split; [by apply Hi| |by rewrite Han].
  unfold turn_ok in *. rewrite Htn, Han, Hap.
  destruct (nd_turn nd) as [[ss [w|] n]|]; cbn in *; naive_solver.
Qed.

Lemma handleCommits_begin_ok nd rf' ct n :
  node_ok nd → nd_turn nd = None → handleCommits_begin (nd_rf nd) = Ret (rf', ct) →
  node_ok (nd <| nd_rf := rf' |> <| nd_commits := n |> <| nd_turn := Some ct |>).
Proof.
  intros [Hrf Ht Ha] Hn. unfold turn_ok in Ht. rewrite Hn in Ht. unfold handleCommits_begin.
  case_decide as Hc.
  - intros (w & Hw & E)%bind_ret_inv. injection E as <- <-.
    pose proof (sl_slice_wf _ _ _ _ w (ri_wf _ Hrf) Hw) as Hwf.
    apply sl_slice_Ret in Hw as (? & _ & _ & _ & Hlen).
    split; [|split; cbn; [lia|split_and!; [done|lia|lia]]|done].
    destruct Hrf. split; cbn; try done. lia.
  - intros [= <- <-]. split; [done| |done]. split; cbn; [lia|done].
Qed.

Lemma handleCommits_next_ok nd ct :
  node_ok nd → nd_turn nd = Some ct →
  match handleCommits_next (nd_rf nd) ct with
  | None => node_ok (nd <| nd_turn := None |>)
  | Some (msg, ct') =>
      node_ok (nd <| nd_turn := Some ct' |> <| nd_applied := nd_applied nd ++ [msg] |>)
  end.
Proof.
  intros [Hrf Ht Ha] Hn. unfold turn_ok in Ht. rewrite Hn in Ht. unfold handleCommits_next.
  destruct ct as [ss [w|] j]; cbn in *; destruct Ht as [Hz Ht].
  - destruct Ht as (Hwf & Hj & Hap). pose proof (sl_get_length _ _ Hwf) as Hlen.
    destruct (sl_get (rf_heap (nd_rf nd)) w !! j) as [entry|] eqn:Ej.
    + apply lookup_lt_Some in Ej as Hlt. split; [done|..].
      * unfold turn_ok; cbn. rewrite zlen_app, zlen_cons, zlen_nil. split_and!; [lia|done|lia|done].
      * intros k m; cbn. rewrite lookup_app_Some, list_lookup_singleton_Some.
        intros [Hk|(Hk & Hk0 & <-)]; [by apply Ha|]. cbn. split; [|done]. unfold zlen in Hz. lia.
    + apply lookup_ge_None in Ej. split; [done| |done]. unfold turn_ok; cbn. lia.
  - split; [done| |done]. unfold turn_ok; cbn. lia.
Qed.

Lemma sys_ok_lookup s i nd : sys_ok s → sy_nodes s !! i = Some nd → node_ok nd.
Proof. intros Hs Hi. by eapply Forall_lookup_1. Qed.

Lemma sys_ok_set s s' i nd' :
  sys_ok s → node_ok nd' → sy_nodes s' = <[i := nd']> (sy_nodes s) → sys_ok s'.
Proof. intros Hs Hnd Heq. unfold sys_ok. rewrite Heq. by apply Forall_insert. Qed.

Ltac keeps_node :=
  eapply sys_ok_set; [eassumption| |reflexivity];
  eapply node_ok_keeps; [eassumption| |reflexivity|reflexivity]; cbn;
  try reflexivity; eauto with keeps.

Lemma ticker_section_ok i now nd s s' :
  sys_ok s → sy_nodes s !! i = Some nd → ticker_section i now nd s = Ret s' → sys_ok s'.
Proof.
  intros Hs Hi. pose proof (sys_ok_lookup s i nd Hs Hi) as Hnd. unfold ticker_section.
  destruct (nd_ticker nd) as [| | | |t l p].
  - intros [= <-]. keeps_node.
  - intros [= <-]. keeps_node.
  - destruct (isElected_begin (nd_rf nd)) as [rf' el] eqn:E. intros [= <-].
    pose proof (keeps_isElected_begin (nd_rf nd)) as Hk. rewrite E in Hk. keeps_node.
  - intros [= <-]. keeps_node.
  - case_decide; [intros [= <-]; keeps_node|].
    case_decide; [intros [= <-]; keeps_node|].
    intros (rp & _ & E)%bind_ret_inv. injection E as <-. keeps_node.
Qed.

Lemma vote_return_ok k et reply c nd s :
  sys_ok s → sy_nodes s !! vc_src c = Some nd → sys_ok (vote_return k et reply c nd s).
Proof.
  intros Hs Hi. pose proof (sys_ok_lookup s _ nd Hs Hi) as Hnd. unfold vote_return.
  destruct (nd_elections nd !! vc_el c) as [el|]; [|done].
  pose proof (keeps_isElected_reply et reply (nd_rf nd) el) as Hk.
  destruct (isElected_reply et reply (nd_rf nd) el) as [rf' el']. keeps_node.
Qed.

Lemma append_return_ok k et ok resp c a nd s s' :
  sys_ok s → sy_nodes s !! ac_src c = Some nd →
  append_return k et ok resp c a nd s = Ret s' → sys_ok s'.
Proof.
  intros Hs Hi. pose proof (sys_ok_lookup s _ nd Hs Hi) as Hnd. unfold append_return.
  intros ([rf' b] & Hr & E)%bind_ret_inv. injection E as <-.
  apply keeps_isLeading_reply in Hr. keeps_node.
Qed.

Lemma sys_step_ok e s s' : sys_ok s → sys_step e s = Ret s' → sys_ok s'.
Proof.
  intros Hs. destruct e as [i c|i k grow|i now|i|k et|k et|k et|k|k|k et grow|k et|k et|i|i];
    cbn [sys_step].
  - destruct (sy_nodes s !! i) as [nd|] eqn:Hi; [|by intros [= <-]].
    pose proof (sys_ok_lookup s i nd Hs Hi). unfold Start_read.
    destruct (getLastLogIndexAndTerm _). case_bool_decide; intros [= <-]; [keeps_node|done].
  - destruct (sy_nodes s !! i) as [nd|] eqn:Hi; [|by intros [= <-]].
    pose proof (sys_ok_lookup s i nd Hs Hi).
    destruct (nd_starts nd !! k) as [[t c]|]; intros [= <-]; [keeps_node|done].
  - destruct (sy_nodes s !! i) as [nd|] eqn:Hi; [|by intros [= <-]].
    by apply ticker_section_ok.
  - destruct (sy_nodes s !! i) as [nd|] eqn:Hi; [|by intros [= <-]].
    pose proof (sys_ok_lookup s i nd Hs Hi).
    destruct (nd_timers nd); intros [= <-]; [done|]. keeps_node. by apply keeps_same_log.
  - destruct (sy_votes s !! k) as [c|]; [|by intros [= <-]].
    destruct (sy_nodes s !! vc_dst c) as [nd|] eqn:Hi; [|by intros [= <-]].
    pose proof (sys_ok_lookup s _ nd Hs Hi).
    pose proof (keeps_RequestVote_section et (vc_args c) (nd_rf nd) (vc_pc c)) as Hk.
    destruct (RequestVote_section _ _ _ _). intros [= <-]. keeps_node.
  - destruct (sy_votes s !! k) as [c|]; [|by intros [= <-]].
    destruct (sy_nodes s !! vc_src c) as [nd|] eqn:Hi; [|by intros [= <-]].
    destruct (vc_open c), (vc_pc c); intros [= <-]; try done. by apply vote_return_ok.
  - destruct (sy_votes s !! k) as [c|]; [|by intros [= <-]].
    destruct (sy_nodes s !! vc_src c) as [nd|] eqn:Hi; [|by intros [= <-]].
    destruct (vc_open c); intros [= <-]; try done. by apply vote_return_ok.
  - destruct (sy_appends s !! k) as [c|]; [|by intros [= <-]].
    destruct (sy_nodes s !! ac_src c) as [nd|] eqn:Hi; [|by intros [= <-]].
    destruct (ac_args c); [by intros [= <-]|].
    intros (a & _ & E)%bind_ret_inv. by injection E as <-.
  - destruct (sy_appends s !! k) as [c|]; [|by intros [= <-]].
    destruct (sy_nodes s !! ac_src c) as [nd|] eqn:Hi; [|by intros [= <-]].
    destruct (ac_args c), (ac_req c), (ac_open c); by intros [= <-].
  - destruct (sy_appends s !! k) as [c|]; [|by intros [= <-]].
    destruct (sy_nodes s !! Z.to_nat (rp_peer (ac_rp c))) as [nd|] eqn:Hi; [|by intros [= <-]].
    pose proof (sys_ok_lookup s _ nd Hs Hi).
    destruct (ac_req c) as [req|], (ac_resp c); try (by intros [= <-]).
    intros ([[rf' resp] b] & Hr & E)%bind_ret_inv. injection E as <-. keeps_node.
  - destruct (sy_appends s !! k) as [c|]; [|by intros [= <-]].
    destruct (sy_nodes s !! ac_src c) as [nd|] eqn:Hi; [|by intros [= <-]].
    destruct (ac_args c), (ac_resp c), (ac_open c); try (by intros [= <-]).
    by apply append_return_ok.
  - destruct (sy_appends s !! k) as [c|]; [|by intros [= <-]].
    destruct (sy_nodes s !! ac_src c) as [nd|] eqn:Hi; [|by intros [= <-]].
    destruct (ac_args c), (ac_open c); try (by intros [= <-]).
    by apply append_return_ok.
  - destruct (sy_nodes s !! i) as [nd|] eqn:Hi; [|by intros [= <-]].
    pose proof (sys_ok_lookup s i nd Hs Hi).
    destruct (nd_commits nd) as [|n], (nd_turn nd) eqn:Ht; try (by intros [= <-]).
    intros ([rf' ct] & Hr & E)%bind_ret_inv. injection E as <-.
    eapply sys_ok_set; [done| |reflexivity]. by apply handleCommits_begin_ok.
  - destruct (sy_nodes s !! i) as [nd|] eqn:Hi; [|by intros [= <-]].
    pose proof (sys_ok_lookup s i nd Hs Hi) as Hnd.
    destruct (nd_turn nd) as [ct|] eqn:Ht; [|by intros [= <-]].
    pose proof (handleCommits_next_ok nd ct Hnd Ht) as Hnext.
    destruct (handleCommits_next _ ct) as [[msg ct']|]; intros [= <-];
      (eapply sys_ok_set; [done| |reflexivity]; done).
Qed.

Lemma sys_run_ok es s s' : sys_ok s → sys_run es s = Ret s' → sys_ok s'.
Proof.
  revert s. induction es as [|e es IH]; intros s Hs; cbn; [by intros [= <-]|].
  intros (s1 & Hstep & Hrun)%bind_ret_inv. eapply IH; [|exact Hrun]. by eapply sys_step_ok.
Qed.

Lemma sys_init_ok ets grow : sys_ok (sys_init (Cmd := Cmd) ets grow).
Proof.
  apply Forall_lookup. intros i nd Hi. cbn in Hi.
  apply list_lookup_imap_Some in Hi as (et & _ & ->).
  pose proof (Make_inv (Cmd := Cmd) et grow (length ets) (Z.of_nat i)) as Hinv.
  split; [exact Hinv| |intros j m; cbn; by rewrite lookup_nil].
  unfold turn_ok, init_node; cbn. unfold Make. by destruct (sl_append _ _ _ _ _).
Qed.
End peers.
