(* ===== verification/RaftElection.v ===== *)
(** * Elections in the cluster

    A peer is leader only through votes it was granted by a majority; and what elections do
    not give: two leaders of one term, and with them two commands applied at one index. *)
From stdpp Require Import base tactics numbers list strings list_numbers fin_sets gmap.
From S2P Require Import Prelude GoSlice RaftNode RaftSpec RaftSystem RaftSafety.

(** ** Sections and leadership *)

Section quiet.
Context {Cmd : Type}.
Implicit Types (rf : Raft Cmd).

(** A section that makes nobody a leader. *)
Definition quiet rf rf' : Prop :=
  (rf_Mode rf' = Leader → rf_Mode rf = Leader) ∧ rf_peers rf' = rf_peers rf.

#[export] Instance quiet_preorder : PreOrder quiet.
Proof. split; [by split|]. intros x y z [H1 H2] [K1 K2]. split; [auto|congruence]. Qed.

Lemma quiet_isTimedOut now rf : quiet rf (isTimedOut now rf).
Proof. unfold isTimedOut. by repeat case_decide. Qed.

Lemma quiet_isElected_begin rf : quiet rf (isElected_begin rf).1.
Proof. unfold isElected_begin. by destruct (getLastLogIndexAndTerm _). Qed.

Lemma quiet_RequestVote_section et args rf pc : quiet rf (RequestVote_section et args rf pc).1.
Proof.
  destruct pc; cbn [RequestVote_section]; [destruct (getLastLogIndexAndTerm rf)|..];
    by repeat case_decide.
Qed.

Lemma quiet_Start_append grow t c rf : quiet rf (Start_append grow t c rf).
Proof. unfold Start_append. by destruct (sl_append _ _ _ _ _). Qed.

Lemma quiet_AppendLogEntry et grow args rf rf' reply b :
  AppendLogEntry et grow args rf = Ret (rf', reply, b) → quiet rf rf'.
Proof.
  unfold AppendLogEntry. case_decide; [|intros [= <- <- <-]; done].
  intros (m & _ & E)%bind_ret_inv. revert E.
  case_decide; [|case_decide; intros [= <- <- <-]; done].
  case_decide; [intros [= <- <- <-]; done|].
  destruct (negb m); [intros [= <- <- <-]; done|].
  intros (kept & _ & E)%bind_ret_inv. revert E.
  destruct (sl_append _ _ _ _ _). by intros [= <- <- <-].
Qed.

Lemma quiet_isLeading_reply et ok reply rp a rf rf' b :
  isLeading_reply et ok reply rp a rf = Ret (rf', b) → quiet rf rf'.
Proof.
  unfold isLeading_reply. case_decide; [by intros [= <- <-]|].
  case_decide; [|by intros [= <- <-]]. destruct (as_Success reply).
  - intros (next & _ & (matched & _ & (q & _ & E)%bind_ret_inv)%bind_ret_inv)%bind_ret_inv.
    by destruct q; injection E as <- <-.
  - intros (next & _ & E)%bind_ret_inv. by injection E as <- <-.
Qed.

Lemma quiet_handleCommits_begin rf rf' ct : handleCommits_begin rf = Ret (rf', ct) → quiet rf rf'.
Proof.
  unfold handleCommits_begin. case_decide; [|by intros [= <- <-]].
  intros (w & _ & E)%bind_ret_inv. by injection E as <- <-.
Qed.

(** The only section that makes a leader, and the count it rests on. *)
Lemma isElected_reply_leader et reply rf el :
  let '(rf', el') := isElected_reply et reply rf el in
  rf_peers rf' = rf_peers rf ∧ el_currentTerm el' = el_currentTerm el ∧
  (el_votes el' = el_votes el ∨
   el_votes el' = el_votes el + 1 ∧ vr_VoteGranted reply = true) ∧
  (rf_Mode rf' = Leader → rf_Mode rf = Leader ∨ isMajority rf (el_votes el') = true).
Proof.
  unfold isElected_reply. case_decide; [split_and!; auto|].
  case_decide; [by split_and!; auto|].
  destruct (isMajority rf _) eqn:E; cbn; [unfold setToLeader; destruct (getLastLogIndexAndTerm rf)|];
    destruct (vr_VoteGranted reply); split_and!; auto.
Qed.
End quiet.

Create HintDb quiet discriminated.
#[export] Hint Resolve quiet_isTimedOut quiet_isElected_begin quiet_RequestVote_section
  quiet_Start_append quiet_AppendLogEntry quiet_isLeading_reply quiet_handleCommits_begin : quiet.

(** ** The tally of an election *)

Definition counts_for (i k : nat) (c : vote_call) : Prop :=
  vc_src c = i ∧ vc_el c = k ∧ vc_counted c = true.
#[export] Instance counts_for_dec i k c : Decision (counts_for i k c).
Proof. unfold counts_for. apply _. Defined.

Definition tally (i k : nat) (votes : list vote_call) : Z := zlen (filter (counts_for i k) votes).

Lemma tally_app i k l1 l2 : tally i k (l1 ++ l2) = tally i k l1 + tally i k l2.
Proof. unfold tally. by rewrite filter_app, zlen_app. Qed.

Lemma tally_cons i k c l : tally i k (c :: l) = (if decide (counts_for i k c) then 1 else 0) + tally i k l.
Proof. unfold tally. rewrite filter_cons. case_decide; [rewrite zlen_cons; lia|done]. Qed.

Lemma tally_insert i k votes j c c' :
  votes !! j = Some c →
  tally i k (<[j := c']> votes) =
    tally i k votes - (if decide (counts_for i k c) then 1 else 0)
                    + (if decide (counts_for i k c') then 1 else 0).
Proof.
  intros Hj. rewrite insert_take_drop by (by eapply lookup_lt_Some).
  rewrite <- (take_drop_middle votes j c Hj) at 3. rewrite !tally_app, !tally_cons. lia.
Qed.

Lemma tally_zero i k votes :
  (∀ c, c ∈ votes → vc_src c = i → vc_el c = k → vc_counted c = false) → tally i k votes = 0.
Proof.
  induction votes as [|c votes IH]; intros Hno; [done|].
  rewrite tally_cons, IH by set_solver. rewrite decide_False; [done|].
  intros (Hi & Hk & Hc). rewrite Hno in Hc; [done|left|done|done].
Qed.

(** ** The invariant *)

Section won.
Context {Cmd : Type}.
Implicit Types (nd : node Cmd) (s : system Cmd) (e : event Cmd) (c : vote_call).

Definition call_id c : nat * nat * nat := (vc_src c, vc_dst c, vc_el c).

Definition call_ok (nodes : list (node Cmd)) c : Prop :=
  vc_src c ≠ vc_dst c ∧
  (vc_counted c = true →
     vc_open c = false ∧ ∃ reply, vc_pc c = RvDone reply ∧ vr_VoteGranted reply = true) ∧
  ∃ nd el, nodes !! vc_src c = Some nd ∧ nd_elections nd !! vc_el c = Some el ∧
           va_Term (vc_args c) = el_currentTerm el.

Definition peer_ok (votes : list vote_call) (i : nat) nd : Prop :=
  (∀ k el, nd_elections nd !! k = Some el → el_votes el = 1 + tally i k votes) ∧
  (rf_Mode (nd_rf nd) = Leader →
     ∃ k el, nd_elections nd !! k = Some el ∧ isMajority (nd_rf nd) (el_votes el) = true).

Record won s : Prop := {
  wn_calls c : c ∈ sy_votes s → call_ok (sy_nodes s) c;
  wn_distinct : NoDup (call_id <$> sy_votes s);
  wn_peers i nd : sy_nodes s !! i = Some nd → peer_ok (sy_votes s) i nd
}.

Lemma isMajority_peers (rf rf' : Raft Cmd) n :
  rf_peers rf' = rf_peers rf → isMajority rf' n = isMajority rf n.
Proof. intros Hp. unfold isMajority. by rewrite Hp. Qed.

(** A node changes without touching its elections. *)
Lemma call_ok_node nodes i nd nd' c :
  nodes !! i = Some nd → nd_elections nd' = nd_elections nd →
  call_ok nodes c → call_ok (<[i := nd']> nodes) c.
Proof.
  intros Hi He (Hne & Hcnt & nd0 & el & Hn & Hel & Ht). split_and!; [done|done|].
  destruct (decide (i = vc_src c)) as [->|Hi'].
  - exists nd', el. rewrite list_lookup_insert_eq by (by eapply lookup_lt_Some).
    split_and!; [done| |done]. rewrite He. congruence.
  - exists nd0, el. by rewrite list_lookup_insert_ne.
Qed.

Lemma peer_ok_quiet votes i nd nd' :
  nd_elections nd' = nd_elections nd → quiet (nd_rf nd) (nd_rf nd') →
  peer_ok votes i nd → peer_ok votes i nd'.
Proof.
  intros He [Hm Hp] [Ht Hl]. split; rewrite He; [done|]. intros Hm'.
  destruct (Hl (Hm Hm')) as (k & el & Hk & Hmaj). exists k, el. split; [done|].
  by rewrite (isMajority_peers (nd_rf nd)).
Qed.

Lemma won_quiet s s' i nd nd' :
  won s → sy_nodes s !! i = Some nd →
  sy_nodes s' = <[i := nd']> (sy_nodes s) → sy_votes s' = sy_votes s →
  nd_elections nd' = nd_elections nd → quiet (nd_rf nd) (nd_rf nd') → won s'.
Proof.
  intros [Hc Hd Hp] Hi Hn Hv He Hq. split; rewrite ?Hv, ?Hn; [|done|].
  - intros c Hin. by eapply call_ok_node; eauto.
  - intros j ndj Hj. apply list_lookup_insert_Some in Hj as [(<- & <- & _)|[_ Hj]]; [|by apply Hp].
    by eapply peer_ok_quiet; eauto.
Qed.

Lemma won_same s s' :
  won s → sy_nodes s' = sy_nodes s → sy_votes s' = sy_votes s → won s'.
Proof. intros [? ? ?] Hn Hv. split; rewrite ?Hn, ?Hv; auto. Qed.

(** A new election has no counted call yet. *)
Lemma won_begin s i nd rf' el tm :
  won s → sy_nodes s !! i = Some nd → isElected_begin (nd_rf nd) = (rf', el) →
  won ((set_node i (nd <| nd_rf := rf' |> <| nd_ticker := TkLead |>
                       <| nd_elections := nd_elections nd ++ [el] |> <| nd_timers := tm |>) s)
         <| sy_votes := sy_votes s ++ new_votes i (length (nd_elections nd)) rf' el |>).
Proof.
  intros [Hc Hd Hp] Hi Hb.
  pose proof (quiet_isElected_begin (nd_rf nd)) as [Hm Hpe]. rewrite Hb in Hm, Hpe; cbn in Hm, Hpe.
  assert (el_votes el = 1) as Hv1.
  { unfold isElected_begin in Hb. destruct (getLastLogIndexAndTerm _). by simplify_eq. }
  assert (∀ c, c ∈ new_votes i (length (nd_elections nd)) rf' el →
    ∃ p, p ≠ i ∧ c = {| vc_src := i; vc_dst := p; vc_el := length (nd_elections nd);
      vc_args := isElected_args rf' el; vc_pc := RvStart; vc_open := true; vc_counted := false |})
    as Hnew.
  { intros c (p & -> & [? _]%list_elem_of_filter)%list_elem_of_fmap. eauto. }
  assert (∀ j k, tally j k (new_votes i (length (nd_elections nd)) rf' el) = 0) as Hzero.
  { intros j k. apply tally_zero. intros c (p & _ & ->)%Hnew. done. }
  assert (tally i (length (nd_elections nd)) (sy_votes s) = 0) as Hfresh.
  { apply tally_zero. intros c Hin Hsrc Hel. exfalso.
    destruct (Hc c Hin) as (_ & _ & nd0 & el0 & Hn0 & Hel0 & _).
    rewrite Hsrc, Hi in Hn0. injection Hn0 as <-. rewrite Hel in Hel0.
    apply lookup_lt_Some in Hel0. lia. }
  assert (i < length (sy_nodes s))%nat as Hlt by (by eapply lookup_lt_Some).
  split; cbn.
  - intros c [Hin|Hin]%elem_of_app.
    + destruct (Hc c Hin) as (Hne & Hcnt & nd0 & el0 & Hn0 & Hel0 & Ht0).
      split_and!; [done|done|]. destruct (decide (i = vc_src c)) as [->|Hi'].
      * rewrite list_lookup_insert_eq by done. eexists _, el0. split_and!; [done| |done]. cbn.
        apply lookup_app_l_Some. congruence.
      * exists nd0, el0. by rewrite list_lookup_insert_ne.
    + destruct (Hnew c Hin) as (p & Hne & ->). split_and!; [done|done|]. cbn.
      rewrite list_lookup_insert_eq by done. eexists _, el. split_and!; [done| |done]. cbn.
      by rewrite lookup_app_r, Nat.sub_diag by lia.
  - rewrite fmap_app. apply NoDup_app. split_and!; [done|..].
    + intros x (c1 & -> & H1)%list_elem_of_fmap (c2 & Heq & H2)%list_elem_of_fmap.
      destruct (Hnew c2 H2) as (p & _ & ->). injection Heq as Hs _ He.
      destruct (Hc c1 H1) as (_ & _ & nd0 & el0 & Hn0 & Hel0 & _).
      rewrite Hs, Hi in Hn0. injection Hn0 as <-. rewrite He in Hel0.
      apply lookup_lt_Some in Hel0. lia.
    + unfold new_votes. rewrite <- list_fmap_compose.
      apply NoDup_fmap_2_strong; [by intros x y _ _ [= ->]|]. apply NoDup_filter, NoDup_seq.
  - intros j ndj Hj. apply list_lookup_insert_Some in Hj as [(<- & <- & _)|[_ Hj]].
    + destruct (Hp _ _ Hi) as [Ht Hl]. split; cbn.
      * intros k el0. rewrite tally_app, Hzero. rewrite lookup_app_Some, list_lookup_singleton_Some.
        intros [Hk|(Hk & Hk0 & <-)]; [rewrite (Ht k el0 Hk); lia|].
        replace k with (length (nd_elections nd)) by lia. lia.
      * intros Hm'. destruct (Hl (Hm Hm')) as (k & el0 & Hk & Hmaj). exists k, el0.
        split; [by apply lookup_app_l_Some|]. by rewrite (isMajority_peers (nd_rf nd)).
    + destruct (Hp _ _ Hj) as [Ht Hl]. split; [|done].
      intros k el0 Hk. rewrite tally_app, Hzero, (Ht k el0 Hk). lia.
Qed.

(** Call [k] of the list is replaced by one of the same identity. *)
Lemma call_id_insert (votes : list vote_call) k c c' :
  votes !! k = Some c → call_id c' = call_id c → call_id <$> <[k := c']> votes = call_id <$> votes.
Proof.
  intros Hk Hid. rewrite list_fmap_insert. apply list_insert_id.
  by rewrite list_lookup_fmap, Hk, Hid.
Qed.

Lemma elem_of_insert_call (votes : list vote_call) k c' c :
  c ∈ <[k := c']> votes → c = c' ∨ c ∈ votes.
Proof.
  intros [j Hj]%list_elem_of_lookup.
  apply list_lookup_insert_Some in Hj as [(_ & <- & _)|[_ Hj]]; [by left|].
  right. by eapply list_elem_of_lookup_2.
Qed.

(** The handler of a call takes a section at another peer. *)
Lemma won_section s k c et nd rf' pc :
  won s → sy_votes s !! k = Some c → sy_nodes s !! vc_dst c = Some nd →
  RequestVote_section et (vc_args c) (nd_rf nd) (vc_pc c) = (rf', pc) →
  won ((set_node (vc_dst c) (nd <| nd_rf := rf' |>) s)
         <| sy_votes := <[k := c <| vc_pc := pc |>]> (sy_votes s) |>).
Proof.
  intros [Hc Hd Hp] Hk Hi Hs.
  pose proof (quiet_RequestVote_section et (vc_args c) (nd_rf nd) (vc_pc c)) as Hq.
  rewrite Hs in Hq; cbn in Hq. assert (c ∈ sy_votes s) as Hin by (by eapply list_elem_of_lookup_2).
  assert (vc_counted c = true → pc = vc_pc c) as Hpc.
  { intros Ht. destruct (Hc c Hin) as (_ & Hcnt & _).
    destruct (Hcnt Ht) as (_ & reply & Hdone & _). rewrite Hdone in *. by injection Hs as _ <-. }
  split; cbn.
  - intros c1 [->|H1]%elem_of_insert_call; (eapply call_ok_node; [done|done|]); [|by apply Hc].
    destruct (Hc c Hin) as (Hne & Hcnt & Hex). split_and!; [done| |done]. cbn. intros Ht.
    rewrite (Hpc Ht). by apply Hcnt.
  - by rewrite (call_id_insert _ k c).
  - intros j ndj Hj.
    assert (∀ i el, tally i el (<[k := c <| vc_pc := pc |>]> (sy_votes s)) =
                    tally i el (sy_votes s)) as Htally.
    { intros i el. rewrite (tally_insert _ _ _ _ c) by done.
      destruct (decide (counts_for i el c)) as [H1|H1],
        (decide (counts_for i el (c <| vc_pc := pc |>))) as [H2|H2]; try lia;
        exfalso; (by apply H2) || (by apply H1). }
    apply list_lookup_insert_Some in Hj as [(<- & <- & _)|[_ Hj]].
    + destruct (Hp _ _ Hi) as [Ht Hl]. destruct Hq as [Hm Hpe]. split; cbn.
      * intros el0 el Hel. rewrite Htally. by apply Ht.
      * intros Hm'. destruct (Hl (Hm Hm')) as (k0 & el & Hel & Hmaj). exists k0, el.
        split; [done|]. by rewrite (isMajority_peers (nd_rf nd)).
    + destruct (Hp _ _ Hj) as [Ht Hl]. split; [|done]. intros el0 el Hel. rewrite Htally. by apply Ht.
Qed.

(** The caller counts a reply. *)
Lemma won_return s k c et nd reply :
  won s → sy_votes s !! k = Some c → sy_nodes s !! vc_src c = Some nd → vc_open c = true →
  vc_pc c = RvDone reply ∨ vr_VoteGranted reply = false →
  won (vote_return k et reply c nd s).
Proof.
  intros [Hc Hd Hp] Hk Hi Hopen Hreply. unfold vote_return.
  destruct (nd_elections nd !! vc_el c) as [el|] eqn:Hel; [|by split].
  pose proof (isElected_reply_leader et reply (nd_rf nd) el) as Hr.
  destruct (isElected_reply et reply (nd_rf nd) el) as [rf' el'].
  destruct Hr as (Hpe & Ht & Hv & Hm). assert (c ∈ sy_votes s) as Hin by (by eapply list_elem_of_lookup_2).
  assert (vc_counted c = false) as Huncounted.
  { destruct (Hc c Hin) as (_ & Hcnt & _). destruct (vc_counted c); [|done].
    destruct (Hcnt eq_refl) as [Ho _]. congruence. }
  set (c' := c <| vc_open := false |> <| vc_counted := bool_decide (el_votes el' ≠ el_votes el) |>).
  set (nd' := nd <| nd_rf := rf' |> <| nd_elections := <[vc_el c := el']> (nd_elections nd) |>).
  assert (∀ i j, tally i j (<[k := c']> (sy_votes s)) =
            tally i j (sy_votes s) +
            if decide (i = vc_src c ∧ j = vc_el c) then el_votes el' - el_votes el else 0) as Htally.
  { intros i j. rewrite (tally_insert _ _ _ _ c) by done.
    rewrite (decide_False (P := counts_for i j c)) by (unfold counts_for; rewrite Huncounted; naive_solver).
    destruct (decide (counts_for i j c')) as [Hyes|Hno]; unfold counts_for, c' in *; cbn in *.
    - rewrite bool_decide_eq_true in Hyes. rewrite decide_True by (by destruct Hyes as (-> & -> & _)). lia.
    - destruct (decide (i = vc_src c ∧ j = vc_el c)) as [[-> ->]|]; [|lia].
      rewrite bool_decide_eq_true in Hno.
      destruct (decide (el_votes el' = el_votes el)); [lia|]. exfalso. by apply Hno. }
  assert (∀ c0, call_ok (sy_nodes s) c0 → call_ok (<[vc_src c := nd']> (sy_nodes s)) c0) as Hkeep.
  { intros c0 (Hne & Hcnt & nd0 & el0 & Hn0 & Hel0 & Ht0). split_and!; [done|done|].
    destruct (decide (vc_src c = vc_src c0)) as [Heq|Hne0].
    - rewrite <- Heq in *. rewrite Hi in Hn0. injection Hn0 as <-.
      rewrite list_lookup_insert_eq by (by eapply lookup_lt_Some).
      destruct (decide (vc_el c = vc_el c0)) as [Heq0|Hne1].
      + exists nd', el'. split_and!; [done| |congruence]. cbn. rewrite Heq0.
        apply list_lookup_insert_eq. by eapply lookup_lt_Some.
      + exists nd', el0. split_and!; [done| |done]. cbn. by rewrite list_lookup_insert_ne.
    - exists nd0, el0. by rewrite list_lookup_insert_ne. }
  split; cbn.
  - intros c1 [->|H1]%elem_of_insert_call; apply Hkeep; [|by apply Hc].
    destruct (Hc c Hin) as (Hne & _ & Hex). split_and!; [done| |done]. unfold c'; cbn.
    rewrite bool_decide_eq_true. intros Hchg. split; [done|]. exists reply.
    destruct Hv as [|[_ Hg]]; [done|]. destruct Hreply; [done|congruence].
  - by rewrite (call_id_insert _ k c).
  - intros j ndj Hj. apply list_lookup_insert_Some in Hj as [(<- & <- & _)|[Hne Hj]].
    + destruct (Hp _ _ Hi) as [Hta Hl]. assert (∀ k0 el0, nd_elections nd' !! k0 = Some el0 →
        ∃ el1, nd_elections nd !! k0 = Some el1 ∧ el_votes el1 ≤ el_votes el0 ∧
               el_votes el0 = 1 + tally (vc_src c) k0 (<[k := c']> (sy_votes s))) as Hels.
      { intros k0 el0. cbn. rewrite Htally. intros [(<- & <- & _)|[Hne Hk0]]%list_lookup_insert_Some.
        - exists el. rewrite decide_True by done. pose proof (Hta _ _ Hel). split_and!; [done|lia|lia].
        - exists el0. rewrite decide_False by naive_solver. pose proof (Hta _ _ Hk0).
          split_and!; [done|lia|lia]. }
      split; [intros k0 el0 Hk0; by destruct (Hels k0 el0 Hk0) as (? & _ & _ & ?)|].
      intros Hm'. destruct (Hm Hm') as [Hold|Hnew].
      * destruct (Hl Hold) as (k0 & el0 & Hk0 & Hmaj). cbn.
        destruct (decide (k0 = vc_el c)) as [->|Hne].
        -- exists (vc_el c), el'. rewrite list_lookup_insert_eq by (by eapply lookup_lt_Some).
           split; [done|]. rewrite (isMajority_peers (nd_rf nd)) by done.
           unfold isMajority in *. apply bool_decide_eq_true in Hmaj. apply bool_decide_eq_true.
           assert (el0 = el) as -> by congruence. lia.
        -- exists k0, el0. rewrite list_lookup_insert_ne by done. split; [done|].
           by rewrite (isMajority_peers (nd_rf nd)).
      * exists (vc_el c), el'. cbn. rewrite list_lookup_insert_eq by (by eapply lookup_lt_Some).
        split; [done|]. by rewrite (isMajority_peers (nd_rf nd)).
    + destruct (Hp _ _ Hj) as [Hta Hl]. split; [|done]. intros k0 el0 Hk0.
      rewrite Htally, decide_False by naive_solver. rewrite (Hta _ _ Hk0). lia.
Qed.
End won.

Section run.
Context {Cmd : Type}.
Implicit Types (nd : node Cmd) (s : system Cmd) (e : event Cmd).

Ltac quiet_node :=
  eapply won_quiet; [eassumption|eassumption|reflexivity|reflexivity|reflexivity|];
  cbn; try reflexivity; eauto with quiet.

Lemma ticker_section_won i now nd s s' :
  won s → sy_nodes s !! i = Some nd → ticker_section i now nd s = Ret s' → won s'.
Proof.
  intros Hs Hi. unfold ticker_section. destruct (nd_ticker nd) as [| | | |t l p].
  - intros [= <-]. quiet_node.
  - intros [= <-]. quiet_node.
  - destruct (isElected_begin (nd_rf nd)) as [rf' el] eqn:E. intros [= <-]. by apply won_begin.
  - intros [= <-]. quiet_node.
  - case_decide; [intros [= <-]; quiet_node|].
    case_decide; [intros [= <-]; quiet_node|].
    intros (rp & _ & E)%bind_ret_inv. injection E as <-. quiet_node.
Qed.

Lemma append_return_won k et ok resp c a nd s s' :
  won s → sy_nodes s !! ac_src c = Some nd →
  append_return k et ok resp c a nd s = Ret s' → won s'.
Proof.
  intros Hs Hi. unfold append_return. intros ([rf' b] & Hr & E)%bind_ret_inv. injection E as <-.
  quiet_node.
Qed.

Lemma sys_step_won e s s' : won s → sys_step e s = Ret s' → won s'.
Proof.
  intros Hs. destruct e as [i c|i k grow|i now|i|k et|k et|k et|k|k|k et grow|k et|k et|i|i];
    cbn [sys_step].
  - destruct (sy_nodes s !! i) as [nd|] eqn:Hi; [|by intros [= <-]].
    unfold Start_read. destruct (getLastLogIndexAndTerm _).
    case_bool_decide; intros [= <-]; [quiet_node|by eapply won_same].
  - destruct (sy_nodes s !! i) as [nd|] eqn:Hi; [|by intros [= <-]].
    destruct (nd_starts nd !! k) as [[t c]|]; intros [= <-]; [quiet_node|done].
  - destruct (sy_nodes s !! i) as [nd|] eqn:Hi; [|by intros [= <-]].
    by apply ticker_section_won.
  - destruct (sy_nodes s !! i) as [nd|] eqn:Hi; [|by intros [= <-]].
    destruct (nd_timers nd); intros [= <-]; [done|]. quiet_node. by split.
  - destruct (sy_votes s !! k) as [c|] eqn:Hk; [|by intros [= <-]].
    destruct (sy_nodes s !! vc_dst c) as [nd|] eqn:Hi; [|by intros [= <-]].
    destruct (RequestVote_section _ _ _ _) as [rf' pc] eqn:E. intros [= <-].
    by eapply won_section.
  - destruct (sy_votes s !! k) as [c|] eqn:Hk; [|by intros [= <-]].
    destruct (sy_nodes s !! vc_src c) as [nd|] eqn:Hi; [|by intros [= <-]].
    destruct (vc_open c) eqn:Ho, (vc_pc c) eqn:Hpc; intros [= <-]; try done.
    apply won_return; auto.
  - destruct (sy_votes s !! k) as [c|] eqn:Hk; [|by intros [= <-]].
    destruct (sy_nodes s !! vc_src c) as [nd|] eqn:Hi; [|by intros [= <-]].
    destruct (vc_open c) eqn:Ho; intros [= <-]; try done. apply won_return; auto.
  - destruct (sy_appends s !! k) as [c|]; [|by intros [= <-]].
    destruct (sy_nodes s !! ac_src c) as [nd|] eqn:Hi; [|by intros [= <-]].
    destruct (ac_args c); [by intros [= <-]|].
    intros (a & _ & E)%bind_ret_inv. injection E as <-. by eapply won_same.
  - destruct (sy_appends s !! k) as [c|]; [|by intros [= <-]].
    destruct (sy_nodes s !! ac_src c) as [nd|] eqn:Hi; [|by intros [= <-]].
    destruct (ac_args c), (ac_req c), (ac_open c); intros [= <-]; try done. by eapply won_same.
  - destruct (sy_appends s !! k) as [c|]; [|by intros [= <-]].
    destruct (sy_nodes s !! Z.to_nat (rp_peer (ac_rp c))) as [nd|] eqn:Hi; [|by intros [= <-]].
    destruct (ac_req c) as [req|], (ac_resp c); try (by intros [= <-]).
    intros ([[rf' resp] b] & Hr & E)%bind_ret_inv. injection E as <-. quiet_node.
  - destruct (sy_appends s !! k) as [c|]; [|by intros [= <-]].
    destruct (sy_nodes s !! ac_src c) as [nd|] eqn:Hi; [|by intros [= <-]].
    destruct (ac_args c), (ac_resp c), (ac_open c); try (by intros [= <-]).
    by apply append_return_won.
  - destruct (sy_appends s !! k) as [c|]; [|by intros [= <-]].
    destruct (sy_nodes s !! ac_src c) as [nd|] eqn:Hi; [|by intros [= <-]].
    destruct (ac_args c), (ac_open c); try (by intros [= <-]).
    by apply append_return_won.
  - destruct (sy_nodes s !! i) as [nd|] eqn:Hi; [|by intros [= <-]].
    destruct (nd_commits nd) as [|n], (nd_turn nd) eqn:Ht; try (by intros [= <-]).
    intros ([rf' ct] & Hr & E)%bind_ret_inv. injection E as <-. quiet_node.
  - destruct (sy_nodes s !! i) as [nd|] eqn:Hi; [|by intros [= <-]].
    destruct (nd_turn nd) as [ct|] eqn:Ht; [|by intros [= <-]].
    destruct (handleCommits_next _ ct) as [[msg ct']|]; intros [= <-]; quiet_node.
Qed.

Lemma sys_run_won es s s' : won s → sys_run es s = Ret s' → won s'.
Proof.
  revert s. induction es as [|e es IH]; intros s Hs; cbn; [by intros [= <-]|].
  intros (s1 & Hstep & Hrun)%bind_ret_inv. eapply IH; [|exact Hrun]. by eapply sys_step_won.
Qed.

Lemma sys_init_won ets grow : won (sys_init (Cmd := Cmd) ets grow).
Proof.
  split; cbn; [by intros c ?%elem_of_nil|constructor|].
  intros i nd Hi. apply list_lookup_imap_Some in Hi as (et & _ & ->).
  split; [done|]. unfold init_node, Make; cbn. by destruct (sl_append _ _ _ _ _).
Qed.

(** The peers that voted in an election. *)
Definition voters (i k : nat) (votes : list vote_call) : gset nat :=
  list_to_set (vc_dst <$> filter (counts_for i k) votes).

Lemma voters_size i k (votes : list vote_call) :
  NoDup (call_id <$> votes) → Z.of_nat (size (voters i k votes)) = tally i k votes.
Proof.
  intros Hnd. unfold voters, tally. rewrite size_list_to_set; [by rewrite length_fmap|].
  induction votes as [|c votes IH]; [constructor|].
  cbn in Hnd. apply NoDup_cons in Hnd as [Hc Hnd]. specialize (IH Hnd).
  rewrite filter_cons. case_decide as H; [|done]. cbn. apply NoDup_cons. split; [|done].
  intros (c' & Heq & [H' Hin]%list_elem_of_filter)%list_elem_of_fmap. apply Hc.
  apply list_elem_of_fmap. exists c'. split; [|done].
  destruct H as (<- & <- & _), H' as (Hs & He & _). unfold call_id. congruence.
Qed.

Lemma won_leader s i nd :
  won s → sy_nodes s !! i = Some nd → rf_Mode (nd_rf nd) = Leader →
  ∃ k el (vs : gset nat), nd_elections nd !! k = Some el ∧
    isMajority (nd_rf nd) (1 + Z.of_nat (size vs)) = true ∧ (i ∉ vs) ∧
    ∀ p, p ∈ vs → ∃ c reply, c ∈ sy_votes s ∧ vc_src c = i ∧ vc_dst c = p ∧ vc_el c = k ∧
      va_Term (vc_args c) = el_currentTerm el ∧ vc_pc c = RvDone reply ∧
      vr_VoteGranted reply = true.
Proof.
  intros [Hc Hd Hp] Hi Hm. destruct (Hp _ _ Hi) as [Ht Hl].
  destruct (Hl Hm) as (k & el & Hk & Hmaj). exists k, el, (voters i k (sy_votes s)).
  assert (∀ p, p ∈ voters i k (sy_votes s) → ∃ c, c ∈ sy_votes s ∧ counts_for i k c ∧ vc_dst c = p)
    as Hvs.
  { intros p (c & -> & [Hcf Hin]%list_elem_of_filter)%elem_of_list_to_set%list_elem_of_fmap. eauto. }
  split_and!; [done| |..].
  - rewrite voters_size by done. by rewrite <- (Ht k el Hk).
  - intros (c & Hin & (Hs & _) & Hdst)%Hvs. destruct (Hc c Hin) as [Hne _]. congruence.
  - intros p (c & Hin & (Hs & He & Hcnt) & Hdst)%Hvs.
    destruct (Hc c Hin) as (_ & Hcnt' & nd0 & el0 & Hn0 & Hel0 & Hterm).
    destruct (Hcnt' Hcnt) as (_ & reply & Hpc & Hg). exists c, reply.
    split_and!; try done. rewrite Hs, Hi in Hn0. injection Hn0 as <-. congruence.
Qed.
End run.

(** ** What a run promises *)

(** C1: in every run of the cluster, each peer delivers on its apply channel the indices
    1, 2, 3, ... in this order, without a gap or a repetition, and at a moment between two
    turns of the commit loop exactly up to its applied index; its log keeps the sentinel, and
    its slices stay inside their arrays. *)
Theorem applied_in_order {Cmd} (es : list (event Cmd)) ets grow s i nd :
  sys_run es (sys_init ets grow) = Ret s → sy_nodes s !! i = Some nd →
  rf_inv (nd_rf nd) ∧
  (∀ j m, nd_applied nd !! j = Some m →
     am_CommandIndex m = Z.of_nat j + 1 ∧ am_CommandValid m = true) ∧
  (nd_turn nd = None → zlen (nd_applied nd) = rf_appliedIndex (nd_rf nd)).
Proof.
  intros Hrun Hi.
  destruct (sys_ok_lookup s i nd (sys_run_ok es _ s (sys_init_ok ets grow) Hrun) Hi) as [Hrf Ht Ha].
  split_and!; [done|done|]. intros Hn. unfold turn_ok in Ht. by rewrite Hn in Ht.
Qed.

(** C2: in every run, a peer that is leader won one of its elections: distinct other peers,
    with it a majority, each granted the vote that one of the election's own calls, of the
    election's term, asked for. *)
Theorem leader_won_majority {Cmd} (es : list (event Cmd)) ets grow s i nd :
  sys_run es (sys_init ets grow) = Ret s → sy_nodes s !! i = Some nd →
  rf_Mode (nd_rf nd) = Leader →
  ∃ k el (vs : gset nat), nd_elections nd !! k = Some el ∧
    isMajority (nd_rf nd) (1 + Z.of_nat (size vs)) = true ∧ (i ∉ vs) ∧
    ∀ p, p ∈ vs → ∃ c reply, c ∈ sy_votes s ∧ vc_src c = i ∧ vc_dst c = p ∧ vc_el c = k ∧
      va_Term (vc_args c) = el_currentTerm el ∧ vc_pc c = RvDone reply ∧
      vr_VoteGranted reply = true.
Proof. intros Hrun. apply won_leader. exact (sys_run_won es _ s (sys_init_won ets grow) Hrun). Qed.

(** *** A run of three peers

    Peers 0 and 2 time out at once.  A candidate never records a vote for itself, so each
    grants the other's request, and both count a majority in term 1. *)
Definition ticks (i n : nat) : list (event Z) := replicate n (ETicker i 1).

Definition append_round (k : nat) : list (event Z) :=
  [EAppendArgs k; EAppendMarshall k; EAppendHandle k 1000 0; EAppendReturn k 1000].

Definition split_vote : list (event Z) :=
  ticks 0 3 ++ ticks 2 3 ++
  [EVoteSection 1 1000; EVoteSection 2 1000; EVoteSection 1 1000; EVoteSection 2 1000;
   EVoteReturn 1 1000; EVoteReturn 2 1000].

(** Each leader then replicates its own command to peer 1, and commits it. *)
Definition diverge : list (event Z) :=
  split_vote ++ [EStart 0 100; EStartAppend 0 0 0; EStart 2 200; EStartAppend 2 0 0] ++
  ticks 0 5 ++ append_round 0 ++ ticks 0 7 ++ append_round 2 ++ [ECommit 0; EApply 0] ++
  ticks 2 5 ++ append_round 5 ++ [ECommit 2; EApply 2].

Definition observe (s : system Z) : list (Mode * Z * list (ApplyMsg Z)) :=
  (λ nd, (rf_Mode (nd_rf nd), rf_CurrentTerm (nd_rf nd), nd_applied nd)) <$> sy_nodes s.

Definition msg_at (index command : Z) : ApplyMsg Z :=
  CommandMsg index (Some command).

(** The protocol as written has neither election safety nor state machine safety: three
    peers on a network that loses nothing reach a state where two of them lead the same term
    and have applied different commands at index 1. *)
Theorem two_leaders_diverge :
  ∃ s, sys_run diverge (sys_init [0; 0; 0] 0) = Ret s ∧
       observe s = [(Leader, 1, [msg_at 1 100]); (Follower, 1, []); (Leader, 1, [msg_at 1 200])].
Proof.
  assert ((observe <$> sys_run diverge (sys_init [0; 0; 0] 0)) =
          Ret [(Leader, 1, [msg_at 1 100]); (Follower, 1, []); (Leader, 1, [msg_at 1 200])])
    as Hobs by (vm_compute; reflexivity).
  destruct (sys_run diverge (sys_init [0; 0; 0] 0)) as [s|w|m] eqn:E; [|discriminate..].
  exists s. split; [done|]. by injection Hobs.
Qed.

Lemma applied_in_order_witness :
  match sys_run diverge (sys_init [0; 0; 0] 0) with
  | Ret s => match sy_nodes s !! 0%nat with
             | Some nd => rf_appliedIndex (nd_rf nd) = 1 ∧
                          ∀ m, nd_applied nd !! 0%nat = Some m → am_CommandIndex m = 1
             | None => False end
  | _ => False end.
Proof.
  assert ((λ s, rf_appliedIndex <$> (nd_rf <$> (sy_nodes s !! 0%nat))) <$>
            sys_run diverge (sys_init [0; 0; 0] 0) = Ret (Some 1)) as Hap by (vm_compute; reflexivity).
  destruct (sys_run diverge (sys_init [0; 0; 0] 0)) as [s|w|m] eqn:E; [|discriminate..].
  cbn in Hap. destruct (sy_nodes s !! 0%nat) as [nd|] eqn:Hi; [|discriminate].
  injection Hap as Hap. split; [exact Hap|]. intros m Hm.
  destruct (applied_in_order diverge [0; 0; 0] 0 s 0 nd E Hi) as (_ & H & _).
  destruct (H 0%nat m Hm) as [-> _]. reflexivity.
Defined.

Lemma leader_won_majority_witness :
  match sys_run split_vote (sys_init [0; 0; 0] 0) with
  | Ret s => match sy_nodes s !! 0%nat with
             | Some nd => ∃ vs : gset nat, isMajority (nd_rf nd) (1 + Z.of_nat (size vs)) = true ∧ 0%nat ∉ vs
             | None => False end
  | _ => False end.
Proof.
  assert ((λ s, rf_Mode <$> (nd_rf <$> (sy_nodes s !! 0%nat))) <$>
            sys_run split_vote (sys_init [0; 0; 0] 0) = Ret (Some Leader)) as Hm by (vm_compute; reflexivity).
  destruct (sys_run split_vote (sys_init [0; 0; 0] 0)) as [s|w|m] eqn:E; [|discriminate..].
  cbn in Hm. destruct (sy_nodes s !! 0%nat) as [nd|] eqn:Hi; [|discriminate]. injection Hm as Hm.
  destruct (leader_won_majority split_vote [0; 0; 0] 0 s 0 nd E Hi Hm) as (k & el & vs & _ & Hv & Hn & _).
  exists vs. split; [exact Hv|exact Hn].
Defined.
