(* ===== verification/RaftRaces.v ===== *)
(** * Runs in which sections of Raft interleave badly

    The goroutines of src/src/raft1/raft.go drop the peer's mutex between reading its state
    and acting on it.  Four runs of three peers on a network that loses at most a reply show
    what that costs: a leader that is none any more sends its log in a term it does not lead;
    a peer votes twice in one term; votes of an old term make a leader of a later one; and a
    goroutine that comes late indexes a log that has become shorter. *)
From stdpp Require Import base tactics numbers list strings list_numbers fin_sets gmap.
From S2P Require Import Prelude GoSlice RaftNode RaftSpec RaftSystem RaftSafety RaftElection.

(** ** Pieces of runs *)

Definition ticks_at (i n : nat) (now : Z) : list (event Z) := replicate n (ETicker i now).

(** The handler of vote call [k], all its sections. *)
Definition handle_vote (k : nat) : list (event Z) := replicate 3 (EVoteSection k 1000).

(** Peer [i] turns its loop until it has begun an election, and wins it with vote call [k]. *)
Definition elect (i n : nat) (now : Z) (k : nat) : list (event Z) :=
  ticks_at i n now ++ handle_vote k ++ [EVoteReturn k 1000].

(** Peer [i], a candidate, gets no majority until the timer of its election wakes, and begins
    the next one. *)
Definition again (i : nat) : list (event Z) := [ETimer i] ++ ticks i 4.

(** ** A leader of the past

    Peer 0 leads term 1 and starts goroutines for its first command, but none of them has run
    when peer 1 is elected for term 2 and peer 0 has seen that.  Peer 1 replicates, commits and
    applies a command.  Then the goroutines run: they neither look at the mode nor use the
    term they were started in, and send the log of peer 0 in term 2. *)
Definition deposed : list (event Z) :=
  elect 0 3 1 0 ++ [EStart 0 100; EStartAppend 0 0 0] ++ ticks_at 0 4 1 ++
  elect 1 3 2000 3 ++ ticks_at 1 4 2000 ++ append_round 2 ++
  [EStart 1 200; EStartAppend 1 0 0] ++ ticks_at 1 7 2000 ++ append_round 5 ++
  [ECommit 1; EApply 1].

(** In term 3 peer 0 is elected again, and commits its own commands. *)
Definition stale_goroutine : list (event Z) :=
  deposed ++ append_round 0 ++ append_round 1 ++
  elect 0 4 3000 4 ++ [EStart 0 300; EStartAppend 0 0 0] ++ ticks_at 0 4 3000 ++
  append_round 6 ++ [ECommit 0; EApply 0; EApply 0].

(** Who leads which term, at any moment of a run. *)
Definition reign (i : nat) (nd : node Z) : list (nat * Z) :=
  if decide (rf_Mode (nd_rf nd) = Leader) then [(i, rf_CurrentTerm (nd_rf nd))] else [].

Fixpoint reigns (es : list (event Z)) (s : system Z) : list (nat * Z) :=
  concat (imap reign (sy_nodes s)) ++
  match es with
  | [] => []
  | e :: es => match sys_step e s with Ret s' => reigns es s' | _ => [] end
  end.

(** State machine safety fails even in a run in which every term has one leader at most: a
    committed and applied command is overwritten on a majority, and another one applied at
    its index. *)
Theorem committed_overwritten :
  observe <$> sys_run stale_goroutine (sys_init [0; 0; 0] 0) =
    Ret [(Leader, 3, [msg_at 1 100; msg_at 2 300]); (Follower, 3, [msg_at 1 200]); (Follower, 2, [])] ∧
  remove_dups (reigns stale_goroutine (sys_init [0; 0; 0] 0)) = [(0%nat, 1); (1%nat, 2); (0%nat, 3)].
Proof. by split; vm_compute. Qed.

(** ** A vote given twice

    Peer 0's request of term 1 passes peer 1's check and waits for the lock.  Meanwhile peer 1
    votes for peer 2 in term 2.  Then the first request sets peer 1 back to term 1, its vote
    forgotten, and when peer 0 asks for term 2 peer 1 votes again. *)
Definition forgotten_vote : list (event Z) :=
  ticks 0 3 ++ [EVoteSection 0 1000] ++
  ticks 2 3 ++ again 2 ++ handle_vote 5 ++ [EVoteReturn 5 1000] ++
  [EVoteSection 0 1000; EVoteSection 0 1000; EVoteFail 0 1000] ++
  again 0 ++ handle_vote 6 ++ [EVoteReturn 6 1000].

Definition vote_granted (c : vote_call) : bool :=
  match vc_pc c with RvDone reply => vr_VoteGranted reply | _ => false end.

(** The granted votes: who asked, whom, for which term; and who leads. *)
Definition ballot (s : system Z) : list (nat * nat * Z) * list (nat * Z) :=
  ((λ c, (vc_src c, vc_dst c, va_Term (vc_args c))) <$>
     filter (λ c, vote_granted c = true) (sy_votes s),
   concat (imap reign (sy_nodes s))).

(** Peer 1 votes for peer 2 and for peer 0 in term 2, and both lead it. *)
Theorem vote_given_twice :
  ballot <$> sys_run forgotten_vote (sys_init [0; 0; 0] 0) =
    Ret ([(0%nat, 1%nat, 1); (2%nat, 1%nat, 2); (0%nat, 1%nat, 2)], [(0%nat, 2); (2%nat, 2)]).
Proof. by vm_compute. Qed.

(** The current term of a peer goes back. *)
Theorem term_goes_back :
  (λ s, (λ nd, rf_CurrentTerm (nd_rf nd)) <$> sy_nodes s) <$>
    sys_run (take 16 forgotten_vote) (sys_init [0; 0; 0] 0) = Ret [1; 2; 2] ∧
  (λ s, (λ nd, rf_CurrentTerm (nd_rf nd)) <$> sy_nodes s) <$>
    sys_run (take 17 forgotten_vote) (sys_init [0; 0; 0] 0) = Ret [1; 1; 2].
Proof. by split; vm_compute. Qed.

(** ** A vote counted late

    The reply to a request of term 1 arrives when peer 0 has begun the election of term 2; it
    is counted for the election of term 1, and makes peer 0 leader of its current term. *)
Definition late_vote : list (event Z) :=
  ticks 0 3 ++ again 0 ++ handle_vote 0 ++ [EVoteReturn 0 1000] ++
  ticks 2 3 ++ again 2 ++ handle_vote 7 ++ [EVoteReturn 7 1000].

(** Peer 0 leads term 2 without a vote in it, beside peer 2, which has one. *)
Theorem late_vote_leads :
  ballot <$> sys_run late_vote (sys_init [0; 0; 0] 0) =
    Ret ([(0%nat, 1%nat, 1); (2%nat, 1%nat, 2)], [(0%nat, 2); (2%nat, 2)]).
Proof. by vm_compute. Qed.

(** ** A leader that crashes

    Peer 0, leader of term 3 with two entries of its own, has started a goroutine for peer 1 that
    is to send what follows the second.  A goroutine of peer 2 from its own time as leader sends,
    in the term it has learned meanwhile, the one entry it had then: peer 0 takes it in place of
    its two.  The goroutine of peer 0 then looks up the term of an entry that is gone. *)
Definition shortened_log : list (event Z) :=
  elect 0 3 1 0 ++ [EStart 0 100; EStartAppend 0 0 0; EStart 0 101; EStartAppend 0 0 0] ++
  ticks 2 3 ++ again 2 ++ handle_vote 5 ++ [EVoteReturn 5 1000] ++
  [EStart 2 300; EStartAppend 2 0 0] ++ ticks 2 2 ++
  handle_vote 4 ++ elect 0 4 2000 6 ++ ticks_at 0 3 2000 ++ handle_vote 7 ++
  [EAppendArgs 0; EAppendMarshall 0; EAppendHandle 0 1000 0].

(** The section of one goroutine panics, and with it the process of peer 0, though again every
    term has one leader at most. *)
Theorem leader_crashes :
  sys_run (shortened_log ++ [EAppendArgs 1]) (sys_init [0; 0; 0] 0) = Panic "index out of range" ∧
  remove_dups (reigns shortened_log (sys_init [0; 0; 0] 0)) = [(0%nat, 1); (2%nat, 2); (0%nat, 3)].
Proof. by split; vm_compute. Qed.
