(* ===== verification/RaftTotal.v ===== *)
(** * Which sections can panic

    Every section of raft.go returns in every run, whatever the schedule and the losses, but for
    two: the one that builds the arguments of an AppendLogEntry, with a next index that its
    goroutine read before the log became shorter, and the one that takes the entries to apply,
    with a commit index past the end of the log. *)
From stdpp Require Import base tactics numbers list strings list_numbers fin_sets gmap.
From S2P Require Import Prelude GoSlice RaftNode RaftSpec RaftSystem RaftSafety RaftElection RaftRaces.

Section total.
Context {Cmd : Type}.
Implicit Types (nd : node Cmd) (rf : Raft Cmd) (s : system Cmd) (e : event Cmd) (c : append_call Cmd).

(** ** What the sections keep *)

(** The next indices of a peer that has been leader: one for each peer, each behind the
    placeholder entry. *)
Definition next_ok rf : Prop := length (rf_pNextIndex rf) = rf_peers rf ∧ Forall (λ n, 1 ≤ n) (rf_pNextIndex rf).

(** A peer that leads has them, and a peer that has them keeps them. *)
Record led rf rf' : Prop := {
  ld_peers : rf_peers rf' = rf_peers rf;
  ld_keeps : next_ok rf → next_ok rf';
  ld_leader : (rf_Mode rf = Leader → next_ok rf) → rf_Mode rf' = Leader → next_ok rf'
}.

#[export] Instance led_refl : Reflexive led.
Proof. by split. Qed.

(** A section that is quiet and leaves the next indices alone. *)
Lemma led_quiet rf rf' : quiet rf rf' → rf_pNextIndex rf' = rf_pNextIndex rf → led rf rf'.
Proof. intros [Hm Hp] Hn. split; unfold next_ok; rewrite ?Hn, ?Hp; auto. Qed.

Lemma led_isTimedOut now rf : led rf (isTimedOut now rf).
Proof. apply led_quiet; [apply quiet_isTimedOut|]. unfold isTimedOut. by repeat case_decide. Qed.

Lemma led_isElected_begin rf : led rf (isElected_begin rf).1.
Proof. apply led_quiet; [apply quiet_isElected_begin|]. unfold isElected_begin. by destruct (getLastLogIndexAndTerm _). Qed.

Lemma led_RequestVote_section et args rf pc : led rf (RequestVote_section et args rf pc).1.
Proof.
  apply led_quiet; [apply quiet_RequestVote_section|].
  destruct pc; cbn [RequestVote_section]; [destruct (getLastLogIndexAndTerm rf)|..]; by repeat case_decide.
Qed.

Lemma led_Start_append grow t (x : Cmd) rf : led rf (Start_append grow t x rf).
Proof. apply led_quiet; [apply quiet_Start_append|]. unfold Start_append. by destruct (sl_append _ _ _ _ _). Qed.

Lemma led_AppendLogEntry et grow args rf rf' reply b : AppendLogEntry et grow args rf = Ret (rf', reply, b) → led rf rf'.
Proof.
  intros E. apply led_quiet; [by eapply quiet_AppendLogEntry|]. revert E.
  unfold AppendLogEntry. case_decide; [|by intros [= <- <- <-]].
  intros (m & _ & E)%bind_ret_inv. revert E.
  case_decide; [|case_decide; by intros [= <- <- <-]].
  case_decide; [by intros [= <- <- <-]|]. destruct (negb m); [by intros [= <- <- <-]|].
  intros (kept & _ & E)%bind_ret_inv. revert E. destruct (sl_append _ _ _ _ _). by intros [= <- <- <-].
Qed.

Lemma led_handleCommits_begin rf rf' ct : handleCommits_begin rf = Ret (rf', ct) → led rf rf'.
Proof.
  intros E. apply led_quiet; [by eapply quiet_handleCommits_begin|]. revert E.
  unfold handleCommits_begin. case_decide; [|by intros [= <- <-]].
  intros (w & _ & E)%bind_ret_inv. by injection E as <- <-.
Qed.

Lemma led_setToLeader rf : rf_inv rf → led rf (setToLeader rf) ∧ next_ok (setToLeader rf).
Proof.
  intros Hinv. pose proof (logs_nonempty rf Hinv).
  destruct (getLastLogIndexAndTerm_spec rf Hinv) as (e & _ & He).
  assert (next_ok (setToLeader rf)) as Hok.
  { unfold setToLeader. rewrite He. split; cbn; [by rewrite length_replicate|]. apply Forall_replicate. lia. }
  split; [|done]. split; [|done|done]. unfold setToLeader. by rewrite He.
Qed.

Lemma led_isElected_reply et reply rf el : rf_inv rf → led rf (isElected_reply et reply rf el).1.
Proof.
  intros Hinv. unfold isElected_reply. case_decide; [by split|]. case_decide; [by split|]. cbn [fst].
  destruct (isMajority rf _); [by apply led_setToLeader|done].
Qed.

Lemma next_ok_insert rf rf' p n :
  next_ok rf → rf_peers rf' = rf_peers rf → 1 ≤ n →
  rf_pNextIndex rf' = <[p := n]> (rf_pNextIndex rf) → next_ok rf'.
Proof.
  intros [Hl Hf] Hp Hn Hx. unfold next_ok. rewrite Hx, Hp, length_insert. split; [done|]. by apply Forall_insert.
Qed.

(** The section after a call returns if its peer is one of the cluster's. *)
Lemma isLeading_reply_total et ok reply rp a rf :
  (rf_Mode rf = Leader → next_ok rf) → (rf_Mode rf = Leader → length (rf_pMatchIndex rf) = rf_peers rf) →
  0 ≤ rp_peer rp < Z.of_nat (rf_peers rf) → 1 ≤ rp_pNextIndex rp → 0 ≤ as_ConflictIndex reply →
  ∃ rf' b, isLeading_reply et ok reply rp a rf = Ret (rf', b) ∧ led rf rf'.
Proof.
  intros Hnext Hmatch Hp Hn Hc. unfold isLeading_reply.
  case_decide; [by eexists _, _|]. case_decide as Hok; [|by eexists _, _].
  destruct Hok as (_ & _ & _ & Hm). specialize (Hnext Hm). specialize (Hmatch Hm). destruct Hnext as [Hlen Hf].
  assert (∀ n, go_update (rf_pNextIndex rf) (rp_peer rp) n = Ret (<[Z.to_nat (rp_peer rp) := n]> (rf_pNextIndex rf))) as Hu.
  { intros n. apply go_update_Ret. unfold zlen. rewrite Hlen. split; [lia|done]. }
  assert (∀ n rf', 1 ≤ n → rf_peers rf' = rf_peers rf → rf_pNextIndex rf' = <[Z.to_nat (rp_peer rp) := n]> (rf_pNextIndex rf) →
    led rf rf') as Hled.
  { intros n rf' Hge Hpe Hx. assert (next_ok rf') by (eapply next_ok_insert; [split; [exact Hlen|exact Hf]|done|exact Hge|done]).
    by split. }
  destruct (as_Success reply); rewrite Hu, bind_ret_l; [|eexists _, _; split; [done|]; eapply Hled; [|done..]; lia].
  assert (0 ≤ len_entries a) by (unfold len_entries; destruct (aa_Entries a); lia).
  assert (∀ n, go_update (rf_pMatchIndex rf) (rp_peer rp) n = Ret (<[Z.to_nat (rp_peer rp) := n]> (rf_pMatchIndex rf))) as ->.
  { intros n. apply go_update_Ret. unfold zlen. rewrite Hmatch. split; [lia|done]. }
  rewrite bind_ret_l.
  set (rf1 := rf <| rf_pNextIndex := _ |> <| rf_pMatchIndex := _ |>).
  rewrite isQuorumReached_spec, bind_ret_l by (cbn; rewrite length_insert; lia).
  case_bool_decide; (eexists _, _; split; [done|]; eapply Hled; [|done..]; lia).
Qed.

(** ** What holds of a cluster of [N] peers *)

Context (N : nat).

Definition call_fine c : Prop :=
  (0 ≤ rp_peer (ac_rp c) < Z.of_nat N ∧ 1 ≤ rp_pNextIndex (ac_rp c)) ∧
  ∀ resp, ac_resp c = Some resp → 0 ≤ as_ConflictIndex resp.

Definition ticker_fine nd : Prop :=
  match nd_ticker nd with TkPeers _ _ p => next_ok (nd_rf nd) ∧ 0 ≤ p | _ => True end.

Record peer_fine nd : Prop := {
  pf_peers : rf_peers (nd_rf nd) = N;
  pf_leader : rf_Mode (nd_rf nd) = Leader → next_ok (nd_rf nd);
  pf_ticker : ticker_fine nd
}.

Record fit s : Prop := {
  ft_peers i nd : sy_nodes s !! i = Some nd → peer_fine nd;
  ft_calls : Forall call_fine (sy_appends s)
}.

Lemma fit_set s s' i nd nd' :
  fit s → sy_nodes s !! i = Some nd → sy_nodes s' = <[i := nd']> (sy_nodes s) → Forall call_fine (sy_appends s') →
  led (nd_rf nd) (nd_rf nd') → ticker_fine nd' → fit s'.
Proof.
  intros [Hp _] Hi Hs Hc [Hpe _ Hl] Ht. destruct (Hp i nd Hi) as [Hn Hlead _]. split; [|done].
  intros j ndj Hj. rewrite Hs in Hj. apply list_lookup_insert_Some in Hj as [(<- & <- & _)|[_ Hj]]; [|by eapply Hp].
  split; [congruence|by apply Hl|done].
Qed.

(** The ticker stays where it is. *)
Lemma fit_same s s' i nd nd' :
  fit s → sy_nodes s !! i = Some nd → sy_nodes s' = <[i := nd']> (sy_nodes s) → sy_appends s' = sy_appends s →
  led (nd_rf nd) (nd_rf nd') → nd_ticker nd' = nd_ticker nd → fit s'.
Proof.
  intros Hf Hi Hs Ha Hl Ht. eapply fit_set; [exact Hf|exact Hi|done|rewrite Ha; apply Hf|done|].
  pose proof (pf_ticker _ (ft_peers _ Hf i nd Hi)) as Hok. unfold ticker_fine in *. rewrite Ht.
  destruct (nd_ticker nd); try done. destruct Hok. split; [by apply Hl|done].
Qed.

Lemma fit_nodes s s' : fit s → sy_nodes s' = sy_nodes s → Forall call_fine (sy_appends s') → fit s'.
Proof. intros [Hp Hc] Hs Ha. split; [by rewrite Hs|done]. Qed.

Lemma call_fine_insert s k c c' :
  fit s → sy_appends s !! k = Some c → ac_rp c' = ac_rp c →
  (∀ resp, ac_resp c' = Some resp → ac_resp c = Some resp ∨ 0 ≤ as_ConflictIndex resp) →
  Forall call_fine (<[k := c']> (sy_appends s)).
Proof.
  intros [_ Hc] Hk Hrp Hresp. apply Forall_insert; [done|]. eapply Forall_lookup_1 in Hk; [|exact Hc].
  destruct Hk as [H1 H2]. split; [by rewrite Hrp|]. intros resp [Hr|Hr]%Hresp; [by apply H2|done].
Qed.

Lemma call_fine_same s k c c' :
  fit s → sy_appends s !! k = Some c → ac_rp c' = ac_rp c → ac_resp c' = ac_resp c →
  Forall call_fine (<[k := c']> (sy_appends s)).
Proof. intros Hf Hk Hrp Hr. eapply call_fine_insert; [done..|]. rewrite Hr. by left. Qed.

(** The two sections that may not return, and when. *)
Definition risky e s : Prop :=
  match e with
  | EAppendArgs k => ∃ c nd, sy_appends s !! k = Some c ∧ sy_nodes s !! ac_src c = Some nd ∧
      zlen (logs (nd_rf nd)) < rp_pNextIndex (ac_rp c)
  | ECommit i => ∃ nd, sy_nodes s !! i = Some nd ∧ zlen (logs (nd_rf nd)) ≤ rf_commitIndex (nd_rf nd)
  | _ => False
  end.

Definition goes_on (P : Prop) (o : outcome (system Cmd)) : Prop :=
  match o with Ret s' => fit s' | _ => P end.

Lemma ticker_section_fit i now nd s P :
  fit s → sy_nodes s !! i = Some nd → goes_on P (ticker_section i now nd s).
Proof.
  intros Hf Hi. pose proof (ft_peers _ Hf i nd Hi) as [Hn Hlead Ht]. unfold ticker_section, ticker_fine in *.
  destruct (nd_ticker nd) as [| | | |t l p] eqn:Etk; cbn [goes_on].
  - eapply fit_set; [done..|apply Hf|apply led_isTimedOut|done].
  - eapply fit_set; [done..|apply Hf|done|]. unfold ticker_fine; cbn. by destruct (isElected_guard _).
  - pose proof (led_isElected_begin (nd_rf nd)) as Hb. destruct (isElected_begin (nd_rf nd)) as [rf' el].
    cbn [goes_on]. eapply fit_set; [done..|apply Hf|exact Hb|done].
  - eapply fit_set; [done..|apply Hf|done|]. unfold ticker_fine, isLeading_read; cbn.
    destruct (getLastLogIndexAndTerm _). case_decide as Hm; [done|].
    split; [by apply Hlead|lia].
  - destruct Ht as [Hok Hp]. destruct Hok as [Hlen Hge]. case_decide as Hend; [cbn; eapply fit_set; [done..|apply Hf|done|done]|].
    case_decide as Hme.
    + cbn. eapply fit_set; [done..|apply Hf|done|]. unfold ticker_fine; cbn. split; [done|lia].
    + unfold isLeading_peer. destruct (go_index_in_range (rf_pNextIndex (nd_rf nd)) p) as (x & Ex & Hx); [unfold zlen; lia|].
      rewrite Ex, !bind_ret_l. cbn [goes_on]. eapply fit_set; [done..| |done|unfold ticker_fine; cbn; split; [done|lia]].
      apply Forall_app. split; [apply Hf|]. apply Forall_singleton. split; [|done]. cbn. split; [lia|].
      eapply Forall_lookup_1 in Hx; [|exact Hge]. done.
Qed.

Lemma vote_return_fit k et reply (v : vote_call) nd s :
  sys_ok s → fit s → sy_nodes s !! vc_src v = Some nd → fit (vote_return k et reply v nd s).
Proof.
  intros Hok Hf Hi. unfold vote_return. destruct (nd_elections nd !! vc_el v) as [el|]; [|done].
  pose proof (led_isElected_reply et reply (nd_rf nd) el (no_rf _ (sys_ok_lookup _ _ _ Hok Hi))) as Hl.
  destruct (isElected_reply et reply (nd_rf nd) el). by eapply fit_same.
Qed.

Lemma append_return_fit k et ok resp c a nd s P :
  sys_ok s → fit s → sy_appends s !! k = Some c → sy_nodes s !! ac_src c = Some nd → 0 ≤ as_ConflictIndex resp →
  goes_on P (append_return k et ok resp c a nd s).
Proof.
  intros Hok Hf Hk Hi Hresp. unfold append_return.
  pose proof (ft_peers _ Hf _ nd Hi) as [Hn Hlead _]. pose proof (no_rf _ (sys_ok_lookup _ _ _ Hok Hi)) as Hinv.
  pose proof (Forall_lookup_1 _ _ _ _ (ft_calls _ Hf) Hk) as [[Hp Hx] _].
  destruct (isLeading_reply_total et ok resp (ac_rp c) a (nd_rf nd)) as (rf' & b & -> & Hl);
    [done|intros Hm; apply (ri_next _ Hinv Hm)|lia|done|done|]. rewrite bind_ret_l. cbn [goes_on].
  eapply fit_set; [done..| |done|]; [by eapply call_fine_same|].
  pose proof (pf_ticker _ (ft_peers _ Hf _ nd Hi)) as Ht. unfold ticker_fine in *. cbn.
  destruct (nd_ticker nd); try done. destruct Ht. split; [by apply Hl|done].
Qed.

Lemma isLeading_args_total rp rf :
  rf_inv rf → 1 ≤ rp_pNextIndex rp ≤ zlen (logs rf) → ∃ a, isLeading_args rp rf = Ret a.
Proof.
  intros Hinv Hn. unfold isLeading_args.
  destruct (sl_slice_get (rf_heap rf) (rf_logs rf) (rp_pNextIndex rp) (zlen (logs rf))) as (w & Hw & _);
    [apply Hinv|lia|unfold zlen; rewrite logs_length by done; lia|].
  destruct (go_index_in_range (logs rf) (rp_pNextIndex rp - 1)) as (x & Hx & _); [lia|].
  destruct (isEntriesIncluded rp); rewrite ?Hw, !bind_ret_l; unfold buildAppendLogArgs; rewrite Hx, bind_ret_l; by eexists.
Qed.

Lemma handleCommits_begin_total rf :
  rf_inv rf → rf_commitIndex rf < zlen (logs rf) → ∃ rf' ct, handleCommits_begin rf = Ret (rf', ct).
Proof.
  intros Hinv Hc. unfold handleCommits_begin. case_decide; [|by eexists _, _].
  destruct (sl_slice_get (rf_heap rf) (rf_logs rf) (rf_appliedIndex rf + 1) (rf_commitIndex rf + 1)) as (w & -> & _);
    [apply Hinv|pose proof (ri_applied _ Hinv); lia|unfold zlen in Hc; rewrite logs_length in Hc by done; lia|].
  rewrite bind_ret_l. by eexists _, _.
Qed.

Lemma AppendLogEntry_total et grow req rf :
  rf_inv rf → ∃ rf' resp b, AppendLogEntry et grow req rf = Ret (rf', resp, b) ∧ 0 ≤ as_ConflictIndex resp.
Proof.
  intros Hinv. destruct (decide (rf_CurrentTerm rf ≤ ar_Term req)) as [Ht|Ht].
  - destruct (AppendLogEntry_spec et grow req rf Hinv Ht) as (rf' & resp & b & E & _ & _ & _ & Hs).
    exists rf', resp, b. split; [done|]. unfold append_spec in Hs.
    pose proof (resolve_from_range (logs rf) (length (logs rf)) (ar_PrevLogTerm req)).
    repeat case_decide; injection Hs as _ _ _ -> _; lia.
  - rewrite AppendLogEntry_stale by lia. by eexists _, _, _.
Qed.

Lemma append_handle_fit k et grow s P :
  sys_ok s → fit s → goes_on P (sys_step (EAppendHandle k et grow) s).
Proof.
  intros Hok Hf. cbn [sys_step]. destruct (sy_appends s !! k) as [c|] eqn:Hk; [|done].
  destruct (sy_nodes s !! Z.to_nat (rp_peer (ac_rp c))) as [nd|] eqn:Hi; [|done].
  destruct (ac_req c) as [req|], (ac_resp c); try done.
  destruct (AppendLogEntry_total et grow req (nd_rf nd) (no_rf _ (sys_ok_lookup _ _ _ Hok Hi))) as (rf' & resp & b & E & Hr).
  rewrite E, bind_ret_l. cbn [goes_on]. apply led_AppendLogEntry in E.
  eapply fit_set; [done..| |done|].
  - eapply call_fine_insert; [done|done|done|]. cbn. intros ? [= <-]. by right.
  - pose proof (pf_ticker _ (ft_peers _ Hf _ nd Hi)) as Ht. unfold ticker_fine in *. cbn.
    destruct (nd_ticker nd); try done. destruct Ht. split; [by apply E|done].
Qed.

Lemma sys_step_fit e s : sys_ok s → fit s → goes_on (risky e s) (sys_step e s).
Proof.
  intros Hok Hf.
  destruct e as [i x|i k grow|i now|i|k et|k et|k et|k|k|k et grow|k et|k et|i|i];
    try (by apply append_handle_fit); cbn [sys_step risky].
  - destruct (sy_nodes s !! i) as [nd|] eqn:Hi; [|done]. unfold Start_read.
    destruct (getLastLogIndexAndTerm _). case_bool_decide; [by eapply fit_same|]. eapply fit_nodes; [exact Hf|done|apply Hf].
  - destruct (sy_nodes s !! i) as [nd|] eqn:Hi; [|done]. destruct (nd_starts nd !! k) as [[t x]|]; [|done].
    eapply fit_same; [done|done|done|done|apply led_Start_append|done].
  - destruct (sy_nodes s !! i) as [nd|] eqn:Hi; [|done]. by apply ticker_section_fit.
  - destruct (sy_nodes s !! i) as [nd|] eqn:Hi; [|done]. destruct (nd_timers nd); [done|].
    eapply fit_same; [done..| |done]. by split.
  - destruct (sy_votes s !! k) as [v|]; [|done]. destruct (sy_nodes s !! vc_dst v) as [nd|] eqn:Hi; [|done].
    pose proof (led_RequestVote_section et (vc_args v) (nd_rf nd) (vc_pc v)) as Hr.
    destruct (RequestVote_section _ _ _ _). by eapply fit_same.
  - destruct (sy_votes s !! k) as [v|]; [|done]. destruct (sy_nodes s !! vc_src v) as [nd|] eqn:Hi; [|done].
    destruct (vc_open v), (vc_pc v); try done. by apply vote_return_fit.
  - destruct (sy_votes s !! k) as [v|]; [|done]. destruct (sy_nodes s !! vc_src v) as [nd|] eqn:Hi; [|done].
    destruct (vc_open v); [|done]. by apply vote_return_fit.
  - destruct (sy_appends s !! k) as [c|] eqn:Hk; [|done]. destruct (sy_nodes s !! ac_src c) as [nd|] eqn:Hi; [|done].
    destruct (ac_args c); [done|]. pose proof (Forall_lookup_1 _ _ _ _ (ft_calls _ Hf) Hk) as [[_ Hn] _].
    destruct (decide (rp_pNextIndex (ac_rp c) ≤ zlen (logs (nd_rf nd)))) as [Hle|Hgt].
    + destruct (isLeading_args_total (ac_rp c) (nd_rf nd)) as [a ->]; [by apply (no_rf _ (sys_ok_lookup _ _ _ Hok Hi))|lia|].
      rewrite bind_ret_l. cbn [goes_on]. eapply fit_nodes; [done|done|]. by eapply call_fine_same.
    + destruct (isLeading_args (ac_rp c) (nd_rf nd)) as [a| |]; cbn [goes_on].
      * change (fit (s <| sy_appends := <[k := c <| ac_args := Some a |>]> (sy_appends s) |>)).
        eapply fit_nodes; [done|done|]. by eapply call_fine_same.
      * exists c, nd. split_and!; [done|done|lia].
      * exists c, nd. split_and!; [done|done|lia].
  - destruct (sy_appends s !! k) as [c|] eqn:Hk; [|done]. destruct (sy_nodes s !! ac_src c) as [nd|]; [|done].
    destruct (ac_args c), (ac_req c), (ac_open c); try done.
    eapply fit_nodes; [done|done|]. by eapply call_fine_same.
  - destruct (sy_appends s !! k) as [c|] eqn:Hk; [|done]. destruct (sy_nodes s !! ac_src c) as [nd|] eqn:Hi; [|done].
    pose proof (Forall_lookup_1 _ _ _ _ (ft_calls _ Hf) Hk) as [_ Hresp].
    destruct (ac_args c), (ac_resp c), (ac_open c); try done. apply append_return_fit; auto.
  - destruct (sy_appends s !! k) as [c|] eqn:Hk; [|done]. destruct (sy_nodes s !! ac_src c) as [nd|] eqn:Hi; [|done].
    destruct (ac_args c), (ac_open c); try done. by apply append_return_fit.
  - destruct (sy_nodes s !! i) as [nd|] eqn:Hi; [|done]. destruct (nd_commits nd), (nd_turn nd); try done.
    destruct (decide (rf_commitIndex (nd_rf nd) < zlen (logs (nd_rf nd)))) as [Hlt|Hge].
    + destruct (handleCommits_begin_total (nd_rf nd)) as (rf' & ct & E); [by apply (no_rf _ (sys_ok_lookup _ _ _ Hok Hi))|done|].
      rewrite E, bind_ret_l. eapply fit_same; [done|done|done|done|by eapply led_handleCommits_begin|done].
    + destruct (handleCommits_begin (nd_rf nd)) as [[rf' ct]| |] eqn:E; cbn [goes_on].
      * rewrite bind_ret_l. cbn [goes_on]. eapply fit_same; [done|done|done|done|by eapply led_handleCommits_begin|done].
      * exists nd. split; [done|lia].
      * exists nd. split; [done|lia].
  - destruct (sy_nodes s !! i) as [nd|] eqn:Hi; [|done]. destruct (nd_turn nd) as [ct|]; [|done].
    destruct (handleCommits_next _ ct) as [[msg ct']|]; by eapply fit_same.
Qed.
End total.

(** ** Runs *)

Section runs.
Context {Cmd : Type}.
Implicit Types (s : system Cmd) (e : event Cmd).

Lemma goes_on_Ret N (P : Prop) (o : outcome (system Cmd)) s : goes_on N P o → o = Ret s → fit N s.
Proof. by intros H ->. Qed.

Lemma sys_run_fit N es s s' : sys_ok s → fit N s → sys_run es s = Ret s' → fit N s'.
Proof.
  revert s. induction es as [|e es IH]; intros s Hok Hf; cbn; [by intros [= <-]|].
  intros (s1 & Hstep & Hrun)%bind_ret_inv. eapply IH; [by eapply sys_step_ok| |exact Hrun].
  eapply goes_on_Ret; [by apply sys_step_fit|exact Hstep].
Qed.

Lemma sys_init_fit ets grow : fit (length ets) (sys_init (Cmd := Cmd) ets grow).
Proof.
  split; [|constructor]. intros i nd Hi. cbn in Hi. apply list_lookup_imap_Some in Hi as (et & _ & ->).
  unfold init_node, Make. destruct (sl_append _ _ _ _ _). by split.
Qed.

End runs.

