(* ===== verification/RaftLog.v ===== *)
(** * How a log may change

    Of the steps of a cluster two change the entries of a log: the second half of a Start
    appends one, and an accepted request replaces everything behind its previous index.  A
    peer that stays leader therefore only ever appends to its log, which Raft calls Leader
    Append-Only. *)
From stdpp Require Import base tactics numbers list strings list_numbers fin_sets gmap.
From S2P Require Import Prelude GoSlice RaftNode RaftSpec RaftSystem RaftSafety RaftElection RaftRaces.

Section log.
Context {Cmd : Type}.
Implicit Types (nd : node Cmd) (rf : Raft Cmd) (s : system Cmd) (e : event Cmd).

(** ** Sections that leave the log alone *)

(** The transitions listed at the head of raft.go: a follower that times out becomes a candidate,
    a candidate leader or follower, a leader follower. *)
Definition mode_next (m m' : Mode) : Prop :=
  match m, m' with Leader, Candidate | Follower, Leader => False | _, _ => True end.

Lemma mode_next_refl m : mode_next m m.
Proof. by destruct m. Qed.

Lemma mode_next_follower m : mode_next m Follower.
Proof. by destruct m. Qed.

Hint Resolve mode_next_refl mode_next_follower : core.

Record same_log rf rf' : Prop := {
  sl_heap : rf_heap rf' = rf_heap rf;
  sl_logs : rf_logs rf' = rf_logs rf;
  sl_mode : mode_next (rf_Mode rf) (rf_Mode rf')
}.

#[export] Instance same_log_refl : Reflexive same_log.
Proof. by split. Qed.

Lemma same_log_logs rf rf' : same_log rf rf' → logs rf' = logs rf.
Proof. intros [Hh Hl _]. unfold logs. by rewrite Hh, Hl. Qed.

Lemma same_log_isTimedOut now rf : same_log rf (isTimedOut now rf).
Proof.
  unfold isTimedOut. case_decide as Hm; [done|].
  case_decide; [|done]. split; cbn; by rewrite ?Hm.
Qed.

Lemma same_log_isElected_begin rf : same_log rf (isElected_begin rf).1.
Proof. unfold isElected_begin. destruct (getLastLogIndexAndTerm _). by split; cbn. Qed.

Lemma same_log_isElected_reply et reply rf el : same_log rf (isElected_reply et reply rf el).1.
Proof.
  unfold isElected_reply. case_decide as Hm; [by split; cbn|]. case_decide; [by split; cbn|]. cbn [fst].
  destruct (isMajority rf _); [|done]. unfold setToLeader. destruct (getLastLogIndexAndTerm rf).
  split; cbn; by rewrite ?Hm.
Qed.

Lemma same_log_RequestVote_section et args rf pc :
  same_log rf (RequestVote_section et args rf pc).1.
Proof.
  destruct pc; cbn [RequestVote_section]; [destruct (getLastLogIndexAndTerm rf)|..];
    repeat case_decide; by split; cbn.
Qed.

Lemma same_log_isLeading_reply et ok reply rp a rf rf' b :
  isLeading_reply et ok reply rp a rf = Ret (rf', b) → same_log rf rf'.
Proof.
  unfold isLeading_reply. case_decide; [by intros [= <- <-]; split; cbn|].
  case_decide; [|by intros [= <- <-]]. destruct (as_Success reply).
  - intros (next & _ & (matched & _ & (q & _ & E)%bind_ret_inv)%bind_ret_inv)%bind_ret_inv.
    by destruct q; injection E as <- <-; split; cbn.
  - intros (next & _ & E)%bind_ret_inv. by injection E as <- <-; split; cbn.
Qed.

Lemma same_log_handleCommits_begin rf rf' ct :
  handleCommits_begin rf = Ret (rf', ct) → same_log rf rf'.
Proof.
  unfold handleCommits_begin. case_decide; [|by intros [= <- <-]].
  intros (w & _ & E)%bind_ret_inv. by injection E as <- <-; split; cbn.
Qed.

(** ** What a step may do to a log *)

(** The peer took in request [req]: its log agreed with the leader's up to the previous
    index, and everything behind gives way to the entries of the request. *)
Record accepted (req : AppendLogRequest Cmd) rf rf' : Prop := {
  acc_term : rf_CurrentTerm rf ≤ ar_Term req;
  acc_adopt : rf_CurrentTerm rf' = ar_Term req;
  acc_follower : rf_Mode rf' = Follower;
  acc_agree : prev_matches (logs rf) req;
  acc_replace : logs rf' = take (S (Z.to_nat (ar_PrevLogIndex req))) (logs rf) ++ ar_Entries req
}.

(** What one step does to peer [i]: its mode stays or takes a listed transition; its entries are
    the same, one more, of a pending Start, or those of a request on its way to [i], which it
    accepts. *)
Definition log_step s i rf rf' : Prop :=
  mode_next (rf_Mode rf) (rf_Mode rf') ∧
  (logs rf' = logs rf ∨
  (∃ nd k t c, sy_nodes s !! i = Some nd ∧ nd_starts nd !! k = Some (t, c) ∧
     logs rf' = logs rf ++ [{| le_Term := t; le_Command := Some c |}]) ∨
  (∃ call req, call ∈ sy_appends s ∧ ac_req call = Some req ∧ Z.to_nat (rp_peer (ac_rp call)) = i ∧
     accepted req rf rf')).

Lemma AppendLogEntry_log et grow req rf rf' reply b :
  rf_inv rf → AppendLogEntry et grow req rf = Ret (rf', reply, b) →
  mode_next (rf_Mode rf) (rf_Mode rf') ∧ (logs rf' = logs rf ∨ accepted req rf rf').
Proof.
  intros Hinv E. destruct (decide (rf_CurrentTerm rf ≤ ar_Term req)) as [Ht|Ht].
  - destruct (AppendLogEntry_spec et grow req rf Hinv Ht) as (rf1 & reply1 & b1 & E1 & _ & Had & _ & Hs).
    rewrite E in E1. injection E1 as <- <- <-. unfold append_spec in Hs.
    split; [rewrite (proj1 Had); done|].
    repeat case_decide; injection Hs as Hl _ _ _ _; try by left.
    right. destruct Had as (? & ? & ?). by split.
  - rewrite AppendLogEntry_stale in E by lia. injection E as <- <- <-. by split; [|left].
Qed.

(** ** One step of the cluster *)

Definition log_steps s s' : Prop :=
  ∀ i nd nd', sy_nodes s !! i = Some nd → sy_nodes s' !! i = Some nd' →
    log_step s i (nd_rf nd) (nd_rf nd').

(** A step works on one peer. *)
Lemma log_steps_set s s' i nd nd1 :
  sy_nodes s !! i = Some nd → sy_nodes s' = <[i := nd1]> (sy_nodes s) →
  log_step s i (nd_rf nd) (nd_rf nd1) → log_steps s s'.
Proof.
  intros Hi Hs Hl j ndj ndj' Hj Hj'. rewrite Hs in Hj'.
  apply list_lookup_insert_Some in Hj' as [(<- & <- & _)|[_ Hj']].
  - rewrite Hi in Hj. by injection Hj as <-.
  - rewrite Hj in Hj'. injection Hj' as <-. by split; [|left].
Qed.

Lemma log_steps_same s s' i nd nd1 :
  sy_nodes s !! i = Some nd → sy_nodes s' = <[i := nd1]> (sy_nodes s) →
  same_log (nd_rf nd) (nd_rf nd1) → log_steps s s'.
Proof. intros Hi Hs Hl. eapply log_steps_set; [done..|]. split; [apply Hl|left; by apply same_log_logs]. Qed.

Lemma log_steps_nodes s s' : sy_nodes s' = sy_nodes s → log_steps s s'.
Proof. intros Hs i nd nd' Hi Hi'. rewrite Hs, Hi in Hi'. injection Hi' as <-. by split; [|left]. Qed.

Lemma ticker_section_log i now nd s s' :
  sy_nodes s !! i = Some nd → ticker_section i now nd s = Ret s' → log_steps s s'.
Proof.
  intros Hi. unfold ticker_section. destruct (nd_ticker nd) as [| | | |t l p].
  - intros [= <-]. eapply log_steps_same; [done..|]. apply same_log_isTimedOut.
  - intros [= <-]. by eapply log_steps_same.
  - pose proof (same_log_isElected_begin (nd_rf nd)) as Hb.
    destruct (isElected_begin (nd_rf nd)) as [rf' el]. intros [= <-].
    by eapply log_steps_same.
  - intros [= <-]. by eapply log_steps_same.
  - case_decide; [intros [= <-]; by eapply log_steps_same|].
    case_decide; [intros [= <-]; by eapply log_steps_same|].
    intros (rp & _ & E)%bind_ret_inv. injection E as <-. by eapply log_steps_same.
Qed.

Lemma vote_return_log k et reply c nd s :
  sy_nodes s !! vc_src c = Some nd → log_steps s (vote_return k et reply c nd s).
Proof.
  intros Hi. unfold vote_return.
  destruct (nd_elections nd !! vc_el c) as [el|]; [|by apply log_steps_nodes].
  pose proof (same_log_isElected_reply et reply (nd_rf nd) el) as Hr.
  destruct (isElected_reply et reply (nd_rf nd) el). by eapply log_steps_same.
Qed.

Lemma append_return_log k et ok resp c a nd s s' :
  sy_nodes s !! ac_src c = Some nd → append_return k et ok resp c a nd s = Ret s' →
  log_steps s s'.
Proof.
  intros Hi. unfold append_return. intros ([rf' b] & Hr & E)%bind_ret_inv. injection E as <-.
  eapply log_steps_same; [done..|]. by eapply same_log_isLeading_reply.
Qed.

Lemma append_handle_log k et grow s s' :
  sys_ok s → sys_step (EAppendHandle k et grow) s = Ret s' → log_steps s s'.
Proof.
  intros Hok. cbn [sys_step]. destruct (sy_appends s !! k) as [c|] eqn:Hk;
    [|intros [= <-]; by apply log_steps_nodes].
  destruct (sy_nodes s !! Z.to_nat (rp_peer (ac_rp c))) as [nd|] eqn:Hi;
    [|intros [= <-]; by apply log_steps_nodes].
  destruct (ac_req c) as [req|] eqn:Hreq, (ac_resp c);
    try (intros [= <-]; by apply log_steps_nodes).
  intros ([[rf' resp] b] & Hr & E)%bind_ret_inv. injection E as <-.
  eapply log_steps_set; [exact Hi|done|].
  destruct (AppendLogEntry_log _ _ _ _ _ _ _ (no_rf _ (sys_ok_lookup _ _ _ Hok Hi)) Hr) as [Hm [Hl|Ha]];
    (split; [done|]); [by left|].
  right; right. exists c, req. split_and!; [by eapply list_elem_of_lookup_2|done..].
Qed.

Lemma sys_step_log e s s' : sys_ok s → sys_step e s = Ret s' → log_steps s s'.
Proof.
  intros Hok.
  assert (∀ s', Ret s = Ret s' → log_steps s s') as Hstay by (intros ? [= <-]; by apply log_steps_nodes).
  destruct e as [i c|i k grow|i now|i|k et|k et|k et|k|k|k et grow|k et|k et|i|i];
    try (by apply append_handle_log); cbn [sys_step].
  - destruct (sy_nodes s !! i) as [nd|] eqn:Hi; [|exact (Hstay _)]. unfold Start_read.
    destruct (getLastLogIndexAndTerm _).
    case_bool_decide; intros [= <-]; [by eapply log_steps_same|by apply log_steps_nodes].
  - destruct (sy_nodes s !! i) as [nd|] eqn:Hi; [|exact (Hstay _)].
    destruct (nd_starts nd !! k) as [[t c]|] eqn:Hk; [|exact (Hstay _)]. intros [= <-].
    eapply log_steps_set; [exact Hi|done|]. split; [cbn; unfold Start_append; by destruct (sl_append _ _ _ _ _)|].
    right; left. exists nd, k, t, c. split_and!; [done..|].
    apply Start_append_logs, (sys_ok_lookup _ _ _ Hok Hi).
  - destruct (sy_nodes s !! i) as [nd|] eqn:Hi; [|exact (Hstay _)]. by apply ticker_section_log.
  - destruct (sy_nodes s !! i) as [nd|] eqn:Hi; [|exact (Hstay _)].
    destruct (nd_timers nd); [exact (Hstay _)|]. intros [= <-]. by eapply log_steps_same.
  - destruct (sy_votes s !! k) as [c|]; [|exact (Hstay _)].
    destruct (sy_nodes s !! vc_dst c) as [nd|] eqn:Hi; [|exact (Hstay _)].
    pose proof (same_log_RequestVote_section et (vc_args c) (nd_rf nd) (vc_pc c)) as Hr.
    destruct (RequestVote_section _ _ _ _). intros [= <-]. by eapply log_steps_same.
  - destruct (sy_votes s !! k) as [c|]; [|exact (Hstay _)].
    destruct (sy_nodes s !! vc_src c) as [nd|] eqn:Hi; [|exact (Hstay _)].
    destruct (vc_open c), (vc_pc c); try exact (Hstay _). intros [= <-]. by apply vote_return_log.
  - destruct (sy_votes s !! k) as [c|]; [|exact (Hstay _)].
    destruct (sy_nodes s !! vc_src c) as [nd|] eqn:Hi; [|exact (Hstay _)].
    destruct (vc_open c); [|exact (Hstay _)]. intros [= <-]. by apply vote_return_log.
  - destruct (sy_appends s !! k) as [c|]; [|exact (Hstay _)].
    destruct (sy_nodes s !! ac_src c) as [nd|]; [|exact (Hstay _)]. destruct (ac_args c); [exact (Hstay _)|].
    intros (a & _ & E)%bind_ret_inv. injection E as <-. by apply log_steps_nodes.
  - destruct (sy_appends s !! k) as [c|]; [|exact (Hstay _)].
    destruct (sy_nodes s !! ac_src c) as [nd|]; [|exact (Hstay _)].
    destruct (ac_args c), (ac_req c), (ac_open c); try exact (Hstay _).
    intros [= <-]. by apply log_steps_nodes.
  - destruct (sy_appends s !! k) as [c|]; [|exact (Hstay _)].
    destruct (sy_nodes s !! ac_src c) as [nd|] eqn:Hi; [|exact (Hstay _)].
    destruct (ac_args c), (ac_resp c), (ac_open c); try exact (Hstay _). by apply append_return_log.
  - destruct (sy_appends s !! k) as [c|]; [|exact (Hstay _)].
    destruct (sy_nodes s !! ac_src c) as [nd|] eqn:Hi; [|exact (Hstay _)].
    destruct (ac_args c), (ac_open c); try exact (Hstay _). by apply append_return_log.
  - destruct (sy_nodes s !! i) as [nd|] eqn:Hi; [|exact (Hstay _)].
    destruct (nd_commits nd), (nd_turn nd); try exact (Hstay _).
    intros ([rf' ct] & Hr & E)%bind_ret_inv. injection E as <-.
    eapply log_steps_same; [done..|]. by eapply same_log_handleCommits_begin.
  - destruct (sy_nodes s !! i) as [nd|] eqn:Hi; [|exact (Hstay _)].
    destruct (nd_turn nd) as [ct|]; [|exact (Hstay _)].
    destruct (handleCommits_next _ ct) as [[msg ct']|]; intros [= <-]; by eapply log_steps_same.
Qed.

(** C4: in every run a peer that is leader before and after a step has at most appended to
    its log; and whatever peer it is, a step that does not just append to its log accepts a
    request on its way to it, of a term not behind its own, whose previous entry its log has. *)
Theorem leader_append_only es ets grow s e s' i nd nd' :
  sys_run es (sys_init ets grow) = Ret s → sys_step e s = Ret s' →
  sy_nodes s !! i = Some nd → sy_nodes s' !! i = Some nd' →
  (rf_Mode (nd_rf nd') = Leader → logs (nd_rf nd) `prefix_of` logs (nd_rf nd')) ∧
  (¬ logs (nd_rf nd) `prefix_of` logs (nd_rf nd') →
     ∃ call req, call ∈ sy_appends s ∧ ac_req call = Some req ∧
       Z.to_nat (rp_peer (ac_rp call)) = i ∧ accepted req (nd_rf nd) (nd_rf nd')).
Proof.
  intros Hrun Hstep Hi Hi'. pose proof (sys_run_ok es _ s (sys_init_ok ets grow) Hrun) as Hok.
  destruct (sys_step_log e s s' Hok Hstep i nd nd' Hi Hi')
    as [_ [->|[(? & ? & ? & ? & _ & _ & ->)|(call & req & Hin & Hreq & Hp & Hacc)]]].
  - split; [done|]. intros Hn. by destruct Hn.
  - split; [by intros _; eexists|]. intros Hn. destruct Hn. by eexists.
  - split; [|by exists call, req]. rewrite (acc_follower _ _ _ Hacc). done.
Qed.

(** Whatever a step does, a peer's mode stays or takes one of the transitions listed at the
    head of raft.go: no follower becomes leader without being a candidate, and no leader a
    candidate. *)
Theorem mode_transitions es ets grow s e s' i nd nd' :
  sys_run es (sys_init ets grow) = Ret s → sys_step e s = Ret s' →
  sy_nodes s !! i = Some nd → sy_nodes s' !! i = Some nd' →
  mode_next (rf_Mode (nd_rf nd)) (rf_Mode (nd_rf nd')).
Proof.
  intros Hrun Hstep Hi Hi'. pose proof (sys_run_ok es _ s (sys_init_ok ets grow) Hrun) as Hok.
  apply (sys_step_log e s s' Hok Hstep i nd nd' Hi Hi').
Qed.
End log.

(** Peer 1 of [deposed], leader of term 2, gives way to the request of peer 0. *)
Lemma leader_append_only_witness :
  let es := deposed ++ [EAppendArgs 0; EAppendMarshall 0] in
  match sys_run es (sys_init [0; 0; 0] 0) with
  | Ret s =>
      match sys_step (EAppendHandle 0 1000 0) s with
      | Ret s' =>
          match sy_nodes s !! 1%nat, sy_nodes s' !! 1%nat with
          | Some nd, Some nd' =>
              rf_Mode (nd_rf nd) = Leader ∧
              ∃ call req, call ∈ sy_appends s ∧ ac_req call = Some req ∧
                accepted req (nd_rf nd) (nd_rf nd')
          | _, _ => False
          end
      | _ => False
      end
  | _ => False
  end.
Proof.
  cbv zeta. set (es := deposed ++ [EAppendArgs 0; EAppendMarshall 0]).
  assert (match sys_run es (sys_init [0; 0; 0] 0) with
          | Ret s => (λ s', ((λ nd, (rf_Mode (nd_rf nd), logs (nd_rf nd))) <$> sy_nodes s !! 1%nat,
                             (λ nd, logs (nd_rf nd)) <$> sy_nodes s' !! 1%nat)) <$>
                       sys_step (EAppendHandle 0 1000 0) s
          | Panic w => Panic w | Fatal m => Fatal m end =
          Ret (Some (Leader, [LogEntry_zero; {| le_Term := 2; le_Command := Some 200 |}]),
               Some [LogEntry_zero; {| le_Term := 1; le_Command := Some 100 |}]))
    as Hrun by (vm_compute; reflexivity).
  destruct (sys_run es (sys_init [0; 0; 0] 0)) as [s|w|m] eqn:E; [|discriminate Hrun..].
  destruct (sys_step (EAppendHandle 0 1000 0) s) as [s'|w|m] eqn:E'; [|discriminate Hrun..].
  destruct (sy_nodes s !! 1%nat) as [nd|] eqn:Hi; [|discriminate Hrun].
  cbn in Hrun. destruct (sy_nodes s' !! 1%nat) as [nd'|] eqn:Hi'; [|discriminate Hrun].
  cbn in Hrun. injection Hrun as Hm Hl Hl'. split; [exact Hm|].
  destruct (leader_append_only es [0; 0; 0] 0 s _ s' 1 nd nd' E E' Hi Hi') as [_ H].
  assert (¬ logs (nd_rf nd) `prefix_of` logs (nd_rf nd')) as Hcut
    by (rewrite Hl, Hl'; clear; intros [l Hx]; discriminate Hx).
  destruct (H Hcut) as (call & req & H1 & H2 & _ & H3). exists call, req. exact (conj H1 (conj H2 H3)).
Defined.
