(* ===== verification/RaftValidity.v ===== *)
(** * What the cluster applies was submitted

    Every command a peer of [RaftSystem] delivers was given to [Start] by a client, in every
    run.  The arrays behind the log are shared with the windows of requests and of pending
    applications and are overwritten in place, and a window may reach beyond the log into an
    array's old contents; the invariant follows the cells of the arrays. *)
From stdpp Require Import base tactics numbers list strings list_numbers fin_sets gmap.
From S2P Require Import Prelude GoSlice RaftNode RaftSpec RaftSystem RaftSafety RaftElection.

Section cells.
Context {Cmd : Type}.
Implicit Types (rf : Raft Cmd) (h : heap (LogEntry Cmd)) (w : slice) (sub : list Cmd).

Definition cell h (a i : nat) : option (LogEntry Cmd) := h !! a ≫= λ l, l !! i.

(** An entry that holds a command of [sub]. *)
Definition real sub (e : LogEntry Cmd) : Prop := ∃ c, le_Command e = Some c ∧ c ∈ sub.

Definition real_cell sub h (a i : nat) : Prop := ∃ e, cell h a i = Some e ∧ real sub e.

Definition real_window sub h w : Prop :=
  ∀ k, (k < sl_len w)%nat → real_cell sub h (sl_arr w) (sl_off w + k)%nat.

Lemma real_mono sub sub' e : sub ⊆ sub' → real sub e → real sub' e.
Proof. intros Hs (c & ? & ?). exists c. auto. Qed.

Lemma real_cell_mono sub sub' h a i : sub ⊆ sub' → real_cell sub h a i → real_cell sub' h a i.
Proof. intros Hs (e & ? & ?). exists e. eauto using real_mono. Qed.

Lemma sl_get_cell h w (k : nat) :
  (k < sl_len w)%nat → sl_get h w !! k = cell h (sl_arr w) (sl_off w + k).
Proof.
  intros Hk. unfold sl_get, sl_array, cell. rewrite lookup_take, decide_True by done.
  rewrite lookup_drop. by destruct (h !! sl_arr w).
Qed.

Lemma real_window_get sub h w : real_window sub h w → Forall (real sub) (sl_get h w).
Proof.
  intros Hw. apply Forall_lookup. intros k e Hk.
  assert (k < sl_len w)%nat as Hlt.
  { apply lookup_lt_Some in Hk. unfold sl_get in Hk. rewrite length_take in Hk. lia. }
  rewrite sl_get_cell in Hk by done. destruct (Hw k Hlt) as (e' & He & Hr). congruence.
Qed.

(** Appending keeps a cell or writes one of the new entries into it. *)
Lemma cell_append grow zero h s es a i e :
  sl_wf h s → cell h a i = Some e →
  ∃ e', cell (sl_append grow zero h s es).1 a i = Some e' ∧ (e' = e ∨ e' ∈ es).
Proof.
  intros [Hs Hle] Hc. unfold sl_append. case_decide as Hfit; cbn [fst]; unfold cell in *.
  - rewrite list_lookup_insert. case_decide as Ha; [|eauto]. destruct Ha as [<- _]. cbn.
    apply bind_Some in Hc as (l & Hl & Hi). unfold sl_array in *. rewrite Hl in *. cbn in *.
    set (k := (sl_off s + sl_len s)%nat) in *.
    destruct (decide (i < k)%nat).
    { exists e. split; [|by left]. rewrite lookup_app_l by (rewrite length_take; lia).
      by rewrite lookup_take, decide_True. }
    rewrite lookup_app_r by (rewrite length_take; lia). rewrite length_take, Nat.min_l by lia.
    destruct (decide (i < k + length es)%nat).
    + rewrite lookup_app_l by lia. destruct (lookup_lt_is_Some_2 es (i - k)) as [e' He']; [lia|].
      exists e'. split; [done|]. right. by eapply list_elem_of_lookup_2.
    + exists e. split; [|by left]. rewrite lookup_app_r by lia. rewrite lookup_drop, <- Hi. f_equal. lia.
  - apply bind_Some in Hc as (l & Hl & Hi). exists e. split; [|by left].
    rewrite lookup_app_l by (by eapply lookup_lt_Some). by rewrite Hl.
Qed.

Lemma real_cell_append sub grow zero h s es a i :
  sl_wf h s → Forall (real sub) es → real_cell sub h a i →
  real_cell sub (sl_append grow zero h s es).1 a i.
Proof.
  intros Hs Hes (e & He & Hr). destruct (cell_append grow zero h s es a i e Hs He) as (e' & He' & Hor).
  exists e'. split; [done|]. destruct Hor as [->|Hin]; [done|]. rewrite Forall_forall in Hes. by apply Hes.
Qed.

(** ** The log, and as far as the commit index reaches behind it *)

Definition log_real sub rf : Prop :=
  ∀ j, (1 ≤ j)%nat → (j < sl_len (rf_logs rf))%nat ∨ Z.of_nat j ≤ rf_commitIndex rf →
  real_cell sub (rf_heap rf) (sl_arr (rf_logs rf)) (sl_off (rf_logs rf) + j)%nat.

Lemma log_real_append sub grow rf kept es :
  sl_wf (rf_heap rf) (rf_logs rf) → log_real sub rf → Forall (real sub) es →
  sl_arr kept = sl_arr (rf_logs rf) → sl_off kept = sl_off (rf_logs rf) →
  (sl_len kept ≤ sl_len (rf_logs rf))%nat →
  let '(h, s) := sl_append grow LogEntry_zero (rf_heap rf) kept es in
  log_real sub (rf <| rf_heap := h |> <| rf_logs := s |>).
Proof.
  intros [Ha Hle] Hl Hes Hka Hko Hkl.
  assert (sl_wf (rf_heap rf) kept) as Hk by (unfold sl_wf, sl_array in *; rewrite Hka, Hko; lia).
  pose proof (sl_append_get grow LogEntry_zero (rf_heap rf) kept es Hk) as Hget.
  pose proof (sl_get_length _ _ Hk) as Hlen.
  pose proof (λ a i, real_cell_append sub grow LogEntry_zero (rf_heap rf) kept es a i Hk Hes) as Hcell.
  assert (sl_len (sl_append grow LogEntry_zero (rf_heap rf) kept es).2 = (sl_len kept + length es)%nat) as Hsl.
  { unfold sl_append. case_decide; cbn; lia. }
  assert (∀ j, (sl_len kept + length es ≤ j)%nat →
    real_cell sub (rf_heap rf) (sl_arr (rf_logs rf)) (sl_off (rf_logs rf) + j) →
    sl_arr (sl_append grow LogEntry_zero (rf_heap rf) kept es).2 = sl_arr (rf_logs rf) ∧
    sl_off (sl_append grow LogEntry_zero (rf_heap rf) kept es).2 = sl_off (rf_logs rf)) as Hbeyond.
  { intros j Hj (e & He & _). unfold sl_append. case_decide as Hfit; [done|]. destruct Hfit.
    apply bind_Some in He as (l & Hla & He). apply lookup_lt_Some in He.
    unfold sl_array. rewrite Hka, Hla. cbn. lia. }
  destruct (sl_append grow LogEntry_zero (rf_heap rf) kept es) as [h s]. cbn [fst snd] in *.
  intros j Hj. cbn. intros Hor. destruct (decide (j < sl_len s)%nat) as [Hjs|Hjs].
  - destruct (lookup_lt_is_Some_2 (sl_get (rf_heap rf) kept ++ es) j) as [e Ej]; [rewrite length_app; lia|].
    exists e. split; [by rewrite <- sl_get_cell, Hget|].
    apply lookup_app_Some in Ej as [Ej|[_ Ej]].
    + assert (j < sl_len kept)%nat by (apply lookup_lt_Some in Ej; lia).
      rewrite sl_get_cell, Hka, Hko in Ej by done.
      destruct (Hl j Hj) as (e' & He' & Hr); [lia|]. congruence.
    + rewrite Forall_forall in Hes. apply Hes. by eapply list_elem_of_lookup_2.
  - assert (real_cell sub (rf_heap rf) (sl_arr (rf_logs rf)) (sl_off (rf_logs rf) + j)) as Hold
      by (apply Hl; [done|lia]).
    destruct (Hbeyond j) as [-> ->]; [lia|done|]. by apply Hcell.
Qed.

(** ** Sections *)

(** What a section keeps: the log and every window of submitted commands. *)
Record fits sub rf rf' : Prop := {
  ft_log : log_real sub rf → log_real sub rf';
  ft_window w : real_window sub (rf_heap rf) w → real_window sub (rf_heap rf') w
}.

#[export] Instance fits_preorder sub : PreOrder (fits sub).
Proof. split; [by split|]. intros x y z [H1 H2] [K1 K2]. split; auto. Qed.

Lemma fits_same sub rf rf' :
  rf_heap rf' = rf_heap rf → rf_logs rf' = rf_logs rf → rf_commitIndex rf' = rf_commitIndex rf → fits sub rf rf'.
Proof. intros Hh Hl Hc. split; [unfold log_real; by rewrite Hh, Hl, Hc|by rewrite Hh]. Qed.

(** The commit index moves within the log. *)
Lemma fits_commit sub rf ci :
  rf_inv rf → ci ≤ zlen (logs rf) - 1 → fits sub rf (rf <| rf_commitIndex := ci |>).
Proof.
  intros Hinv Hci. split; [|done]. intros Hl j Hj [Hor|Hor]; cbn in Hor; apply Hl; auto.
  left. unfold zlen in Hci. rewrite (logs_length rf Hinv) in Hci. lia.
Qed.

Lemma fits_isTimedOut sub now rf : fits sub rf (isTimedOut now rf).
Proof. unfold isTimedOut. repeat case_decide; by apply fits_same. Qed.

Lemma fits_isElected_begin sub rf : fits sub rf (isElected_begin rf).1.
Proof. unfold isElected_begin. destruct (getLastLogIndexAndTerm _). by apply fits_same. Qed.

Lemma fits_isElected_reply sub et reply rf el : fits sub rf (isElected_reply et reply rf el).1.
Proof.
  unfold isElected_reply. repeat (case_decide; [by apply fits_same|]). cbn [fst].
  unfold setToLeader. destruct (isMajority rf _), (getLastLogIndexAndTerm rf); by apply fits_same.
Qed.

Lemma fits_RequestVote_section sub et args rf pc : fits sub rf (RequestVote_section et args rf pc).1.
Proof.
  destruct pc; cbn [RequestVote_section]; [destruct (getLastLogIndexAndTerm rf); repeat case_decide| |case_decide|];
    by apply fits_same.
Qed.

Lemma fits_append sub grow rf kept es :
  sl_wf (rf_heap rf) (rf_logs rf) → Forall (real sub) es →
  sl_arr kept = sl_arr (rf_logs rf) → sl_off kept = sl_off (rf_logs rf) →
  (sl_len kept ≤ sl_len (rf_logs rf))%nat →
  let '(h, s) := sl_append grow LogEntry_zero (rf_heap rf) kept es in
  fits sub rf (rf <| rf_heap := h |> <| rf_logs := s |>).
Proof.
  intros Hwf Hes Hka Hko Hkl.
  assert (sl_wf (rf_heap rf) kept) as Hk.
  { destruct Hwf as [Ha Hle]. unfold sl_wf, sl_array in *. rewrite Hka, Hko. lia. }
  pose proof (λ Hl, log_real_append sub grow rf kept es Hwf Hl Hes Hka Hko Hkl) as Hlog.
  pose proof (λ a i, real_cell_append sub grow LogEntry_zero (rf_heap rf) kept es a i Hk Hes) as Hcell.
  destruct (sl_append _ _ _ _ _) as [h s]. split; [exact Hlog|]. intros w Hw k Hlt. cbn. by apply Hcell, Hw.
Qed.

Lemma fits_Start_append sub grow t c rf : rf_inv rf → c ∈ sub → fits sub rf (Start_append grow t c rf).
Proof.
  intros Hinv Hc. unfold Start_append.
  pose proof (fits_append sub grow rf (rf_logs rf) [{| le_Term := t; le_Command := Some c |}] (ri_wf _ Hinv)) as H.
  destruct (sl_append _ _ _ _ _). apply H; try done. repeat constructor. by exists c.
Qed.

Lemma fits_AppendLogEntry sub et grow args rf rf' reply b :
  rf_inv rf → Forall (real sub) (ar_Entries args) →
  AppendLogEntry et grow args rf = Ret (rf', reply, b) → fits sub rf rf'.
Proof.
  intros Hinv Hes. unfold AppendLogEntry. case_decide; [|by intros [= <- <- <-]].
  pose proof (setToFollower_inv et (ar_Term args) rf Hinv) as Hinv1.
  set (rf1 := setToFollower et (ar_Term args) rf) in *.
  assert (fits sub rf rf1) as H1 by (by apply fits_same).
  intros (m & _ & E)%bind_ret_inv. revert E. case_decide as Hlen.
  - case_decide as Hmax; [by intros [= <- <- <-]|]. destruct (negb m) eqn:Em; [by intros [= <- <- <-]|].
    intros (kept & Hk & E)%bind_ret_inv. etransitivity; [exact H1|].
    pose proof (fits_append sub grow rf1 kept (ar_Entries args) (ri_wf _ Hinv1) Hes) as H2.
    apply sl_slice_Ret in Hk as (? & ? & Hka & Hko & Hkl). cbn in Hka, Hko.
    rewrite Nat.add_0_r in Hko.
    destruct (sl_append _ _ _ _ _) as [h s]. injection E as <- <- <-. apply H2; [done|done|].
    pose proof (logs_length rf1 Hinv1). rewrite Hkl. unfold zlen in *. lia.
  - case_decide; intros [= <- <- <-]; [|done]. etransitivity; [exact H1|]. apply fits_commit; [done|].
    apply Z.le_min_r.
Qed.

Lemma fits_isLeading_reply sub et ok reply rp a rf rf' b :
  rf_inv rf → isLeading_reply et ok reply rp a rf = Ret (rf', b) → fits sub rf rf'.
Proof.
  intros Hinv. unfold isLeading_reply. case_decide; [by intros [= <- <-]; apply fits_same|].
  case_decide; [|by intros [= <- <-]]. destruct (as_Success reply).
  - intros (next & _ & (matched & _ & (q & _ & E)%bind_ret_inv)%bind_ret_inv)%bind_ret_inv.
    destruct q; injection E as <- <-; [|by apply fits_same].
    set (rf1 := rf <| rf_pNextIndex := next |> <| rf_pMatchIndex := matched |>).
    assert (fits sub rf (rf <| rf_commitIndex := zlen (logs rf) - 1 |>)) as Hf by (apply fits_commit; [done|lia]).
    split; [apply (ft_log _ _ _ Hf)|apply (ft_window _ _ _ Hf)].
  - intros (next & _ & E)%bind_ret_inv. injection E as <- <-. by apply fits_same.
Qed.

(** ** Windows into the log *)

(** The window a leader sends begins at its next index, which is past the sentinel, for the
    entry before it was there to be read. *)
Lemma isLeading_args_real sub rp rf a w :
  rf_inv rf → log_real sub rf → isLeading_args rp rf = Ret a → aa_Entries a = Some w →
  real_window sub (rf_heap rf) w.
Proof.
  intros Hinv Hl. unfold isLeading_args. intros (entries & Hes & E)%bind_ret_inv.
  unfold buildAppendLogArgs in E. apply bind_ret_inv in E as (prev & Hp & E). injection E as <-. cbn.
  intros ->. apply go_index_Ret in Hp as [Hp _]. destruct (isEntriesIncluded rp); [|done].
  apply bind_ret_inv in Hes as (s & Hs & [= <-]).
  apply sl_slice_Ret in Hs as (Hlo & _ & Ha & Ho & Hlen). intros k Hk. rewrite Ha, Ho, Hlen in *.
  rewrite <- Nat.add_assoc. apply Hl; [lia|]. left. rewrite <- (logs_length rf Hinv). unfold zlen in *. lia.
Qed.

Lemma handleCommits_begin_real sub rf rf' ct :
  rf_inv rf → log_real sub rf → handleCommits_begin rf = Ret (rf', ct) →
  fits sub rf rf' ∧ ∀ w, ct_entries ct = Some w → real_window sub (rf_heap rf') w.
Proof.
  intros Hinv Hl. unfold handleCommits_begin. pose proof (ri_applied _ Hinv). case_decide.
  - intros (w & Hw & E)%bind_ret_inv. injection E as <- <-. split; [by apply fits_same|]. cbn. intros ? [= <-].
    apply sl_slice_Ret in Hw as (Hlo & _ & Ha & Ho & Hlen). intros k Hk. rewrite Ha, Ho, Hlen in *.
    rewrite <- Nat.add_assoc. apply Hl; [lia|]. right. lia.
  - intros [= <- <-]. split; [done|]. by intros w.
Qed.

(** A delivered message. *)
Definition submitted_msg sub (m : ApplyMsg Cmd) : Prop := ∃ c, am_Command m = Some c ∧ c ∈ sub.

Lemma handleCommits_next_real sub rf ct msg ct' :
  (∀ w, ct_entries ct = Some w → real_window sub (rf_heap rf) w) →
  handleCommits_next rf ct = Some (msg, ct') →
  submitted_msg sub msg ∧ ct_entries ct' = ct_entries ct.
Proof.
  intros Hw. unfold handleCommits_next. destruct (ct_entries ct) as [w|] eqn:Ec; [|done].
  destruct (sl_get (rf_heap rf) w !! ct_next ct) as [e|] eqn:Ee; [|done]. intros [= <- <-].
  split; [|done]. pose proof (real_window_get sub _ w (Hw w eq_refl)) as Hall.
  rewrite Forall_lookup in Hall. destruct (Hall _ _ Ee) as (c & Hc & Hin). exists c. by rewrite <- Hc.
Qed.
End cells.

(** ** Every peer and every request, in every run *)

Section valid.
Context {Cmd : Type}.
Implicit Types (nd : node Cmd) (s : system Cmd) (e : event Cmd) (sub : list Cmd).

Record node_valid sub nd : Prop := {
  nv_log : log_real sub (nd_rf nd);
  nv_starts t c : (t, c) ∈ nd_starts nd → c ∈ sub;
  nv_turn ct w : nd_turn nd = Some ct → ct_entries ct = Some w → real_window sub (rf_heap (nd_rf nd)) w;
  nv_applied : Forall (submitted_msg sub) (nd_applied nd)
}.

Record call_valid sub (nodes : list (node Cmd)) (c : append_call Cmd) : Prop := {
  cv_window a w nd : ac_args c = Some a → aa_Entries a = Some w → nodes !! ac_src c = Some nd →
    real_window sub (rf_heap (nd_rf nd)) w;
  cv_req req : ac_req c = Some req → Forall (real sub) (ar_Entries req)
}.

Record sys_valid s : Prop := {
  sv_ok : sys_ok s;
  sv_nodes i nd : sy_nodes s !! i = Some nd → node_valid (sy_submitted s) nd;
  sv_calls k c : sy_appends s !! k = Some c → call_valid (sy_submitted s) (sy_nodes s) c
}.

(** A section of a peer that leaves its windows and what it delivered alone. *)
Lemma node_valid_fits sub nd nd' :
  node_valid sub nd → fits sub (nd_rf nd) (nd_rf nd') → nd_starts nd' ⊆ nd_starts nd →
  nd_turn nd' = nd_turn nd → nd_applied nd' = nd_applied nd → node_valid sub nd'.
Proof.
  intros [Hl Hs Ht Ha] [Fl Fw] Hst Htn Han. split; [auto| | |by rewrite Han].
  - intros t c Hc%Hst. by eapply Hs.
  - intros ct w. rewrite Htn. eauto.
Qed.

Lemma call_valid_set sub nodes i nd nd' c :
  nodes !! i = Some nd → fits sub (nd_rf nd) (nd_rf nd') → call_valid sub nodes c →
  call_valid sub (<[i := nd']> nodes) c.
Proof.
  intros Hi [_ Fw] [Hw Hr]. split; [|done]. intros a w nd0 Ha He.
  intros [[Hc ->]|[_ Hn]]%lookup_insert_cases; [|by eauto]. eapply Fw, Hw; [done..|by rewrite Hc].
Qed.

Lemma sys_valid_set s s' i nd nd' :
  sys_valid s → sys_ok s' → sy_nodes s !! i = Some nd → sy_nodes s' = <[i := nd']> (sy_nodes s) →
  sy_submitted s' = sy_submitted s → fits (sy_submitted s) (nd_rf nd) (nd_rf nd') →
  node_valid (sy_submitted s) nd' →
  (∀ k c, sy_appends s' !! k = Some c → call_valid (sy_submitted s) (sy_nodes s) c) → sys_valid s'.
Proof.
  intros [Hok Hn Hc] Hok' Hi Hns Hsub Hf Hnd Hcs. split; [done|rewrite Hns, Hsub..].
  - intros j nd0 [[-> ->]|[_ Hj]]%lookup_insert_cases; [done|eauto].
  - intros k c Hk. eapply call_valid_set; [done|done|]. by eapply Hcs.
Qed.

(** The common case: the peer's state moves and nothing else of it. *)
Lemma sys_valid_section s s' i nd nd' :
  sys_valid s → sys_ok s' → sy_nodes s !! i = Some nd → sy_nodes s' = <[i := nd']> (sy_nodes s) →
  sy_submitted s' = sy_submitted s → fits (sy_submitted s) (nd_rf nd) (nd_rf nd') →
  nd_starts nd' ⊆ nd_starts nd → nd_turn nd' = nd_turn nd → nd_applied nd' = nd_applied nd →
  (∀ k c, sy_appends s' !! k = Some c → call_valid (sy_submitted s) (sy_nodes s) c) → sys_valid s'.
Proof.
  intros Hs Hok' Hi Hns Hsub Hf Hst Htn Han Hcs. eapply sys_valid_set; try done.
  eapply node_valid_fits; [by eapply sv_nodes|done..].
Qed.

Lemma sys_valid_call s s' k c c' :
  sys_valid s → sys_ok s' → sy_nodes s' = sy_nodes s → sy_submitted s' = sy_submitted s →
  sy_appends s' = <[k := c']> (sy_appends s) → sy_appends s !! k = Some c →
  call_valid (sy_submitted s) (sy_nodes s) c' → sys_valid s'.
Proof.
  intros [Hok Hn Hc] Hok' Hns Hsub Hap Hk Hc'. split; rewrite ?Hns, ?Hsub, ?Hap; [done|done|].
  intros j c0 [[-> ->]|[_ Hj]]%lookup_insert_cases; [done|eauto].
Qed.

(** The calls after one of them moved on with the arguments and the request it had. *)
Lemma calls_same s k c c' :
  sys_valid s → sy_appends s !! k = Some c →
  ac_src c' = ac_src c → ac_args c' = ac_args c → ac_req c' = ac_req c →
  ∀ j c0, <[k := c']> (sy_appends s) !! j = Some c0 → call_valid (sy_submitted s) (sy_nodes s) c0.
Proof.
  intros Hs Hk Hsrc Ha Hr j c0 [[-> ->]|[_ Hj]]%lookup_insert_cases; [|by eapply sv_calls].
  destruct (sv_calls s Hs k c Hk) as [Hw Hq]. split; rewrite ?Hsrc, ?Ha, ?Hr; eauto.
Qed.

Lemma sys_valid_submit s c :
  sys_valid s → sys_valid (s <| sy_submitted := sy_submitted s ++ [c] |>).
Proof.
  intros [Hok Hn Hc]. assert (sy_submitted s ⊆ sy_submitted s ++ [c]) as Hsub.
  { intros x Hx. apply elem_of_app. by left. }
  assert (∀ h w, real_window (sy_submitted s) h w → real_window (sy_submitted s ++ [c]) h w) as Hwin.
  { intros h w Hw k Hk. eauto using real_cell_mono. }
  split; [done| |]; cbn.
  - intros i nd Hi. destruct (Hn i nd Hi) as [Hl Hs Ht Ha]. split.
    + intros j Hj Hor. eauto using real_cell_mono.
    + eauto.
    + eauto.
    + eapply Forall_impl; [exact Ha|]. intros m (x & ? & ?). exists x. eauto.
  - intros k c0 Hk. destruct (Hc k c0 Hk) as [Hw Hr]. split; [eauto|]. intros req Hreq.
    eapply Forall_impl; [by apply Hr|]. intros e. by apply real_mono.
Qed.

Lemma valid_inv s i nd : sys_valid s → sy_nodes s !! i = Some nd → rf_inv (nd_rf nd).
Proof. intros Hs Hi. by destruct (sys_ok_lookup s i nd (sv_ok s Hs) Hi). Qed.

Ltac section_step Hs :=
  eapply (sys_valid_section _ _ _ _ _ Hs);
  [assumption|eassumption|reflexivity|reflexivity| |try reflexivity|reflexivity|reflexivity|];
  cbn; [|try apply (sv_calls _ Hs)..].

Lemma ticker_section_valid i now nd s s' :
  sys_valid s → sys_ok s' → sy_nodes s !! i = Some nd → ticker_section i now nd s = Ret s' → sys_valid s'.
Proof.
  intros Hs Hok' Hi. unfold ticker_section. destruct (nd_ticker nd) as [| | | |t l p].
  - intros [= <-]. section_step Hs. apply fits_isTimedOut.
  - intros [= <-]. by section_step Hs.
  - pose proof (fits_isElected_begin (sy_submitted s) (nd_rf nd)) as Hf.
    destruct (isElected_begin (nd_rf nd)) as [rf' el]. intros [= <-]. by section_step Hs.
  - intros [= <-]. by section_step Hs.
  - case_decide; [intros [= <-]; by section_step Hs|]. case_decide; [intros [= <-]; by section_step Hs|].
    intros (rp & _ & E)%bind_ret_inv. injection E as <-. section_step Hs; [done|].
    intros k c [Hk|[_ [_ <-]%list_lookup_singleton_Some]]%lookup_app_Some; [by eapply sv_calls|].
    by split.
Qed.

Lemma vote_return_valid k et reply c nd s :
  sys_valid s → sys_ok (vote_return k et reply c nd s) → sy_nodes s !! vc_src c = Some nd →
  sys_valid (vote_return k et reply c nd s).
Proof.
  intros Hs Hok' Hi. unfold vote_return in *. destruct (nd_elections nd !! vc_el c) as [el|]; [|done].
  pose proof (fits_isElected_reply (sy_submitted s) et reply (nd_rf nd) el) as Hf.
  destruct (isElected_reply et reply (nd_rf nd) el) as [rf' el']. by section_step Hs.
Qed.

Lemma append_return_valid k et ok resp c a nd s s' :
  sys_valid s → sys_ok s' → sy_nodes s !! ac_src c = Some nd → sy_appends s !! k = Some c →
  append_return k et ok resp c a nd s = Ret s' → sys_valid s'.
Proof.
  intros Hs Hok' Hi Hk. unfold append_return. intros ([rf' b] & Hr & E)%bind_ret_inv. injection E as <-.
  section_step Hs; [by eapply fits_isLeading_reply, Hr; eapply valid_inv|]. by eapply calls_same.
Qed.

Lemma sys_step_valid e s s' : sys_valid s → sys_step e s = Ret s' → sys_valid s'.
Proof.
  intros Hs E. pose proof (sys_step_ok e s s' (sv_ok s Hs) E) as Hok'. revert E.
  destruct e as [i c|i k grow|i now|i|k et|k et|k et|k|k|k et grow|k et|k et|i|i]; cbn [sys_step].
  - destruct (sy_nodes s !! i) as [nd|] eqn:Hi; [|by intros [= <-]].
    pose proof (sys_valid_submit s c Hs) as Hs1. unfold Start_read. destruct (getLastLogIndexAndTerm _).
    case_bool_decide; intros [= <-]; [|exact Hs1].
    eapply (sys_valid_set _ _ i nd _ Hs1); try done; [|apply (sv_calls _ Hs1)].
    destruct (sv_nodes _ Hs1 i nd Hi) as [Hl Hst Ht Ha]. split; cbn; try done.
    intros t c0 [Hc|Hc]%elem_of_app; [by eapply Hst|]. apply list_elem_of_singleton in Hc as [= -> ->].
    apply elem_of_app. right. by apply list_elem_of_singleton.
  - destruct (sy_nodes s !! i) as [nd|] eqn:Hi; [|by intros [= <-]].
    destruct (nd_starts nd !! k) as [[t c]|] eqn:Hk; intros [= <-]; [|done]. section_step Hs.
    + apply fits_Start_append; [by eapply valid_inv|]. eapply (nv_starts _ _ (sv_nodes s Hs i nd Hi)).
      by eapply list_elem_of_lookup_2.
    + intros x Hx. eapply elem_of_submseteq; [exact Hx|]. apply sublist_submseteq, sublist_delete.
  - destruct (sy_nodes s !! i) as [nd|] eqn:Hi; [|by intros [= <-]].
    by eapply ticker_section_valid.
  - destruct (sy_nodes s !! i) as [nd|] eqn:Hi; [|by intros [= <-]].
    destruct (nd_timers nd); intros [= <-]; [done|]. section_step Hs. by apply fits_same.
  - destruct (sy_votes s !! k) as [c|]; [|by intros [= <-]].
    destruct (sy_nodes s !! vc_dst c) as [nd|] eqn:Hi; [|by intros [= <-]].
    pose proof (fits_RequestVote_section (sy_submitted s) et (vc_args c) (nd_rf nd) (vc_pc c)) as Hf.
    destruct (RequestVote_section _ _ _ _). intros [= <-]. by section_step Hs.
  - destruct (sy_votes s !! k) as [c|]; [|by intros [= <-]].
    destruct (sy_nodes s !! vc_src c) as [nd|] eqn:Hi; [|by intros [= <-]].
    destruct (vc_open c), (vc_pc c); intros [= <-]; try done. by apply vote_return_valid.
  - destruct (sy_votes s !! k) as [c|]; [|by intros [= <-]].
    destruct (sy_nodes s !! vc_src c) as [nd|] eqn:Hi; [|by intros [= <-]].
    destruct (vc_open c); intros [= <-]; try done. by apply vote_return_valid.
  - destruct (sy_appends s !! k) as [c|] eqn:Hk; [|by intros [= <-]].
    destruct (sy_nodes s !! ac_src c) as [nd|] eqn:Hi; [|by intros [= <-]].
    destruct (ac_args c); [by intros [= <-]|].
    intros (a & Ha & E)%bind_ret_inv. injection E as <-.
    eapply (sys_valid_call _ _ k c _ Hs); try done. split; cbn; [|apply (sv_calls s Hs k c Hk)].
    intros ? w nd0 [= <-] Hw. rewrite Hi. intros [= <-].
    eapply isLeading_args_real; [by eapply valid_inv|apply (sv_nodes s Hs _ _ Hi)|done|done].
  - destruct (sy_appends s !! k) as [c|] eqn:Hk; [|by intros [= <-]].
    destruct (sy_nodes s !! ac_src c) as [nd|] eqn:Hi; [|by intros [= <-]].
    destruct (ac_args c) as [a|] eqn:Ha, (ac_req c), (ac_open c); try by intros [= <-].
    intros [= <-]. destruct (sv_calls s Hs k c Hk) as [Hw _].
    eapply (sys_valid_call _ _ k c _ Hs); try done. split; cbn; [exact Hw|].
    intros ? [= <-]. cbn. destruct (aa_Entries a) as [w|] eqn:He; [|done].
    apply real_window_get. by eapply Hw.
  - destruct (sy_appends s !! k) as [c|] eqn:Hk; [|by intros [= <-]].
    destruct (sy_nodes s !! Z.to_nat (rp_peer (ac_rp c))) as [nd|] eqn:Hi; [|by intros [= <-]].
    destruct (ac_req c) as [req|] eqn:Hq, (ac_resp c); try (by intros [= <-]).
    intros ([[rf' resp] b] & Hr & E)%bind_ret_inv. injection E as <-. section_step Hs; [|by eapply calls_same].
    eapply fits_AppendLogEntry; [by eapply valid_inv| |done]. by apply (cv_req _ _ _ (sv_calls s Hs k c Hk)).
  - destruct (sy_appends s !! k) as [c|] eqn:Hk; [|by intros [= <-]].
    destruct (sy_nodes s !! ac_src c) as [nd|] eqn:Hi; [|by intros [= <-]].
    destruct (ac_args c), (ac_resp c), (ac_open c); try (by intros [= <-]).
    by apply append_return_valid.
  - destruct (sy_appends s !! k) as [c|] eqn:Hk; [|by intros [= <-]].
    destruct (sy_nodes s !! ac_src c) as [nd|] eqn:Hi; [|by intros [= <-]].
    destruct (ac_args c), (ac_open c); try (by intros [= <-]).
    by apply append_return_valid.
  - destruct (sy_nodes s !! i) as [nd|] eqn:Hi; [|by intros [= <-]].
    destruct (nd_commits nd) as [|n], (nd_turn nd) eqn:Ht; try (by intros [= <-]).
    intros ([rf' ct] & Hr & E)%bind_ret_inv. injection E as <-.
    pose proof (sv_nodes s Hs i nd Hi) as [Hl Hst _ Ha].
    destruct (handleCommits_begin_real _ _ _ _ (valid_inv s i nd Hs Hi) Hl Hr) as [Hf Hw].
    eapply (sys_valid_set _ _ i nd _ Hs); try done; [|apply (sv_calls _ Hs)].
    split; cbn; [by apply Hf|done| |done]. intros ? w [= <-]. apply Hw.
  - destruct (sy_nodes s !! i) as [nd|] eqn:Hi; [|by intros [= <-]].
    destruct (nd_turn nd) as [ct|] eqn:Ht; [|by intros [= <-]].
    pose proof (sv_nodes s Hs i nd Hi) as [Hl Hst Htn Ha].
    destruct (handleCommits_next _ ct) as [[msg ct']|] eqn:En; intros [= <-].
    + destruct (handleCommits_next_real (sy_submitted s) _ _ _ _ (λ w, Htn ct w Ht) En) as [Hm He].
      eapply (sys_valid_set _ _ i nd _ Hs); [done|exact Hi|done..|by apply fits_same| |apply (sv_calls _ Hs)].
      split; cbn; [done|done| |].
      * intros ? w [= <-]. rewrite He. by apply Htn.
      * apply Forall_app. by split; [|apply Forall_singleton].
    + eapply (sys_valid_set _ _ i nd _ Hs); [done|exact Hi|done..|by apply fits_same| |apply (sv_calls _ Hs)].
      by split; cbn.
Qed.

Lemma sys_run_valid es s s' : sys_valid s → sys_run es s = Ret s' → sys_valid s'.
Proof.
  revert s. induction es as [|e es IH]; intros s Hs; cbn; [by intros [= <-]|].
  intros (s1 & Hstep & Hrun)%bind_ret_inv. eapply IH; [|exact Hrun]. by eapply sys_step_valid.
Qed.

Lemma sys_init_valid ets grow : sys_valid (sys_init (Cmd := Cmd) ets grow).
Proof.
  split; [apply sys_init_ok| |by intros k c]. intros i nd Hi. cbn in Hi.
  apply list_lookup_imap_Some in Hi as (et & _ & ->). split; cbn; try done.
  - intros j H1 Hj. exfalso. revert Hj. unfold init_node, Make, sl_append. case_decide; cbn; intros Hj; lia.
  - by intros t c Hc%elem_of_nil.
Qed.

(** Only [Start] adds to the submitted commands. *)
Lemma sys_step_submitted e s s' c :
  sys_step e s = Ret s' → c ∈ sy_submitted s' → c ∈ sy_submitted s ∨ ∃ i, e = EStart i c.
Proof.
  destruct e; cbn [sys_step]; unfold ticker_section, vote_return, append_return; intros E Hc.
  1: { revert E. destruct (sy_nodes s !! i) as [nd|]; [|intros [= <-]; by left].
       destruct (Start_read (nd_rf nd)) as [[? ?] []]; intros [= <-]; cbn in Hc;
         (apply elem_of_app in Hc as [Hc| ->%list_elem_of_singleton]; [by left|right; by exists i]). }
  all: left; revert E; repeat case_match.
  all: try (by intros [= <-]).
  all: intros (x & _ & E)%bind_ret_inv; repeat case_match; by simplify_eq/=.
Qed.

Lemma sys_run_submitted es s s' c :
  sys_run es s = Ret s' → c ∈ sy_submitted s' → c ∈ sy_submitted s ∨ ∃ i, EStart i c ∈ es.
Proof.
  revert s. induction es as [|e es IH]; intros s; cbn; [intros [= <-]; by left|].
  intros (s1 & Hstep & Hrun)%bind_ret_inv Hc. destruct (IH _ Hrun Hc) as [Hc1|[i Hi]].
  - destruct (sys_step_submitted _ _ _ _ Hstep Hc1) as [?|[i ->]]; [by left|]. right. exists i. by left.
  - right. exists i. by right.
Qed.

(** C3: validity. In every run of a cluster, whatever the order of submissions and sections,
    whatever calls fail and whatever arrays the windows share, every message a peer delivers
    carries a command that some client gave to [Start] in that run: nothing delivered is the
    placeholder entry, a spare zero slot of an array or an overwritten leftover. *)
Theorem applied_was_submitted es ets grow s i nd m :
  sys_run es (sys_init ets grow) = Ret s → sy_nodes s !! i = Some nd → m ∈ nd_applied nd →
  ∃ c j, am_Command m = Some c ∧ EStart j c ∈ es.
Proof.
  intros Hrun Hi Hm. pose proof (sys_run_valid es _ s (sys_init_valid ets grow) Hrun) as Hs.
  pose proof (nv_applied _ _ (sv_nodes s Hs i nd Hi)) as Ha. rewrite Forall_forall in Ha.
  destruct (Ha m Hm) as (c & Hc & Hin). exists c.
  destruct (sys_run_submitted es _ s c Hrun Hin) as [H|[j Hj]]; [by apply elem_of_nil in H|eauto].
Qed.
End valid.

Lemma applied_was_submitted_witness :
  match sys_run diverge (sys_init [0; 0; 0] 0) with
  | Ret s => match sy_nodes s !! 2%nat with
             | Some nd => ∃ m c j, m ∈ nd_applied nd ∧ am_Command m = Some c ∧ EStart j c ∈ diverge
             | None => False end
  | _ => False end.
Proof.
  assert ((λ s, nd_applied <$> (sy_nodes s !! 2%nat)) <$> sys_run diverge (sys_init [0; 0; 0] 0)
          = Ret (Some [msg_at 1 200])) as Hap by (vm_compute; reflexivity).
  destruct (sys_run diverge (sys_init [0; 0; 0] 0)) as [s|w|m] eqn:E; [|discriminate..].
  cbn in Hap. destruct (sy_nodes s !! 2%nat) as [nd|] eqn:Hi; [|discriminate]. injection Hap as Hap.
  assert (msg_at 1 200 ∈ nd_applied nd) as Hm by (rewrite Hap; by left).
  exists (msg_at 1 200). destruct (applied_was_submitted diverge [0; 0; 0] 0 s 2 nd _ E Hi Hm) as (c & j & H).
  exists c, j. split; [exact Hm|exact H].
Defined.
