(* ===== verification/MRText.v ===== *)
(** * Key/value pairs as text

    The pairs of the MapReduce job and the files they are kept in: one line per pair, the
    key and the value separated by a space ([src/src/mr/worker.go], [coordinator.go]), and
    the lines read back. *)
From Stdlib Require Import Ascii.
From stdpp Require Import base tactics numbers list strings.
From S2P Require Import Prelude GoLib GoStrings.

Record KeyValue := { kv_Key : string; kv_Value : string }.

#[export] Instance KeyValue_eq_dec : EqDecision KeyValue.
Proof. solve_decision. Defined.

(** ** The lines of a file *)

(** [fmt.Fprintf(file, "%v %v\n", kv.Key, kv.Value)] *)
Definition format_kv (kv : KeyValue) : string :=
  kv_Key kv +:+ String space (kv_Value kv +:+ String newline "").

Definition format_kvs (kvs : list KeyValue) : string := concat_str (format_kv <$> kvs).

Definition toKeyValue (line : string) : outcome KeyValue :=
  let tmp := strings_Split line space in
  k ← go_index tmp 0;
  v ← go_index tmp 1;
  Ret {| kv_Key := k; kv_Value := v |}.

Fixpoint toKeyValues (lines : list string) : outcome (list KeyValue) :=
  match lines with
  | [] => Ret []
  | l :: lines =>
      kv ← toKeyValue l;
      kvs ← toKeyValues lines;
      Ret (kv :: kvs)
  end.

(** What [executeReducef] does with the contents of its input file. *)
Definition parse_kvs (data : string) : outcome (list KeyValue) :=
  let text := strings_TrimSuffix data newline in
  toKeyValues (strings_Split text newline).

(** ** The round trip *)

(** A pair that survives the file: no space and no newline in the key or the value. *)
Definition clean (kv : KeyValue) : Prop :=
  contains space (kv_Key kv) = false ∧ contains newline (kv_Key kv) = false ∧
  contains space (kv_Value kv) = false ∧ contains newline (kv_Value kv) = false.

#[export] Instance clean_dec kv : Decision (clean kv).
Proof. unfold clean. apply _. Defined.

(** A file of lines, its last newline removed, splits into the lines. *)
Lemma Split_lines (lines : list string) (last : string) :
  Forall (λ l, contains newline l = false) (lines ++ [last]) →
  strings_Split
    (strings_TrimSuffix (concat_str ((λ l, l +:+ String newline "") <$> (lines ++ [last]))) newline)
    newline = lines ++ [last].
Proof.
  intros Hall.
  assert (concat_str ((λ l, l +:+ String newline "") <$> (lines ++ [last])) =
          (concat_str ((λ l, l +:+ String newline "") <$> lines) +:+ last) +:+ String newline "") as ->.
  { clear Hall. induction lines as [|l lines IH]; cbn; [by rewrite append_nil_r|].
    fold (concat_str ((λ l, l +:+ String newline "") <$> (lines ++ [last]))).
    fold (concat_str ((λ l, l +:+ String newline "") <$> lines)).
    by rewrite IH, !append_assoc. }
  rewrite strings_TrimSuffix_end. induction lines as [|l lines IH]; cbn.
  - apply strings_Split_none. by apply Forall_cons in Hall as [? _].
  - cbn in Hall. apply Forall_cons in Hall as [Hl Hall].
    fold (concat_str ((λ l, l +:+ String newline "") <$> lines)).
    rewrite !append_assoc. change (String newline "" +:+ ?x) with (String newline x).
    rewrite strings_Split_cut by done.
    f_equal. by apply IH.
Qed.

Definition line_of (kv : KeyValue) : string := kv_Key kv +:+ String space (kv_Value kv).

Lemma format_kvs_lines kvs :
  format_kvs kvs = concat_str ((λ l, l +:+ String newline "") <$> (line_of <$> kvs)).
Proof.
  unfold format_kvs. f_equal. rewrite <- list_fmap_compose. apply list_fmap_ext. intros i kv _.
  unfold format_kv, line_of; cbn. by rewrite append_assoc.
Qed.

Lemma toKeyValue_line kv : clean kv → toKeyValue (line_of kv) = Ret kv.
Proof.
  intros (Hk & _ & Hv & _). unfold toKeyValue, line_of.
  rewrite strings_Split_cut, strings_Split_none by done. by destruct kv.
Qed.

Lemma toKeyValues_lines kvs : Forall clean kvs → toKeyValues (line_of <$> kvs) = Ret kvs.
Proof.
  induction 1 as [|kv kvs Hkv _ IH]; [done|]. cbn. rewrite toKeyValue_line by done.
  rewrite bind_ret_l, IH. done.
Qed.

Lemma parse_format kvs : kvs ≠ [] → Forall clean kvs → parse_kvs (format_kvs kvs) = Ret kvs.
Proof.
  intros Hne Hc. unfold parse_kvs. rewrite format_kvs_lines.
  destruct kvs as [|kv kvs _] using rev_ind; [done|]. rewrite fmap_app. cbn [fmap list_fmap].
  rewrite Split_lines.
  - change [line_of kv] with (line_of <$> [kv]). rewrite <- fmap_app. by apply toKeyValues_lines.
  - change [line_of kv] with (line_of <$> [kv]). rewrite <- fmap_app.
    apply Forall_fmap. eapply Forall_impl; [exact Hc|]. intros x (_ & Hk & _ & Hv). unfold line_of; cbn.
    rewrite contains_append. cbn. rewrite Hk, Hv. done.
Qed.

(** What the coordinator writes into a partition file, the reducer reads back, pair by
    pair and in order, as long as no key or value holds a space or a newline. *)
Theorem partition_file_roundtrip kvs :
  kvs ≠ [] → Forall clean kvs → parse_kvs (format_kvs kvs) = Ret kvs.
Proof. apply parse_format. Qed.

Lemma partition_file_roundtrip_witness :
  parse_kvs (format_kvs [{| kv_Key := "a"; kv_Value := "1" |}; {| kv_Key := "b"; kv_Value := "" |}]) =
    Ret [{| kv_Key := "a"; kv_Value := "1" |}; {| kv_Key := "b"; kv_Value := "" |}].
Proof.
  apply partition_file_roundtrip; [discriminate|].
  repeat constructor.
Defined.

(** With a space in it a value is cut at the space, silently: the reducer sees another
    value than the one the mapper emitted. *)
Theorem partition_file_cuts_values k v w :
  clean {| kv_Key := k; kv_Value := v |} → contains newline w = false →
  parse_kvs (format_kvs [{| kv_Key := k; kv_Value := v +:+ String space w |}]) =
    Ret [{| kv_Key := k; kv_Value := v |}].
Proof.
  intros (Hk & Hkn & Hv & Hvn) Hw. unfold parse_kvs. rewrite format_kvs_lines.
  change (line_of <$> [?x]) with ([] ++ [line_of x]). rewrite Split_lines.
  - unfold line_of; cbn [app kv_Key kv_Value toKeyValues]. unfold toKeyValue.
    rewrite strings_Split_cut by done. rewrite strings_Split_cut by done. done.
  - cbn. repeat constructor. unfold line_of; cbn. rewrite contains_append; cbn.
    rewrite contains_append; cbn. cbn in Hkn, Hvn. by rewrite Hkn, Hvn, Hw.
Qed.

Lemma partition_file_cuts_values_witness :
  parse_kvs (format_kvs [{| kv_Key := "w"; kv_Value := "my file.txt" |}]) =
    Ret [{| kv_Key := "w"; kv_Value := "my" |}].
Proof. apply (partition_file_cuts_values "w" "my" "file.txt"); [repeat constructor|reflexivity]. Defined.
