(* ===== verification/MRJob.v ===== *)
(** * A MapReduce job: sequential and distributed

    The reduce loop that [src/src/main/mrsequential.go] and [src/src/mr/worker.go] share,
    the shuffle of [src/src/mr/coordinator.go], and the proof that the partitioned job
    writes the lines of the sequential one.  [sort.Sort] sorts by key and is not stable: it
    is the variable [sort_Sort], of which only that is used; ranging over the map of
    partitions is the variable [range_order].  The application's [Map] and [Reduce] are the
    variables [mapf] and [reducef] (a plugin is loaded at run time). *)
From Stdlib Require Import Sorting.Sorted.
From stdpp Require Import base tactics numbers list fin_maps gmap strings sorting.
From S2P Require Import Prelude GoLib GoStrings MRText.

(** [ByKey]'s [Less]. *)
Definition ByKey_Less (a b : KeyValue) : bool := String.ltb (kv_Key a) (kv_Key b).

Definition by_key (a b : KeyValue) : Prop := String.le (kv_Key a) (kv_Key b).

(** What [sort.Sort(ByKey(l))] leaves in [l]. *)
Definition sorts_by_key (sort_Sort : list KeyValue → list KeyValue) : Prop :=
  ∀ l, sort_Sort l ≡ₚ l ∧ StronglySorted by_key (sort_Sort l).

Definition ihash (key : string) : Z := Z.land (fnv32a key) 0x7fffffff.

(** ** The reduce loop *)

(** The inner loop: the values of the run of [k] at the head of the list, and the rest. *)
Fixpoint take_run (k : string) (l : list KeyValue) : list string * list KeyValue :=
  match l with
  | kv :: l' =>
      if decide (kv_Key kv = k)
      then let '(vs, rest) := take_run k l' in (kv_Value kv :: vs, rest)
      else ([], l)
  | [] => ([], [])
  end.

(** The outer loop, with fuel; every turn consumes at least one pair, so the length of the
    list is enough. *)
Fixpoint group_loop (fuel : nat) (l : list KeyValue) : list (string * list string) :=
  match fuel, l with
  | S fuel, kv :: l' =>
      let '(vs, rest) := take_run (kv_Key kv) l' in
      (kv_Key kv, kv_Value kv :: vs) :: group_loop fuel rest
  | _, _ => []
  end.

Definition groups (l : list KeyValue) : list (string * list string) := group_loop (length l) l.

Definition values_of (k : string) (l : list KeyValue) : list string :=
  kv_Value <$> filter (λ kv, kv_Key kv = k) l.

(** The line [fmt.Fprintf] writes for one group. *)
Definition out_line (reducef : string → list string → string) (g : string * list string) : string :=
  format_kv {| kv_Key := g.1; kv_Value := reducef (g.1) (g.2) |}.

Definition reduce_lines (reducef : string → list string → string) (l : list KeyValue) : list string :=
  out_line reducef <$> groups l.

Section grouping.
Implicit Types (l : list KeyValue) (k : string).

Lemma take_run_spec k l :
  let '(vs, rest) := take_run k l in
  ∃ run, l = run ++ rest ∧ vs = kv_Value <$> run ∧ Forall (λ kv, kv_Key kv = k) run ∧
         match rest with [] => True | kv :: _ => kv_Key kv ≠ k end.
Proof.
  induction l as [|kv l IH]; cbn; [by exists []|].
  case_decide as Hk; [|by exists []]. destruct (take_run k l) as [vs rest].
  destruct IH as (run & -> & -> & Hrun & Hrest). exists (kv :: run). by repeat constructor.
Qed.

(** In a sorted list the run holds every occurrence of its key. *)
Lemma run_complete kv l run rest :
  StronglySorted by_key (kv :: l) → l = run ++ rest → Forall (λ x, kv_Key x = kv_Key kv) run →
  match rest with [] => True | x :: _ => kv_Key x ≠ kv_Key kv end →
  ∀ x, x ∈ rest → kv_Key x ≠ kv_Key kv.
Proof.
  intros Hs -> Hrun Hrest x Hx Heq. inversion Hs as [|? ? Hs' Hall]; subst.
  destruct rest as [|y rest]; [by apply elem_of_nil in Hx|].
  apply StronglySorted_app in Hs' as (_ & _ & Hyr). inversion Hyr as [|? ? _ Hy]; subst.
  rewrite Forall_forall in Hall, Hy.
  assert (by_key kv y) as Hky by (apply Hall, elem_of_app; right; left).
  apply elem_of_cons in Hx as [->|Hx]; [done|]. apply Hy in Hx. unfold by_key in *.
  apply Hrest. apply (anti_symm String.le); [by rewrite <- Heq|done].
Qed.

Lemma group_loop_spec fuel l :
  (length l ≤ fuel)%nat → StronglySorted by_key l →
  NoDup (fst <$> group_loop fuel l) ∧
  (∀ k, k ∈ fst <$> group_loop fuel l ↔ k ∈ kv_Key <$> l) ∧
  (∀ k vs, (k, vs) ∈ group_loop fuel l → vs = values_of k l).
Proof.
  revert l. induction fuel as [|fuel IH]; intros l Hlen Hs.
  { destruct l; [|cbn in Hlen; lia]. cbn. split_and!; [constructor|set_solver|].
    intros k vs H. by apply elem_of_nil in H. }
  destruct l as [|kv l]; cbn [group_loop].
  { cbn. split_and!; [constructor|set_solver|]. intros k vs H. by apply elem_of_nil in H. }
  pose proof (take_run_spec (kv_Key kv) l) as Hrun.
  destruct (take_run (kv_Key kv) l) as [vs rest].
  destruct Hrun as (run & Hl & -> & Hrun & Hrest).
  pose proof (run_complete kv l run rest Hs Hl Hrun Hrest) as Hno.
  destruct (IH rest) as (Hnd & Hdom & Hval).
  { rewrite Hl in Hlen. cbn in Hlen. rewrite length_app in Hlen. lia. }
  { inversion Hs as [|? ? Hs']; subst. by apply StronglySorted_app in Hs' as (_ & _ & ?). }
  assert (filter (λ x, kv_Key x = kv_Key kv) rest = []) as Hnone.
  { apply filter_none. intros x Hx. by apply Hno. }
  assert (filter (λ x, kv_Key x = kv_Key kv) run = run) as Hall.
  { apply filter_all. by rewrite Forall_forall in Hrun. }
  rewrite fmap_cons; cbn [fst]. split_and!.
  - constructor; [|done]. rewrite Hdom. intros (x & Hx & Hin)%list_elem_of_fmap. by eapply Hno.
  - intros k. rewrite fmap_cons, !elem_of_cons, Hdom, Hl, fmap_app, elem_of_app.
    split; [tauto|]. intros [|[Hk|]]; [tauto| |tauto]. left.
    apply list_elem_of_fmap in Hk as (x & -> & Hx). rewrite Forall_forall in Hrun. by apply Hrun.
  - intros k vs [[= -> ->]|Hin]%elem_of_cons; unfold values_of; rewrite Hl, filter_cons, filter_app.
    + rewrite decide_True, Hall, Hnone, app_nil_r by done. done.
    + assert (k ≠ kv_Key kv) as Hne.
      { intros ->. assert (kv_Key kv ∈ kv_Key <$> rest) as (x & Hx & Hx')%list_elem_of_fmap.
        { apply Hdom, list_elem_of_fmap. by exists (kv_Key kv, vs). }
        by eapply Hno. }
      rewrite decide_False by congruence.
      assert (filter (λ x, kv_Key x = k) run = []) as ->.
      { apply filter_none. intros x Hx. rewrite Forall_forall in Hrun. rewrite Hrun by done. congruence. }
      cbn. by apply Hval.
Qed.
End grouping.

(** ** The job as one program: [mrsequential.go]

    [files] are the names and contents of the input files ([None]: the file cannot be
    opened); the result is the contents of [mr-out-0]. *)
Section sequential.
Context (mapf : string → string → list KeyValue) (reducef : string → list string → string).
Context (sort_Sort : list KeyValue → list KeyValue).

Fixpoint map_all (files : list (string * option string)) : outcome (list KeyValue) :=
  match files with
  | [] => Ret []
  | (filename, None) :: _ => Fatal ("cannot open " +:+ filename)
  | (filename, Some content) :: files =>
      rest ← map_all files;
      Ret (mapf filename content ++ rest)
  end.

Definition mrsequential (files : list (string * option string)) : outcome string :=
  intermediate ← map_all files;
  Ret (concat_str (reduce_lines reducef (sort_Sort intermediate))).

End sequential.

(** ** The partitioned job *)

Section jobs.
Context (reducef : string → list string → string).
Context (sort_Sort : list KeyValue → list KeyValue).


(** [shuffle]; a zero [ReducerCount] makes the first remainder panic. *)
Definition shuffle (ReducerCount : Z) (IntermediateResults : list KeyValue)
    : outcome (gmap Z (list KeyValue)) :=
  let l := sort_Sort IntermediateResults in
  if decide (ReducerCount = 0 ∧ l ≠ []) then Panic "integer divide by zero"
  else Ret (group_by (λ kv, Z.rem (ihash (kv_Key kv)) ReducerCount) l).

(** The output [executeReducef] writes for the contents of a partition file. *)
Definition reduce_output (data : string) : outcome (list string) :=
  intermediate ← parse_kvs data;
  Ret (reduce_lines reducef (sort_Sort intermediate)).

(** Every partition through its file and its reducer, the outputs one after the other. *)
Fixpoint reduce_all (partitions : gmap Z (list KeyValue)) (ps : list Z) : outcome (list string) :=
  match ps with
  | [] => Ret []
  | p :: ps =>
      out ← reduce_output (format_kvs (group_at partitions p));
      rest ← reduce_all partitions ps;
      Ret (out ++ rest)
  end.

Definition mrdistributed (range_order : list Z → list Z) (ReducerCount : Z)
    (IntermediateResults : list KeyValue) : outcome (list string) :=
  partitions ← shuffle ReducerCount IntermediateResults;
  reduce_all partitions (range_order ((map_to_list partitions).*1)).

(** ** Both write the same lines *)

Context (Hsort : sorts_by_key sort_Sort).

(** An application whose [Reduce] does not depend on the order of the values. *)
Definition order_blind : Prop := ∀ k vs vs', vs ≡ₚ vs' → reducef k vs = reducef k vs'.
Context (Hblind : order_blind).

(** The lines by key: what they should be, from the pairs in any order. *)
Definition line_for (l : list KeyValue) (k : string) : string := out_line reducef (k, values_of k l).

#[local] Instance values_of_proper k : Proper ((≡ₚ) ==> (≡ₚ)) (values_of k).
Proof. intros l l' Hl. unfold values_of. by rewrite Hl. Qed.

Lemma reduce_lines_spec l l' ks :
  l ≡ₚ l' → NoDup ks → (∀ k, k ∈ ks ↔ k ∈ kv_Key <$> l') →
  reduce_lines reducef (sort_Sort l) ≡ₚ line_for l' <$> ks.
Proof.
  intros Hl Hnd Hks. destruct (Hsort l) as [Hperm Hsorted].
  destruct (group_loop_spec (length (sort_Sort l)) (sort_Sort l)) as (Hgn & Hgd & Hgv); [lia|done|].
  fold (groups (sort_Sort l)) in *.
  assert (fst <$> groups (sort_Sort l) ≡ₚ ks) as Hkeys.
  { apply NoDup_Permutation; [done|done|]. intros k. by rewrite Hgd, Hks, Hperm, Hl. }
  rewrite <- Hkeys. unfold reduce_lines. rewrite <- list_fmap_compose. apply reflexive_eq.
  apply list_fmap_ext. intros i [k vs] Hi. apply list_elem_of_lookup_2 in Hi. cbn.
  unfold line_for, out_line; cbn. f_equal. f_equal. rewrite (Hgv k vs Hi).
  apply Hblind. by rewrite Hperm, Hl.
Qed.

Lemma values_of_partition (R : Z) l k :
  values_of k (filter (λ kv, Z.rem (ihash (kv_Key kv)) R = Z.rem (ihash k) R) l) = values_of k l.
Proof.
  unfold values_of. rewrite list_filter_filter_l; [done|]. by intros x <-.
Qed.

Lemma reduce_all_spec R l ps :
  Forall clean l → l ≡ₚ sort_Sort l → 
  let parts := group_by (λ kv, Z.rem (ihash (kv_Key kv)) R) (sort_Sort l) in
  let keys := remove_dups (kv_Key <$> l) in
  (∀ p, p ∈ ps → is_Some (parts !! p)) →
  ∃ out, reduce_all parts ps = Ret out ∧
         out ≡ₚ line_for l <$> concat ((λ p, filter (λ k, Z.rem (ihash k) R = p) keys) <$> ps).
Proof.
  intros Hclean Hl parts keys. induction ps as [|p ps IH]; intros Hps; [by exists []|].
  destruct IH as (out & Hout & Hperm); [intros q Hq; apply Hps; by right|].
  assert (Forall clean (sort_Sort l)) as Hclean' by (by rewrite <- Hl).
  set (part := group_at parts p).
  assert (part = filter (λ kv, Z.rem (ihash (kv_Key kv)) R = p) (sort_Sort l)) as Hpart
    by apply group_at_group_by.
  assert (part ≠ []) as Hne.
  { destruct (Hps p) as [l' Hl']; [left|]. unfold part, group_at. rewrite Hl'.
    by eapply group_by_nonempty. }
  cbn [reduce_all]. fold part. unfold reduce_output at 1.
  rewrite parse_format; [|done|rewrite Hpart; by apply Forall_filter].
  rewrite !bind_ret_l, Hout, bind_ret_l. eexists; split; [done|].
  cbn [fmap list_fmap concat]. rewrite fmap_app. apply Permutation_app; [|done].
  rewrite (reduce_lines_spec part part (filter (λ k, Z.rem (ihash k) R = p) keys)); [|done|..].
  - apply reflexive_eq, list_fmap_ext. intros i k Hk. apply list_elem_of_lookup_2 in Hk.
    apply list_elem_of_filter in Hk as [Hk _]. unfold line_for, out_line; cbn. do 2 f_equal.
    apply Hblind. rewrite Hpart, <- Hk, values_of_partition. by rewrite <- Hl.
  - apply NoDup_filter, NoDup_remove_dups.
  - intros k. unfold keys. rewrite list_elem_of_filter, elem_of_remove_dups, Hpart.
    rewrite !list_elem_of_fmap. setoid_rewrite list_elem_of_filter. setoid_rewrite <- Hl.
    naive_solver.
Qed.

Lemma mrdistributed_spec range_order R l :
  (∀ ps, range_order ps ≡ₚ ps) → 0 < R → Forall clean l →
  ∃ out, mrdistributed range_order R l = Ret out ∧
         out ≡ₚ reduce_lines reducef (sort_Sort l).
Proof.
  intros Hrange HR Hclean. destruct (Hsort l) as [Hl _]. symmetry in Hl.
  unfold mrdistributed, shuffle. rewrite decide_False by naive_solver lia. rewrite bind_ret_l.
  set (parts := group_by (λ kv, Z.rem (ihash (kv_Key kv)) R) (sort_Sort l)).
  set (ps := range_order ((map_to_list parts).*1)).
  assert (∀ p, p ∈ ps ↔ is_Some (parts !! p)) as Hps.
  { intros p. unfold ps. rewrite Hrange, list_elem_of_fmap. split.
    - intros ([p' l'] & -> & Hin%elem_of_map_to_list). eauto.
    - intros [l' Hl']. exists (p, l'). by rewrite elem_of_map_to_list. }
  destruct (reduce_all_spec R l ps Hclean Hl) as (out & Hout & Hperm); [by intros p ?%Hps|].
  exists out. split; [done|]. rewrite Hperm.
  set (keys := remove_dups (kv_Key <$> l)).
  assert (concat ((λ p, filter (λ k, Z.rem (ihash k) R = p) keys) <$> ps) ≡ₚ keys) as ->.
  { etransitivity; [|apply (group_by_Permutation (λ k, Z.rem (ihash k) R) keys ps)].
    - apply reflexive_eq. f_equal. apply list_fmap_ext. intros i p _. symmetry. apply group_at_group_by.
    - unfold ps. rewrite Hrange. apply NoDup_fst_map_to_list.
    - intros k Hk. apply Hps, group_by_dom, list_elem_of_fmap.
      unfold keys in Hk. apply elem_of_remove_dups, list_elem_of_fmap in Hk as (kv & -> & Hkv).
      exists kv. by rewrite <- Hl. }
  symmetry. apply reduce_lines_spec; [done|apply NoDup_remove_dups|].
  intros k. unfold keys. by rewrite elem_of_remove_dups.
Qed.
End jobs.

(** The partitioned job writes the lines of the sequential job.  For every application
    whose [Reduce] ignores the order of its values, every sort by key, every order in which
    the partitions are ranged over and every positive number of reducers, shuffling the
    pairs, writing each partition to its file, reading it back and reducing it gives, all
    outputs together, the lines that [mrsequential] writes, up to their order; nothing
    panics.  The pairs must hold no space and no newline. *)
Theorem distributed_equals_sequential mapf reducef sort_Sort range_order R files l :
  sorts_by_key sort_Sort → order_blind reducef → (∀ ps, range_order ps ≡ₚ ps) → 0 < R →
  map_all mapf files = Ret l → Forall clean l →
  ∃ out lines, mrdistributed reducef sort_Sort range_order R l = Ret out ∧
    mrsequential mapf reducef sort_Sort files = Ret (concat_str lines) ∧ out ≡ₚ lines.
Proof.
  intros Hs Hb Hr HR Hm Hc.
  destruct (mrdistributed_spec reducef sort_Sort Hs Hb range_order R l Hr HR Hc) as (out & Hout & Hp).
  exists out, (reduce_lines reducef (sort_Sort l)). split_and!; [done| |done].
  unfold mrsequential. by rewrite Hm.
Qed.

(** Any sort by key will do; this one is the library's merge sort. *)
#[export] Instance by_key_dec : RelDecision by_key.
Proof. intros a b. unfold by_key. apply _. Defined.
#[export] Instance by_key_total : Total by_key.
Proof. intros a b. unfold by_key. apply (total String.le). Qed.
#[export] Instance by_key_trans : Transitive by_key.
Proof. intros a b c. unfold by_key. apply (transitivity (R := String.le)). Qed.

Lemma merge_sort_by_key : sorts_by_key (merge_sort by_key).
Proof.
  intros l. split; [apply merge_sort_Permutation|]. apply Sorted_StronglySorted; [apply _|].
  apply Sorted_merge_sort, _.
Qed.

Definition toy_map (filename contents : string) : list KeyValue :=
  (λ w, {| kv_Key := w; kv_Value := filename |}) <$> strings_Split contents space.

Definition toy_reduce (key : string) (values : list string) : string :=
  join_with "," (sort_Strings values).

Lemma toy_reduce_blind : order_blind toy_reduce.
Proof.
  intros k vs vs' Hp. unfold toy_reduce. f_equal.
  apply (Sorted_unique String.le); [apply sort_Strings_Sorted|apply sort_Strings_Sorted|].
  by rewrite !sort_Strings_Permutation.
Qed.

Lemma distributed_equals_sequential_witness :
  ∃ out, mrdistributed toy_reduce (merge_sort by_key) reverse 3
           (toy_map "f" "a b c a" ++ toy_map "g" "b d") = Ret out ∧
    mrsequential toy_map toy_reduce (merge_sort by_key)
      [("f", Some "a b c a"); ("g", Some "b d")] = Ret (concat_str
        (format_kv <$> [ {| kv_Key := "a"; kv_Value := "f,f" |}; {| kv_Key := "b"; kv_Value := "f,g" |};
           {| kv_Key := "c"; kv_Value := "f" |}; {| kv_Key := "d"; kv_Value := "g" |} ])) ∧
    length out = 4%nat.
Proof.
  destruct (distributed_equals_sequential toy_map toy_reduce (merge_sort by_key) reverse 3
    [("f", Some "a b c a"); ("g", Some "b d")] (toy_map "f" "a b c a" ++ toy_map "g" "b d")
    merge_sort_by_key toy_reduce_blind (λ ps, reverse_Permutation ps) eq_refl)
    as (out & lines & Hout & Hseq & Hp).
  - vm_compute. reflexivity.
  - repeat constructor.
  - exists out. split; [exact Hout|]. rewrite Hseq.
    assert (reduce_lines toy_reduce (merge_sort by_key (toy_map "f" "a b c a" ++ toy_map "g" "b d")) =
      (format_kv <$> [ {| kv_Key := "a"; kv_Value := "f,f" |}; {| kv_Key := "b"; kv_Value := "f,g" |};
           {| kv_Key := "c"; kv_Value := "f" |}; {| kv_Key := "d"; kv_Value := "g" |} ])) as E
      by (vm_compute; reflexivity).
    split.
    + rewrite <- Hseq. vm_compute. reflexivity.
    + assert (mrdistributed toy_reduce (merge_sort by_key) reverse 3
        (toy_map "f" "a b c a" ++ toy_map "g" "b d") = Ret out) as H by exact Hout.
      vm_compute in H. injection H as <-. reflexivity.
Defined.
