(* ===== verification/MRCoordinator.v ===== *)
(** * The MapReduce coordinator and its workers

    [src/src/mr/coordinator.go], [rpc.go] and [worker.go]: the task table behind its mutex,
    what a worker does with a task, and the system of one coordinator and any number of
    workers over one file system.

    Every coordinator method runs under [c.Mutex], so it is one function on the coordinator
    (and the file system).  A worker executes one task at a time, file operation by file
    operation: each creation of a file, each line it writes and each reading of a whole file is
    a step of its own, so that workers that execute one task at the same time get in each
    other's way as they do on a file system.  Its calls return when the coordinator is done
    with them, and it may die at any moment.  Times are in nanoseconds.  [os.Create] fails when
    the directory is missing (the code ignores its error, and nothing is written then); reading
    a missing file is the error path; other I/O errors, the sockets and the dial failure that
    ends a worker are left out. *)
From stdpp Require Import base tactics numbers list fin_maps gmap strings sorting pretty.
From S2P Require Import Prelude GoLib GoStrings MRText MRJob.

(** ** The file system *)

Record FS := { fs_dirs : gset string; fs_files : gmap string string }.
#[export] Instance eta_FS : Eta FS := λ f, {| fs_dirs := fs_dirs f; fs_files := fs_files f |}.

(** [os.Create] of [p] and writing [data] to it, the error ignored. *)
Definition fs_write (p data : string) (fs : FS) : FS :=
  if decide (path_Dir p ∈ fs_dirs fs ∧ p ∉ fs_dirs fs)
  then fs <| fs_files := <[p := data]> (fs_files fs) |> else fs.

(** A write of [data] at position [off] of a file that holds [old]: past its end it leaves a
    hole of zeros, within it it overwrites; nothing written extends nothing. *)
Definition write_at (off : nat) (data old : string) : string :=
  if decide (data = "") then old
  else
    let l := String.list_ascii_of_string old in
    let d := String.list_ascii_of_string data in
    String.string_of_list_ascii (take off l ++ replicate (off - length l) Ascii.zero ++ d ++ drop (off + length d) l).

(** A write through an open file; a file whose creation failed is nil, and nothing is written. *)
Definition fs_write_at (p : string) (off : nat) (data : string) (fs : FS) : FS :=
  if decide (path_Dir p ∈ fs_dirs fs ∧ p ∉ fs_dirs fs)
  then fs <| fs_files := <[p := write_at off data (default "" (fs_files fs !! p))]> (fs_files fs) |> else fs.

(** ** The coordinator *)

Record Task := {
  t_Id : string; t_Type : string; t_Status : string; t_AssignedWorkerId : Z;
  t_ReadLocation : string; t_WriteLocation : string; t_Retries : Z; t_LastUpdated : Z
}.
#[export] Instance eta_Task : Eta Task := λ t,
  {| t_Id := t_Id t; t_Type := t_Type t; t_Status := t_Status t;
     t_AssignedWorkerId := t_AssignedWorkerId t; t_ReadLocation := t_ReadLocation t;
     t_WriteLocation := t_WriteLocation t; t_Retries := t_Retries t;
     t_LastUpdated := t_LastUpdated t |}.

Record Coordinator := {
  MainDir : string; IntermediateResults : list KeyValue; ReducerCount : Z;
  Tasks : list Task; IsReduceGenerated : bool
}.
#[export] Instance eta_Coordinator : Eta Coordinator := λ c,
  {| MainDir := MainDir c; IntermediateResults := IntermediateResults c;
     ReducerCount := ReducerCount c; Tasks := Tasks c; IsReduceGenerated := IsReduceGenerated c |}.

Record RequestTaskArgs := { ra_WorkerId : Z }.
Record RequestTaskReply := { rr_Task : Task }.
Record UpdateTaskStatusArgs := {
  ua_TaskId : string; ua_AssignedWorkerId : Z; ua_WriteLocation : string; ua_Status : string;
  ua_Intermediate : list KeyValue; ua_Retries : Z
}.

(** [Task{}]; the zero [time.Time] is never compared for an unassigned task. *)
Definition Task_zero : Task :=
  {| t_Id := ""; t_Type := ""; t_Status := ""; t_AssignedWorkerId := 0; t_ReadLocation := "";
     t_WriteLocation := ""; t_Retries := 0; t_LastUpdated := 0 |}.

(** A position of the first task the loop of [RequestTask] stops at. *)
Definition requestable (t : Task) : Prop := t_Status t = "not started" ∧ t_AssignedWorkerId t = -1.
#[export] Instance requestable_dec t : Decision (requestable t).
Proof. unfold requestable. apply _. Defined.

Definition RequestTask (now : Z) (args : RequestTaskArgs) (c : Coordinator)
    : Coordinator * RequestTaskReply :=
  match list_find requestable (Tasks c) with
  | None => (c, {| rr_Task := Task_zero |})
  | Some (taskIndex, t) =>
      let t := t <| t_Status := "in progress" |> <| t_AssignedWorkerId := ra_WorkerId args |>
                 <| t_LastUpdated := now |> in
      (c <| Tasks := <[taskIndex := t]> (Tasks c) |>, {| rr_Task := t |})
  end.

Definition over (t : Task) : bool :=
  bool_decide (t_Status t = "completed") || bool_decide (t_Status t = "skipped").

Definition setSkippedIfApplicable (now : Z) (t : Task) : Task :=
  if decide (t_Status t = "in progress" ∧ t_Retries t > 10)
  then t <| t_AssignedWorkerId := -1 |> <| t_Status := "skipped" |> <| t_LastUpdated := now |>
  else t.

(** [time.Since(t.LastUpdated).Seconds() > 5] *)
Definition setNotStartedIfApplicable (now : Z) (t : Task) : Task :=
  if decide (t_Status t = "in progress" ∧ now - t_LastUpdated t > 5 * 10 ^ 9)
  then t <| t_AssignedWorkerId := -1 |> <| t_Status := "not started" |>
         <| t_Retries := i64 (t_Retries t + 1) |> <| t_LastUpdated := now |>
  else t.

Fixpoint Done_loop (now : Z) (tasks : list Task) : list Task * bool :=
  match tasks with
  | [] => ([], true)
  | t :: tasks =>
      let t := setNotStartedIfApplicable now (setSkippedIfApplicable now t) in
      if over t then let '(tasks, b) := Done_loop now tasks in (t :: tasks, b)
      else (t :: tasks, false)
  end.

Definition Done (now : Z) (c : Coordinator) : Coordinator * bool :=
  let '(tasks, b) := Done_loop now (Tasks c) in (c <| Tasks := tasks |>, b).

Definition setMainDir (dir : string) (c : Coordinator) : Coordinator := c <| MainDir := dir |>.

Definition initializeMapTasks (now : Z) (files : list string) (c : Coordinator) : Coordinator :=
  c <| Tasks := imap (λ i f,
    {| t_Id := pretty i; t_Type := "map"; t_Status := "not started"; t_AssignedWorkerId := -1;
       t_ReadLocation := f; t_WriteLocation := path_Join (MainDir c) ("mr-" +:+ pretty i);
       t_Retries := 0; t_LastUpdated := now |}) files |>.

Definition initializeCoordinator (reducerCount : Z) (c : Coordinator) : Coordinator :=
  c <| IsReduceGenerated := false |> <| IntermediateResults := [] |>
    <| ReducerCount := reducerCount |>.

(** [store]: the file's path and the file system with it written. *)
Definition store (c : Coordinator) (i : Z) (partition : list KeyValue) (fs : FS) : FS * string :=
  let writeLocation := path_Join (MainDir c) ("p-" +:+ pretty i) in
  (fs_write writeLocation (format_kvs partition) fs, writeLocation).

(** The loop of [initializeReduceTasks], over the keys in the order they are ranged over. *)
Fixpoint initializeReduceTasks (now : Z) (partitions : gmap Z (list KeyValue)) (ps : list Z)
    (c : Coordinator) (fs : FS) : Coordinator * FS :=
  match ps with
  | [] => (c, fs)
  | p :: ps =>
      let '(fs, readLocation) := store c p (group_at partitions p) fs in
      let t := {| t_Id := "p-" +:+ pretty p; t_Type := "reduce"; t_Status := "not started";
                  t_AssignedWorkerId := -1; t_ReadLocation := readLocation;
                  t_WriteLocation := path_Join (MainDir c) ("mr-out-" +:+ pretty p);
                  t_Retries := 0; t_LastUpdated := now |} in
      initializeReduceTasks now partitions ps (c <| Tasks := Tasks c ++ [t] |>) fs
  end.

Definition isAllMappingDone (c : Coordinator) : bool :=
  forallb (λ t, negb (bool_decide (t_Type t = "map")) || over t) (Tasks c).

(** [cleanUp]: every file of the directory whose name matches [mr-*] or [p-*]. *)
Definition cleanUp (c : Coordinator) (fs : FS) : FS :=
  fs <| fs_files := filter (λ pd : string * string,
          ¬ (path_Dir (pd.1) = MainDir c ∧
             (String.prefix "mr-" (path_Base (pd.1)) = true ∨
              String.prefix "p-" (path_Base (pd.1)) = true))) (fs_files fs) |>.

Definition MakeCoordinator (dir : string) (now : Z) (files : list string) (nReduce : Z) (fs : FS)
    : Coordinator * FS :=
  let c := setMainDir dir {| MainDir := ""; IntermediateResults := []; ReducerCount := 0;
                             Tasks := []; IsReduceGenerated := false |} in
  let fs := cleanUp c fs in
  let c := initializeMapTasks now files c in
  let c := initializeCoordinator nReduce c in
  (c, fs).

Section system.
Context (mapf : string → string → list KeyValue) (reducef : string → list string → string).
Context (sort_Sort : list KeyValue → list KeyValue) (range_order : list Z → list Z).

(** [clear] on a slice zeroes its elements and keeps its length. *)
Definition generateReduceTasksIfApplicable (now : Z) (c : Coordinator) (fs : FS)
    : outcome (Coordinator * FS) :=
  if IsReduceGenerated c then Ret (c, fs)
  else if isAllMappingDone c then
    partitions ← shuffle sort_Sort (ReducerCount c) (IntermediateResults c);
    let '(c, fs) := initializeReduceTasks now partitions (range_order ((map_to_list partitions).*1))
                      (c <| IsReduceGenerated := true |>) fs in
    Ret (c <| IntermediateResults :=
               (λ _, {| kv_Key := ""; kv_Value := "" |}) <$> IntermediateResults c |>, fs)
  else Ret (c, fs).

Definition updatable (args : UpdateTaskStatusArgs) (t : Task) : Prop :=
  t_Id t = ua_TaskId args ∧ t_AssignedWorkerId t = ua_AssignedWorkerId args.
#[export] Instance updatable_dec args t : Decision (updatable args t).
Proof. unfold updatable. apply _. Defined.

(** The loop of [UpdateTaskStatus]: the first task that matches, if any. *)
Definition update_task (now : Z) (args : UpdateTaskStatusArgs) (c : Coordinator) : Coordinator :=
  match list_find (updatable args) (Tasks c) with
  | None => c
  | Some (i, t) =>
      c <| IntermediateResults := IntermediateResults c ++ ua_Intermediate args |>
        <| Tasks := <[i := t <| t_Status := ua_Status args |>
                             <| t_WriteLocation := ua_WriteLocation args |>
                             <| t_Retries := ua_Retries args |>
                             <| t_LastUpdated := now |>]> (Tasks c) |>
  end.

Definition UpdateTaskStatus (now : Z) (args : UpdateTaskStatusArgs) (c : Coordinator) (fs : FS)
    : outcome (Coordinator * FS) :=
  generateReduceTasksIfApplicable now (update_task now args c) fs.

(** ** A worker *)

(** [getFileNameOnly]: the last element of the path without its last four bytes. *)
Definition getFileNameOnly (filename : string) : outcome string :=
  let fileName := path_Base filename in
  if decide (String.length fileName < 4)%nat then Panic "slice bounds out of range"
  else Ret (String.substring 0 (String.length fileName - 4) fileName).

(** What a worker still has to do with files, in this order: create one, write a line at the
    position its own descriptor has reached, read a file back whole, and [os.WriteFile] what
    was read, which creates a file and then writes it. *)
Inductive file_op :=
  | OpCreate (p : string)
  | OpWrite (p : string) (off : nat) (data : string)
  | OpReadBack (p : string)
  | OpDupCreate (p : string)
  | OpDupWrite (p : string).

(** One operation; [data] is the local variable of [copyToWorkerInitDir], [None] when its
    [os.ReadFile] failed, upon which it returns. *)
Definition do_op (op : file_op) (data : option string) (fs : FS) : FS * option string :=
  match op with
  | OpCreate p => (fs_write p "" fs, data)
  | OpWrite p off line => (fs_write_at p off line fs, data)
  | OpReadBack p => (fs, fs_files fs !! p)
  | OpDupCreate p => (match data with Some _ => fs_write p "" fs | None => fs end, data)
  | OpDupWrite p => (match data with Some d => fs_write_at p 0 d fs | None => fs end, data)
  end.

(** All of them, without anyone in between. *)
Fixpoint run_ops (ops : list file_op) (data : option string) (fs : FS) : FS :=
  match ops with
  | [] => fs
  | op :: ops => let '(fs, data) := do_op op data fs in run_ops ops data fs
  end.

(** The lines of a file, from position [off] on. *)
Fixpoint line_ops (p : string) (off : nat) (lines : list string) : list file_op :=
  match lines with
  | [] => []
  | l :: lines => OpWrite p off l :: line_ops p (off + String.length l) lines
  end.

Definition writeToLocation (fileName writeLocation : string) (kvs : list KeyValue) : list file_op :=
  let p := path_Join writeLocation fileName in OpCreate p :: line_ops p 0 (format_kv <$> kvs).

(** [workerInitDir] is empty when the working directory cannot be determined. *)
Definition writeToWorkerInitDir (workerInitDir writeLocation : string) (kvs : list KeyValue) : list file_op :=
  if decide (workerInitDir = "") then []
  else if decide (workerInitDir = path_Dir writeLocation) then []
  else writeToLocation (path_Base writeLocation) workerInitDir kvs.

Definition copyToWorkerInitDir (workerInitDir writeLocation : string) : list file_op :=
  if decide (workerInitDir = "") then []
  else if decide (workerInitDir = path_Dir writeLocation) then []
  else
    let dupPath := path_Join workerInitDir (path_Base writeLocation) in
    [OpReadBack writeLocation; OpDupCreate dupPath; OpDupWrite dupPath].

(** [None]: the file cannot be opened. The applications are functions, so what they return is
    known when the input has been read; a worker that dies in one is a worker that dies between
    two operations. *)
Definition executeMapf (workerInitDir readLocation writeLocation : string) (fs : FS)
    : outcome (option (list file_op * list KeyValue)) :=
  match fs_files fs !! readLocation with
  | None => Ret None
  | Some contents =>
      let kvs := mapf readLocation contents in
      fileNameOnly ← getFileNameOnly writeLocation;
      Ret (Some (writeToLocation fileNameOnly writeLocation kvs ++
                 writeToWorkerInitDir workerInitDir writeLocation kvs, kvs))
  end.

Definition executeReducef (workerInitDir readLocation writeLocation : string) (fs : FS)
    : outcome (option (list file_op)) :=
  match fs_files fs !! readLocation with
  | None => Ret None
  | Some data =>
      out ← reduce_output reducef sort_Sort data;
      Ret (Some (OpCreate writeLocation :: line_ops writeLocation 0 out ++
                 copyToWorkerInitDir workerInitDir writeLocation))
  end.

(** The body of the loop of [Worker] after its request, up to its first file operation on an
    output: the operations to do and then the arguments of [CallUpdateTaskStatus]. *)
Definition begin_task (workerInitDir : string) (t : Task) (fs : FS)
    : outcome (list file_op * UpdateTaskStatusArgs) :=
  r ← (if decide (t_Type t = "map") then
         executeMapf workerInitDir (t_ReadLocation t) (t_WriteLocation t) fs
       else
         r ← executeReducef workerInitDir (t_ReadLocation t) (t_WriteLocation t) fs;
         Ret (match r with None => None | Some ops => Some (ops, []) end)) :
      outcome (option (list file_op * list KeyValue));
  Ret (match r with
       | None => ([], {| ua_TaskId := t_Id t; ua_AssignedWorkerId := -1;
                         ua_WriteLocation := t_WriteLocation t; ua_Status := "not started";
                         ua_Intermediate := []; ua_Retries := i64 (t_Retries t + 1) |})
       | Some (ops, intermediate) =>
                 (ops, {| ua_TaskId := t_Id t; ua_AssignedWorkerId := t_AssignedWorkerId t;
                          ua_WriteLocation := t_WriteLocation t; ua_Status := "completed";
                          ua_Intermediate := intermediate; ua_Retries := t_Retries t |})
       end).

(** The same with its file operations, without anyone in between. *)
Definition execute (workerInitDir : string) (t : Task) (fs : FS) : outcome (FS * UpdateTaskStatusArgs) :=
  '(ops, args) ← begin_task workerInitDir t fs; Ret (run_ops ops None fs, args).

(** ** The system *)

(** A worker that executes a task: [wk_report] is [None] until it has read its input, and then
    the report it makes when nothing is left to do. *)
Record worker := {
  wk_task : Task;
  wk_report : option UpdateTaskStatusArgs;
  wk_todo : list file_op;
  wk_data : option string
}.
#[export] Instance eta_worker : Eta worker := λ w,
  {| wk_task := wk_task w; wk_report := wk_report w; wk_todo := wk_todo w; wk_data := wk_data w |}.

(** [mr_busy] maps the process id of a worker to what it executes; [mr_log] records the
    completions the coordinator accepted (no step reads it). *)
Record mr_state := {
  mr_coord : Coordinator;
  mr_fs : FS;
  mr_busy : gmap nat worker;
  mr_log : list (string * list KeyValue)
}.
#[export] Instance eta_mr_state : Eta mr_state := λ s,
  {| mr_coord := mr_coord s; mr_fs := mr_fs s; mr_busy := mr_busy s; mr_log := mr_log s |}.

(** A worker asks for a task; reads its input; does its next file operation; reports, and the
    report arrives; reports, and it is lost; dies. *)
Inductive mr_event :=
  | EvRequest (pid : nat) (now : Z)
  | EvBegin (pid : nat) (workerInitDir : string)
  | EvWork (pid : nat)
  | EvReport (pid : nat) (now : Z)
  | EvLost (pid : nat)
  | EvCrash (pid : nat)
  | EvDone (now : Z).

Definition accepted_log (args : UpdateTaskStatusArgs) (c : Coordinator)
    : list (string * list KeyValue) :=
  if decide (ua_Status args = "completed") then
    match list_find (updatable args) (Tasks c) with
    | Some _ => [(ua_TaskId args, ua_Intermediate args)]
    | None => []
    end
  else [].

(** An event of a worker that is not in the right state changes nothing. *)
Definition mr_step (e : mr_event) (s : mr_state) : outcome mr_state :=
  match e with
  | EvRequest pid now =>
      match mr_busy s !! pid with
      | Some _ => Ret s
      | None =>
          let '(c, reply) := RequestTask now {| ra_WorkerId := Z.of_nat pid |} (mr_coord s) in
          let s := s <| mr_coord := c |> in
          if decide (t_ReadLocation (rr_Task reply) = "") then Ret s
          else
            let w := {| wk_task := rr_Task reply; wk_report := None; wk_todo := []; wk_data := None |} in
            Ret (s <| mr_busy := <[pid := w]> (mr_busy s) |>)
      end
  | EvBegin pid workerInitDir =>
      match mr_busy s !! pid with
      | Some {| wk_task := t; wk_report := None |} =>
          '(ops, args) ← begin_task workerInitDir t (mr_fs s);
          let w := {| wk_task := t; wk_report := Some args; wk_todo := ops; wk_data := None |} in
          Ret (s <| mr_busy := <[pid := w]> (mr_busy s) |>)
      | _ => Ret s
      end
  | EvWork pid =>
      match mr_busy s !! pid with
      | Some ({| wk_todo := op :: ops |} as w) =>
          let '(fs, data) := do_op op (wk_data w) (mr_fs s) in
          Ret (s <| mr_fs := fs |> <| mr_busy := <[pid := w <| wk_todo := ops |> <| wk_data := data |>]> (mr_busy s) |>)
      | _ => Ret s
      end
  | EvReport pid now =>
      match mr_busy s !! pid with
      | Some {| wk_report := Some args; wk_todo := [] |} =>
          '(c, fs) ← UpdateTaskStatus now args (mr_coord s) (mr_fs s);
          Ret {| mr_coord := c; mr_fs := fs; mr_busy := delete pid (mr_busy s);
                 mr_log := mr_log s ++ accepted_log args (mr_coord s) |}
      | _ => Ret s
      end
  | EvLost pid =>
      match mr_busy s !! pid with
      | Some {| wk_report := Some _; wk_todo := [] |} => Ret (s <| mr_busy := delete pid (mr_busy s) |>)
      | _ => Ret s
      end
  | EvCrash pid => Ret (s <| mr_busy := delete pid (mr_busy s) |>)
  | EvDone now => Ret (s <| mr_coord := (Done now (mr_coord s)).1 |>)
  end.

Fixpoint mr_run (es : list mr_event) (s : mr_state) : outcome mr_state :=
  match es with
  | [] => Ret s
  | e :: es => s ← mr_step e s; mr_run es s
  end.

Definition mr_init (dir : string) (now : Z) (files : list string) (nReduce : Z) (fs : FS)
    : mr_state :=
  let '(c, fs) := MakeCoordinator dir now files nReduce fs in
  {| mr_coord := c; mr_fs := fs; mr_busy := ∅; mr_log := [] |}.
End system.
