(* ===== verification/MRFiles.v ===== *)
(** * Files that several workers write

    Reading and writing the file system of [MRCoordinator] a piece at a time: what one file
    operation changes, writing a text line by line when somebody else writes the same text,
    and the conditions on a run under which the copies of the output files stay whole.  A
    worker does not write its output elsewhere and rename it, it writes in place
    ([executeReducef], [copyToWorkerInitDir] of src/src/mr/worker.go), so two workers that have
    the same reduce task, one of them past its timeout, share two files. *)
From stdpp Require Import base tactics numbers list fin_maps gmap strings sorting pretty.
From S2P Require Import Prelude GoLib GoStrings MRText MRJob MRCoordinator.

(** ** Texts, piece by piece *)

Abbreviation la := String.list_ascii_of_string.

Lemma la_inj s t : la s = la t → s = t.
Proof. intros E. by rewrite <- (String.string_of_list_ascii_of_string s), E, String.string_of_list_ascii_of_string. Qed.

Lemma la_length s : length (la s) = String.length s.
Proof. induction s as [|a s IH]; cbn; [done|]. by rewrite IH. Qed.

Lemma la_app s t : la (s +:+ t) = la s ++ la t.
Proof. induction s as [|a s IH]; [done|]. rewrite append_cons. cbn. by rewrite IH. Qed.

Lemma la_concat_app l1 l2 : la (concat_str (l1 ++ l2)) = la (concat_str l1) ++ la (concat_str l2).
Proof.
  induction l1 as [|s l1 IH]; [done|]. change (concat_str ((s :: l1) ++ l2)) with (s +:+ concat_str (l1 ++ l2)).
  change (concat_str (s :: l1)) with (s +:+ concat_str l1). by rewrite !la_app, IH, app_assoc.
Qed.

(** The first [n] bytes of a file are those of the text. *)
Definition agree (n : nat) (m text : string) : Prop := ∀ i, (i < n)%nat → la m !! i = la text !! i.

(** The file is not longer than the text. *)
Definition fits (m text : string) : Prop := (length (la m) ≤ length (la text))%nat.

Lemma agree_0 m text : agree 0 m text.
Proof. intros i Hi. lia. Qed.

Lemma agree_refl n text : agree n text text.
Proof. done. Qed.

Lemma agree_all m text : agree (length (la text)) m text → fits m text → m = text.
Proof.
  intros Ha Hf. apply la_inj, list_eq. intros i. destruct (decide (i < length (la text))%nat) as [Hi|Hi]; [by apply Ha|].
  unfold fits in Hf. rewrite !lookup_ge_None_2 by lia. done.
Qed.

Lemma write_at_start d : write_at 0 d "" = d.
Proof.
  unfold write_at. case_decide as E; [by subst|]. cbn. rewrite drop_nil, app_nil_r.
  apply String.string_of_list_ascii_of_string.
Qed.

(** Every byte of a file after a write: the text written, and what was there before, with
    zeros in the hole if there was nothing. *)
Lemma write_at_lookup off d m i : d ≠ "" →
  la (write_at off d m) !! i =
    if decide (i < off)%nat then Some (default Ascii.zero (la m !! i))
    else if decide (i < off + length (la d))%nat then la d !! (i - off)%nat
    else la m !! i.
Proof.
  intros Hd. unfold write_at. rewrite decide_False by done. rewrite String.list_ascii_of_string_of_list_ascii.
  rewrite !app_assoc. rewrite <- app_assoc. set (l := la m).
  assert (length (take off l ++ replicate (off - length l) Ascii.zero) = off) as Hlen.
  { rewrite length_app, length_take, length_replicate. lia. }
  case_decide as Hi; [|case_decide as Hi'].
  - rewrite lookup_app_l by lia. destruct (decide (i < length l)%nat) as [Hl|Hl].
    + rewrite lookup_app_l by (rewrite length_take; lia). rewrite lookup_take_lt by lia.
      by destruct (lookup_lt_is_Some_2 l i Hl) as [c ->].
    + rewrite lookup_app_r by (rewrite length_take; lia). rewrite (lookup_ge_None_2 l i) by lia.
      apply lookup_replicate_2. rewrite length_take. lia.
  - rewrite lookup_app_r, Hlen by lia. by rewrite lookup_app_l by lia.
  - rewrite lookup_app_r, Hlen by lia. rewrite lookup_app_r by lia. rewrite lookup_drop. f_equal. lia.
Qed.

(** Writing a piece of the text where it belongs. *)
Section piece.
Context (done d rest : list string).
Let text := concat_str (done ++ d ++ rest).
Let off := length (la (concat_str done)).
Let piece := concat_str d.

Lemma piece_lookup i : (off ≤ i)%nat → (i < off + length (la piece))%nat → la piece !! (i - off)%nat = la text !! i.
Proof.
  intros H1 H2. unfold text. rewrite !la_concat_app. rewrite lookup_app_r by done. by rewrite lookup_app_l by (unfold piece, off in *; lia).
Qed.

Lemma text_length : (off + length (la piece) ≤ length (la text))%nat.
Proof. unfold text, off, piece. rewrite !la_concat_app, !length_app. lia. Qed.

Lemma write_at_agree n m : agree n m text → agree n (write_at off piece m) text.
Proof.
  intros Ha i Hi. destruct (decide (piece = "")) as [E|Hd]; [unfold write_at; rewrite decide_True by done; auto|].
  pose proof text_length as Ht. rewrite write_at_lookup by done. case_decide; [|case_decide].
  - rewrite (Ha i Hi). by destruct (lookup_lt_is_Some_2 (la text) i ltac:(lia)) as [c ->].
  - apply piece_lookup; lia.
  - auto.
Qed.

Lemma write_at_more m : agree off m text → agree (off + length (la piece)) (write_at off piece m) text.
Proof.
  intros Ha i Hi. destruct (decide (i < off)%nat) as [H|H]; [by apply (write_at_agree off)|].
  destruct (decide (piece = "")) as [E|Hd]; [rewrite E in Hi; cbn in Hi; lia|].
  rewrite write_at_lookup by done. rewrite decide_False by done. rewrite decide_True by done. apply piece_lookup; lia.
Qed.

Lemma write_at_fits m : fits m text → fits (write_at off piece m) text.
Proof.
  unfold fits. intros Hf. destruct (decide (piece = "")) as [E|Hd]; [unfold write_at; rewrite decide_True by done; done|].
  pose proof text_length as Ht. apply lookup_ge_None. rewrite write_at_lookup by done.
  rewrite !decide_False by lia. apply lookup_ge_None. lia.
Qed.
End piece.

(** ** What one file operation changes *)

Lemma fs_write_dirs p data fs : fs_dirs (fs_write p data fs) = fs_dirs fs.
Proof. unfold fs_write. by case_decide. Qed.

Lemma fs_write_other p data fs q : q ≠ p → fs_files (fs_write p data fs) !! q = fs_files fs !! q.
Proof. intros Hq. unfold fs_write. case_decide; [|done]. cbn. by rewrite lookup_insert_ne. Qed.

Lemma fs_write_there p data fs :
  path_Dir p ∈ fs_dirs fs → p ∉ fs_dirs fs → fs_files (fs_write p data fs) !! p = Some data.
Proof. intros H1 H2. unfold fs_write. rewrite decide_True by done. cbn. by rewrite lookup_insert_eq. Qed.

Lemma fs_write_at_there p off data fs :
  path_Dir p ∈ fs_dirs fs → p ∉ fs_dirs fs →
  fs_files (fs_write_at p off data fs) !! p = Some (write_at off data (default "" (fs_files fs !! p))).
Proof. intros H1 H2. unfold fs_write_at. rewrite decide_True by done. cbn. by rewrite lookup_insert_eq. Qed.

(** Only the files of [ps] differ. *)
Definition changes (ps : list string) (fs fs' : FS) : Prop :=
  fs_dirs fs' = fs_dirs fs ∧ ∀ p, p ∉ ps → fs_files fs' !! p = fs_files fs !! p.

Lemma changes_refl ps fs : changes ps fs fs.
Proof. done. Qed.

Lemma changes_write ps p data fs fs' : p ∈ ps → changes ps fs fs' → changes ps fs (fs_write p data fs').
Proof.
  intros Hp [Hd Hf]. split; [by rewrite fs_write_dirs|]. intros q Hq.
  rewrite fs_write_other; [auto|]. by intros ->.
Qed.

Lemma changes_trans ps qs fs fs1 fs2 : changes ps fs fs1 → changes qs fs1 fs2 → changes (ps ++ qs) fs fs2.
Proof.
  intros [H1 H2] [K1 K2]. split; [congruence|]. intros p [Hp Hq]%not_elem_of_app. rewrite K2 by done. auto.
Qed.

Lemma changes_mono ps qs fs fs' : changes ps fs fs' → ps ⊆ qs → changes qs fs fs'.
Proof. intros [H1 H2] Hs. split; [done|]. intros p Hp. apply H2. set_solver. Qed.
Create HintDb mr.
#[export] Hint Resolve changes_refl changes_write : mr.

Definition op_path (op : file_op) : string :=
  match op with
  | OpCreate p | OpWrite p _ _ | OpReadBack p | OpDupCreate p | OpDupWrite p => p
  end.

Lemma do_op_changes op data fs : changes [op_path op] fs (do_op op data fs).1.
Proof.
  assert (∀ p off d, changes [p] fs (fs_write_at p off d fs)) as Hat.
  { intros p off d. unfold fs_write_at. case_decide; [|done]. split; [done|]. intros q Hq. cbn.
    rewrite lookup_insert_ne; [done|]. intros ->. by destruct Hq; left. }
  destruct op; cbn; try (apply changes_write; [left|done]); try apply Hat; [done|..];
    (destruct data; [|done]); [apply changes_write; [left|done]|apply Hat].
Qed.

(** In a directory that is not there nothing changes. *)
Lemma do_op_nowhere op data fs : path_Dir (op_path op) ∉ fs_dirs fs → (do_op op data fs).1 = fs.
Proof.
  intros Hd. destruct op; cbn in *; try done; try (destruct data; [|done]);
    unfold fs_write, fs_write_at; by rewrite decide_False by tauto.
Qed.

Lemma line_ops_path p off ls op : op ∈ line_ops p off ls → op_path op = p.
Proof.
  revert off. induction ls as [|l ls IH]; intros off; cbn; [by intros ?%elem_of_nil|].
  intros [->|Hin]%elem_of_cons; [done|by eapply IH].
Qed.

(** ** Runs in which the copies stay whole *)

(** The coordinator has the worker's task down as the worker's. *)
Definition owns (pid : nat) (w : worker) (s : mr_state) : bool :=
  existsb (λ t, bool_decide (t_Id t = t_Id (wk_task w) ∧ t_AssignedWorkerId t = Z.of_nat pid)) (Tasks (mr_coord s)).

(** The worker has read its output back and not written the copy yet. *)
Definition copying (w : worker) : bool :=
  match wk_todo w with OpDupCreate _ :: _ | OpDupWrite _ :: _ => true | _ => false end.

(** It has created the copy and not written it. *)
Definition half_copied (w : worker) : bool :=
  match wk_todo w with OpDupWrite _ :: _ => true | _ => false end.

(** Nobody else is copying the same output. *)
Definition sole_copier (pid : nat) (w : worker) (s : mr_state) : bool :=
  forallb (λ pw : nat * worker, bool_decide (pw.1 = pid) || negb (bool_decide (t_Id (wk_task pw.2) = t_Id (wk_task w)))
                                || negb (copying pw.2)) (map_to_list (mr_busy s)).

(** A reduce worker creates its output only while the task is its own, reads it back only when
    nobody else is copying that output, and does not die between creating and writing the copy
    unless the task is its own. *)
Definition careful (e : mr_event) (s : mr_state) : bool :=
  match e with
  | EvWork pid =>
      match mr_busy s !! pid with
      | Some w =>
          bool_decide (t_Type (wk_task w) = "map") ||
          match wk_todo w with
          | OpCreate _ :: _ => owns pid w s
          | OpReadBack _ :: _ => sole_copier pid w s
          | _ => true
          end
      | None => true
      end
  | EvCrash pid =>
      match mr_busy s !! pid with Some w => negb (half_copied w) || owns pid w s | None => true end
  | _ => true
  end.

Section undisturbed.
Context (mapf : string → string → list KeyValue) (reducef : string → list string → string).
Context (sort_Sort : list KeyValue → list KeyValue) (range_order : list Z → list Z).

(** All along the run; and in the end no copy is left half done. *)
Fixpoint undisturbed (es : list mr_event) (s : mr_state) : bool :=
  match es with
  | [] => forallb (λ pw : nat * worker, negb (half_copied pw.2)) (map_to_list (mr_busy s))
  | e :: es =>
      careful e s &&
      match mr_step mapf reducef sort_Sort range_order e s with Ret s => undisturbed es s | _ => true end
  end.
End undisturbed.

Lemma owns_spec pid w s :
  owns pid w s = true ↔ ∃ t, t ∈ Tasks (mr_coord s) ∧ t_Id t = t_Id (wk_task w) ∧ t_AssignedWorkerId t = Z.of_nat pid.
Proof.
  unfold owns. rewrite existsb_exists. split.
  - intros (t & Ht%list_elem_of_In & [? ?]%bool_decide_eq_true). by exists t.
  - intros (t & Ht & Hid & Ha). exists t. split; [by apply list_elem_of_In|]. by apply bool_decide_eq_true.
Qed.

Lemma sole_copier_spec pid w s :
  sole_copier pid w s = true ↔
  ∀ pid' w', mr_busy s !! pid' = Some w' → pid' ≠ pid → t_Id (wk_task w') = t_Id (wk_task w) → copying w' = false.
Proof.
  unfold sole_copier. rewrite forallb_forall. split.
  - intros H pid' w' Hb Hp Hid. specialize (H (pid', w')). cbn in H.
    rewrite <- list_elem_of_In, elem_of_map_to_list in H. specialize (H Hb).
    rewrite bool_decide_eq_false_2, bool_decide_eq_true_2 in H by done. by apply negb_true_iff in H.
  - intros H [pid' w'] Hb. rewrite <- list_elem_of_In, elem_of_map_to_list in Hb. cbn.
    destruct (decide (pid' = pid)) as [->|Hp]; [by rewrite bool_decide_eq_true_2|].
    destruct (decide (t_Id (wk_task w') = t_Id (wk_task w))) as [Hid|Hid].
    + by rewrite (H pid' w' Hb Hp Hid), orb_true_r.
    + by rewrite (bool_decide_eq_false_2 (t_Id _ = _)), orb_true_r.
Qed.
