(* ===== verification/MRSafety.v ===== *)
(** * The task table of the coordinator

    Invariants of the system of [MRCoordinator], for every interleaving of requests,
    completions, crashes (also between two file operations) and timeouts of any number of
    workers. *)
From stdpp Require Import base tactics numbers list fin_maps gmap strings sorting pretty.
From S2P Require Import Prelude GoLib GoStrings MRText MRJob MRCoordinator.

(** ** Task identities *)

Lemma pretty_N_go_ne_p x s s' : s ≠ "p-" +:+ s' → pretty_N_go x s ≠ "p-" +:+ s'.
Proof.
  revert s. induction (N.lt_wf_0 x) as [x _ IH]; intros s Hs.
  assert (x = 0 ∨ 0 < x)%N as [->|Hx] by lia; [by rewrite pretty_N_go_0|].
  rewrite pretty_N_go_step by done. apply IH; [by apply N.div_lt|].
  unfold pretty_N_char. by repeat case_match.
Qed.

Lemma pretty_nat_ne_p (i : nat) s : pretty i ≠ "p-" +:+ s.
Proof.
  unfold pretty, pretty_nat, pretty, pretty_N. case_decide; [done|]. by apply pretty_N_go_ne_p.
Qed.

Lemma append_inj_r (s t u : string) : (s +:+ t) = (s +:+ u) → t = u.
Proof. induction s as [|a s IH]; [done|]. rewrite !append_cons. intros [= H]. by apply IH. Qed.

(** ** One task *)

(** Who is assigned follows the status. *)
Definition task_ok (t : Task) : Prop :=
  (t_Status t = "not started" ∧ t_AssignedWorkerId t = -1) ∨
  ((t_Status t = "in progress" ∨ t_Status t = "completed") ∧ 0 ≤ t_AssignedWorkerId t) ∨
  (t_Status t = "skipped" ∧ t_AssignedWorkerId t = -1).

Definition completed (t : Task) : Prop := t_Status t = "completed".

(** The steps of a task keep its identity and never touch a completed one. *)
Definition task_step (t t' : Task) : Prop :=
  t_Id t' = t_Id t ∧ t_Type t' = t_Type t ∧ t_ReadLocation t' = t_ReadLocation t ∧
  (completed t → t' = t) ∧ (task_ok t → task_ok t').

#[export] Instance task_step_preorder : PreOrder task_step.
Proof.
  split; [by split|]. intros x y z (? & ? & ? & Hc & Ho) (? & ? & ? & Hc' & Ho').
  split_and!; try congruence; [|auto]. intros Hx. pose proof (Hc Hx) as ->. by apply Hc'.
Qed.

Lemma setSkipped_step now t :
  task_step t (setSkippedIfApplicable now t) ∧ ¬ (completed (setSkippedIfApplicable now t) ∧ ¬ completed t).
Proof.
  unfold setSkippedIfApplicable. case_decide as H; [|split; [done|tauto]].
  destruct H as [Hs _]. split; [|intros [Hc _]; done].
  split_and!; [done..| |]; [unfold completed; congruence|]. intros _. right; right. done.
Qed.

Lemma setNotStarted_step now t :
  task_step t (setNotStartedIfApplicable now t) ∧
  ¬ (completed (setNotStartedIfApplicable now t) ∧ ¬ completed t).
Proof.
  unfold setNotStartedIfApplicable. case_decide as H; [|split; [done|tauto]].
  destruct H as [Hs _]. split; [|intros [Hc _]; done].
  split_and!; [done..| |]; [unfold completed; congruence|]. intros _. by left.
Qed.

(** The table after [Done]: task by task, a step that completes nothing. *)
Definition tick_step (t t' : Task) : Prop := task_step t t' ∧ (completed t' → completed t).

Lemma Done_loop_step now tasks : Forall2 tick_step tasks (Done_loop now tasks).1.
Proof.
  assert (∀ l, Forall2 tick_step l l) as Hrefl.
  { intros l. apply Forall_Forall2_diag, Forall_true. by split. }
  induction tasks as [|t tasks IH]; cbn; [constructor|].
  destruct (setSkipped_step now t) as [H1 H2].
  destruct (setNotStarted_step now (setSkippedIfApplicable now t)) as [H3 H4].
  assert (tick_step t (setNotStartedIfApplicable now (setSkippedIfApplicable now t))) as Ht.
  { split; [by etransitivity|]. intros Hc.
    destruct (decide (t_Status t = "completed")) as [|Hn]; [done|]. exfalso.
    destruct (decide (t_Status (setSkippedIfApplicable now t) = "completed")) as [Hc'|Hn'].
    - by apply H2.
    - by apply H4. }
  destruct (over _); [|by constructor].
  destruct (Done_loop now tasks) as [ts b]; cbn in *. by constructor.
Qed.

Lemma Done_loop_true now tasks :
  (Done_loop now tasks).2 = true → Forall (λ t, over t = true) (Done_loop now tasks).1.
Proof.
  induction tasks as [|t tasks IH]; cbn; [constructor|]. destruct (over _) eqn:E; [|done].
  destruct (Done_loop now tasks) as [ts b]; cbn in *. intros Hb. by constructor; auto.
Qed.

(** ** The system *)

Section safety.
Context (mapf : string → string → list KeyValue) (reducef : string → list string → string).
Context (sort_Sort : list KeyValue → list KeyValue) (range_order : list Z → list Z).
Context (Hrange : ∀ ps, range_order ps ≡ₚ ps).
Implicit Types (s : mr_state) (c : Coordinator) (t : Task).

Abbreviation step := (mr_step mapf reducef sort_Sort range_order).
Abbreviation run := (mr_run mapf reducef sort_Sort range_order).

(** What a worker that has the task [t] may report. *)
Definition args_of t (args : UpdateTaskStatusArgs) : Prop :=
  ua_TaskId args = t_Id t ∧
  (ua_Status args = "completed" ∧ ua_AssignedWorkerId args = t_AssignedWorkerId t ∨
   ua_Status args = "not started" ∧ ua_AssignedWorkerId args = -1 ∧ ua_Intermediate args = []).

(** What the table, the workers and the log of accepted completions have to do with each
    other. *)
Record mr_ok s : Prop := {
  mo_ids : NoDup (t_Id <$> Tasks (mr_coord s));
  mo_tasks : Forall task_ok (Tasks (mr_coord s));
  mo_busy pid w : mr_busy s !! pid = Some w →
    t_AssignedWorkerId (wk_task w) = Z.of_nat pid ∧
    (∀ t', t' ∈ Tasks (mr_coord s) → t_Id t' = t_Id (wk_task w) → completed t' →
           t_AssignedWorkerId t' ≠ Z.of_nat pid) ∧
    (∀ args, wk_report w = Some args → args_of (wk_task w) args);
  mo_log_nodup : NoDup ((mr_log s).*1);
  mo_log id : id ∈ (mr_log s).*1 ↔ ∃ t, t ∈ Tasks (mr_coord s) ∧ t_Id t = id ∧ completed t;
  mo_early : IsReduceGenerated (mr_coord s) = false →
    IntermediateResults (mr_coord s) = concat ((mr_log s).*2) ∧
    ∀ t, t ∈ Tasks (mr_coord s) → t_Type t = "map" ∧ ∃ i : nat, t_Id t = pretty i
}.

(** The table changes task by task without a completion. *)
Lemma tick_ids tasks tasks' : Forall2 tick_step tasks tasks' → t_Id <$> tasks' = t_Id <$> tasks.
Proof. induction 1 as [|t t' ts ts' [(Hi & _) _] _ IH]; cbn; [done|]. by f_equal. Qed.

Lemma Forall2_elem_r {A} (R : A → A → Prop) l l' y :
  Forall2 R l l' → y ∈ l' → ∃ x, x ∈ l ∧ R x y.
Proof.
  induction 1 as [|a b l l' Hab _ IH]; [by intros ?%elem_of_nil|].
  intros [->|Hin]%elem_of_cons; [exists a; split; [left|done]|].
  destruct (IH Hin) as (x & ? & ?). exists x. split; [by right|done].
Qed.

Lemma Forall2_elem_l {A} (R : A → A → Prop) l l' x :
  Forall2 R l l' → x ∈ l → ∃ y, y ∈ l' ∧ R x y.
Proof.
  induction 1 as [|a b l l' Hab _ IH]; [by intros ?%elem_of_nil|].
  intros [->|Hin]%elem_of_cons; [exists b; split; [left|done]|].
  destruct (IH Hin) as (y & ? & ?). exists y. split; [by right|done].
Qed.

(** A change of the table that completes nothing. *)
Lemma mr_ok_tick s c :
  mr_ok s → Forall2 tick_step (Tasks (mr_coord s)) (Tasks c) →
  IntermediateResults c = IntermediateResults (mr_coord s) →
  IsReduceGenerated c = IsReduceGenerated (mr_coord s) →
  mr_ok (s <| mr_coord := c |>).
Proof.
  intros [Hids Htasks Hbusy Hnd Hlog Hearly] Hstep Hir Hg.
  assert (∀ t', t' ∈ Tasks c → completed t' → t' ∈ Tasks (mr_coord s)) as Hback.
  { intros t' Hin Hc. destruct (Forall2_elem_r _ _ _ _ Hstep Hin) as (t & Ht & (_ & _ & _ & Hk & _) & Hc').
    by rewrite (Hk (Hc' Hc)). }
  split; cbn; rewrite ?Hir, ?Hg.
  - by rewrite (tick_ids _ _ Hstep).
  - rewrite Forall_forall in *. intros t' Hin.
    destruct (Forall2_elem_r _ _ _ _ Hstep Hin) as (t & Ht & (_ & _ & _ & _ & Ho) & _). auto.
  - intros pid w Hb. destruct (Hbusy pid w Hb) as (Ha & Hno & Har). split_and!; [done| |done].
    intros t' Hin Hid Hc. auto.
  - done.
  - intros id. rewrite Hlog. split.
    + intros (t & Hin & Hid & Hc). destruct (Forall2_elem_l _ _ _ _ Hstep Hin) as (t' & Hin' & (_ & _ & _ & Hk & _) & _).
      exists t'. rewrite (Hk Hc) in *. done.
    + intros (t & Hin & Hid & Hc). exists t. auto.
  - intros He. destruct (Hearly He) as [? Hm]. split; [done|]. intros t' Hin.
    destruct (Forall2_elem_r _ _ _ _ Hstep Hin) as (t & Ht & (Hid & Hty & _) & _).
    rewrite Hid, Hty. auto.
Qed.

Lemma Forall2_tick_insert tasks i t t' :
  tasks !! i = Some t → tick_step t t' → Forall2 tick_step tasks (<[i := t']> tasks).
Proof.
  intros Hi Ht. apply Forall2_same_length_lookup_2; [by rewrite length_insert|].
  intros j x y Hx Hy. apply list_lookup_insert_Some in Hy as [(<- & <- & _)|[_ Hy]].
  - by simplify_eq.
  - simplify_eq. by split.
Qed.

Lemma mr_ok_busy s pid w :
  mr_ok s → t_AssignedWorkerId (wk_task w) = Z.of_nat pid →
  (∀ t', t' ∈ Tasks (mr_coord s) → t_Id t' = t_Id (wk_task w) → completed t' →
         t_AssignedWorkerId t' ≠ Z.of_nat pid) →
  (∀ args, wk_report w = Some args → args_of (wk_task w) args) →
  mr_ok (s <| mr_busy := <[pid := w]> (mr_busy s) |>).
Proof.
  intros [Hids Htasks Hbusy Hnd Hlog Hearly] Ha Hno Har. split; try done. cbn.
  intros pid' t'. rewrite lookup_insert. case_decide as Hp; [|apply Hbusy].
  intros [= <-]. by rewrite <- Hp.
Qed.

Lemma mr_ok_leave s pid : mr_ok s → mr_ok (s <| mr_busy := delete pid (mr_busy s) |>).
Proof.
  intros [Hids Htasks Hbusy Hnd Hlog Hearly]. split; try done. cbn.
  intros pid' t' [_ Hb]%lookup_delete_Some. by apply Hbusy.
Qed.

Lemma same_id tasks t t' :
  NoDup (t_Id <$> tasks) → t ∈ tasks → t' ∈ tasks → t_Id t = t_Id t' → t = t'.
Proof.
  intros Hnd [i Hi]%list_elem_of_lookup [j Hj]%list_elem_of_lookup Hid.
  assert (i = j) as ->; [|congruence].
  eapply (NoDup_lookup _ i j (t_Id t)); [done|by rewrite list_lookup_fmap, Hi|].
  by rewrite list_lookup_fmap, Hj, Hid.
Qed.

Lemma mr_ok_request s pid now :
  mr_ok s → mr_busy s !! pid = None →
  let '(c, reply) := RequestTask now {| ra_WorkerId := Z.of_nat pid |} (mr_coord s) in
  mr_ok (s <| mr_coord := c |>) ∧
  (t_ReadLocation (rr_Task reply) ≠ "" →
   mr_ok ((s <| mr_coord := c |>) <| mr_busy := <[pid :=
     {| wk_task := rr_Task reply; wk_report := None; wk_todo := []; wk_data := None |}]> (mr_busy s) |>)).
Proof.
  intros Hok Hidle. unfold RequestTask.
  destruct (list_find requestable (Tasks (mr_coord s))) as [[i t]|] eqn:E.
  2: { split; [by apply (mr_ok_tick s); [done|apply Forall_Forall2_diag, Forall_true; by split|..]|done]. }
  apply list_find_Some in E as (Hi & [Hst Has] & _).
  set (t' := t <| t_Status := "in progress" |> <| t_AssignedWorkerId := ra_WorkerId _ |> <| t_LastUpdated := now |>).
  set (c := (mr_coord s) <| Tasks := <[i := t']> (Tasks (mr_coord s)) |>).
  assert (tick_step t t') as Ht.
  { split; [|done]. split_and!; [done..| |]; [unfold completed; congruence|].
    intros _. right; left. cbn. split; [by left|lia]. }
  assert (mr_ok (s <| mr_coord := c |>)) as Hok'
    by (apply mr_ok_tick; [done|by eapply Forall2_tick_insert|done|done]).
  split; [done|]. intros _. cbn [rr_Task].
  change (mr_busy s) with (mr_busy (s <| mr_coord := c |>)).
  apply mr_ok_busy; [done|done| |done].
  intros t1 H1 Hid Hc. exfalso.
  assert (t1 = t') as ->; [|done].
  apply (same_id (Tasks c)); [apply Hok'|done| |done].
  apply (list_elem_of_lookup_2 _ i), list_lookup_insert_eq. by eapply lookup_lt_Some.
Qed.

(** *** Completions *)

(** The coordinator and the log after [update_task], for a worker that just left [t]. *)
Lemma mr_ok_update s now args pid w :
  mr_ok s → mr_busy s !! pid = Some w → args_of (wk_task w) args →
  mr_ok {| mr_coord := update_task now args (mr_coord s); mr_fs := mr_fs s;
           mr_busy := delete pid (mr_busy s);
           mr_log := mr_log s ++ accepted_log args (mr_coord s) |}.
Proof.
  intros Hok Hb [Hid Hargs]. pose proof (mo_busy _ Hok pid w Hb) as (Hpid & Hnot & _).
  unfold update_task, accepted_log.
  destruct (list_find (updatable args) (Tasks (mr_coord s))) as [[i t0]|] eqn:E.
  2: { case_decide; rewrite app_nil_r; by apply (mr_ok_leave s pid). }
  apply list_find_Some in E as (Hi & [Hid0 Has0] & _).
  assert (t0 ∈ Tasks (mr_coord s)) as Hin0 by (by eapply list_elem_of_lookup_2).
  assert (¬ completed t0) as Hnc.
  { intros Hc. destruct Hargs as [[_ Hua]|(_ & Hua & _)].
    - apply (Hnot t0); [done|congruence|done|congruence].
    - pose proof (mo_tasks _ Hok) as Hall. rewrite Forall_forall in Hall.
      destruct (Hall _ Hin0) as [[Hs _]|[[_ ?]|[Hs _]]]; [unfold completed in Hc; congruence|lia|].
      unfold completed in Hc. congruence. }
  set (t1 := t0 <| t_Status := ua_Status args |> <| t_WriteLocation := ua_WriteLocation args |>
                <| t_Retries := ua_Retries args |> <| t_LastUpdated := now |>).
  set (c1 := (mr_coord s) <| IntermediateResults := IntermediateResults (mr_coord s) ++ ua_Intermediate args |>
                          <| Tasks := <[i := t1]> (Tasks (mr_coord s)) |>).
  destruct Hargs as [[Hst Hua]|(Hst & Hua & Hnil)].
  2: { rewrite decide_False by congruence. rewrite app_nil_r.
    assert (mr_ok (s <| mr_coord := c1 |>)) as Hok1.
    { apply mr_ok_tick; [done| |by cbn; rewrite Hnil, app_nil_r|done].
      eapply Forall2_tick_insert; [done|]. split; [|unfold completed, t1; cbn; congruence].
      split_and!; try done. intros _. left. cbn. split; congruence. }
    exact (mr_ok_leave _ pid Hok1). }
  rewrite decide_True by done. destruct Hok as [Hids Htasks Hbusy Hnd Hlog Hearly].
  assert (t_Id <$> <[i := t1]> (Tasks (mr_coord s)) = t_Id <$> Tasks (mr_coord s)) as Hsame.
  { rewrite list_fmap_insert. apply list_insert_id. by rewrite list_lookup_fmap, Hi. }
  assert (∀ t', t' ∈ <[i := t1]> (Tasks (mr_coord s)) → t' = t1 ∨ t' ∈ Tasks (mr_coord s)) as Hback.
  { intros t' [j Hj]%list_elem_of_lookup.
    apply list_lookup_insert_Some in Hj as [(_ & <- & _)|[_ Hj]]; [by left|].
    right. by eapply list_elem_of_lookup_2. }
  assert (t1 ∈ <[i := t1]> (Tasks (mr_coord s))) as Hin1.
  { apply (list_elem_of_lookup_2 _ i), list_lookup_insert_eq. by eapply lookup_lt_Some. }
  split; cbn.
  - by rewrite Hsame.
  - rewrite Forall_forall in *. intros t' [->|Hin]%Hback; [|auto]. right; left.
    unfold t1; cbn. split; [right; congruence|lia].
  - intros pid' t' [Hne Hb']%lookup_delete_Some. destruct (Hbusy pid' t' Hb') as (Ha & Hno & Har).
    split_and!; [done| |done]. intros t2 [->|Hin]%Hback Hid2 Hc; [|auto].
    unfold t1; cbn. rewrite Has0, Hua, Hpid. lia.
  - rewrite fmap_app. apply NoDup_app. split_and!; [done| |apply NoDup_singleton].
    intros id (t' & Hin & Hid' & Hc)%Hlog. cbn. rewrite list_elem_of_singleton. intros ->.
    assert (t' = t0) as ->; [|done]. apply (same_id (Tasks (mr_coord s))); congruence.
  - intros id. rewrite fmap_app, elem_of_app, Hlog. cbn. rewrite list_elem_of_singleton. split.
    + intros [(t' & Hin & Hid' & Hc)| ->].
      * exists t'. split_and!; [|done|done].
        apply list_elem_of_lookup in Hin as [j Hj]. apply (list_elem_of_lookup_2 _ j).
        rewrite list_lookup_insert_ne; [done|]. intros ->. by simplify_eq.
      * exists t1. by split_and!.
    + intros (t' & [->|Hin]%Hback & Hid' & Hc); [right; rewrite <- Hid'; exact Hid0|]. left. by exists t'.
  - intros He. destruct (Hearly He) as [Hir Hm]. split.
    + rewrite fmap_app, concat_app, Hir. cbn. by rewrite app_nil_r.
    + intros t' [->|Hin]%Hback; [|auto]. cbn. by apply Hm.
Qed.

(** *** The generation of the reduce tasks *)

Lemma initializeReduceTasks_spec now parts ps c fs :
  let '(c', fs') := initializeReduceTasks now parts ps c fs in
  IsReduceGenerated c' = IsReduceGenerated c ∧
  IntermediateResults c' = IntermediateResults c ∧ 
  ∃ ts, Tasks c' = Tasks c ++ ts ∧ t_Id <$> ts = (λ p : Z, "p-" +:+ pretty p) <$> ps ∧
        Forall (λ t, t_Type t = "reduce" ∧ t_Status t = "not started" ∧ t_AssignedWorkerId t = -1) ts.
Proof.
  revert c fs. induction ps as [|p ps IH]; intros c fs; cbn.
  { split_and!; [done..|]. exists []. by rewrite app_nil_r. }
  match goal with |- context [initializeReduceTasks _ _ _ ?c1 ?fs1] => specialize (IH c1 fs1) end.
  destruct (initializeReduceTasks _ _ _ _ _) as [c' fs']. cbn in IH.
  destruct IH as (Hg & Hir & ts & Hts & Hids & Hall). split_and!; [done..|].
  eexists (_ :: ts). rewrite Hts, <- app_assoc. split_and!; [done|cbn; by rewrite Hids|].
  by constructor.
Qed.

Lemma mr_ok_generate s now c' fs' :
  mr_ok s →
  generateReduceTasksIfApplicable sort_Sort range_order now (mr_coord s) (mr_fs s) = Ret (c', fs') →
  mr_ok ((s <| mr_coord := c' |>) <| mr_fs := fs' |>).
Proof.
  intros Hok. unfold generateReduceTasksIfApplicable.
  destruct (IsReduceGenerated (mr_coord s)) eqn:Hg; [intros [= <- <-]; by destruct Hok|].
  destruct (isAllMappingDone (mr_coord s)); [|intros [= <- <-]; by destruct Hok].
  intros (parts & _ & E)%bind_ret_inv. revert E.
  set (ps := range_order ((map_to_list parts).*1)). set (c0 := (mr_coord s) <| IsReduceGenerated := true |>).
  pose proof (initializeReduceTasks_spec now parts ps c0 (mr_fs s)) as Hspec.
  destruct (initializeReduceTasks now parts ps c0 (mr_fs s)) as [c1 fs1]. intros [= <- <-].
  destruct Hspec as (Hg1 & _ & ts & Hts & Hidsn & Hall). cbn in Hts.
  destruct Hok as [Hids Htasks Hbusy Hnd Hlog Hearly]. destruct (Hearly Hg) as [_ Hm].
  assert (∀ t, t ∈ ts → ¬ completed t) as Hnc.
  { rewrite Forall_forall in Hall. intros t Ht. destruct (Hall t Ht) as (_ & Hs & _).
    unfold completed. by rewrite Hs. }
  split; cbn; rewrite ?Hts.
  - rewrite fmap_app, Hidsn. apply NoDup_app. split_and!; [done| |].
    + intros id (t & -> & Ht)%list_elem_of_fmap (p & Hp & _)%list_elem_of_fmap.
      destruct (Hm t Ht) as [_ [i Hi]]. rewrite Hi in Hp. by eapply pretty_nat_ne_p.
    + apply NoDup_fmap_2_strong; [intros x y _ _ Hxy%append_inj_r; by apply (inj pretty)|].
      unfold ps. rewrite Hrange. apply NoDup_fst_map_to_list.
  - apply Forall_app. split; [done|]. eapply Forall_impl; [exact Hall|].
    intros t (_ & Hs & Ha). by left.
  - intros pid t Hb. destruct (Hbusy pid t Hb) as (Ha & Hno & Har). split_and!; [done| |done].
    intros t' [Hin|Hin]%elem_of_app Hid Hc; [auto|]. by destruct (Hnc t').
  - done.
  - intros id. rewrite Hlog. split; intros (t & Hin & Hid & Hc); exists t; rewrite elem_of_app in *; [tauto|].
    destruct Hin as [|Hin]; [done|]. by destruct (Hnc t).
  - rewrite Hg1. done.
Qed.

(** What a worker reports. *)
Lemma begin_args dir t fs ops args : begin_task mapf reducef sort_Sort dir t fs = Ret (ops, args) → args_of t args.
Proof.
  unfold begin_task. intros (r & _ & E)%bind_ret_inv. destruct r as [[ops' kvs]|]; injection E as _ <-; cbn.
  - split; [done|]. by left.
  - split; [done|]. by right.
Qed.

Lemma mr_ok_files s fs : mr_ok s → mr_ok (s <| mr_fs := fs |>).
Proof. intros Hok. by destruct Hok. Qed.

(** A worker that goes on with its task. *)
Lemma mr_ok_work s pid w w' :
  mr_ok s → mr_busy s !! pid = Some w → wk_task w' = wk_task w →
  (∀ args, wk_report w' = Some args → args_of (wk_task w) args) →
  mr_ok (s <| mr_busy := <[pid := w']> (mr_busy s) |>).
Proof.
  intros Hok Hb Ht Har. destruct (mo_busy _ Hok pid w Hb) as (Ha & Hno & _).
  apply mr_ok_busy; rewrite ?Ht; done.
Qed.

Lemma step_ok e s s' : mr_ok s → step e s = Ret s' → mr_ok s'.
Proof.
  intros Hok. destruct e as [pid now|pid dir|pid|pid now|pid|pid|now]; cbn [mr_step].
  - destruct (mr_busy s !! pid) eqn:Hb; [by intros [= <-]|].
    pose proof (mr_ok_request s pid now Hok Hb) as Hr.
    destruct (RequestTask now _ _) as [c reply]. destruct Hr as [H1 H2].
    case_decide; intros [= <-]; auto.
  - destruct (mr_busy s !! pid) as [[t [args|] ops data]|] eqn:Hb; [by intros [= <-]| |by intros [= <-]].
    intros ([ops' args] & Eb & E)%bind_ret_inv. injection E as <-.
    eapply mr_ok_work; [done|exact Hb|done|]. cbn. intros args' [= <-]. by eapply begin_args.
  - destruct (mr_busy s !! pid) as [[t r [|op ops] data]|] eqn:Hb; [by intros [= <-]| |by intros [= <-]].
    destruct (do_op op _ (mr_fs s)) as [fs data']. intros [= <-].
    apply (mr_ok_work (s <| mr_fs := fs |>) pid _ _ (mr_ok_files _ fs Hok) Hb); [done|]. cbn.
    apply (mo_busy _ Hok pid _ Hb).
  - destruct (mr_busy s !! pid) as [[t [args|] [|op ops] data]|] eqn:Hb; try by intros [= <-].
    intros ([c fs'] & Hup & E)%bind_ret_inv. injection E as <-.
    pose proof (mr_ok_update s now args pid _ Hok Hb) as Hok1.
    exact (mr_ok_generate _ now c fs' (Hok1 (proj2 (proj2 (mo_busy _ Hok pid _ Hb)) args eq_refl)) Hup).
  - destruct (mr_busy s !! pid) as [[t [args|] [|op ops] data]|] eqn:Hb; intros [= <-]; try done. by apply mr_ok_leave.
  - intros [= <-]. by apply mr_ok_leave.
  - intros [= <-]. unfold Done. pose proof (Done_loop_step now (Tasks (mr_coord s))) as Hd.
    destruct (Done_loop now (Tasks (mr_coord s))) as [tasks b]; cbn in *.
    by apply mr_ok_tick.
Qed.

Lemma run_ok es s s' : mr_ok s → run es s = Ret s' → mr_ok s'.
Proof.
  revert s. induction es as [|e es IH]; intros s Hok; cbn [mr_run]; [by intros [= <-]|].
  intros (s1 & Hstep & Hrun)%bind_ret_inv. eapply IH; [|exact Hrun]. by eapply step_ok.
Qed.

Lemma init_ok dir now files nReduce fs : mr_ok (mr_init dir now files nReduce fs).
Proof.
  unfold mr_init, MakeCoordinator, initializeMapTasks, initializeCoordinator; cbn.
  assert (∀ n, NoDup (t_Id <$> imap (λ i f,
    {| t_Id := pretty (n + i)%nat; t_Type := "map"; t_Status := "not started"; t_AssignedWorkerId := -1;
       t_ReadLocation := f; t_WriteLocation := path_Join dir ("mr-" +:+ pretty i);
       t_Retries := 0; t_LastUpdated := now |}) files)) as Hnd.
  { intros n. rewrite fmap_imap. apply NoDup_alt. intros i j x Hi Hj.
    apply list_lookup_imap_Some in Hi as (? & _ & ->). apply list_lookup_imap_Some in Hj as (? & _ & Hx).
    cbn in Hx. apply (inj pretty) in Hx. lia. }
  split; cbn.
  - apply (Hnd 0%nat).
  - apply Forall_lookup. intros i t Hi. apply list_lookup_imap_Some in Hi as (f & _ & ->). by left.
  - intros pid t. by rewrite lookup_empty.
  - constructor.
  - intros id. split; [by intros ?%elem_of_nil|]. intros (t & [i Hi]%list_elem_of_lookup & _ & Hc).
    apply list_lookup_imap_Some in Hi as (f & _ & ->). done.
  - intros _. split; [done|]. intros t [i Hi]%list_elem_of_lookup.
    apply list_lookup_imap_Some in Hi as (f & _ & ->). cbn. eauto.
Qed.
End safety.

(** ** What the coordinator promises *)

(** C25: every task's results are merged exactly once, whatever times out, is reassigned, is
    reported late or crashes: no two accepted completions are of one task, the tasks with an
    accepted completion are the completed ones, only their results are in
    [IntermediateResults], in the order of acceptance, and a task has a worker exactly while
    it is in progress or completed. *)
Theorem results_merged_once mapf reducef sort_Sort range_order dir now files nReduce fs es s :
  (∀ ps, range_order ps ≡ₚ ps) →
  mr_run mapf reducef sort_Sort range_order es (mr_init dir now files nReduce fs) = Ret s →
  NoDup ((mr_log s).*1) ∧
  (∀ id, id ∈ (mr_log s).*1 ↔ ∃ t, t ∈ Tasks (mr_coord s) ∧ t_Id t = id ∧ t_Status t = "completed") ∧
  (IsReduceGenerated (mr_coord s) = false →
     IntermediateResults (mr_coord s) = concat ((mr_log s).*2)) ∧
  Forall task_ok (Tasks (mr_coord s)).
Proof.
  intros Hr Hrun. destruct (run_ok mapf reducef sort_Sort range_order Hr es _ s
    (init_ok dir now files nReduce fs) Hrun) as [_ Ht _ Hnd Hlog Hearly].
  split_and!; [done|done| |done]. intros Hg. by apply Hearly.
Qed.

Definition word_map (filename contents : string) : list KeyValue :=
  (λ w, {| kv_Key := w; kv_Value := "1" |}) <$> strings_Split contents space.

Definition two_files : FS :=
  {| fs_dirs := {["/main"]}; fs_files := {[ "/in/a" := "x y"; "/in/b" := "x" ]} |}.

Abbreviation sec := (1000000000) (only parsing).

(** Worker [pid] reads its input and does [n] file operations, as far as there are any. *)
Definition works (pid : nat) (workerInitDir : string) (n : nat) : list mr_event :=
  EvBegin pid workerInitDir :: replicate n (EvWork pid).

(** Worker 7 is slow on the first file: it times out, worker 8 does the task, and the late
    report of worker 7 is ignored. *)
Definition late_report : list mr_event :=
  [EvRequest 7 0; EvBegin 7 ""; EvWork 7; EvDone (6 * sec); EvRequest 8 (6 * sec)] ++
  works 8 "" 3 ++ [EvReport 8 (7 * sec)] ++ replicate 2 (EvWork 7) ++
  [EvReport 7 (8 * sec); EvRequest 7 (9 * sec)].

Lemma results_merged_once_witness :
  ∃ s, mr_run word_map (λ _ _, "") (merge_sort by_key) id late_report
         (mr_init "/main" 0 ["/in/a"; "/in/b"] 3 two_files) = Ret s ∧
    (mr_log s).*1 = ["0"] ∧ NoDup ((mr_log s).*1).
Proof.
  assert ((λ s, (mr_log s).*1) <$> mr_run word_map (λ _ _, "") (merge_sort by_key) id late_report
         (mr_init "/main" 0 ["/in/a"; "/in/b"] 3 two_files) = Ret ["0"]) as Hlog
    by (vm_compute; reflexivity).
  destruct (mr_run word_map (λ _ _, "") (merge_sort by_key) id late_report
         (mr_init "/main" 0 ["/in/a"; "/in/b"] 3 two_files)) as [s|w|m] eqn:E; [|discriminate..].
  exists s. split; [reflexivity|]. split; [by injection Hlog|].
  apply (results_merged_once word_map (λ _ _, "") (merge_sort by_key) id "/main" 0
    ["/in/a"; "/in/b"] 3 two_files late_report s (λ ps, reflexivity ps) E).
Defined.

(** [Done] answers true only when every task is completed or skipped, it completes no
    task itself and leaves completed tasks as they are. *)
Theorem Done_functional now c :
  Forall2 (λ t t', t_Id t' = t_Id t ∧ (t_Status t = "completed" ↔ t_Status t' = "completed") ∧
                   (t_Status t = "completed" → t' = t))
          (Tasks c) (Tasks (Done now c).1) ∧
  ((Done now c).2 = true →
     Forall (λ t, t_Status t = "completed" ∨ t_Status t = "skipped") (Tasks (Done now c).1)).
Proof.
  unfold Done. pose proof (Done_loop_step now (Tasks c)) as Hs.
  pose proof (Done_loop_true now (Tasks c)) as Ht.
  destruct (Done_loop now (Tasks c)) as [tasks b]; cbn in *. split.
  - eapply Forall2_impl; [exact Hs|]. intros t t' [(Hid & _ & _ & Hc & _) Hb].
    split_and!; [done| |done]. unfold completed in *. split; [intros H; by rewrite (Hc H)|done].
  - intros Hb. eapply Forall_impl; [by apply Ht|]. intros t Ho. unfold over in Ho.
    apply orb_true_iff in Ho as [H|H]; apply bool_decide_eq_true in H; auto.
Qed.

Lemma Done_functional_witness :
  let t := Task_zero <| t_Status := "completed" |> in
  let c := {| MainDir := ""; IntermediateResults := []; ReducerCount := 1; Tasks := [t];
              IsReduceGenerated := false |} in
  (Done 0 c).2 = true ∧ Forall (λ t, t_Status t = "completed" ∨ t_Status t = "skipped") (Tasks (Done 0 c).1).
Proof.
  intros t c. split; [reflexivity|]. apply (proj2 (Done_functional 0 c)). reflexivity.
Defined.

(** ** A job that ends without a reduce task *)

(** [Done] gives a task up when it is in progress with more than ten retries. *)
Definition given_up (t : Task) : Prop := t_Status t = "in progress" ∧ t_Retries t > 10.

Lemma given_up_skips now t : given_up t → t_Status (setNotStartedIfApplicable now (setSkippedIfApplicable now t)) = "skipped".
Proof.
  intros H. unfold setSkippedIfApplicable. rewrite decide_True by done.
  unfold setNotStartedIfApplicable. by rewrite decide_False by (intros [? _]; done).
Qed.

Lemma over_stays now t : over t = true → setNotStartedIfApplicable now (setSkippedIfApplicable now t) = t.
Proof.
  intros [H|H]%orb_true_iff; apply bool_decide_eq_true in H; unfold setSkippedIfApplicable;
    rewrite decide_False by (intros [? _]; congruence); unfold setNotStartedIfApplicable;
    by rewrite decide_False by (intros [? _]; congruence).
Qed.

Lemma tick_over now t :
  over (setNotStartedIfApplicable now (setSkippedIfApplicable now t)) = true ↔ over t = true ∨ given_up t.
Proof.
  split; [|intros [H|H]; [by rewrite over_stays|unfold over; rewrite given_up_skips by done; apply orb_true_r]].
  unfold setSkippedIfApplicable, given_up. case_decide as H; [by right|].
  unfold setNotStartedIfApplicable. case_decide; [|by left]. done.
Qed.

Lemma Done_loop_iff now tasks :
  (Done_loop now tasks).2 = true ↔ Forall (λ t, over t = true ∨ given_up t) tasks.
Proof.
  induction tasks as [|t tasks IH]; cbn; [by split; [constructor|]|]. rewrite Forall_cons, <- (tick_over now t), <- IH.
  destruct (over _); [by destruct (Done_loop now tasks); naive_solver|]. naive_solver.
Qed.

Lemma Done_loop_over now tasks : Forall (λ t, over t = true) tasks → Done_loop now tasks = (tasks, true).
Proof.
  induction 1 as [|t tasks Ht _ IH]; cbn; [done|]. rewrite over_stays by done. by rewrite Ht, IH.
Qed.

Section lost.
Context (mapf : string → string → list KeyValue) (reducef : string → list string → string).
Context (sort_Sort : list KeyValue → list KeyValue) (range_order : list Z → list Z).
Context (Hrange : ∀ ps, range_order ps ≡ₚ ps).

Abbreviation step := (mr_step mapf reducef sort_Sort range_order).
Abbreviation run := (mr_run mapf reducef sort_Sort range_order).

(** Until the reduce tasks are made, some map task is not completed. *)
Definition open_task (c : Coordinator) : Prop :=
  IsReduceGenerated c = false → ∃ t, t ∈ Tasks c ∧ ¬ completed t.

Lemma open_tick c c' :
  open_task c → Forall2 tick_step (Tasks c) (Tasks c') → IsReduceGenerated c' = IsReduceGenerated c → open_task c'.
Proof.
  intros Hc Hs Hg. unfold open_task. rewrite Hg. intros (t & Ht & Hn)%Hc.
  destruct (Forall2_elem_l _ _ _ _ Hs Ht) as (t' & Ht' & _ & Hb). exists t'. split; [done|]. auto.
Qed.

Lemma open_generate now c fs c' fs' :
  generateReduceTasksIfApplicable sort_Sort range_order now c fs = Ret (c', fs') → open_task c'.
Proof.
  unfold generateReduceTasksIfApplicable. destruct (IsReduceGenerated c) eqn:Hg.
  { intros [= <- <-]. unfold open_task. by rewrite Hg. }
  destruct (isAllMappingDone c) eqn:Hd.
  - intros (parts & _ & E)%bind_ret_inv. revert E.
    pose proof (initializeReduceTasks_spec now parts (range_order ((map_to_list parts).*1))
      (c <| IsReduceGenerated := true |>) fs) as H.
    destruct (initializeReduceTasks _ _ _ _ _) as [c1 fs1]. destruct H as [Hg1 _]. intros [= <- <-].
    unfold open_task. cbn. by rewrite Hg1.
  - intros [= <- <-] _. unfold isAllMappingDone in Hd. apply not_true_iff_false in Hd. rewrite forallb_forall in Hd.
    destruct (decide (Exists (λ t, ¬ completed t) (Tasks c))) as [He|Hn]; [by apply Exists_exists in He|].
    destruct Hd. intros t Ht%list_elem_of_In. apply not_Exists_Forall in Hn; [|intros ?; unfold completed; apply _].
    rewrite Forall_forall in Hn. specialize (Hn t Ht). unfold over.
    destruct (decide (t_Status t = "completed")) as [->|H]; [by rewrite orb_true_r|by destruct Hn].
Qed.

Lemma open_step e s s' : open_task (mr_coord s) → step e s = Ret s' → open_task (mr_coord s').
Proof.
  intros Ho. destruct e as [pid now|pid dir|pid|pid now|pid|pid|now]; cbn [mr_step].
  - destruct (mr_busy s !! pid); [by intros [= <-]|].
    assert (open_task (RequestTask now {| ra_WorkerId := Z.of_nat pid |} (mr_coord s)).1) as H.
    { unfold RequestTask. destruct (list_find _ _) as [[i t]|] eqn:E; [|done].
      apply list_find_Some in E as (Hi & [Hst _] & _). apply (open_tick (mr_coord s)); [done| |done].
      eapply Forall2_tick_insert; [done|]. split; [|done]. split_and!; [done..| |]; [unfold completed; congruence|].
      intros _. right; left. cbn. split; [by left|lia]. }
    destruct (RequestTask now _ _) as [c reply]. case_decide; by intros [= <-].
  - repeat case_match; try by intros [= <-]. intros ([ops args] & _ & E)%bind_ret_inv. by injection E as <-.
  - repeat case_match; by intros [= <-].
  - repeat case_match; try by intros [= <-]. intros ([c fs] & E & E')%bind_ret_inv. injection E' as <-.
    by eapply open_generate.
  - repeat case_match; by intros [= <-].
  - by intros [= <-].
  - intros [= <-]. unfold Done. pose proof (Done_loop_step now (Tasks (mr_coord s))) as Hd.
    destruct (Done_loop now (Tasks (mr_coord s))). by apply (open_tick (mr_coord s)).
Qed.

Lemma open_run es s s' : open_task (mr_coord s) → run es s = Ret s' → open_task (mr_coord s').
Proof.
  revert s. induction es as [|e es IH]; intros s Ho; cbn [mr_run]; [by intros [= <-]|].
  intros (s1 & Hstep & Hrun)%bind_ret_inv. eapply IH; [|exact Hrun]. by eapply open_step.
Qed.

Definition is_report (e : mr_event) : bool := match e with EvReport _ _ => true | _ => false end.

(** Without a report, a table in which all is over stays. *)
Lemma over_run es s s' :
  Forall (λ e, is_report e = false) es → Forall (λ t, over t = true) (Tasks (mr_coord s)) →
  run es s = Ret s' → mr_coord s' = mr_coord s.
Proof.
  intros He Ho. revert s Ho. induction He as [|e es He _ IH]; intros s Ho; cbn [mr_run]; [by intros [= <-]|].
  intros (s1 & Hstep & Hrun)%bind_ret_inv.
  enough (mr_coord s1 = mr_coord s) as E by (rewrite <- E; eapply IH; [by rewrite E|done]).
  clear Hrun. revert Hstep. destruct e as [pid now|pid dir|pid|pid now|pid|pid|now]; cbn [mr_step]; [..|done| | |].
  - destruct (mr_busy s !! pid); [by intros [= <-]|]. unfold RequestTask.
    destruct (list_find _ _) as [[i t]|] eqn:E; [|by intros [= <-]].
    apply list_find_Some in E as (Hi & [Hst _] & _). eapply Forall_lookup_1 in Hi; [|exact Ho].
    unfold over in Hi. by rewrite Hst in Hi.
  - repeat case_match; try by intros [= <-]. intros ([ops args] & _ & E)%bind_ret_inv. by injection E as <-.
  - repeat case_match; by intros [= <-].
  - repeat case_match; by intros [= <-].
  - by intros [= <-].
  - intros [= <-]. unfold Done. rewrite Done_loop_over by done. cbn. by destruct (mr_coord s).
Qed.
End lost.

(** C28: a job can end without a reduce task. As long as the reduce tasks are not made, [Done]
    answers true exactly when every map task is over or is one that it gives up on now (in
    progress, more than ten retries); then some map task is skipped, there are only map tasks,
    the results of the completed ones are merged and nothing else happens to them: without
    another report from a worker no event changes the coordinator any more. *)
Theorem skipped_last_map_loses_job mapf reducef sort_Sort range_order dir now files nReduce fs es s now' :
  (∀ ps, range_order ps ≡ₚ ps) → files ≠ [] →
  mr_run mapf reducef sort_Sort range_order es (mr_init dir now files nReduce fs) = Ret s →
  IsReduceGenerated (mr_coord s) = false →
  let c := (Done now' (mr_coord s)).1 in
  ((Done now' (mr_coord s)).2 = true ↔ Forall (λ t, over t = true ∨ given_up t) (Tasks (mr_coord s))) ∧
  ((Done now' (mr_coord s)).2 = true →
   (∃ t, t ∈ Tasks c ∧ t_Status t = "skipped") ∧
   Forall (λ t, t_Type t = "map" ∧ over t = true) (Tasks c) ∧
   IsReduceGenerated c = false ∧ IntermediateResults c = concat ((mr_log s).*2) ∧
   ∀ es' s', Forall (λ e, is_report e = false) es' →
     mr_run mapf reducef sort_Sort range_order es' (s <| mr_coord := c |>) = Ret s' → mr_coord s' = c).
Proof.
  intros Hr Hf Hrun Hg. pose proof (run_ok mapf reducef sort_Sort range_order Hr es _ s
    (init_ok dir now files nReduce fs) Hrun) as Hok.
  assert (open_task (mr_coord s)) as Ho.
  { eapply (open_run mapf reducef sort_Sort range_order); [|exact Hrun]. intros _. destruct files as [|f fl]; [done|].
    eexists. split; [left|done]. }
  assert (Hd : ∃ s1, mr_step mapf reducef sort_Sort range_order (EvDone now') s = Ret s1 ∧ mr_coord s1 = (Done now' (mr_coord s)).1)
    by (eexists; by split).
  destruct Hd as (s1 & E1 & Ec). pose proof (open_step _ _ _ _ _ _ _ Ho E1) as Ho1.
  pose proof (step_ok _ _ _ _ Hr _ _ _ Hok E1) as Hok1. rewrite Ec in Ho1.
  pose proof (mo_early _ Hok1) as He. rewrite Ec in He. injection E1 as <-. cbn [mr_log update] in He. clear Ec Hok1.
  pose proof (Done_loop_true now' (Tasks (mr_coord s))) as Ht. intros c.
  assert (Tasks c = (Done_loop now' (Tasks (mr_coord s))).1 ∧ IsReduceGenerated c = false ∧
    (Done now' (mr_coord s)).2 = (Done_loop now' (Tasks (mr_coord s))).2) as (Ets & Eg & Eb).
  { unfold c, Done. by destruct (Done_loop _ _). }
  split; [rewrite Eb; apply Done_loop_iff|]. rewrite Eb. intros Hall. specialize (Ht Hall). rewrite <- Ets in Ht.
  rewrite Forall_forall in Ht. fold c in Ho1, He. destruct (He Eg) as [Hi Hm]. split_and!; [|..|done|done|].
  - destruct (Ho1 Eg) as (t & Hin & Hn). exists t. split; [done|]. specialize (Ht t Hin).
    apply orb_true_iff in Ht as [H|H]; apply bool_decide_eq_true in H; [by destruct Hn|done].
  - apply Forall_forall. intros t Hin. split; [by apply Hm|auto].
  - intros es' s' Hes Hrun'. etrans; [eapply over_run; [exact Hes| |exact Hrun']|done]. by apply Forall_forall.
Qed.

(** Worker 7 does the first file; every worker that takes the second one dies, until the
    coordinator gives up on it. *)
Definition abandon : list mr_event :=
  EvRequest 7 0 :: works 7 "" 3 ++ [EvReport 7 0] ++
  concat ((λ i : nat, [EvRequest (10 + i) (6 * sec * Z.of_nat i); EvCrash (10 + i);
                       EvDone (6 * sec * (Z.of_nat i + 1))]) <$> seq 0 11) ++ [EvRequest 21 (66 * sec); EvCrash 21].

Lemma skipped_last_map_loses_job_witness :
  ∃ s, mr_run word_map (λ _ _, "") (merge_sort by_key) id abandon
         (mr_init "/main" 0 ["/in/a"; "/in/b"] 3 two_files) = Ret s ∧
    (Done (100 * sec) (mr_coord s)).2 = true ∧ length (IntermediateResults (mr_coord s)) = 2%nat ∧
    t_Status <$> Tasks (mr_coord s) = ["completed"; "in progress"] ∧
    ∃ t, t ∈ Tasks (Done (100 * sec) (mr_coord s)).1 ∧ t_Status t = "skipped".
Proof.
  assert ((λ s, ((Done (100 * sec) (mr_coord s)).2, t_Status <$> Tasks (mr_coord s),
                 IsReduceGenerated (mr_coord s), length (IntermediateResults (mr_coord s)))) <$>
    mr_run word_map (λ _ _, "") (merge_sort by_key) id abandon
      (mr_init "/main" 0 ["/in/a"; "/in/b"] 3 two_files) =
    Ret (true, ["completed"; "in progress"], false, 2%nat)) as H by (vm_compute; reflexivity).
  destruct (mr_run word_map (λ _ _, "") (merge_sort by_key) id abandon
         (mr_init "/main" 0 ["/in/a"; "/in/b"] 3 two_files)) as [s|w|m] eqn:E; [|discriminate..].
  exists s. injection H as Hd Hs Hg Hl. split_and!; [reflexivity|done|done|done|].
  apply (skipped_last_map_loses_job word_map (λ _ _, "") (merge_sort by_key) id "/main" 0 ["/in/a"; "/in/b"] 3
    two_files abandon s (100 * sec) (λ ps, reflexivity ps) ltac:(discriminate) E Hg). exact Hd.
Defined.
