(* ===== verification/MRApps.v ===== *)
(** * The MapReduce applications

    The plugins of [src/src/mrapps] that compute something: [wc.go], [indexer.go],
    [nocrash.go], [crash.go] and [early_exit.go], with the splitting into words they call
    ([strings.FieldsFunc] over the runes of a UTF-8 string).  Which runes are letters is a
    table of [unicode], the variable [isLetter]; the plugins that measure processes
    ([jobcount], [mtiming], [rtiming]) are in [MRTiming]. *)
From Stdlib Require Import Ascii Sorting.Sorted.
From stdpp Require Import base tactics numbers list fin_maps gmap strings sorting pretty.
From S2P Require Import Prelude GoLib GoStrings GoUtf8 MRText MRJob.

(** ** Splitting into words *)

(** [strings.FieldsFunc]: the maximal runs of runes that do not satisfy [f].  A turn consumes
    at least one byte, so the length is enough fuel. *)
Fixpoint fields_loop (f : Z → bool) (fuel : nat) (s cur : list ascii) : list (list ascii) :=
  match fuel, s with
  | S fuel, _ :: _ =>
      let '(r, n) := decode_rune s in
      if f r then
        match cur with
        | [] => fields_loop f fuel (drop n s) []
        | _ => cur :: fields_loop f fuel (drop n s) []
        end
      else fields_loop f fuel (drop n s) (cur ++ take n s)
  | _, _ => match cur with [] => [] | _ => [cur] end
  end.

Definition strings_FieldsFunc (s : string) (f : Z → bool) : list string :=
  String.string_of_list_ascii <$>
    fields_loop f (String.length s) (String.list_ascii_of_string s) [].

(** [strconv.Itoa] of a length. *)
Definition Itoa (n : nat) : string := pretty n.

Section apps.
Context (isLetter : Z → bool).

(** ** [wc.go] *)

Definition wc_Map (filename contents : string) : list KeyValue :=
  let words := strings_FieldsFunc contents (λ r, negb (isLetter r)) in
  (λ w, {| kv_Key := w; kv_Value := "1" |}) <$> words.

Definition wc_Reduce (key : string) (values : list string) : string := Itoa (length values).

(** ** [indexer.go]

    [range_words] is the order in which the map of words is ranged over. *)
Definition indexer_Map (range_words : list string → list string) (document value : string)
    : list KeyValue :=
  let words := strings_FieldsFunc value (λ r, negb (isLetter r)) in
  let m : gset string := list_to_set words in
  (λ w, {| kv_Key := w; kv_Value := document |}) <$> range_words (elements m).

Definition indexer_Reduce (key : string) (values : list string) : string :=
  Itoa (length values) +:+ " " +:+ join_with "," (sort_Strings values).
End apps.

(** ** [nocrash.go] and [crash.go] *)

(** [maybeCrash] of [crash.go], for the random number [rr] below 1000; the delay is left out. *)
Definition maybeCrash (rr : Z) : outcome unit :=
  if decide (rr < 330) then Fatal "crash" else Ret tt.

Definition nocrash_Map (filename contents : string) : list KeyValue :=
  [ {| kv_Key := "a"; kv_Value := filename |};
    {| kv_Key := "b"; kv_Value := Itoa (String.length filename) |};
    {| kv_Key := "c"; kv_Value := Itoa (String.length contents) |};
    {| kv_Key := "d"; kv_Value := "xyzzy" |} ].

Definition nocrash_Reduce (key : string) (values : list string) : string :=
  join_with " " (sort_Strings values).

Definition crash_Map (rr : Z) (filename contents : string) : outcome (list KeyValue) :=
  _ ← maybeCrash rr; Ret (nocrash_Map filename contents).

Definition crash_Reduce (rr : Z) (key : string) (values : list string) : outcome string :=
  _ ← maybeCrash rr; Ret (nocrash_Reduce key values).

(** ** [early_exit.go] *)

Definition early_exit_Map (filename contents : string) : list KeyValue :=
  [ {| kv_Key := filename; kv_Value := "1" |} ].

Definition early_exit_Reduce (key : string) (values : list string) : string := Itoa (length values).

(** ** The order of the values does not matter *)

Lemma sort_Strings_perm l l' : l ≡ₚ l' → sort_Strings l = sort_Strings l'.
Proof.
  intros Hp. apply (Sorted_unique String.le); [apply sort_Strings_Sorted|apply sort_Strings_Sorted|].
  by rewrite !sort_Strings_Permutation.
Qed.

Lemma wc_Reduce_blind : order_blind wc_Reduce.
Proof. intros k vs vs' Hp. unfold wc_Reduce. by rewrite Hp. Qed.

Lemma indexer_Reduce_blind : order_blind indexer_Reduce.
Proof. intros k vs vs' Hp. unfold indexer_Reduce. by rewrite (sort_Strings_perm vs vs' Hp), Hp. Qed.

Lemma nocrash_Reduce_blind : order_blind nocrash_Reduce.
Proof. intros k vs vs' Hp. unfold nocrash_Reduce. by rewrite (sort_Strings_perm vs vs' Hp). Qed.

Lemma early_exit_Reduce_blind : order_blind early_exit_Reduce.
Proof. intros k vs vs' Hp. unfold early_exit_Reduce. by rewrite Hp. Qed.

(** ** Words survive the files *)

Definition harmless (a : ascii) : Prop := a ≠ space ∧ a ≠ newline.

Lemma high_harmless a : 0x80 ≤ byte_of a → harmless a.
Proof. intros Ha. split; intros ->; by apply Ha. Qed.

Lemma in_range_high lo hi a : 0x80 ≤ lo → in_range lo hi a = true → 0x80 ≤ byte_of a.
Proof. unfold in_range. rewrite bool_decide_eq_true. lia. Qed.

(** A rune that is more than one byte wide has none below 0x80; a letter of one byte is
    neither a space nor a newline. *)
Lemma decode_rune_harmless (isLetter : Z → bool) s r n :
  isLetter 32 = false → isLetter 10 = false → decode_rune s = (r, n) → isLetter r = true →
  (0 < length s)%nat → (0 < n)%nat ∧ Forall harmless (take n s).
Proof.
  intros Hsp Hnl Hd Hr Hs. destruct s as [|a s]; [cbn in Hs; lia|]. clear Hs.
  assert (∀ lo hi x, 0x80 ≤ lo → in_range lo hi x = true → harmless x) as Hhigh.
  { intros lo hi x Hlo Hx. apply high_harmless. by eapply in_range_high. }
  unfold decode_rune in Hd. case_decide as Hb.
  { injection Hd as <- <-. split; [lia|]. repeat constructor; intros ->; vm_compute in Hr; congruence. }
  assert (harmless a) as Ha by (apply high_harmless; lia).
  repeat match type of Hd with
    | context [match ?l with [] => _ | _ :: _ => _ end] => destruct l as [|? ?]
    | (if ?b then _ else _) = _ => destruct b eqn:?
    end; injection Hd as <- <-; split; try lia;
    repeat match goal with H : _ && _ = true |- _ => apply andb_true_iff in H as [? ?] end;
    cbn [take]; repeat apply Forall_cons_2; try (apply Forall_nil_2); try done;
    try (eapply Hhigh; [|eassumption]; lia);
    repeat case_decide; first [eapply Hhigh; [|eassumption]; lia | done].
Qed.

Lemma fields_loop_harmless (isLetter : Z → bool) fuel s cur :
  isLetter 32 = false → isLetter 10 = false → Forall harmless cur →
  Forall (Forall harmless) (fields_loop (λ r, negb (isLetter r)) fuel s cur).
Proof.
  intros Hsp Hnl. revert s cur. induction fuel as [|fuel IH]; intros s cur Hcur; cbn [fields_loop].
  { destruct cur; [apply Forall_nil_2|by apply Forall_singleton]. }
  destruct s as [|a s]; [destruct cur; [apply Forall_nil_2|by apply Forall_singleton]|].
  destruct (decode_rune (a :: s)) as [r n] eqn:E. destruct (isLetter r) eqn:Hr; cbn [negb].
  - apply IH, Forall_app. split; [done|].
    apply (decode_rune_harmless isLetter (a :: s) r n); try done. cbn. lia.
  - destruct cur; [by apply IH|]. constructor; [done|by apply IH].
Qed.

Lemma contains_list c (l : list ascii) :
  contains c (String.string_of_list_ascii l) = false ↔ Forall (λ a, a ≠ c) l.
Proof.
  induction l as [|a l IH]; cbn; [by split; [constructor|]|].
  rewrite orb_false_iff, bool_decide_eq_false, IH, Forall_cons. done.
Qed.

Lemma wc_Map_clean isLetter filename contents :
  isLetter 32 = false → isLetter 10 = false → Forall clean (wc_Map isLetter filename contents).
Proof.
  intros Hsp Hnl. unfold wc_Map, strings_FieldsFunc. rewrite <- list_fmap_compose.
  apply Forall_fmap. eapply Forall_impl; [by apply fields_loop_harmless|].
  intros w Hw. unfold clean; cbn. rewrite !contains_list. split_and!; try done;
    (eapply Forall_impl; [exact Hw|]; by intros a [? ?]).
Qed.

Lemma map_all_clean mapf files l :
  (∀ f c, Forall clean (mapf f c)) → map_all mapf files = Ret l → Forall clean l.
Proof.
  intros Hc. revert l. induction files as [|[f [c|]] files IH]; intros l; cbn; [by intros [= <-]| |done].
  intros (rest & Hrest & E)%bind_ret_inv. injection E as <-. apply Forall_app. auto.
Qed.

(** ** The word count of a job *)

(** The words of all the files, in order. *)
Definition all_words (isLetter : Z → bool) (files : list (string * string)) : list string :=
  concat ((λ fc, strings_FieldsFunc (fc.2) (λ r, negb (isLetter r))) <$> files).

Definition readable (files : list (string * string)) : list (string * option string) :=
  (λ fc, (fc.1, Some (fc.2))) <$> files.

Lemma wc_map_all isLetter files :
  ∃ l, map_all (wc_Map isLetter) (readable files) = Ret l ∧ kv_Key <$> l = all_words isLetter files.
Proof.
  induction files as [|[f c] files (l & Hl & Hk)]; [by exists []|].
  exists (wc_Map isLetter f c ++ l). cbn. fold (readable files). rewrite Hl. split; [done|].
  rewrite fmap_app, Hk. unfold all_words; cbn. f_equal. unfold wc_Map.
  rewrite <- list_fmap_compose. apply list_fmap_id.
Qed.

Lemma length_values_of k l : length (values_of k l) = count_occ k (kv_Key <$> l).
Proof.
  unfold values_of. rewrite length_fmap. induction l as [|kv l IH]; [done|].
  rewrite fmap_cons, count_occ_cons, filter_cons, <- IH. by case_decide.
Qed.

(** C27: the distributed word count counts: whatever the sort, the number of reducers and the
    order of the partitions, its outputs are, up to their order, one line per distinct word
    of the input files with the number of its occurrences. *)
Theorem wordcount_correct isLetter sort_Sort range_order R files :
  isLetter 32 = false → isLetter 10 = false → sorts_by_key sort_Sort →
  (∀ ps, range_order ps ≡ₚ ps) → 0 < R →
  ∃ l out, map_all (wc_Map isLetter) (readable files) = Ret l ∧
    mrdistributed wc_Reduce sort_Sort range_order R l = Ret out ∧
    let words := all_words isLetter files in
    out ≡ₚ (λ w, format_kv {| kv_Key := w; kv_Value := Itoa (count_occ w words) |}) <$> remove_dups words.
Proof.
  intros Hsp Hnl Hs Hr HR. destruct (wc_map_all isLetter files) as (l & Hl & Hk).
  assert (Forall clean l) as Hc by (apply (map_all_clean (wc_Map isLetter) (readable files)); [intros; by apply wc_Map_clean|done]).
  destruct (mrdistributed_spec wc_Reduce sort_Sort Hs wc_Reduce_blind range_order R l Hr HR Hc)
    as (out & Hout & Hp).
  exists l, out. split_and!; [done|done|]. cbn zeta. etransitivity; [exact Hp|].
  etransitivity; [apply (reduce_lines_spec wc_Reduce sort_Sort Hs wc_Reduce_blind l l
                           (remove_dups (all_words isLetter files)))|].
  - done.
  - apply NoDup_remove_dups.
  - intros k. by rewrite elem_of_remove_dups, Hk.
  - apply reflexive_eq, list_fmap_ext. intros i w _. unfold line_for, out_line, wc_Reduce; cbn.
    by rewrite length_values_of, Hk.
Qed.

Definition ascii_letter (r : Z) : bool :=
  bool_decide (65 ≤ r ≤ 90) || bool_decide (97 ≤ r ≤ 122).

Lemma wordcount_correct_witness :
  ∃ l out, map_all (wc_Map ascii_letter) (readable [("f", "To be, or"); ("g", "not to be")]) = Ret l ∧
    mrdistributed wc_Reduce (merge_sort by_key) id 10 l = Ret out ∧
    out ≡ₚ format_kv <$> [ {| kv_Key := "To"; kv_Value := "1" |}; {| kv_Key := "or"; kv_Value := "1" |};
      {| kv_Key := "not"; kv_Value := "1" |}; {| kv_Key := "to"; kv_Value := "1" |};
      {| kv_Key := "be"; kv_Value := "2" |} ].
Proof.
  destruct (wordcount_correct ascii_letter (merge_sort by_key) id 10
    [("f", "To be, or"); ("g", "not to be")] eq_refl eq_refl merge_sort_by_key
    (λ ps, reflexivity ps) eq_refl) as (l & out & Hl & Hout & Hp).
  exists l, out. split; [exact Hl|]. split; [exact Hout|].
  assert (all_words ascii_letter [("f", "To be, or"); ("g", "not to be")] =
          ["To"; "be"; "or"; "not"; "to"; "be"]) as E by (vm_compute; reflexivity).
  cbn zeta in Hp. rewrite E in Hp. exact Hp.
Defined.
