(* ===== verification/MRTiming.v ===== *)
(** * The applications that measure the job

    [src/src/mrapps/mtiming.go], [rtiming.go] and [jobcount.go]: a task leaves a file in the
    working directory that is named after its process, and tasks count the files they find.
    A directory is a map from names to contents; the processes that are alive and what each is
    at are a state, and writing, scanning and removing are its steps, in any order over all
    processes.  Sleeping is what other steps may happen in between; times come as text. *)
From Stdlib Require Import Ascii.
From stdpp Require Import base tactics numbers list fin_maps gmap strings sorting pretty.
From S2P Require Import Prelude GoLib GoStrings GoUtf8 GoStrconv MRText MRJob MRApps.

(** ** [fmt.Sscanf] of a name against literal text and [%d] *)

(** The white space of [fmt]. *)
Definition isSpace (r : Z) : bool :=
  bool_decide (0x09 ≤ r ≤ 0x0d ∨ r = 0x20 ∨ r = 0x85 ∨ r = 0xa0 ∨ r = 0x1680 ∨ 0x2000 ≤ r ≤ 0x200a ∨
               0x2028 ≤ r ≤ 0x2029 ∨ r = 0x202f ∨ r = 0x205f ∨ r = 0x3000).

(** [SkipSpace]; [None]: a newline, which is an error. A turn consumes a byte. *)
Fixpoint skip_space (fuel : nat) (s : list ascii) : option (list ascii) :=
  match fuel, s with
  | S fuel, _ :: _ =>
      let '(r, n) := decode_rune s in
      if decide (r = 10) then None else if isSpace r then skip_space fuel (drop n s) else Some s
  | _, _ => Some s
  end.

Fixpoint strip_prefix (p s : string) : option string :=
  match p, s with
  | EmptyString, _ => Some s
  | String a p, String b s => if decide (a = b) then strip_prefix p s else None
  | String _ _, EmptyString => None
  end.

Definition strings_HasPrefix (s p : string) : bool := bool_decide (is_Some (strip_prefix p s)).

(** The digits at the head, what follows them being left alone, and the range of an [int]. *)
Definition scan_unsigned (neg : bool) (s : string) : option Z :=
  if starts_with_digit s then
    let z := if neg then - (scan_digits 0 s).1 else (scan_digits 0 s).1 in
    if decide (- 2 ^ 63 ≤ z < 2 ^ 63) then Some z else None
  else None.

Definition scan_int (s : string) : option Z :=
  match s with
  | String "-" s' => scan_unsigned true s'
  | String "+" s' => scan_unsigned false s'
  | _ => scan_unsigned false s
  end.

(** [Some]: one item was scanned and there was no error. *)
Definition Sscanf_d (lit name : string) : option Z :=
  rest ← strip_prefix lit name;
  l ← skip_space (String.length rest) (String.list_ascii_of_string rest);
  scan_int (String.string_of_list_ascii l).

Example Sscanf_ok : Sscanf_d "mr-worker-map-" "mr-worker-map-17" = Some 17.
Proof. reflexivity. Qed.
Example Sscanf_other : Sscanf_d "mr-worker-map-" "mr-worker-reduce-17" = None.
Proof. reflexivity. Qed.

(** ** [nparallel] *)

Section nparallel.
Context (phase : string).
(** The order in which a directory is read. *)
Context (dir_order : list string → list string).

Definition myfilename (pid : Z) : string := "mr-worker-" +:+ phase +:+ "-" +:+ pretty pid.

(** [Readdirnames(1000000)]: at most so many names; the end of the directory is an error. *)
Definition Readdirnames (dir : gmap string string) : outcome (list string) :=
  match take (Z.to_nat 1000000) (dir_order (elements (dom dir))) with
  | [] => Panic "EOF"
  | names => Ret names
  end.

(** The loop over the names; [alive] are the processes that [syscall.Kill(xpid, 0)] finds. *)
Definition count_alive (alive : gset Z) (names : list string) : Z :=
  zlen (filter (λ x, x ∈ alive) (omap (Sscanf_d ("mr-worker-" +:+ phase +:+ "-")) names)).

(** Where a process is in [nparallel]: not in it, its file written, the others counted. *)
Inductive np_pc := NpIdle | NpWritten | NpCounted (ret : Z).

#[export] Instance np_pc_eq_dec : EqDecision np_pc.
Proof. solve_decision. Defined.

Record workers := { ws_dir : gmap string string; ws_alive : gset Z; ws_pc : gmap Z np_pc }.
#[export] Instance eta_workers : Eta workers := λ w,
  {| ws_dir := ws_dir w; ws_alive := ws_alive w; ws_pc := ws_pc w |}.

(** A process number is not given out twice. *)
Inductive np_event := NpStart (pid : Z) | NpWrite (pid : Z) | NpScan (pid : Z) | NpRemove (pid : Z) | NpDie (pid : Z).

Definition np_write (pid : Z) (w : workers) : workers :=
  w <| ws_dir := <[myfilename pid := "x"]> (ws_dir w) |> <| ws_pc := <[pid := NpWritten]> (ws_pc w) |>.

Definition np_scan (pid : Z) (w : workers) : outcome workers :=
  names ← Readdirnames (ws_dir w);
  Ret (w <| ws_pc := <[pid := NpCounted (count_alive (ws_alive w) names)]> (ws_pc w) |>).

Definition np_remove (pid : Z) (w : workers) : outcome workers :=
  match ws_dir w !! myfilename pid with
  | None => Panic "no such file or directory"
  | Some _ => Ret (w <| ws_dir := delete (myfilename pid) (ws_dir w) |> <| ws_pc := <[pid := NpIdle]> (ws_pc w) |>)
  end.

(** The step of a process that is not alive, or not there, is none. *)
Definition np_step (e : np_event) (w : workers) : outcome workers :=
  match e with
  | NpStart pid =>
      if decide (0 < pid < 2 ^ 31 ∧ ws_pc w !! pid = None)
      then Ret (w <| ws_alive := {[pid]} ∪ ws_alive w |> <| ws_pc := <[pid := NpIdle]> (ws_pc w) |>) else Ret w
  | NpWrite pid =>
      if decide (pid ∈ ws_alive w ∧ ws_pc w !! pid = Some NpIdle) then Ret (np_write pid w) else Ret w
  | NpScan pid =>
      if decide (pid ∈ ws_alive w ∧ ws_pc w !! pid = Some NpWritten) then np_scan pid w else Ret w
  | NpRemove pid =>
      match ws_pc w !! pid with
      | Some (NpCounted _) => if decide (pid ∈ ws_alive w) then np_remove pid w else Ret w
      | _ => Ret w
      end
  | NpDie pid => Ret (w <| ws_alive := ws_alive w ∖ {[pid]} |>)
  end.

Definition np_run : list np_event → workers → outcome workers := go_for np_step.

(** The processes that are between writing and removing their file. *)
Definition measuring (w : workers) (pid : Z) : Prop := ∃ pc, ws_pc w !! pid = Some pc ∧ pc ≠ NpIdle.

#[export] Instance measuring_dec w pid : Decision (measuring w pid).
Proof.
  destruct (ws_pc w !! pid) as [pc|] eqn:E; [destruct (decide (pc = NpIdle)) as [->|]|].
  - right. intros (pc & [= <-]%(eq_trans (eq_sym E)) & ?). done.
  - left. by exists pc.
  - right. intros (pc & [=]%(eq_trans (eq_sym E)) & ?).
Defined.

(** ** [Map] and [Reduce] of the two applications

    [n] is what [nparallel] answered, [ts] the time as [%.1f] prints it. *)
Definition mtiming_Map (pid : Z) (ts : string) (n : Z) : list KeyValue :=
  [ {| kv_Key := "times-" +:+ pretty pid; kv_Value := ts |};
    {| kv_Key := "parallel-" +:+ pretty pid; kv_Value := pretty n |} ].

Definition mtiming_Reduce (key : string) (values : list string) : string := join_with " " (sort_Strings values).

Definition rtiming_Map (filename contents : string) : list KeyValue :=
  (λ k, {| kv_Key := k; kv_Value := "1" |}) <$> ["a"; "b"; "c"; "d"; "e"; "f"; "g"; "h"; "i"; "j"].

Definition rtiming_Reduce (n : Z) (key : string) (values : list string) : string := pretty n.
End nparallel.

(** ** [jobcount.go]

    [count] is the variable of the process. *)
Definition jobcount_name (pid count : Z) : string := "mr-worker-jobcount-" +:+ pretty pid +:+ "-" +:+ pretty count.

Definition jobcount_Map (pid : Z) (s : gmap string string * Z) : gmap string string * Z * list KeyValue :=
  (<[jobcount_name pid (s.2) := "x"]> (s.1), i64 (s.2 + 1), [ {| kv_Key := "a"; kv_Value := "x" |} ]).

Definition jobcount_Reduce (names : list string) (key : string) (values : list string) : string :=
  strconv_Itoa (zlen (filter (λ n, strings_HasPrefix n "mr-worker-jobcount" = true) names)).

(** [Map] called in these processes, one after another, each with its own [count]. *)
Fixpoint jobcount_run (pids : list Z) (dir : gmap string string) (counts : gmap Z Z) : gmap string string * gmap Z Z :=
  match pids with
  | [] => (dir, counts)
  | pid :: pids =>
      let '(dir, c, _) := jobcount_Map pid (dir, default 0 (counts !! pid)) in
      jobcount_run pids dir (<[pid := c]> counts)
  end.

(** ** Names are read back *)

Lemma strip_prefix_app p s : strip_prefix p (p +:+ s) = Some s.
Proof. induction p as [|a p IH]; [done|]. rewrite append_cons. cbn. by rewrite decide_True. Qed.

Lemma digit_not_space a l n : digit_of a = Some n → (decode_rune (a :: l)).1 ≠ 10 ∧ isSpace (decode_rune (a :: l)).1 = false.
Proof.
  unfold digit_of. case_decide as H; [|done]. intros _. cbn. unfold byte_of. rewrite decide_True by lia. cbn.
  split; [lia|]. apply bool_decide_eq_false. lia.
Qed.

Lemma skip_space_digit fuel s : starts_with_digit s = true →
  skip_space fuel (String.list_ascii_of_string s) = Some (String.list_ascii_of_string s).
Proof.
  destruct s as [|a s]; [done|]. intros [n Hn]%bool_decide_eq_true. destruct fuel as [|fuel]; [done|].
  cbn [skip_space String.list_ascii_of_string]. destruct (digit_not_space a (String.list_ascii_of_string s) n Hn) as [H1 H2].
  destruct (decode_rune _) as [r k]. cbn in H1, H2. by rewrite decide_False, H2.
Qed.

Lemma scan_int_unsigned s : starts_with_digit s = true → scan_int s = scan_unsigned false s.
Proof.
  destruct s as [|a s]; [done|]. intros [Hm Hp]%digit_not_sign. destruct a as [[] [] [] [] [] [] [] []]; done.
Qed.

Lemma Sscanf_pretty lit z : 0 ≤ z < 2 ^ 63 → Sscanf_d lit (lit +:+ pretty z) = Some z.
Proof.
  intros Hz. unfold Sscanf_d. rewrite strip_prefix_app. cbn [mbind option_bind].
  assert (pretty z = pretty (Z.to_N z)) as ->.
  { rewrite pretty_Z_cases. by rewrite decide_False by lia. }
  pose proof (pretty_digit (Z.to_N z) "") as Hd. pose proof (scan_pretty (Z.to_N z) "" eq_refl) as Hs.
  rewrite append_nil_r in Hd, Hs. rewrite skip_space_digit by done. cbn [mbind option_bind].
  rewrite String.string_of_list_ascii_of_string, scan_int_unsigned by done. unfold scan_unsigned. rewrite Hd, Hs. cbn.
  rewrite Z2N.id by lia. by rewrite decide_True by lia.
Qed.

Lemma NoDup_omap {A B} (f : A → option B) l :
  NoDup l → (∀ x y b, x ∈ l → y ∈ l → f x = Some b → f y = Some b → x = y) → NoDup (omap f l).
Proof.
  induction 1 as [|x l Hx Hl IH]; intros Hf; [apply NoDup_nil_2|]. cbn.
  assert (NoDup (omap f l)) as Hnd by (apply IH; intros y z b Hy Hz; apply Hf; by right).
  destruct (f x) as [b|] eqn:E; [|done]. constructor; [|done]. intros (y & Hy & Ey)%list_elem_of_omap.
  assert (x = y) as -> by (eapply Hf; [by left|by right|done|done]). done.
Qed.

(** ** What [nparallel] answers *)

Section counts.
Context (phase : string) (dir_order : list string → list string).
Hypothesis dir_order_perm : ∀ l, dir_order l ≡ₚ l.

Abbreviation fname := (myfilename phase).
Abbreviation scan := (Sscanf_d ("mr-worker-" +:+ phase +:+ "-")).

Lemma scan_fname pid : 0 ≤ pid < 2 ^ 63 → scan (fname pid) = Some pid.
Proof.
  intros Hp. unfold myfilename. rewrite <- (append_assoc phase), <- append_assoc. by apply Sscanf_pretty.
Qed.

(** No process yet, and no file that looks like one of theirs. *)
Definition np_init (w : workers) : Prop :=
  ws_alive w = ∅ ∧ ws_pc w = ∅ ∧ ∀ n, n ∈ dom (ws_dir w) → scan n = None.

(** The files that look like a process's are those of the processes that measure. *)
Definition np_inv (w : workers) : Prop :=
  (∀ pid, pid ∈ ws_alive w → is_Some (ws_pc w !! pid)) ∧
  (∀ pid, is_Some (ws_pc w !! pid) → 0 < pid < 2 ^ 31) ∧
  (∀ pid, measuring w pid → fname pid ∈ dom (ws_dir w)) ∧
  (∀ n pid, n ∈ dom (ws_dir w) → scan n = Some pid → n = fname pid ∧ measuring w pid).

Lemma np_init_inv w : np_init w → np_inv w.
Proof.
  intros (Ha & Hp & Hd). split_and!.
  - rewrite Ha. set_solver.
  - rewrite Hp. intros pid [pc H]. by rewrite lookup_empty in H.
  - intros pid (pc & H & _). by rewrite Hp, lookup_empty in H.
  - intros n pid Hn E. by rewrite Hd in E.
Qed.

Lemma measuring_set w pid pc pid' d a :
  measuring {| ws_dir := d; ws_alive := a; ws_pc := <[pid := pc]> (ws_pc w) |} pid' ↔
  if decide (pid = pid') then pc ≠ NpIdle else measuring w pid'.
Proof.
  unfold measuring. cbn. case_decide as E.
  - subst. rewrite lookup_insert_eq. naive_solver.
  - by rewrite lookup_insert_ne.
Qed.

Lemma fname_inj p q : 0 < p < 2 ^ 31 → 0 < q < 2 ^ 31 → fname p = fname q → p = q.
Proof.
  intros Hp Hq E. pose proof (scan_fname p) as H1. rewrite E, scan_fname in H1 by lia. naive_solver lia.
Qed.

(** A process's own [pc] is set to [pc], and its file is there after it exactly when [pc] is not idle. *)
Lemma np_inv_set w pid pc dir alive :
  np_inv w → 0 < pid < 2 ^ 31 → alive ⊆ {[pid]} ∪ ws_alive w →
  (∀ n, n ∈ dom dir ↔ if decide (n = fname pid) then pc ≠ NpIdle else n ∈ dom (ws_dir w)) →
  np_inv {| ws_dir := dir; ws_alive := alive; ws_pc := <[pid := pc]> (ws_pc w) |}.
Proof.
  intros (I1 & I2 & I3 & I4) Hp Ha Hd. split_and!; cbn [ws_alive ws_pc ws_dir].
  - intros q Hq. destruct (decide (q = pid)) as [->|]; [by rewrite lookup_insert_eq; eexists|].
    rewrite lookup_insert_ne by done. apply I1. set_solver.
  - intros q. destruct (decide (q = pid)) as [->|]; [done|]. rewrite lookup_insert_ne by done. apply I2.
  - intros q Hq. apply Hd. apply measuring_set in Hq. case_decide as E1; [subst; by rewrite decide_True|].
    rewrite decide_False; [by apply I3|]. intros E. apply E1. symmetry. apply fname_inj; [|done..].
    destruct Hq as (? & ? & ?). apply I2. by eexists.
  - intros n q Hn Hs. apply Hd in Hn. case_decide as E.
    + subst. rewrite scan_fname in Hs by lia. injection Hs as <-. split; [done|]. apply measuring_set. by rewrite decide_True.
    + destruct (I4 n q Hn Hs) as [-> Hm]. split; [done|]. apply measuring_set. rewrite decide_False; [done|]. by intros ->.
Qed.

(** A scan finds the live processes that measure, each once. *)
Lemma count_alive_exact w names :
  np_inv w → (size (dom (ws_dir w)) ≤ Z.to_nat 1000000)%nat → Readdirnames dir_order (ws_dir w) = Ret names →
  count_alive phase (ws_alive w) names = Z.of_nat (size (filter (measuring w) (ws_alive w))).
Proof.
  intros (I1 & I2 & I3 & I4) Hsz. unfold Readdirnames.
  assert (length (dir_order (elements (dom (ws_dir w)))) ≤ Z.to_nat 1000000)%nat as Hl.
  { rewrite dir_order_perm. exact Hsz. }
  rewrite take_ge by exact Hl. intros E.
  assert (names ≡ₚ elements (dom (ws_dir w))) as Hn.
  { rewrite <- (dir_order_perm (elements _)). destruct (dir_order _) as [|x l]; [done|]. by injection E as <-. }
  unfold count_alive, zlen. f_equal. unfold size, set_size. apply Permutation_length, NoDup_Permutation.
  - apply NoDup_filter, NoDup_omap; [rewrite Hn; apply NoDup_elements|]. intros x y b Hx Hy Ex Ey.
    rewrite Hn, elem_of_elements in Hx, Hy. destruct (I4 x b Hx Ex) as [-> _], (I4 y b Hy Ey) as [-> _]. done.
  - apply NoDup_elements.
  - intros q. rewrite elem_of_elements, elem_of_filter, list_elem_of_filter, list_elem_of_omap. split.
    + intros (Ha & n & Hin & Es). rewrite Hn, elem_of_elements in Hin. split; [|done]. by apply (I4 n).
    + intros (Hm & Ha). split; [done|]. exists (fname q). rewrite Hn, elem_of_elements. split; [by apply I3|].
      apply scan_fname. destruct (I2 q (I1 q Ha)). lia.
Qed.

Lemma Readdirnames_some dir n : n ∈ dom dir → ∃ names, Readdirnames dir_order dir = Ret names.
Proof.
  intros Hn. unfold Readdirnames. destruct (take _ _) as [|x l] eqn:E; [|by eexists]. exfalso.
  apply (f_equal length) in E. rewrite length_take, dir_order_perm in E. cbn in E.
  assert (0 < length (elements (dom dir)))%nat; [|lia].
  destruct (elements (dom dir)) as [|y k] eqn:El; [|cbn; lia]. apply elem_of_elements in Hn. rewrite El in Hn.
  by apply elem_of_nil in Hn.
Qed.

Lemma np_step_inv e w : np_inv w → ∃ w', np_step phase dir_order e w = Ret w' ∧ np_inv w'.
Proof.
  intros I. pose proof I as (I1 & I2 & I3 & I4).
  assert (∀ pid, 0 < pid < 2 ^ 31 → (measuring w pid ↔ fname pid ∈ dom (ws_dir w))) as Hf.
  { intros pid Hp. split; [apply I3|]. intros Hin. apply (I4 (fname pid)); [done|]. apply scan_fname. lia. }
  destruct e as [pid|pid|pid|pid|pid]; cbn [np_step].
  - case_decide as H; [|by exists w]. destruct H as [Hp Hno]. eexists. split; [done|]. apply np_inv_set; [done|done|set_solver|].
    intros n. case_decide as E; [|done]. subst n. rewrite <- Hf by done. split; [|done]. by intros (pc & Hpc & _); rewrite Hno in Hpc.
  - case_decide as H; [|by exists w]. destruct H as [Ha Hpc]. eexists. split; [done|].
    apply (np_inv_set w pid NpWritten (<[fname pid := "x"]> (ws_dir w)) (ws_alive w)); [done|apply I2; by eexists|set_solver|].
    intros n. rewrite dom_insert_L, elem_of_union, elem_of_singleton. case_decide; [|naive_solver]. subst. naive_solver.
  - case_decide as H; [|by exists w]. destruct H as [Ha Hpc]. assert (measuring w pid) as Hm by by exists NpWritten.
    destruct (Readdirnames_some (ws_dir w) (fname pid) (I3 pid Hm)) as [names Hn].
    unfold np_scan. rewrite Hn, bind_ret_l. eexists. split; [done|].
    apply (np_inv_set w pid _ (ws_dir w) (ws_alive w)); [done|apply I2; by eexists|set_solver|].
    intros n. case_decide; [|done]. subst. split; [done|]. intros _. by apply I3.
  - destruct (ws_pc w !! pid) as [[| |r]|] eqn:Hpc; try (by exists w). case_decide as Ha; [|by exists w].
    assert (measuring w pid) as Hm by by exists (NpCounted r). unfold np_remove.
    destruct (proj1 (elem_of_dom _ _) (I3 pid Hm)) as [x ->]. eexists. split; [done|].
    apply (np_inv_set w pid NpIdle (delete (fname pid) (ws_dir w)) (ws_alive w)); [done|apply I2; by eexists|set_solver|].
    intros n. rewrite dom_delete_L, elem_of_difference, elem_of_singleton. case_decide; naive_solver.
  - eexists. split; [done|]. split_and!; [|exact I2|exact I3|exact I4]. cbn. intros q Hq. apply I1. set_solver.
Qed.

Lemma np_run_inv es w : np_inv w → ∃ w', np_run phase dir_order es w = Ret w' ∧ np_inv w'.
Proof.
  revert w. induction es as [|e es IH]; intros w I; [by exists w|]. unfold np_run. cbn.
  destruct (np_step_inv e w I) as (w1 & -> & I1). rewrite bind_ret_l. by apply IH.
Qed.
End counts.

(** C26: whatever starts, measures and dies when: no task panics over the files, and one that counts
    answers exactly how many live processes are between writing their file and removing it,
    itself among them; so it answers 1 when it is alone and at least 2 when it is not. Files of
    dead processes are not counted. *)
Theorem nparallel_exact phase dir_order w0 es pid :
  (∀ l, dir_order l ≡ₚ l) → np_init phase w0 →
  ∃ w, np_run phase dir_order es w0 = Ret w ∧
    (pid ∈ ws_alive w → ws_pc w !! pid = Some NpWritten → (size (dom (ws_dir w)) ≤ Z.to_nat 1000000)%nat →
     ∃ w' n, np_step phase dir_order (NpScan pid) w = Ret w' ∧ ws_pc w' !! pid = Some (NpCounted n) ∧
       n = Z.of_nat (size (filter (measuring w) (ws_alive w))) ∧
       (2 ≤ n ↔ ∃ q, q ≠ pid ∧ q ∈ ws_alive w ∧ measuring w q)).
Proof.
  intros Hperm H0. destruct (np_run_inv phase dir_order Hperm es w0 (np_init_inv phase dir_order Hperm w0 H0)) as (w & E & I).
  exists w. split; [done|]. intros Ha Hpc Hsz.
  assert (measuring w pid) as Hm by by exists NpWritten.
  destruct (Readdirnames_some dir_order Hperm (ws_dir w) (myfilename phase pid)) as [names Hn]; [by apply I|].
  cbn [np_step]. rewrite decide_True by done. unfold np_scan. rewrite Hn, bind_ret_l.
  eexists _, _. split; [done|]. split; [apply lookup_insert_eq|].
  rewrite (count_alive_exact phase dir_order Hperm w names I Hsz Hn). split; [done|].
  set (X := filter (measuring w) (ws_alive w)). assert (pid ∈ X) as Hp by by apply elem_of_filter.
  assert (size X = S (size (X ∖ {[pid]}))) as ->.
  { rewrite size_difference by set_solver. rewrite size_singleton. assert (0 < size X)%nat; [|lia].
    destruct (decide (size X = 0%nat)) as [Hz|]; [|lia]. apply size_empty_inv in Hz. set_solver. }
  split.
  - intros H. destruct (set_choose_or_empty (X ∖ {[pid]})) as [[q Hq]|He].
    + exists q. apply elem_of_difference in Hq as [[Hmq Haq]%elem_of_filter Hne]. set_solver.
    + apply size_empty_iff in He. lia.
  - intros (q & Hne & Haq & Hmq). assert (size (X ∖ {[pid]}) ≠ 0%nat); [|lia]. intros Hz%size_empty_inv.
    assert (q ∈ X ∖ {[pid]}); [|set_solver]. apply elem_of_difference. split; [by apply elem_of_filter|set_solver].
Qed.

(** ** [jobcount] counts the calls of [Map] *)

Lemma pretty_Z_dash z : 0 ≤ z → contains "-" (pretty z) = false.
Proof. intros Hz. rewrite pretty_Z_cases, decide_False by lia. by apply pretty_N_contains. Qed.

Lemma jobcount_name_inj p c p' c' :
  0 ≤ p → 0 ≤ p' → jobcount_name p c = jobcount_name p' c' → p = p' ∧ c = c'.
Proof.
  intros Hp Hp' E. unfold jobcount_name in E. apply (inj (String.append "mr-worker-jobcount-")) in E.
  pose proof (f_equal (λ s, strings_Split s "-") E) as Es. cbv beta in Es.
  change ("-" +:+ pretty c) with (String "-" (pretty c)) in *. change ("-" +:+ pretty c') with (String "-" (pretty c')) in *.
  rewrite !strings_Split_cut in Es by by apply pretty_Z_dash. injection Es as Es _. rewrite Es in E.
  apply (inj (String.append (pretty p'))) in E. injection E as E. split; [by apply (inj pretty)|by apply (inj pretty)].
Qed.

Lemma jobcount_prefix p c : strings_HasPrefix (jobcount_name p c) "mr-worker-jobcount" = true.
Proof.
  unfold strings_HasPrefix, jobcount_name. apply bool_decide_eq_true.
  change "mr-worker-jobcount-" with ("mr-worker-jobcount" +:+ "-"). rewrite append_assoc, strip_prefix_app. by eexists.
Qed.

Definition jobs (dir : gmap string string) : gset string := filter (λ n, strings_HasPrefix n "mr-worker-jobcount" = true) (dom dir).

Lemma jobs_insert n x dir :
  strings_HasPrefix n "mr-worker-jobcount" = true → n ∉ dom dir → size (jobs (<[n := x]> dir)) = S (size (jobs dir)).
Proof.
  intros Hp Hn. assert (jobs (<[n := x]> dir) = {[n]} ∪ jobs dir) as ->.
  { apply set_eq. intros m. unfold jobs. rewrite dom_insert_L, elem_of_union, !elem_of_filter, elem_of_union, elem_of_singleton. naive_solver. }
  rewrite size_union, size_singleton; [done|]. unfold jobs. set_solver.
Qed.

(** Every file of a process carries a smaller number than its [count]. *)
Definition jobs_inv (k : Z) (dir : gmap string string) (counts : gmap Z Z) : Prop :=
  (∀ p, 0 ≤ default 0 (counts !! p) ≤ k) ∧
  ∀ p c, 0 ≤ p → jobcount_name p c ∈ dom dir → c < default 0 (counts !! p).

Lemma jobcount_run_size pids k dir counts :
  Forall (λ p, 0 ≤ p) pids → 0 ≤ k → k + zlen pids < 2 ^ 63 → jobs_inv k dir counts →
  size (jobs (jobcount_run pids dir counts).1) = (size (jobs dir) + length pids)%nat.
Proof.
  intros Hp. revert k dir counts. induction Hp as [|p pids Hp _ IH]; intros k dir counts Hk Hb [I1 I2]; cbn [jobcount_run].
  { cbn. lia. }
  rewrite zlen_cons in Hb. pose proof (zlen_nonneg pids). set (c := default 0 (counts !! p)) in *. pose proof (I1 p).
  unfold jobcount_Map. cbn [fst snd]. rewrite i64_small by lia.
  rewrite (IH (k + 1)); [|lia|lia|].
  - rewrite jobs_insert; [cbn; lia|apply jobcount_prefix|]. intros Hin. apply I2 in Hin; [lia|done].
  - split.
    + intros q. destruct (decide (p = q)) as [->|]; [rewrite lookup_insert_eq; cbn; lia|].
      rewrite lookup_insert_ne by done. specialize (I1 q). lia.
    + intros q d Hq. rewrite dom_insert_L, elem_of_union, elem_of_singleton. intros [E|Hin].
      * apply jobcount_name_inj in E as [-> ->]; [|done..]. rewrite lookup_insert_eq. cbn. lia.
      * pose proof (I2 q d Hq Hin). destruct (decide (p = q)) as [->|]; [rewrite lookup_insert_eq; cbn; lia|].
        by rewrite lookup_insert_ne.
Qed.

(** After [Map] was called once for each of [pids], in processes that may be the same or not,
    [Reduce] answers how many calls there were. *)
Lemma jobcount_exact pids dir names key values :
  Forall (λ p, 0 ≤ p) pids → zlen pids < 2 ^ 63 →
  (∀ n, n ∈ dom dir → strings_HasPrefix n "mr-worker-jobcount" = false) →
  names ≡ₚ elements (dom (jobcount_run pids dir ∅).1) →
  jobcount_Reduce names key values = pretty (zlen pids).
Proof.
  intros Hp Hb Hno Hn. unfold jobcount_Reduce, strconv_Itoa. f_equal. unfold zlen. f_equal.
  assert (jobs dir = ∅) as Hj by (apply set_eq; intros n; unfold jobs; rewrite elem_of_filter; split; [intros [E Hn']; rewrite Hno in E by done; done|intros []%not_elem_of_empty]).
  pose proof (jobcount_run_size pids 0 dir ∅ Hp) as Hs. rewrite Hj, size_empty in Hs. cbn in Hs. rewrite <- Hs; [|done|done|].
  - unfold jobs. rewrite Hn. unfold size, set_size. apply Permutation_length, NoDup_Permutation.
    + apply NoDup_filter, NoDup_elements.
    + apply NoDup_elements.
    + intros n. by rewrite elem_of_elements, elem_of_filter, list_elem_of_filter, elem_of_elements.
  - split; [intros p; rewrite lookup_empty; cbn; lia|]. intros p c _ Hin. apply Hno in Hin. by rewrite jobcount_prefix in Hin.
Qed.

(** Three processes write their files, the second dies and the first is done: the third counts
    itself only, although the second's file is still there. *)
Definition three_room : workers := {| ws_dir := {["pg-grimm.txt" := "text"]}; ws_alive := ∅; ws_pc := ∅ |}.
Definition three_events : list np_event :=
  [NpStart 11; NpStart 12; NpStart 13; NpWrite 11; NpWrite 12; NpWrite 13; NpScan 11; NpDie 12; NpRemove 11].

Example three_counted :
  match np_run "map" id three_events three_room with
  | Ret w => bool_decide (13 ∈ ws_alive w ∧ ws_pc w !! 13 = Some NpWritten ∧ (size (dom (ws_dir w)) ≤ 10)%nat ∧
                          "mr-worker-map-12" ∈ dom (ws_dir w) ∧ size (filter (measuring w) (ws_alive w)) = 1%nat)
  | _ => false
  end = true.
Proof. vm_compute. reflexivity. Qed.

Lemma nparallel_exact_witness :
  np_init "map" three_room ∧
  ∃ w w', np_run "map" id three_events three_room = Ret w ∧ "mr-worker-map-12" ∈ dom (ws_dir w) ∧
    np_step "map" id (NpScan 13) w = Ret w' ∧ ws_pc w' !! 13 = Some (NpCounted 1).
Proof.
  assert (np_init "map" three_room) as H0.
  { split_and!; [done..|]. intros n. cbn. rewrite dom_singleton_L. by intros ->%elem_of_singleton. }
  split; [exact H0|].
  destruct (nparallel_exact "map" id three_room three_events 13 (λ l, reflexivity l) H0) as (w & E & H).
  pose proof three_counted as Hc. rewrite E in Hc. apply bool_decide_eq_true in Hc as (Ha & Hpc & Hsz & Hin & Hn).
  destruct (H Ha Hpc) as (w' & n & Es & Hr & -> & _).
  { etrans; [exact Hsz|]. apply Nat.leb_le. vm_compute. reflexivity. }
  rewrite Hn in Hr. exists w, w'. split; [exact E|]. split; [exact Hin|]. split; [exact Es|exact Hr].
Defined.
