(* ===== verification/MRRun.v ===== *)
(** * A MapReduce job from its input files to its output files

    The system of [MRCoordinator], followed through a whole run: what every task is, what its
    execution reads and writes, and that a finished job leaves in the workers' directory the
    output files that hold the lines of the sequential program ([MRJob]).  Two invariants:
    [job_inv] holds of every run (so nothing panics), and [good], what the output files hold
    while several workers write them, of the runs that are [undisturbed] ([MRFiles]).

    The workers run in a directory [tmp] of their own, as the tests start them; the
    coordinator writes into its directory [dir] and the workers copy what they write there
    into theirs. *)
From stdpp Require Import base tactics numbers list fin_maps gmap strings sorting pretty.
From S2P Require Import Prelude GoLib GoStrings GoStrconv MRText MRJob MRCoordinator MRFiles MRSafety MRApps.

(** ** Files and their names *)

Definition map_name (i : nat) : string := "mr-" +:+ pretty i.
Definition part_name (p : Z) : string := "p-" +:+ pretty p.
Definition out_name (p : Z) : string := "mr-out-" +:+ pretty p.

Lemma map_name_ok i : is_name (map_name i).
Proof. apply contains_prefix_name; [done|apply pretty_nat_slash|done]. Qed.
Lemma part_name_ok p : is_name (part_name p).
Proof. apply contains_prefix_name; [done|apply pretty_Z_slash|done]. Qed.
Lemma out_name_ok p : is_name (out_name p).
Proof. apply contains_prefix_name; [done|apply pretty_Z_slash|done]. Qed.
#[export] Hint Resolve map_name_ok part_name_ok out_name_ok : mr.

Lemma out_name_inj p q : out_name p = out_name q → p = q.
Proof. intros E%append_inj_r. by apply (inj pretty). Qed.
Lemma part_name_inj p q : part_name p = part_name q → p = q.
Proof. intros E%append_inj_r. by apply (inj pretty). Qed.

Lemma map_name_ne_out i p : map_name i ≠ out_name p.
Proof.
  intros E. pose proof (pretty_nat_digit i) as Hd.
  change (out_name p) with ("mr-" +:+ ("out-" +:+ pretty p)) in E. apply append_inj_r in E.
  by rewrite E in Hd.
Qed.

Lemma part_name_ne_out q p : part_name q ≠ out_name p.
Proof. intros E. discriminate E. Qed.

(** The names the job uses in the coordinator's directory, which it also cleans. *)
Definition job_name (n : string) : bool := String.prefix "mr-" n || String.prefix "p-" n.

Lemma prefix_append p n : String.prefix p (p +:+ n) = true.
Proof. induction p as [|a p IH]; [by destruct n|]. rewrite append_cons. cbn. by case_match. Qed.

Lemma map_name_job i : job_name (map_name i) = true.
Proof. unfold job_name, map_name. by rewrite prefix_append. Qed.
Lemma part_name_job p : job_name (part_name p) = true.
Proof. unfold job_name, part_name. by rewrite (prefix_append "p-"), orb_true_r. Qed.
Lemma out_name_job p : job_name (out_name p) = true.
Proof.
  unfold job_name. change (out_name p) with ("mr-" +:+ ("out-" +:+ pretty p)). by rewrite prefix_append.
Qed.
#[export] Hint Resolve map_name_job part_name_job out_name_job : mr.

Lemma path_Join_empty d : path_Join d "" = d.
Proof. done. Qed.

(** ** A map task's own file *)

Lemma contains_substring c n s : contains c s = false → contains c (String.substring 0 n s) = false.
Proof.
  revert n. induction s as [|a s IH]; intros [|n]; cbn; try done.
  rewrite !orb_false_iff. intros [? ?]. auto.
Qed.

Lemma getFileNameOnly_map dir i :
  ∃ n, getFileNameOnly (path_Join dir (map_name i)) = Ret n ∧ (n = "" ∨ is_name n).
Proof.
  unfold getFileNameOnly. rewrite path_Base_Join by auto with mr.
  assert (4 ≤ String.length (map_name i))%nat as Hlen.
  { unfold map_name. pose proof (pretty_nat_digit i). destruct (pretty i) as [|a s]; [done|].
    change (4 ≤ S (S (S (S (String.length s)))))%nat. lia. }
  rewrite decide_False by lia. eexists. split; [done|].
  match goal with |- ?x = "" ∨ _ => destruct (decide (x = "")) as [|Hne]; [by left|right] end.
  split; [done|]. apply contains_substring, map_name_ok.
Qed.

(** ** One job *)

Section job.
Context (mapf : string → string → list KeyValue) (reducef : string → list string → string).
Context (sort_Sort : list KeyValue → list KeyValue) (range_order : list Z → list Z).
Context (dir tmp : string) (files : list string) (content : string → string) (R : Z).

Definition shape (t : Task) : string * string * string * string :=
  (t_Id t, t_Type t, t_ReadLocation t, t_WriteLocation t).
Definition map_shape (i : nat) (f : string) : string * string * string * string :=
  (pretty i, "map", f, path_Join dir (map_name i)).
Definition red_shape (p : Z) : string * string * string * string :=
  (part_name p, "reduce", path_Join dir (part_name p), path_Join dir (out_name p)).

(** The pairs of one file and of all, the partitions of some pairs and their output. *)
Definition kvs_of (f : string) : list KeyValue := mapf f (content f).
Definition all_kvs : list KeyValue := concat (kvs_of <$> files).
Definition parts (I : list KeyValue) : gmap Z (list KeyValue) :=
  group_by (λ kv, Z.rem (ihash (kv_Key kv)) R) (sort_Sort I).
Definition part_ids (I : list KeyValue) : list Z := range_order ((map_to_list (parts I)).*1).
Definition out_lines (I : list KeyValue) (p : Z) : list string :=
  reduce_lines reducef (sort_Sort (group_at (parts I) p)).
Definition out_text (I : list KeyValue) (p : Z) : string := concat_str (out_lines I p).

(** What a run writes. *)
Definition written (p : string) : Prop :=
  (path_Dir p = dir ∧ job_name (path_Base p) = true) ∨
  (∃ i, p = path_Join tmp (map_name i)) ∨ (∃ q, p = path_Join tmp (out_name q)).

(** The two directories are there and hold no directory of a job's name; the names the map
    tasks are given can be read and are not the job's own. *)
Record setting (fs : FS) : Prop := {
  st_dir : dir ∈ fs_dirs fs;
  st_tmp : tmp ∈ fs_dirs fs;
  st_apart : tmp ≠ dir;
  st_named : tmp ≠ "";
  st_free d n : d = dir ∨ d = tmp → job_name n = true → path_Join d n ∉ fs_dirs fs;
  st_input f : f ∈ files → f ≠ "" ∧ ¬ written f ∧ fs_files fs !! f = Some (content f)
}.

Lemma setting_keeps fs fs' :
  setting fs → fs_dirs fs' = fs_dirs fs →
  (∀ p, ¬ written p → fs_files fs' !! p = fs_files fs !! p) → setting fs'.
Proof.
  intros [H1 H2 H3 H4 H5 H6] Hd Hf. split; rewrite ?Hd; auto.
  intros f Hin. destruct (H6 f Hin) as (? & Hw & ?). by rewrite Hf.
Qed.

Lemma written_dir n : is_name n → job_name n = true → written (path_Join dir n).
Proof. intros Hn Hj. left. by rewrite path_Dir_Join, path_Base_Join. Qed.
Lemma written_map i : written (path_Join tmp (map_name i)).
Proof. right; left. by exists i. Qed.
Lemma written_out q : written (path_Join tmp (out_name q)).
Proof. right; right. by exists q. Qed.

(** *** What an execution does *)

Definition done_args (t : Task) (kvs : list KeyValue) : UpdateTaskStatusArgs :=
  {| ua_TaskId := t_Id t; ua_AssignedWorkerId := t_AssignedWorkerId t;
     ua_WriteLocation := t_WriteLocation t; ua_Status := "completed";
     ua_Intermediate := kvs; ua_Retries := t_Retries t |}.

(** A map worker creates and writes two files, one of them in a directory that is not there
    (or both, when the other one's name is empty). *)
Definition map_op (i : nat) (op : file_op) : Prop :=
  match op with OpCreate _ | OpWrite _ _ _ => True | _ => False end ∧
  (op_path op ∈ [path_Join dir (map_name i); path_Join tmp (map_name i)] ∨
   path_Dir (op_path op) = path_Join dir (map_name i)).

Abbreviation main_out p := (path_Join dir (out_name p)).
Abbreviation tmp_out p := (path_Join tmp (out_name p)).

(** The end of a reduce worker's operations, and all of them. *)
Definition copy_ops (p : Z) : list file_op := [OpReadBack (main_out p); OpDupCreate (tmp_out p); OpDupWrite (tmp_out p)].
Definition red_script (p : Z) (lines : list string) : list file_op :=
  OpCreate (main_out p) :: line_ops (main_out p) 0 lines ++ copy_ops p.

Lemma begin_map fs t i f :
  setting fs → f ∈ files → shape t = map_shape i f →
  ∃ ops, begin_task mapf reducef sort_Sort tmp t fs = Ret (ops, done_args t (kvs_of f)) ∧ Forall (map_op i) ops.
Proof.
  intros Hs Hf. intros [= Hid Hty Hrd Hwr]. unfold begin_task, executeMapf.
  rewrite Hty, Hrd, (proj2 (proj2 (st_input fs Hs f Hf))). rewrite decide_True by done. rewrite Hwr.
  destruct (getFileNameOnly_map dir i) as (n & -> & Hn). rewrite !bind_ret_l.
  unfold writeToWorkerInitDir. rewrite decide_False by apply Hs.
  rewrite path_Dir_Join by auto with mr. rewrite decide_False by apply Hs.
  rewrite path_Base_Join by auto with mr. eexists. split; [by unfold done_args; rewrite Hwr|].
  assert (∀ q kvs, (q ∈ [path_Join dir (map_name i); path_Join tmp (map_name i)] ∨ path_Dir q = path_Join dir (map_name i)) →
    Forall (map_op i) (OpCreate q :: line_ops q 0 (format_kv <$> kvs))) as Hall.
  { intros q kvs Hq. constructor; [by split|]. generalize 0%nat. induction kvs as [|kv kvs IH]; intros n'; cbn; [constructor|].
    constructor; [by split|apply IH]. }
  unfold writeToLocation. apply Forall_app. split; apply Hall; [|left; right; left].
  destruct Hn as [-> |Hn]; [left; left|right; by apply path_Dir_Join].
Qed.

Lemma begin_red fs t p kvs :
  setting fs → fs_files fs !! path_Join dir (part_name p) = Some (format_kvs kvs) → kvs ≠ [] →
  Forall clean kvs → shape t = red_shape p →
  begin_task mapf reducef sort_Sort tmp t fs = Ret (red_script p (reduce_lines reducef (sort_Sort kvs)), done_args t []).
Proof.
  intros Hs Hc Hne Hcl. intros [= Hid Hty Hrd Hwr]. unfold begin_task, executeReducef.
  rewrite Hty, Hrd, Hc. rewrite decide_False by done.
  unfold reduce_output. rewrite parse_format, !bind_ret_l by done.
  unfold copyToWorkerInitDir. rewrite decide_False by apply Hs. rewrite Hwr.
  rewrite path_Dir_Join, path_Base_Join by auto with mr. rewrite decide_False by apply Hs. unfold done_args. by rewrite Hwr.
Qed.

Lemma initializeReduceTasks_files now I ps c fs :
  setting fs → MainDir c = dir → NoDup ps →
  let '(c', fs') := initializeReduceTasks now (parts I) ps c fs in
  (∃ ts, Tasks c' = Tasks c ++ ts ∧ shape <$> ts = red_shape <$> ps ∧
         Forall (λ t, t_Status t = "not started") ts) ∧
  MainDir c' = dir ∧ ReducerCount c' = ReducerCount c ∧ IsReduceGenerated c' = IsReduceGenerated c ∧
  changes ((λ p, path_Join dir (part_name p)) <$> ps) fs fs' ∧
  ∀ p, p ∈ ps → fs_files fs' !! path_Join dir (part_name p) = Some (format_kvs (group_at (parts I) p)).
Proof.
  revert c fs. induction ps as [|p ps IH]; intros c fs Hs Hdir Hnd; cbn [initializeReduceTasks].
  { split_and!; try done; [exists []; by rewrite app_nil_r|by intros p ?%elem_of_nil]. }
  apply NoDup_cons in Hnd as [Hp Hnd]. unfold store. rewrite Hdir.
  change ("p-" +:+ pretty p) with (part_name p).
  set (fs1 := fs_write (path_Join dir (part_name p)) (format_kvs (group_at (parts I) p)) fs).
  assert (changes [path_Join dir (part_name p)] fs fs1) as [Hd1 Hf1].
  { apply changes_write; [left|done]. }
  assert (setting fs1) as Hs1.
  { eapply setting_keeps; [exact Hs|done|]. intros q Hq. apply Hf1. intros ->%list_elem_of_singleton.
    apply Hq. apply written_dir; auto with mr. }
  match goal with |- context [initializeReduceTasks _ _ _ ?c1 _] => specialize (IH c1 fs1 Hs1 Hdir Hnd) end.
  destruct (initializeReduceTasks _ _ _ _ _) as [c' fs'].
  destruct IH as ((ts & Hts & Hsh & Hst) & Hm & HR & Hg & [Hd2 Hf2] & Hall). split_and!; try done.
  - eexists (_ :: ts). rewrite Hts. cbn [Tasks update]. rewrite <- app_assoc. split; [done|].
    split; [|by constructor]. cbn [fmap list_fmap]. rewrite Hsh. done.
  - split; [congruence|]. intros q [Hq1 Hq2]%not_elem_of_cons. rewrite Hf2 by done. apply Hf1.
    by rewrite list_elem_of_singleton.
  - intros q [->|Hq]%elem_of_cons; [|by apply Hall]. rewrite Hf2.
    + apply fs_write_there; [rewrite path_Dir_Join by auto with mr; apply Hs|apply (st_free fs Hs); auto with mr].
    + intros (q & E & Hq)%list_elem_of_fmap. apply path_Join_inj in E as [_ E]; auto with mr.
      by apply part_name_inj in E as ->.
Qed.

(** *** The table of tasks *)

(** A change of the table between completions: what is over stays, nothing gets completed. *)
Definition calm_step (t t' : Task) : Prop :=
  shape t' = shape t ∧ (over t = true → t' = t) ∧ (completed t' → completed t).
Definition calm : list Task → list Task → Prop := Forall2 calm_step.

Lemma calm_refl ts : calm ts ts.
Proof. apply Forall_Forall2_diag, Forall_true. by repeat split. Qed.

Lemma calm_shape ts ts' : calm ts ts' → shape <$> ts' = shape <$> ts.
Proof. induction 1 as [|t t' ts ts' (Hs & _) _ IH]; cbn; [done|]. by rewrite Hs, IH. Qed.

Lemma calm_insert ts i t t' : ts !! i = Some t → calm_step t t' → calm ts (<[i := t']> ts).
Proof.
  intros Hi Ht. apply Forall2_same_length_lookup_2; [by rewrite length_insert|].
  intros j x y Hx Hy. apply list_lookup_insert_Some in Hy as [(<- & <- & _)|[_ Hy]]; simplify_eq; [done|].
  by repeat split.
Qed.

Lemma over_cases t : over t = true ↔ completed t ∨ t_Status t = "skipped".
Proof. unfold over, completed. by rewrite orb_true_iff, !bool_decide_eq_true. Qed.

Lemma calm_request now args c : calm (Tasks c) (Tasks (RequestTask now args c).1).
Proof.
  unfold RequestTask. destruct (list_find _ _) as [[i t]|] eqn:E; [|apply calm_refl].
  apply list_find_Some in E as (Hi & [Hst _] & _). eapply calm_insert; [done|].
  unfold calm_step. split_and!; [done| |done]. unfold over. by rewrite Hst.
Qed.

Lemma calm_Done now c : calm (Tasks c) (Tasks (Done now c).1).
Proof.
  assert (∀ t, calm_step t (setNotStartedIfApplicable now (setSkippedIfApplicable now t))) as Hstep.
  { intros t. unfold setNotStartedIfApplicable, setSkippedIfApplicable.
    assert (t_Status t = "in progress" → over t = true → False) as Hno.
    { intros Hi [Hc|Hc]%over_cases; unfold completed in *; congruence. }
    unfold calm_step, completed. repeat case_decide; cbn in *; (split; [done|split; [intros Ho; try done; exfalso|]]).
    all: naive_solver congruence. }
  unfold Done. enough (∀ ts, calm ts (Done_loop now ts).1) as H.
  { specialize (H (Tasks c)). by destruct (Done_loop now (Tasks c)). }
  induction ts as [|t ts IH]; cbn [Done_loop]; [constructor|].
  destruct (over _); [|constructor; [apply Hstep|apply calm_refl]].
  destruct (Done_loop now ts). constructor; [apply Hstep|done].
Qed.

(** Before the reduce tasks are made: the map tasks, one of them not done. *)
Definition early (ts : list Task) (fs : FS) : Prop :=
  shape <$> ts = imap map_shape files ∧
  (∀ q, fs_files fs !! path_Join tmp (out_name q) = None) ∧
  (files = [] ∨ ∃ t, t ∈ ts ∧ ¬ completed t).

(** Afterwards, for the pairs [I] that were shuffled. *)
Record late (I : list KeyValue) (ts : list Task) (fs : FS) : Prop := {
  lt_shape : shape <$> ts = imap map_shape files ++ (red_shape <$> part_ids I);
  lt_clean : Forall clean I;
  lt_maps t : t ∈ ts → t_Type t = "map" → over t = true;
  lt_all : (∀ t, t ∈ ts → t_Type t = "map" → completed t) → I ≡ₚ all_kvs;
  lt_parts p : p ∈ part_ids I →
    fs_files fs !! path_Join dir (part_name p) = Some (format_kvs (group_at (parts I) p));
  lt_outs q : is_Some (fs_files fs !! tmp_out q) → q ∈ part_ids I
}.

Definition table_inv (oI : option (list KeyValue)) (gen : bool) (ts : list Task) (fs : FS) : Prop :=
  match oI with None => gen = false ∧ early ts fs | Some J => gen = true ∧ late J ts fs end.

Lemma late_calm I ts ts' fs : late I ts fs → calm ts ts' → late I ts' fs.
Proof.
  intros [H1 H2 H3 H4 H5 H6] Hc.
  assert (∀ t', t' ∈ ts' → ∃ t, t ∈ ts ∧ calm_step t t') as Hback by (intros; by eapply Forall2_elem_r).
  assert (∀ t, t ∈ ts → ∃ t', t' ∈ ts' ∧ calm_step t t') as Hforw by (intros; by eapply Forall2_elem_l).
  split; [by rewrite (calm_shape _ _ Hc)|done| | |done|done].
  - intros t' (t & Ht & [= _ Hty _ _] & Hov & _)%Hback Hm. rewrite Hty in Hm.
    pose proof (H3 t Ht Hm) as Ho. by rewrite (Hov Ho).
  - intros Hall. apply H4. intros t Ht Hty. destruct (Hforw t Ht) as (t' & Ht' & [= _ Hty' _ _] & _ & Hcc).
    apply Hcc, Hall; congruence.
Qed.

Lemma early_calm ts ts' fs : early ts fs → calm ts ts' → early ts' fs.
Proof.
  intros (H1 & H2 & H3) Hc. split_and!; [by rewrite (calm_shape _ _ Hc)|done|].
  destruct H3 as [|(t & Ht & Hn)]; [by left|right].
  destruct (Forall2_elem_l _ _ _ _ Hc Ht) as (t' & Ht' & _ & _ & Hcc). exists t'. split; [done|]. by intros ?%Hcc.
Qed.

Lemma table_calm oI gen ts ts' fs : table_inv oI gen ts fs → calm ts ts' → table_inv oI gen ts' fs.
Proof. destruct oI; intros [? H] ?; (split; [done|]); [by eapply late_calm|by eapply early_calm]. Qed.

(** What the workers write are not partitions, and outputs only of the partitions there are. *)
Lemma table_changes oI gen ts ps fs fs' :
  table_inv oI gen ts fs → changes ps fs fs' → (∀ p, path_Join dir (part_name p) ∉ ps) →
  (∀ q, tmp_out q ∈ ps → ∃ I, oI = Some I ∧ q ∈ part_ids I) → table_inv oI gen ts fs'.
Proof.
  intros Ht [_ Hf] Hp Hq. destruct oI as [I|]; cbn in *; (destruct Ht as [Hg Ht]; split; [done|]).
  - destruct Ht as [H1 H2 H3 H4 H5 H6]. split; try done.
    + intros p Hin. rewrite Hf by apply Hp. auto.
    + intros q. destruct (decide (tmp_out q ∈ ps)) as [Hin|Hn]; [|rewrite Hf by done; auto].
      intros _. by destruct (Hq q Hin) as (I' & [= ->] & ?).
  - destruct Ht as (H1 & H2 & H3). split_and!; try done. intros q. rewrite Hf; [done|].
    intros Hin. by destruct (Hq q Hin) as (I' & ? & _).
Qed.

Lemma late_complete I ts fs i t0 t1 :
  late I ts fs → ts !! i = Some t0 → shape t1 = shape t0 → over t0 = false → late I (<[i := t1]> ts) fs.
Proof.
  intros [H1 H2 H3 H4 H5 H6] Hi Hsh Ho.
  assert (∀ t, t ∈ <[i := t1]> ts → t = t1 ∨ t ∈ ts) as Hback.
  { intros t [j Hj]%list_elem_of_lookup. apply list_lookup_insert_Some in Hj as [(_ & <- & _)|[_ Hj]]; [by left|].
    right. by eapply list_elem_of_lookup_2. }
  assert (t_Type t0 ≠ "map") as Hty.
  { intros Hm. rewrite H3 in Ho; [done|by eapply list_elem_of_lookup_2|done]. }
  assert (t_Type t1 = t_Type t0) as Hty1 by by injection Hsh.
  split; try done.
  - rewrite list_fmap_insert, Hsh, <- H1. apply list_insert_id. by rewrite list_lookup_fmap, Hi.
  - intros t [->|Ht]%Hback Hm; [congruence|auto].
  - intros Hall. apply H4. intros t Ht Hm. apply Hall; [|done].
    apply list_elem_of_lookup in Ht as [j Hj]. apply (list_elem_of_lookup_2 _ j).
    rewrite list_lookup_insert_ne; [done|]. intros ->. congruence.
Qed.

(** What a completion does to the table. *)
Lemma update_cases s now kvs pid w :
  mr_ok s → mr_busy s !! pid = Some w → shape (wk_task w) ∈ shape <$> Tasks (mr_coord s) →
  let args := done_args (wk_task w) kvs in
  update_task now args (mr_coord s) = mr_coord s ∨
  ∃ i t0 t1, Tasks (mr_coord s) !! i = Some t0 ∧ shape t0 = shape (wk_task w) ∧ shape t1 = shape t0 ∧
    over t0 = false ∧ t_AssignedWorkerId t0 = Z.of_nat pid ∧ t_AssignedWorkerId t1 = Z.of_nat pid ∧
    update_task now args (mr_coord s) =
      (mr_coord s) <| IntermediateResults := IntermediateResults (mr_coord s) ++ kvs |>
                   <| Tasks := <[i := t1]> (Tasks (mr_coord s)) |>.
Proof.
  intros Hok Hb (t' & Hsh & Hin)%list_elem_of_fmap args. unfold update_task.
  destruct (list_find _ _) as [[i t0]|] eqn:E; [right|by left].
  apply list_find_Some in E as (Hi & [Hid0 Has0] & _). cbn in Hid0, Has0.
  assert (t0 ∈ Tasks (mr_coord s)) as Hin0 by by eapply list_elem_of_lookup_2.
  assert (t0 = t') as ->.
  { apply (same_id (Tasks (mr_coord s))); [apply Hok|done|done|]. injection Hsh as Hi' _ _ _. congruence. }
  destruct (mo_busy s Hok pid w Hb) as (Hpid & Hno & _).
  eexists i, t', _. split; [done|]. split; [done|]. split; [|split; [|split; [|split; [|reflexivity]]]].
  - unfold shape. cbn. injection Hsh as _ _ _ ->. done.
  - destruct (over t') eqn:Ho; [|done].
    apply over_cases in Ho. exfalso. pose proof (mo_tasks s Hok) as Hall. rewrite Forall_forall in Hall.
    destruct Ho as [Hc|Hsk].
    + apply (Hno t' Hin); [congruence|done|congruence].
    + destruct (Hall t' Hin) as [[? ?]|[[? ?]|[? ?]]]; [lia|destruct_or?; congruence|lia].
  - congruence.
  - cbn. congruence.
Qed.

(** *** The shuffle *)

Context (Hrange : ∀ ps, range_order ps ≡ₚ ps) (Hsort : sorts_by_key sort_Sort) (HR : 0 < R).
Context (Hclean : ∀ f, f ∈ files → Forall clean (kvs_of f)).

Lemma elem_part_ids I p : p ∈ part_ids I ↔ is_Some (parts I !! p).
Proof.
  unfold part_ids. rewrite Hrange, list_elem_of_fmap. split.
  - intros ([p' l'] & -> & Hin%elem_of_map_to_list). eauto.
  - intros [l' Hl']. exists (p, l'). by rewrite elem_of_map_to_list.
Qed.

Lemma part_ids_NoDup I : NoDup (part_ids I).
Proof. unfold part_ids. rewrite Hrange. apply NoDup_fst_map_to_list. Qed.

Lemma part_nonempty I p : p ∈ part_ids I → group_at (parts I) p ≠ [].
Proof.
  intros [l Hl]%elem_part_ids. unfold group_at. rewrite Hl. by eapply group_by_nonempty.
Qed.

Lemma part_clean I p : Forall clean I → Forall clean (group_at (parts I) p).
Proof.
  intros HI. unfold parts. rewrite group_at_group_by. apply Forall_filter. by rewrite (proj1 (Hsort I)).
Qed.

Lemma shuffle_parts I : shuffle sort_Sort R I = Ret (parts I).
Proof. unfold shuffle. by rewrite decide_False by lia. Qed.

(** The accepted completions of the map tasks, each with the pairs of its file. *)
Definition log_ok (log : list (string * list KeyValue)) : Prop :=
  ∀ id kvs i f, (id, kvs) ∈ log → files !! i = Some f → id = pretty i → kvs = kvs_of f.

Lemma early_map ts t : shape <$> ts = imap map_shape files → t ∈ ts →
  ∃ i f, files !! i = Some f ∧ shape t = map_shape i f.
Proof.
  intros Hsh [j Hj]%list_elem_of_lookup.
  assert ((shape <$> ts) !! j = Some (shape t)) as H by by rewrite list_lookup_fmap, Hj.
  rewrite Hsh in H. apply list_lookup_imap_Some in H as (f & Hf & E). eauto.
Qed.

Lemma log_in_map s id kvs :
  mr_ok s → log_ok (mr_log s) → shape <$> Tasks (mr_coord s) = imap map_shape files →
  (id, kvs) ∈ mr_log s → ∃ i f, files !! i = Some f ∧ id = pretty i ∧ kvs = kvs_of f.
Proof.
  intros Hok Hlog Hsh Hin. destruct (proj1 (mo_log s Hok id)) as (t & Ht & <- & _).
  { apply list_elem_of_fmap. by exists (id, kvs). }
  destruct (early_map _ t Hsh Ht) as (i & f & Hf & [= Hid _ _ _]). exists i, f. split; [done|].
  split; [done|]. by eapply Hlog.
Qed.

Lemma log_complete s :
  mr_ok s → log_ok (mr_log s) → shape <$> Tasks (mr_coord s) = imap map_shape files →
  (∀ t, t ∈ Tasks (mr_coord s) → completed t) → concat ((mr_log s).*2) ≡ₚ all_kvs.
Proof.
  intros Hok Hlog Hsh Hall.
  assert (mr_log s ≡ₚ imap (λ i f, (pretty i, kvs_of f)) files) as ->.
  { apply NoDup_Permutation.
    - apply (NoDup_fmap_1 fst), Hok.
    - apply NoDup_alt. intros i j x (f & _ & ->)%list_lookup_imap_Some (g & _ & E)%list_lookup_imap_Some.
      injection E as E _. by apply (inj pretty) in E.
    - intros [id kvs]. split.
      + intros Hin. destruct (log_in_map s id kvs Hok Hlog Hsh Hin) as (i & f & Hf & -> & ->).
        apply (list_elem_of_lookup_2 _ i). by rewrite list_lookup_imap, Hf.
      + intros (i & Hi)%list_elem_of_lookup. apply list_lookup_imap_Some in Hi as (f & Hf & [= -> ->]).
        assert (∃ t, t ∈ Tasks (mr_coord s) ∧ shape t = map_shape i f) as (t & Ht & [= Hid _ _ _]).
        { assert ((shape <$> Tasks (mr_coord s)) !! i = Some (map_shape i f)) as H
            by (by rewrite Hsh, list_lookup_imap, Hf).
          rewrite list_lookup_fmap in H. destruct (Tasks (mr_coord s) !! i) as [t|] eqn:Ht; [|done].
          exists t. split; [by eapply list_elem_of_lookup_2|]. apply (inj Some) in H. exact H. }
        assert (pretty i ∈ (mr_log s).*1) as ([id kvs] & E & Hin)%list_elem_of_fmap.
        { apply (mo_log s Hok). exists t. auto. }
        cbn in E. rewrite E at 1. by rewrite <- (Hlog _ _ i f Hin Hf (eq_sym E)). }
  unfold all_kvs. apply reflexive_eq. f_equal. rewrite fmap_imap. cbn.
  apply list_eq. intros i. rewrite list_lookup_imap, list_lookup_fmap. by destruct (files !! i).
Qed.

Abbreviation generate := (generateReduceTasksIfApplicable sort_Sort range_order).

Lemma generate_early s now :
  mr_ok s → log_ok (mr_log s) → setting (mr_fs s) → MainDir (mr_coord s) = dir →
  ReducerCount (mr_coord s) = R → IsReduceGenerated (mr_coord s) = false →
  shape <$> Tasks (mr_coord s) = imap map_shape files →
  (∀ q, fs_files (mr_fs s) !! path_Join tmp (out_name q) = None) →
  ∃ c' fs' ps, generate now (mr_coord s) (mr_fs s) = Ret (c', fs') ∧ MainDir c' = dir ∧ ReducerCount c' = R ∧
    changes ((λ p, path_Join dir (part_name p)) <$> ps) (mr_fs s) fs' ∧
    (∃ ts, Tasks c' = Tasks (mr_coord s) ++ ts ∧ Forall (λ t, t_Status t = "not started") ts) ∧
    ∃ oI, table_inv oI (IsReduceGenerated c') (Tasks c') fs'.
Proof.
  intros Hok Hlog Hset Hdir HRc Hg Hsh Hout. unfold generateReduceTasksIfApplicable. rewrite Hg.
  destruct (isAllMappingDone (mr_coord s)) eqn:Hdone.
  2: { eexists _, _, []. split; [done|]. split_and!; try done; [exists []; by rewrite app_nil_r|].
    exists None. split; [done|]. split_and!; [done|done|right]. unfold isAllMappingDone in Hdone.
    apply not_true_iff_false in Hdone. rewrite forallb_forall in Hdone.
    destruct (decide (Forall (λ t, over t = true) (Tasks (mr_coord s)))) as [Ha|Hn].
    - destruct Hdone. intros t Ht%list_elem_of_In. rewrite Forall_forall in Ha. by rewrite Ha, orb_true_r.
    - apply not_Forall_Exists in Hn; [|apply _]. apply Exists_exists in Hn as (t & Ht & Hn). exists t.
      split; [done|]. intros Hc. apply Hn, over_cases. by left. }
  rewrite HRc, shuffle_parts, bind_ret_l. set (I := IntermediateResults (mr_coord s)).
  destruct (mo_early s Hok Hg) as [HI Hmaps]. fold I in HI.
  change (range_order ((map_to_list (parts I)).*1)) with (part_ids I).
  set (c0 := (mr_coord s) <| IsReduceGenerated := true |>).
  pose proof (initializeReduceTasks_files now I (part_ids I) c0 (mr_fs s) Hset Hdir (part_ids_NoDup I)) as Hi.
  destruct (initializeReduceTasks now (parts I) (part_ids I) c0 (mr_fs s)) as [c1 fs1].
  destruct Hi as ((ts & Hts & Htsh & Hnew) & Hm & HRc' & Hg1 & Hch & Hparts).
  eexists _, _, (part_ids I). split; [done|]. cbn [MainDir ReducerCount Tasks IsReduceGenerated update].
  split_and!; [done|etrans; [exact HRc'|exact HRc]|done|by exists ts|]. exists (Some I). split; [done|].
  assert (∀ q, fs_files fs1 !! path_Join tmp (out_name q) = None) as Hout1.
  { intros q. rewrite (proj2 Hch), Hout; [done|]. intros (p & E & _)%list_elem_of_fmap.
    apply path_Join_inj in E as [_ E]; auto with mr. symmetry in E. by apply part_name_ne_out in E. }
  assert (∀ t, t ∈ ts → t_Type t = "reduce") as Hred.
  { intros t Ht. assert (shape t ∈ shape <$> ts) as Hin by (apply list_elem_of_fmap; eauto).
    rewrite Htsh in Hin. apply list_elem_of_fmap in Hin as (p & [= _ Hty _ _] & _). done. }
  split; rewrite ?Hts.
  - rewrite fmap_app, Htsh. cbn [c0 Tasks update]. by rewrite Hsh.
  - apply Forall_forall. intros kv Hkv. rewrite HI in Hkv. apply list_elem_of_In, in_concat in Hkv as (l & Hl & Hkv).
    apply list_elem_of_In, list_elem_of_fmap in Hl as ([id kvs] & -> & Hl).
    destruct (log_in_map s id kvs Hok Hlog Hsh Hl) as (i & f & Hf & _ & ->).
    pose proof (Hclean f) as Hc. rewrite Forall_forall in Hc. apply Hc; [by eapply list_elem_of_lookup_2|].
    by apply list_elem_of_In.
  - intros t [Ht|Ht]%elem_of_app Hty; [|by rewrite (Hred t Ht) in Hty].
    unfold isAllMappingDone in Hdone. rewrite forallb_forall in Hdone. apply list_elem_of_In in Ht.
    specialize (Hdone t Ht). rewrite Hty in Hdone. exact Hdone.
  - intros Hall. rewrite HI. apply log_complete; [done|done|done|]. intros t Ht. apply Hall; [|by apply Hmaps].
    apply elem_of_app. by left.
  - apply Hparts.
  - intros q. rewrite Hout1. by intros [? ?].
Qed.

(** *** The invariant of a run *)

Context (fs0 : FS).

(** What a worker has to do that got the map task [i], and the reduce task of [p]. *)
Definition map_work (i : nat) (f : string) (w : worker) : Prop :=
  files !! i = Some f ∧ shape (wk_task w) = map_shape i f ∧ Forall (map_op i) (wk_todo w) ∧
  match wk_report w with Some args => args = done_args (wk_task w) (kvs_of f) | None => wk_todo w = [] end.

Definition red_work (I : list KeyValue) (p : Z) (w : worker) : Prop :=
  p ∈ part_ids I ∧ shape (wk_task w) = red_shape p ∧
  Forall (λ op, op_path op ∈ [main_out p; tmp_out p]) (wk_todo w) ∧
  match wk_report w with Some args => args = done_args (wk_task w) [] | None => wk_todo w = [] end.

Definition worker_ok (oI : option (list KeyValue)) (w : worker) : Prop :=
  (∃ i f, map_work i f w) ∨ ∃ J p, oI = Some J ∧ red_work J p w.

(** [oI]: the pairs that were shuffled, once the reduce tasks are made. *)
Record job_inv (oI : option (list KeyValue)) (s : mr_state) : Prop := {
  ji_ok : mr_ok s;
  ji_main : MainDir (mr_coord s) = dir ∧ ReducerCount (mr_coord s) = R;
  ji_set : setting (mr_fs s);
  ji_frame : fs_dirs (mr_fs s) = fs_dirs fs0 ∧
    ∀ p, ¬ written p → fs_files (mr_fs s) !! p = fs_files fs0 !! p;
  ji_work pid w : mr_busy s !! pid = Some w → worker_ok oI w;
  ji_log : log_ok (mr_log s);
  ji_table : table_inv oI (IsReduceGenerated (mr_coord s)) (Tasks (mr_coord s)) (mr_fs s)
}.

(** The tasks of the table and the tasks of the workers are the same. *)
Lemma task_cases oI gen ts fs t :
  table_inv oI gen ts fs → shape t ∈ shape <$> ts →
  (∃ i f, files !! i = Some f ∧ shape t = map_shape i f) ∨ ∃ J p, oI = Some J ∧ p ∈ part_ids J ∧ shape t = red_shape p.
Proof.
  intros Ht Hin. assert (shape t ∈ imap map_shape files → ∃ i f, files !! i = Some f ∧ shape t = map_shape i f) as Hm.
  { intros [j Hj]%list_elem_of_lookup. apply list_lookup_imap_Some in Hj as (f & Hf & E). eauto. }
  destruct oI as [J|]; cbn in Ht; [|left; apply Hm; by rewrite <- (proj1 (proj2 Ht))].
  rewrite (lt_shape _ _ _ (proj2 Ht)) in Hin. apply elem_of_app in Hin as [Hin|Hin]; [left; auto|right].
  apply list_elem_of_fmap in Hin as (p & E & Hp). by exists J, p.
Qed.

Lemma worker_shape oI gen ts fs w :
  table_inv oI gen ts fs → worker_ok oI w → shape (wk_task w) ∈ shape <$> ts.
Proof.
  assert (∀ i f, files !! i = Some f → map_shape i f ∈ imap map_shape files) as Hm.
  { intros i f Hf. apply (list_elem_of_lookup_2 _ i). by rewrite list_lookup_imap, Hf. }
  intros Ht [(i & f & Hf & -> & _)|(J & p & -> & Hp & -> & _)].
  - destruct oI as [J|]; [rewrite (lt_shape _ _ _ (proj2 Ht)); apply elem_of_app; left|rewrite (proj1 (proj2 Ht))]; by apply Hm.
  - rewrite (lt_shape _ _ _ (proj2 Ht)). apply elem_of_app. right. apply list_elem_of_fmap. eauto.
Qed.

Lemma worker_ok_new oI gen ts fs t :
  table_inv oI gen ts fs → shape t ∈ shape <$> ts →
  worker_ok oI {| wk_task := t; wk_report := None; wk_todo := []; wk_data := None |}.
Proof.
  intros Ht Hin. destruct (task_cases oI gen ts fs t Ht Hin) as [(i & f & Hf & E)|(J & p & -> & Hp & E)].
  - left. exists i, f. by split_and!.
  - right. exists J, p. by split_and!.
Qed.

Lemma worker_ok_next oI w w' :
  worker_ok oI w → wk_task w' = wk_task w → wk_report w' = wk_report w → (∃ ops, wk_todo w = ops ++ wk_todo w') →
  worker_ok oI w'.
Proof.
  intros Hw Ht Hr [ops Ho]. destruct Hw as [(i & f & H1 & H2 & H3 & H4)|(J & p & -> & H1 & H2 & H3 & H4)].
  all: assert (match wk_report w with Some _ => True | None => wk_todo w' = [] end) as Hn
    by (destruct (wk_report w); [done|]; rewrite H4 in Ho; symmetry in Ho; by apply app_eq_nil in Ho as [_ ?]).
  all: rewrite Ho in H3; apply Forall_app in H3 as [_ H3].
  - left. exists i, f. unfold map_work. rewrite Ht, Hr. by destruct (wk_report w).
  - right. exists J, p. unfold red_work. rewrite Ht, Hr. by destruct (wk_report w).
Qed.

(** The output files of two partitions, and the other files, are different files. *)
Lemma main_out_inj p q : main_out p = main_out q → p = q.
Proof. intros [_ E]%path_Join_inj; auto with mr. by apply out_name_inj. Qed.
Lemma tmp_out_inj p q : tmp_out p = tmp_out q → p = q.
Proof. intros [_ E]%path_Join_inj; auto with mr. by apply out_name_inj. Qed.
Lemma tmp_ne_main fs p q : setting fs → tmp_out p ≠ main_out q.
Proof. intros Hs [E _]%path_Join_inj; auto with mr. by apply (st_apart fs). Qed.

Lemma map_paths fs i p : setting fs → p ∈ [path_Join dir (map_name i); path_Join tmp (map_name i)] →
  written p ∧ (∀ q, p ≠ path_Join dir (part_name q)) ∧ (∀ q, p ≠ tmp_out q) ∧ ∀ q, p ≠ main_out q.
Proof.
  intros Hs Hp. split.
  { apply elem_of_cons in Hp as [-> | ->%list_elem_of_singleton]; [apply written_dir; auto with mr|apply written_map]. }
  split_and!; intros q ->; apply elem_of_cons in Hp as [E|E%list_elem_of_singleton];
    apply path_Join_inj in E as [? E]; auto with mr; try discriminate E; symmetry in E; by apply map_name_ne_out in E.
Qed.

Lemma out_paths fs p r : setting fs → r ∈ [main_out p; tmp_out p] →
  written r ∧ (∀ q, r ≠ path_Join dir (part_name q)) ∧ (∀ q, r = tmp_out q → q = p) ∧ ∀ q, r = main_out q → q = p.
Proof.
  intros Hs Hr. split.
  { apply elem_of_cons in Hr as [-> | ->%list_elem_of_singleton]; [apply written_dir; auto with mr|apply written_out]. }
  pose proof (tmp_ne_main fs) as Hne. split_and!; intros q E.
  - rewrite E in Hr. apply elem_of_cons in Hr as [E'|E'%list_elem_of_singleton];
      apply path_Join_inj in E' as [? E']; auto with mr; by destruct (part_name_ne_out q p).
  - rewrite E in Hr. apply elem_of_cons in Hr as [E'|E'%list_elem_of_singleton]; [by apply Hne in E'|by apply tmp_out_inj].
  - rewrite E in Hr. apply elem_of_cons in Hr as [E'|E'%list_elem_of_singleton]; [by apply main_out_inj|symmetry in E'; by apply Hne in E'].
Qed.

Lemma map_op_changes fs i op data : setting fs → map_op i op →
  changes [path_Join dir (map_name i); path_Join tmp (map_name i)] fs (do_op op data fs).1.
Proof.
  intros Hs [_ [Hp|Hd]].
  - eapply changes_mono; [apply do_op_changes|]. by intros p ->%list_elem_of_singleton.
  - rewrite do_op_nowhere; [apply changes_refl|]. rewrite Hd. apply (st_free fs Hs); auto with mr.
Qed.

(** The next operation of a worker. *)
Lemma worker_op oI w op ops data fs :
  setting fs → worker_ok oI w → wk_todo w = op :: ops →
  ∃ ps, changes ps fs (do_op op data fs).1 ∧ (∀ p, p ∈ ps → written p) ∧ (∀ p, path_Join dir (part_name p) ∉ ps) ∧
        ∀ q, tmp_out q ∈ ps → ∃ J, oI = Some J ∧ q ∈ part_ids J.
Proof.
  intros Hs [(i & f & _ & _ & Ho & _)|(J & p & -> & Hp & _ & Ho & _)] E; rewrite E in Ho; apply Forall_cons in Ho as [Ho _].
  - eexists. split; [by apply (map_op_changes fs i)|]. pose proof (map_paths fs i) as Hm.
    split_and!; [intros p Hp; by apply Hm|intros p Hp; by destruct (proj1 (proj2 (Hm _ Hs Hp)) p eq_refl)|]. intros q Hq. by destruct (proj1 (proj2 (proj2 (Hm _ Hs Hq))) q eq_refl).
  - exists [main_out p; tmp_out p]. pose proof (out_paths fs p) as Hm. split_and!.
    + eapply changes_mono; [apply do_op_changes|]. by intros r ->%list_elem_of_singleton.
    + intros r Hr. by apply Hm.
    + intros q Hq. by destruct (proj1 (proj2 (Hm _ Hs Hq)) q eq_refl).
    + intros q Hq. exists J. split; [done|]. by rewrite (proj1 (proj2 (proj2 (Hm _ Hs Hq))) q eq_refl).
Qed.

Lemma job_inv_next oI oI' ps s s' :
  job_inv oI s → mr_ok s' → MainDir (mr_coord s') = dir ∧ ReducerCount (mr_coord s') = R →
  changes ps (mr_fs s) (mr_fs s') → (∀ p, p ∈ ps → written p) →
  (∀ pid w, mr_busy s' !! pid = Some w → worker_ok oI' w) → log_ok (mr_log s') →
  table_inv oI' (IsReduceGenerated (mr_coord s')) (Tasks (mr_coord s')) (mr_fs s') → job_inv oI' s'.
Proof.
  intros [Hok Hm Hset [Hd Hf] _ _ _] Hok' Hm' [Hcd Hcf] Hw Hb Hl Ht.
  assert (∀ p, ¬ written p → fs_files (mr_fs s') !! p = fs_files (mr_fs s) !! p) as Hsame.
  { intros p Hp. apply Hcf. by intros ?%Hw. }
  split; try done.
  - by eapply setting_keeps.
  - split; [congruence|]. intros p Hp. rewrite Hsame by done. auto.
Qed.

(** A step that leaves the files and the completions alone. *)
Lemma job_inv_calm oI s c busy :
  job_inv oI s → mr_ok {| mr_coord := c; mr_fs := mr_fs s; mr_busy := busy; mr_log := mr_log s |} →
  MainDir c = MainDir (mr_coord s) → ReducerCount c = ReducerCount (mr_coord s) →
  IsReduceGenerated c = IsReduceGenerated (mr_coord s) → calm (Tasks (mr_coord s)) (Tasks c) →
  (∀ pid w, busy !! pid = Some w → worker_ok oI w) →
  job_inv oI {| mr_coord := c; mr_fs := mr_fs s; mr_busy := busy; mr_log := mr_log s |}.
Proof.
  intros Hs Hok Hm HRc Hg Hc Hb. destruct (ji_main oI s Hs) as [Hm' HR'].
  apply (job_inv_next oI oI [] s); try done; [cbn; by rewrite Hm, HRc|by intros p ?%elem_of_nil|apply Hs|].
  cbn. rewrite Hg. eapply table_calm; [apply Hs|done].
Qed.

(** The log after a worker's report. *)
Lemma log_ok_accept log args c t :
  log_ok log → ua_TaskId args = t_Id t →
  (∀ i f, files !! i = Some f → t_Id t = pretty i → ua_Intermediate args = kvs_of f) →
  log_ok (log ++ accepted_log args c).
Proof.
  intros Hl Hid Hkvs id kvs i f [Hin|Hin]%elem_of_app Hf E; [by eapply Hl|]. revert Hin.
  unfold accepted_log. case_decide; [|by intros ?%elem_of_nil]. destruct (list_find _ _); [|by intros ?%elem_of_nil].
  intros [= -> ->]%list_elem_of_singleton. eapply Hkvs; [done|congruence].
Qed.

(** The state between a worker's update and the generation of the reduce tasks. *)
Definition reported (s : mr_state) (pid : nat) (now : Z) (args : UpdateTaskStatusArgs) : mr_state :=
  {| mr_coord := update_task now args (mr_coord s); mr_fs := mr_fs s; mr_busy := delete pid (mr_busy s);
     mr_log := mr_log s ++ accepted_log args (mr_coord s) |}.

Lemma reported_ok s pid now w kvs :
  mr_ok s → mr_busy s !! pid = Some w → mr_ok (reported s pid now (done_args (wk_task w) kvs)).
Proof. intros Hok Hb. apply (mr_ok_update s now _ pid w Hok Hb). split; [done|]. by left. Qed.

(** A report keeps the table but for the task it completes. *)
Lemma reported_table oI s pid now w kvs :
  job_inv oI s → mr_busy s !! pid = Some w →
  let c := update_task now (done_args (wk_task w) kvs) (mr_coord s) in
  MainDir c = dir ∧ ReducerCount c = R ∧ IsReduceGenerated c = IsReduceGenerated (mr_coord s) ∧
  shape <$> Tasks c = shape <$> Tasks (mr_coord s) ∧
  ∀ J, oI = Some J → late J (Tasks c) (mr_fs s).
Proof.
  intros Hs Hb c. destruct (ji_main oI s Hs) as [Hm HRc].
  destruct (update_cases s now kvs pid w (ji_ok oI s Hs) Hb (worker_shape _ _ _ _ w (ji_table oI s Hs) (ji_work oI s Hs pid w Hb)))
    as [E|(i & t0 & t1 & Hi & H0 & H1 & Ho & _ & _ & E)]; unfold c; rewrite E.
  { split_and!; try done. intros J ->. apply (ji_table _ s Hs). }
  cbn. split_and!; try done.
  - rewrite list_fmap_insert, H1. apply list_insert_id. by rewrite list_lookup_fmap, Hi.
  - intros J ->. eapply late_complete; [apply (ji_table _ s Hs)|done..].
Qed.

Abbreviation step := (mr_step mapf reducef sort_Sort range_order).
Abbreviation run := (mr_run mapf reducef sort_Sort range_order).

(** A worker with the task of [p] has the pairs its report will give. *)
Lemma worker_args oI w args :
  worker_ok oI w → wk_report w = Some args →
  ∃ kvs, args = done_args (wk_task w) kvs ∧ ∀ i f, files !! i = Some f → t_Id (wk_task w) = pretty i → kvs = kvs_of f.
Proof.
  intros [(i & f & Hf & [= Hid _ _ _] & _ & Ha)|(J & p & _ & _ & [= Hid _ _ _] & _ & Ha)] Hr; rewrite Hr in Ha; subst args.
  - exists (kvs_of f). split; [done|]. intros j g Hg. rewrite Hid. intros E%(inj pretty). congruence.
  - exists []. split; [done|]. intros j g _. rewrite Hid. intros E. symmetry in E. by apply pretty_nat_ne_p in E.
Qed.

Lemma job_report oI s pid now w args :
  job_inv oI s → mr_busy s !! pid = Some w → wk_report w = Some args → wk_todo w = [] →
  ∃ s' oI', step (EvReport pid now) s = Ret s' ∧ job_inv oI' s' ∧ mr_busy s' = delete pid (mr_busy s) ∧
    match oI with
    | Some _ => oI' = oI ∧ s' = reported s pid now args
    | None => ∃ ts, Tasks (mr_coord s') = Tasks (update_task now args (mr_coord s)) ++ ts ∧
                    Forall (λ t, t_Status t = "not started") ts
    end.
Proof.
  intros Hs Hb Hr Ht. destruct (worker_args oI w args (ji_work oI s Hs pid w Hb) Hr) as (kvs & -> & Hkvs).
  destruct (reported_table oI s pid now w kvs Hs Hb) as (Hm1 & HR1 & Hg1 & Hsh1 & Hlate).
  set (s1 := reported s pid now (done_args (wk_task w) kvs)).
  assert (mr_ok s1) as Hok1 by (apply reported_ok; [apply Hs|done]).
  assert (log_ok (mr_log s1)) as Hlog1 by (eapply log_ok_accept; [apply Hs|reflexivity|exact Hkvs]).
  assert (∀ c fs, generate now (mr_coord s1) (mr_fs s1) = Ret (c, fs) →
    step (EvReport pid now) s = Ret {| mr_coord := c; mr_fs := fs; mr_busy := delete pid (mr_busy s); mr_log := mr_log s1 |}) as Hstep.
  { intros c fs E. cbn [mr_step]. rewrite Hb. destruct w as [t r todo data]. cbn in Hr, Ht. rewrite Hr, Ht.
    unfold UpdateTaskStatus. change (generate now (update_task now _ (mr_coord s)) (mr_fs s)) with (generate now (mr_coord s1) (mr_fs s1)).
    by rewrite E. }
  assert (∀ oI' pid' u, (∀ J, oI = Some J → oI' = oI) → delete pid (mr_busy s) !! pid' = Some u → worker_ok oI' u) as Hwork.
  { intros oI' pid' u Ho [_ Hu]%lookup_delete_Some.
    destruct (ji_work oI s Hs pid' u Hu) as [?|(J & p & E & Hp)]; [by left|]. right. exists J, p. by rewrite (Ho J E). }
  destruct oI as [J|].
  - exists s1, (Some J). split; [apply Hstep; unfold generateReduceTasksIfApplicable; cbn; by rewrite Hg1, (proj1 (ji_table _ s Hs))|].
    split_and!; try done. apply (job_inv_next (Some J) _ [] s); try done; [by intros p ?%elem_of_nil|intros pid' u; by apply Hwork|].
    cbn. rewrite Hg1. split; [apply (ji_table _ s Hs)|by apply Hlate].
  - destruct (ji_table _ s Hs) as (Hg & Hsh & Hout & _).
    destruct (generate_early s1 now Hok1 Hlog1 (ji_set _ s Hs) Hm1 HR1 (eq_trans Hg1 Hg) (eq_trans Hsh1 Hsh) Hout)
      as (c' & fs' & ps & Eg & Hm' & HR' & Hch & (ts & Hts & Hnew) & oI' & Htab).
    eexists _, oI'. split; [by apply Hstep|]. split; [|split; [done|by exists ts]].
    eapply (job_inv_next None oI' _ s); [done| |done|exact Hch| |intros pid' u; by apply Hwork|done|done].
    + eapply step_ok; [exact Hrange|apply Hs|by apply Hstep].
    + intros p (q & -> & _)%list_elem_of_fmap. apply written_dir; auto with mr.
Qed.

(** *** What the output files hold while workers write them *)

Definition on (p : Z) (w : worker) : Prop := t_Id (wk_task w) = part_name p.

(** The output of [p] is written: the file in the main directory is whole, a worker that is
    still copying has read it whole, and so is the copy, or such a worker is about to write it. *)
Definition finished (I : list KeyValue) (p : Z) (fs : FS) (busy : gmap nat worker) : Prop :=
  fs_files fs !! main_out p = Some (out_text I p) ∧
  (∀ pid w, busy !! pid = Some w → on p w → copying w = true → wk_data w = Some (out_text I p)) ∧
  (fs_files fs !! tmp_out p = Some (out_text I p) ∨
   ∃ pid w, busy !! pid = Some w ∧ on p w ∧ half_copied w = true).

(** Where a worker that executes the reduce task of [p] is, and, if the task is still its own,
    what the files hold: the lines it has written, and what it has read back. *)
Inductive red_state (I : list KeyValue) (p : Z) (own : Prop) (fs : FS) (busy : gmap nat worker) :
    list file_op → option string → Prop :=
  | rs_new d : red_state I p own fs busy (red_script p (out_lines I p)) d
  | rs_lines done todo d :
      out_lines I p = done ++ todo →
      (own → ∃ m, fs_files fs !! main_out p = Some m ∧
                  agree (length (la (concat_str done))) m (out_text I p) ∧ fits m (out_text I p)) →
      red_state I p own fs busy (line_ops (main_out p) (length (la (concat_str done))) todo ++ copy_ops p) d
  | rs_copy d :
      (own → fs_files fs !! main_out p = Some (out_text I p) ∧ d = Some (out_text I p)) →
      red_state I p own fs busy [OpDupCreate (tmp_out p); OpDupWrite (tmp_out p)] d
  | rs_half d :
      (own → fs_files fs !! main_out p = Some (out_text I p) ∧ d = Some (out_text I p)) →
      red_state I p own fs busy [OpDupWrite (tmp_out p)] d
  | rs_end d : (own → finished I p fs busy) → red_state I p own fs busy [] d.

Record good (I : list KeyValue) (s : mr_state) : Prop := {
  gd_sole pid pid' w w' : mr_busy s !! pid = Some w → mr_busy s !! pid' = Some w' →
    t_Id (wk_task w) = t_Id (wk_task w') → copying w = true → copying w' = true → pid = pid';
  gd_half pid w p : mr_busy s !! pid = Some w → on p w → half_copied w = true → is_Some (wk_data w) →
    fs_files (mr_fs s) !! tmp_out p = Some "";
  gd_done t p : t ∈ Tasks (mr_coord s) → t_Id t = part_name p → completed t → finished I p (mr_fs s) (mr_busy s);
  gd_work pid w p : mr_busy s !! pid = Some w → shape (wk_task w) = red_shape p → is_Some (wk_report w) →
    red_state I p (owns pid w s = true) (mr_fs s) (mr_busy s) (wk_todo w) (wk_data w)
}.

Lemma half_copying w : half_copied w = true → copying w = true.
Proof. unfold half_copied, copying. by repeat case_match. Qed.

Lemma line_ops_idle p off ls q w : wk_todo w = line_ops p off ls ++ copy_ops q → copying w = false ∧ half_copied w = false.
Proof. unfold copying, half_copied. intros ->. by destruct ls. Qed.

Lemma red_on p w : shape (wk_task w) = red_shape p → on p w.
Proof. by intros [= ? _ _ _]. Qed.

Lemma on_inj p q w : on p w → on q w → p = q.
Proof. unfold on. intros -> E. by apply part_name_inj in E. Qed.

Lemma map_work_on i f w p : map_work i f w → ¬ on p w.
Proof. intros (_ & [= Hid _ _ _] & _). unfold on. rewrite Hid. apply pretty_nat_ne_p. Qed.

Lemma map_work_idle i f w : map_work i f w → copying w = false ∧ half_copied w = false.
Proof.
  intros (_ & _ & Ho & _). unfold copying, half_copied.
  destruct (wk_todo w) as [|op ops]; [done|]. apply Forall_cons in Ho as [[Ho _] _]. by destruct op.
Qed.

Lemma copying_red oI w : worker_ok oI w → copying w = true → ∃ J p, oI = Some J ∧ red_work J p w.
Proof. intros [(i & f & Hm)|?] Hc; [|done]. by rewrite (proj1 (map_work_idle _ _ _ Hm)) in Hc. Qed.

(** Without a claim nothing is said of the files. *)
Lemma red_state_weaken I p own own' fs busy fs' busy' todo d :
  red_state I p own fs busy todo d → (own' → own) →
  (own' → ∀ m, fs_files fs !! main_out p = Some m → fits m (out_text I p) →
     ∃ m', fs_files fs' !! main_out p = Some m' ∧ fits m' (out_text I p) ∧
           ∀ n, agree n m (out_text I p) → agree n m' (out_text I p)) →
  (own' → finished I p fs busy → finished I p fs' busy') →
  red_state I p own' fs' busy' todo d.
Proof.
  intros Hr Ho Hm Hf.
  assert (own' → fs_files fs !! main_out p = Some (out_text I p) → fs_files fs' !! main_out p = Some (out_text I p)) as Hall.
  { intros Hown E. destruct (Hm Hown _ E) as (m' & E' & Hfit & Ha); [by unfold fits|]. rewrite E'. f_equal.
    by apply agree_all; [apply Ha|]. }
  destruct Hr as [d|done todo d El Hc|d Hc|d Hc|d Hc].
  - constructor.
  - apply rs_lines; [done|]. intros Hown. destruct (Hc (Ho Hown)) as (m & E & Ha & Hfit).
    destruct (Hm Hown m E Hfit) as (m' & E' & Hfit' & Ha'). exists m'. auto.
  - apply rs_copy. intros Hown. destruct (Hc (Ho Hown)) as [E ->]. auto.
  - apply rs_half. intros Hown. destruct (Hc (Ho Hown)) as [E ->]. auto.
  - apply rs_end. auto.
Qed.

(** The same files and more, the workers changed only in what does not matter. *)
Lemma red_state_same I p own own' fs busy fs' busy' todo d :
  red_state I p own fs busy todo d → (own' → own) → fs_files fs' !! main_out p = fs_files fs !! main_out p →
  (own' → finished I p fs busy → finished I p fs' busy') → red_state I p own' fs' busy' todo d.
Proof.
  intros Hr Ho E Hf. eapply red_state_weaken; [done|done| |done]. intros _ m Em Hfit. exists m. by rewrite E.
Qed.

(** Somebody who neither copies before nor after does not matter to a finished output. *)
Lemma finished_insert I p fs fs' busy pid w :
  finished I p fs busy → fs_files fs' !! main_out p = fs_files fs !! main_out p →
  fs_files fs' !! tmp_out p = fs_files fs !! tmp_out p →
  (on p w → copying w = false) → (∀ w0, busy !! pid = Some w0 → on p w0 → half_copied w0 = false) →
  finished I p fs' (<[pid := w]> busy).
Proof.
  intros (H1 & H2 & H3) E1 E2 Hw Hw0. split_and!; [congruence| |].
  - intros pid' w'. rewrite lookup_insert. case_decide; [|by apply H2]. intros [= <-] Hon Hc. by rewrite Hw in Hc.
  - rewrite E2. destruct H3 as [?|(pid' & w' & Hb & Hon & Hh)]; [by left|right]. exists pid', w'. split_and!; [|done..].
    rewrite lookup_insert. case_decide as E; [|done]. subst pid'. by rewrite (Hw0 w' Hb Hon) in Hh.
Qed.

Lemma finished_delete I p fs busy pid :
  finished I p fs busy → (∀ w0, busy !! pid = Some w0 → on p w0 → half_copied w0 = false) →
  finished I p fs (delete pid busy).
Proof.
  intros (H1 & H2 & H3) Hw0. split_and!; [done| |].
  - intros pid' w' [_ Hb]%lookup_delete_Some. exact (H2 pid' w' Hb).
  - destruct H3 as [?|(pid' & w' & Hb & Hon & Hh)]; [by left|right]. exists pid', w'. split_and!; [|done..].
    apply lookup_delete_Some. split; [|done]. intros ->. by rewrite (Hw0 w' Hb Hon) in Hh.
Qed.

(** *** Whose a task is *)

Lemma owner_sole s pid pid' w w' :
  mr_ok s → owns pid w s = true → owns pid' w' s = true → t_Id (wk_task w) = t_Id (wk_task w') → pid = pid'.
Proof.
  intros Hok (t & Ht & Hid & Ha)%owns_spec (t' & Ht' & Hid' & Ha')%owns_spec E.
  assert (t = t') as -> by (apply (same_id (Tasks (mr_coord s))); [apply Hok|done|done|congruence]). lia.
Qed.

Lemma owner_open s pid w t :
  mr_ok s → mr_busy s !! pid = Some w → owns pid w s = true → t ∈ Tasks (mr_coord s) → t_Id t = t_Id (wk_task w) → ¬ completed t.
Proof.
  intros Hok Hb (t' & Ht' & Hid' & Ha')%owns_spec Ht Hid Hc.
  assert (t = t') as -> by (apply (same_id (Tasks (mr_coord s))); [apply Hok|done|done|congruence]).
  by apply (proj1 (proj2 (mo_busy s Hok pid w Hb)) t').
Qed.

(** *** The steps that leave the files alone *)

(** The table changes: nobody gains a task that runs, and what gets completed is finished. *)
Lemma good_table I s c :
  good I s →
  (∀ pid w, mr_busy s !! pid = Some w → owns pid w (s <| mr_coord := c |>) = true → owns pid w s = true) →
  (∀ t p, t ∈ Tasks c → t_Id t = part_name p → completed t →
     (∃ t', t' ∈ Tasks (mr_coord s) ∧ t_Id t' = part_name p ∧ completed t') ∨ finished I p (mr_fs s) (mr_busy s)) →
  good I (s <| mr_coord := c |>).
Proof.
  intros [H1 H2 H3 H4] Ho Hc. split; cbn.
  - exact H1.
  - exact H2.
  - intros t p Ht Hid Hcc. destruct (Hc t p Ht Hid Hcc) as [(t' & ? & ? & ?)|?]; [by eapply H3|done].
  - intros pid w p Hb Hsh Hr. eapply red_state_same; [by eapply H4|by apply Ho|done|done].
Qed.

(** A worker that does not copy starts, or goes on. *)
Lemma good_insert I s pid w :
  good I s → copying w = false → (∀ w0, mr_busy s !! pid = Some w0 → half_copied w0 = false) →
  (∀ p, shape (wk_task w) = red_shape p → is_Some (wk_report w) →
     ∀ own fs busy, red_state I p own fs busy (wk_todo w) (wk_data w)) →
  good I (s <| mr_busy := <[pid := w]> (mr_busy s) |>).
Proof.
  intros [H1 H2 H3 H4] Hw Hw0 Hnew.
  assert (half_copied w = false) as Hh.
  { destruct (half_copied w) eqn:E; [|done]. apply half_copying in E. congruence. }
  assert (∀ p, finished I p (mr_fs s) (mr_busy s) → finished I p (mr_fs s) (<[pid := w]> (mr_busy s))) as Hf.
  { intros p Hf. apply (finished_insert I p (mr_fs s)); auto. }
  split; cbn.
  - intros p p' u u'. rewrite !lookup_insert. case_decide; case_decide; [congruence|intros [= <-] _ _ E; congruence| |apply H1].
    intros _ [= <-] _ _ E. congruence.
  - intros p' u q. rewrite lookup_insert. case_decide; [|by apply H2]. intros [= <-] _ E. congruence.
  - intros t p Ht Hid Hc. eapply Hf, H3; eauto.
  - intros pid' u p. rewrite lookup_insert. case_decide as E; [intros [= <-] Hsh Hr; by apply Hnew|].
    intros Hb Hsh Hr. eapply red_state_same; [by eapply H4|done|done|]. intros _. apply Hf.
Qed.

(** A worker is gone. *)
Lemma good_delete I s pid :
  good I s → mr_ok s →
  (∀ w, mr_busy s !! pid = Some w → half_copied w = false ∨ owns pid w s = true) →
  good I (s <| mr_busy := delete pid (mr_busy s) |>).
Proof.
  intros [H1 H2 H3 H4] Hok Hw. split; cbn.
  - intros p p' u u' [_ Hu]%lookup_delete_Some [_ Hu']%lookup_delete_Some. exact (H1 _ _ _ _ Hu Hu').
  - intros p' u q [_ Hu]%lookup_delete_Some. exact (H2 _ _ _ Hu).
  - intros t p Ht Hid Hc. apply finished_delete; [eapply H3; eauto|]. intros w0 Hb Hon.
    destruct (Hw w0 Hb) as [?|Ho]; [done|]. by destruct (owner_open s pid w0 t Hok Hb Ho Ht ltac:(rewrite Hid; by symmetry)).
  - intros pid' u p [Hne Hb]%lookup_delete_Some Hsh Hr. eapply red_state_same; [by eapply H4|done|done|].
    intros Ho Hf. apply finished_delete; [done|]. intros w0 Hb0 Hon.
    destruct (Hw w0 Hb0) as [?|Ho0]; [done|]. destruct Hne. eapply (owner_sole s); [done|exact Ho0|exact Ho|].
    rewrite Hon. symmetry. by apply red_on.
Qed.

(** Files change that are no outputs. *)
Lemma good_files I s fs :
  good I s → (∀ p, fs_files fs !! main_out p = fs_files (mr_fs s) !! main_out p) →
  (∀ p, fs_files fs !! tmp_out p = fs_files (mr_fs s) !! tmp_out p) → good I (s <| mr_fs := fs |>).
Proof.
  intros [H1 H2 H3 H4] Hm Ht.
  assert (∀ p, finished I p (mr_fs s) (mr_busy s) → finished I p fs (mr_busy s)) as Hf.
  { intros p (F1 & F2 & F3). split_and!; rewrite ?Hm, ?Ht; done. }
  split; cbn.
  - exact H1.
  - intros pid w p Hb Hon Hh Hd. rewrite Ht. by eapply H2.
  - intros t p Hin Hid Hc. eapply Hf, H3; eauto.
  - intros pid w p Hb Hsh Hr. eapply red_state_same; [by eapply H4|done|apply Hm|]. intros _. apply Hf.
Qed.

(** Before the reduce tasks run. *)
Lemma good_fresh I s :
  (∀ pid w, mr_busy s !! pid = Some w → ∃ i f, map_work i f w) →
  (∀ t p, t ∈ Tasks (mr_coord s) → t_Id t = part_name p → ¬ completed t) → good I s.
Proof.
  intros Hw Hc. split.
  - intros pid pid' w w' Hb _ _ E. destruct (Hw pid w Hb) as (i & f & Hm). by rewrite (proj1 (map_work_idle _ _ _ Hm)) in E.
  - intros pid w p Hb Hon. destruct (Hw pid w Hb) as (i & f & Hm). by destruct (map_work_on i f w p Hm).
  - intros t p Ht Hid Hcc. by destruct (Hc t p Ht Hid).
  - intros pid w p Hb Hsh. destruct (Hw pid w Hb) as (i & f & Hm). by destruct (map_work_on i f w p Hm (red_on p w Hsh)).
Qed.

(** *** One operation of a reduce worker *)

Lemma main_there fs p : setting fs → path_Dir (main_out p) ∈ fs_dirs fs ∧ main_out p ∉ fs_dirs fs.
Proof. intros Hs. rewrite path_Dir_Join by auto with mr. split; [apply Hs|apply (st_free fs Hs); auto with mr]. Qed.
Lemma tmp_there fs p : setting fs → path_Dir (tmp_out p) ∈ fs_dirs fs ∧ tmp_out p ∉ fs_dirs fs.
Proof. intros Hs. rewrite path_Dir_Join by auto with mr. split; [apply Hs|apply (st_free fs Hs); auto with mr]. Qed.

(** The file in the main directory, after an operation of somebody who need not have the task. *)
Definition keeps (I : list KeyValue) (p : Z) (fs fs' : FS) : Prop :=
  ∀ m, fs_files fs !! main_out p = Some m → fits m (out_text I p) →
    ∃ m', fs_files fs' !! main_out p = Some m' ∧ fits m' (out_text I p) ∧
          ∀ n, agree n m (out_text I p) → agree n m' (out_text I p).

Lemma keeps_same I p fs fs' : fs_files fs' !! main_out p = fs_files fs !! main_out p → keeps I p fs fs'.
Proof. intros E m Hm Hf. exists m. by rewrite E. Qed.

Lemma good_next I s pid w w' p fs' :
  good I s → mr_ok s → mr_busy s !! pid = Some w → wk_task w' = wk_task w → wk_report w' = wk_report w → on p w →
  (∀ q, q ≠ p → fs_files fs' !! main_out q = fs_files (mr_fs s) !! main_out q ∧
                fs_files fs' !! tmp_out q = fs_files (mr_fs s) !! tmp_out q) →
  (owns pid w s = false →
     keeps I p (mr_fs s) fs' ∧ (finished I p (mr_fs s) (mr_busy s) → finished I p fs' (<[pid := w']> (mr_busy s)))) →
  (copying w' = true → copying w = true ∨ sole_copier pid w s = true) →
  (half_copied w' = true → is_Some (wk_data w') → fs_files fs' !! tmp_out p = Some "") →
  (fs_files fs' !! tmp_out p = fs_files (mr_fs s) !! tmp_out p ∨ copying w = true) →
  (shape (wk_task w) = red_shape p → is_Some (wk_report w) →
     red_state I p (owns pid w s = true) fs' (<[pid := w']> (mr_busy s)) (wk_todo w') (wk_data w')) →
  good I (s <| mr_fs := fs' |> <| mr_busy := <[pid := w']> (mr_busy s) |>).
Proof.
  intros [H1 H2 H3 H4] Hok Hb Et Er Hon Hq Hn Hc Hh Htmp Hself.
  assert (∀ q, on q w' → q = p) as Hon'
    by (intros q Ho; apply (on_inj q p w); [unfold on in *; congruence|done]).
  assert (∀ q, q ≠ p → finished I q (mr_fs s) (mr_busy s) → finished I q fs' (<[pid := w']> (mr_busy s))) as Hfq.
  { intros q Hne Hf. destruct (Hq q Hne) as [E1 E2]. apply (finished_insert I q (mr_fs s)); [done..| |].
    - intros ->%Hon'. done.
    - intros w0 Hb0 Hon0. destruct Hne. by simplify_eq; eapply on_inj. }
  assert (∀ pid2 w2, mr_busy s !! pid2 = Some w2 → pid2 ≠ pid → on p w2 → copying w2 = true → copying w = true → False) as Hsole.
  { intros pid2 w2 Hb2 Hne Hon2 Hc2 Hcw. apply Hne. eapply (H1 pid2 pid); [exact Hb2|exact Hb| |done|done].
    unfold on in *. congruence. }
  split; cbn.
  - assert (∀ pid2 w2, mr_busy s !! pid2 = Some w2 → pid2 ≠ pid → t_Id (wk_task w2) = t_Id (wk_task w) →
      copying w2 = true → copying w' = true → False) as Hx.
    { intros pid2 w2 Hb2 Hne Hid Hc2 [Hcw|Hsp]%Hc.
      - eapply Hsole; [done|done| |done|done]. unfold on in *. congruence.
      - by rewrite (proj1 (sole_copier_spec _ _ _) Hsp pid2 w2 Hb2 Hne Hid) in Hc2. }
    intros p1 p2 u1 u2. rewrite !lookup_insert. case_decide as E1; case_decide as E2; [congruence|..|apply H1].
    + intros [= <-] Hb2 Hid C1 C2. exfalso. apply (Hx p2 u2); try done; congruence.
    + intros Hb2 [= <-] Hid C1 C2. exfalso. apply (Hx p1 u1); try done; congruence.
  - intros p2 u2 q. rewrite lookup_insert. case_decide as E.
    + intros [= <-] ->%Hon'. by apply Hh.
    + intros Hb2 Hon2 Hhalf Hd. destruct (decide (q = p)) as [->|Hne].
      * destruct Htmp as [-> |Hcw]; [by eapply H2|]. exfalso. eapply (Hsole p2 u2); try done. by apply half_copying.
      * rewrite (proj2 (Hq q Hne)). by eapply H2.
  - intros t q Ht Hid Hcc. pose proof (H3 t q Ht Hid Hcc) as Hf. destruct (decide (q = p)) as [->|Hne]; [|by apply Hfq].
    apply Hn; [|done]. destruct (owns pid w s) eqn:Ho; [|done].
    by destruct (owner_open s pid w t Hok Hb Ho Ht ltac:(rewrite Hid; by symmetry)).
  - intros p2 u2 q. rewrite lookup_insert. case_decide as E.
    + intros [= <-] Hsh Hr. assert (q = p) as -> by (apply Hon'; by apply red_on).
      subst p2. change (red_state I p (owns pid w' s = true) fs' (<[pid:=w']> (mr_busy s)) (wk_todo w') (wk_data w')).
      rewrite Et, Er in *. eapply red_state_same; [by apply Hself| |done|done]. unfold owns. by rewrite Et.
    + intros Hb2 Hsh Hr. pose proof (H4 p2 u2 q Hb2 Hsh Hr) as Hs.
      change (red_state I q (owns p2 u2 s = true) fs' (<[pid:=w']> (mr_busy s)) (wk_todo u2) (wk_data u2)).
      destruct (decide (q = p)) as [->|Hne].
      * assert (owns p2 u2 s = true → owns pid w s = false) as Hno.
        { intros Ho. destruct (owns pid w s) eqn:Ho2; [|done]. destruct E. eapply owner_sole; [done..|].
          rewrite Hon. symmetry. by apply red_on. }
        eapply red_state_weaken; [exact Hs|done| |]; intros Ho; by apply Hn, Hno.
      * eapply red_state_same; [exact Hs|done|by apply Hq|]. intros _. by apply Hfq.
Qed.

Section red_op.
Context (I : list KeyValue) (s : mr_state) (pid : nat) (w : worker) (p : Z).
Context (Hset : setting (mr_fs s)) (Hok : mr_ok s) (Hg : good I s) (Hb : mr_busy s !! pid = Some w) (Hon : on p w).

(** What the worker still has to do and what it has read back change, and the files. *)
Definition after (fs : FS) (ops : list file_op) (d : option string) : mr_state :=
  s <| mr_fs := fs |> <| mr_busy := <[pid := w <| wk_todo := ops |> <| wk_data := d |>]> (mr_busy s) |>.

Lemma apart r fs : changes [r] (mr_fs s) fs → r = main_out p ∨ r = tmp_out p →
  ∀ q, q ≠ p → fs_files fs !! main_out q = fs_files (mr_fs s) !! main_out q ∧
               fs_files fs !! tmp_out q = fs_files (mr_fs s) !! tmp_out q.
Proof.
  intros [_ Hc] Hr q Hq. pose proof (tmp_ne_main (mr_fs s)) as Hne.
  split; apply Hc; intros E%list_elem_of_singleton; destruct Hr as [-> | ->].
  - by apply main_out_inj in E.
  - symmetry in E. by apply Hne in E.
  - by apply Hne in E.
  - by apply tmp_out_inj in E.
Qed.

Lemma main_apart fs : changes [main_out p] (mr_fs s) fs → fs_files fs !! tmp_out p = fs_files (mr_fs s) !! tmp_out p.
Proof. intros [_ Hc]. apply Hc. intros E%list_elem_of_singleton. by apply (tmp_ne_main (mr_fs s)) in E. Qed.

Lemma tmp_apart fs : changes [tmp_out p] (mr_fs s) fs → fs_files fs !! main_out p = fs_files (mr_fs s) !! main_out p.
Proof. intros [_ Hc]. apply Hc. intros E%list_elem_of_singleton. symmetry in E. by apply (tmp_ne_main (mr_fs s)) in E. Qed.

Lemma op_create :
  owns pid w s = true →
  good I (after (do_op (OpCreate (main_out p)) (wk_data w) (mr_fs s)).1
            (line_ops (main_out p) 0 (out_lines I p) ++ copy_ops p) (wk_data w)).
Proof.
  intros Ho. pose proof (do_op_changes (OpCreate (main_out p)) (wk_data w) (mr_fs s)) as Hch. cbn in *.
  pose proof (line_ops_idle (main_out p) 0 (out_lines I p) p (w <| wk_todo := _ |> <| wk_data := wk_data w |>) eq_refl) as [Hi1 Hi2].
  apply (good_next I s pid w _ p); try done; [by eapply apart; [|left]|congruence|..].
  - intros Hc. by destruct (eq_true_false_abs _ Hc Hi1).
  - intros Hc. by destruct (eq_true_false_abs _ Hc Hi2).
  - left. by apply main_apart.
  - intros _ _. apply (rs_lines I p _ _ _ []); [done|]. intros _. exists "". destruct (main_there (mr_fs s) p Hset).
    split; [by apply fs_write_there|]. split; [apply agree_0|unfold fits; cbn; lia].
Qed.

Lemma op_write done l todo :
  out_lines I p = done ++ l :: todo → wk_todo w = line_ops (main_out p) (length (la (concat_str done))) (l :: todo) ++ copy_ops p →
  (owns pid w s = true → ∃ m, fs_files (mr_fs s) !! main_out p = Some m ∧
     agree (length (la (concat_str done))) m (out_text I p) ∧ fits m (out_text I p)) →
  good I (after (do_op (OpWrite (main_out p) (length (la (concat_str done))) l) (wk_data w) (mr_fs s)).1
            (line_ops (main_out p) (length (la (concat_str done)) + String.length l) todo ++ copy_ops p) (wk_data w)).
Proof.
  intros El Et Hclaim. set (off := length (la (concat_str done))) in *.
  pose proof (do_op_changes (OpWrite (main_out p) off l) (wk_data w) (mr_fs s)) as Hch. cbn in *.
  pose proof (line_ops_idle (main_out p) (off + String.length l) todo p (w <| wk_todo := _ |> <| wk_data := wk_data w |>) eq_refl) as [Hi1 Hi2].
  assert (out_text I p = concat_str (done ++ [l] ++ todo)) as Etx by (unfold out_text; by rewrite El).
  assert (concat_str [l] = l) as El1 by apply append_nil_r.
  assert (∀ m, fs_files (mr_fs s) !! main_out p = Some m →
    fs_files (fs_write_at (main_out p) off l (mr_fs s)) !! main_out p = Some (write_at off l m)) as Hw.
  { intros m Em. destruct (main_there (mr_fs s) p Hset). rewrite fs_write_at_there by done. by rewrite Em. }
  assert (keeps I p (mr_fs s) (fs_write_at (main_out p) off l (mr_fs s))) as Hk.
  { intros m Em Hf. exists (write_at off l m). split; [by apply Hw|]. rewrite Etx in *. split.
    - pose proof (write_at_fits done [l] todo m Hf) as Hx. by rewrite El1 in Hx.
    - intros n Ha. pose proof (write_at_agree done [l] todo n m Ha) as Hx. by rewrite El1 in Hx. }
  apply (good_next I s pid w _ p); try done; [by eapply apart; [|left]|..].
  - intros _. split; [exact Hk|]. intros Hf.
    apply (finished_insert I p (mr_fs s)); [exact Hf| |by apply main_apart|intros _; exact Hi1|].
    + destruct Hf as [F _]. destruct (Hk _ F) as (m' & E' & Hf' & Ha'); [by unfold fits|]. rewrite E', F. f_equal.
      apply agree_all; [by apply Ha'|done].
    + intros w0 Hw0 _. simplify_eq. unfold half_copied. by rewrite Et.
  - intros Hc. by destruct (eq_true_false_abs _ Hc Hi1).
  - intros Hc. by destruct (eq_true_false_abs _ Hc Hi2).
  - left. by apply main_apart.
  - intros _ _. cbn. assert (off + String.length l = length (la (concat_str (done ++ [l]))))%nat as ->.
    { by rewrite la_concat_app, length_app, El1, (la_length l). }
    apply rs_lines; [by rewrite <- app_assoc|]. intros Ho. destruct (Hclaim Ho) as (m & Em & Ha & Hf).
    exists (write_at off l m). split; [by apply Hw|]. rewrite Etx in *. split.
    + rewrite la_concat_app, length_app. pose proof (write_at_more done [l] todo m Ha) as Hm. by rewrite El1 in *.
    + pose proof (write_at_fits done [l] todo m Hf) as Hx. by rewrite El1 in Hx.
Qed.

Lemma op_read_back d :
  wk_todo w = copy_ops p → sole_copier pid w s = true →
  (owns pid w s = true → fs_files (mr_fs s) !! main_out p = Some (out_text I p)) →
  d = fs_files (mr_fs s) !! main_out p →
  good I (after (mr_fs s) [OpDupCreate (tmp_out p); OpDupWrite (tmp_out p)] d).
Proof.
  intros Et Hs Hclaim ->.
  apply (good_next I s pid w _ p); try done; [|by right|by left|].
  - intros _. split; [by apply keeps_same|]. intros (F1 & F2 & F3). split_and!; [done| |].
    + intros pid' w'. rewrite lookup_insert. case_decide; [|by apply F2]. intros [= <-] _ _. done.
    + destruct F3 as [?|(pid' & w' & Hb' & Hon' & Hh')]; [by left|right]. exists pid', w'. split_and!; [|done..].
      rewrite lookup_insert. case_decide; [|done]. exfalso. subst pid'. rewrite Hb in Hb'. injection Hb' as <-.
      unfold half_copied in Hh'. by rewrite Et in Hh'.
  - intros _ _. apply rs_copy. auto.
Qed.

Lemma op_dup_create :
  wk_todo w = [OpDupCreate (tmp_out p); OpDupWrite (tmp_out p)] →
  (owns pid w s = true → fs_files (mr_fs s) !! main_out p = Some (out_text I p) ∧ wk_data w = Some (out_text I p)) →
  good I (after (do_op (OpDupCreate (tmp_out p)) (wk_data w) (mr_fs s)).1 [OpDupWrite (tmp_out p)] (wk_data w)).
Proof.
  intros Et Hclaim. pose proof (do_op_changes (OpDupCreate (tmp_out p)) (wk_data w) (mr_fs s)) as Hch. cbn in *.
  assert (copying w = true) as Hcw by (unfold copying; by rewrite Et).
  apply (good_next I s pid w _ p); try done; [by eapply apart; [|right]|..|by right|].
  - intros _. split; [by apply keeps_same, tmp_apart|]. intros (F1 & F2 & F3). split_and!; [by rewrite tmp_apart| |].
    + intros pid' w'. rewrite lookup_insert. case_decide; [|by apply F2]. intros [= <-] _ _. exact (F2 pid w Hb Hon Hcw).
    + right. exists pid. eexists. split; [apply lookup_insert_eq|done].
  - by left.
  - intros _ [d Hd]. cbn in Hd. rewrite Hd. destruct (tmp_there (mr_fs s) p Hset). by apply fs_write_there.
  - intros _ _. apply rs_half. intros Ho. rewrite tmp_apart by done. by apply Hclaim.
Qed.

Lemma op_dup_write :
  wk_todo w = [OpDupWrite (tmp_out p)] →
  (owns pid w s = true → fs_files (mr_fs s) !! main_out p = Some (out_text I p) ∧ wk_data w = Some (out_text I p)) →
  good I (after (do_op (OpDupWrite (tmp_out p)) (wk_data w) (mr_fs s)).1 [] (wk_data w)).
Proof.
  intros Et Hclaim. pose proof (do_op_changes (OpDupWrite (tmp_out p)) (wk_data w) (mr_fs s)) as Hch. cbn in *.
  assert (half_copied w = true) as Hhw by (unfold half_copied; by rewrite Et).
  assert (fs_files (mr_fs s) !! main_out p = Some (out_text I p) → wk_data w = Some (out_text I p) →
    finished I p (match wk_data w with Some d => fs_write_at (tmp_out p) 0 d (mr_fs s) | None => mr_fs s end)
      (<[pid:=w <| wk_todo := [] |> <| wk_data := wk_data w |>]> (mr_busy s))) as Hfin.
  { intros Em Ed. split_and!; [by rewrite tmp_apart| |left].
    - intros pid' w'. rewrite lookup_insert. case_decide as E; [by intros [= <-]|]. intros Hb' Hon' Hc'. destruct E.
      eapply (gd_sole I s Hg pid pid'); [exact Hb|exact Hb'| |by apply half_copying|done]. unfold on in *. congruence.
    - rewrite Ed. destruct (tmp_there (mr_fs s) p Hset). rewrite fs_write_at_there by done.
      rewrite (gd_half I s Hg pid w p Hb Hon Hhw) by by rewrite Ed. cbn. by rewrite write_at_start. }
  apply (good_next I s pid w _ p); try done; [by eapply apart; [|right]|..].
  - intros _. split; [by apply keeps_same, tmp_apart|]. intros (F1 & F2 & _). apply Hfin; [done|].
    eapply F2; [exact Hb|done|by apply half_copying].
  - right. by apply half_copying.
  - intros _ _. apply rs_end. intros Ho. by apply Hfin; apply Hclaim.
Qed.

(** Whatever operation it is. *)
Lemma red_op op ops fs d :
  shape (wk_task w) = red_shape p → is_Some (wk_report w) → careful (EvWork pid) s = true →
  wk_todo w = op :: ops → do_op op (wk_data w) (mr_fs s) = (fs, d) → good I (after fs ops d).
Proof.
  intros Hsh Hr Hc Et Ed. pose proof (gd_work I s Hg pid w p Hb Hsh Hr) as Hst.
  cbn [careful] in Hc. rewrite Hb in Hc. injection Hsh as _ Hty _ _. rewrite Hty in Hc. cbn in Hc.
  inversion Hst as [d0 E|done todo d0 El Hclaim E|d0 Hclaim E|d0 Hclaim E|d0 Hclaim E]; rewrite Et in E.
  - injection E as <- <-. rewrite Et in Hc. injection Ed as <- <-. by apply op_create.
  - destruct todo as [|l todo].
    + injection E as <- <-. rewrite Et in Hc. injection Ed as <- <-. apply op_read_back; [done|done| |done].
      intros Ho. destruct (Hclaim Ho) as (m & Em & Ha & Hf). rewrite Em. f_equal. apply agree_all; [|done].
      unfold out_text in *. by rewrite El, app_nil_r in *.
    + injection E as <- <-. injection Ed as <- <-. apply (op_write done l todo); [done|done|done].
  - injection E as <- <-. injection Ed as <- <-. by apply op_dup_create.
  - injection E as <- <-. injection Ed as <- <-. by apply op_dup_write.
  - discriminate E.
Qed.
End red_op.

(** *** Runs *)

(** The workers were started in [tmp]. *)
Definition in_tmp (e : mr_event) : Prop :=
  match e with EvBegin _ workerInitDir => workerInitDir = tmp | _ => True end.

Lemma job_begin oI s pid t todo data :
  job_inv oI s → mr_busy s !! pid = Some {| wk_task := t; wk_report := None; wk_todo := todo; wk_data := data |} →
  ∃ w, step (EvBegin pid tmp) s = Ret (s <| mr_busy := <[pid := w]> (mr_busy s) |>) ∧
    wk_task w = t ∧ is_Some (wk_report w) ∧ worker_ok oI w ∧ copying w = false ∧
    ∀ J p, oI = Some J → shape t = red_shape p → wk_todo w = red_script p (out_lines J p).
Proof.
  intros Hs Hb. pose proof (ji_work oI s Hs pid _ Hb) as Hw. pose proof (ji_set oI s Hs) as Hset.
  cbn [mr_step]. rewrite Hb. destruct Hw as [(i & f & Hf & Hsh & _)|(J & p & -> & Hp & Hsh & _)]; cbn [wk_task] in Hsh.
  - destruct (begin_map (mr_fs s) t i f Hset ltac:(by eapply list_elem_of_lookup_2) Hsh) as (ops & -> & Hops).
    rewrite bind_ret_l. eexists. split; [reflexivity|]. split; [done|]. split; [by eexists|].
    assert (map_work i f {| wk_task := t; wk_report := Some (done_args t (kvs_of f)); wk_todo := ops; wk_data := None |})
      as Hm by by split_and!.
    split; [left; by exists i, f|]. split; [by eapply map_work_idle|]. intros J p _ Hred.
    rewrite Hsh in Hred. injection Hred. discriminate.
  - pose proof (proj2 (ji_table _ s Hs)) as HJ.
    rewrite (begin_red (mr_fs s) t p (group_at (parts J) p) Hset (lt_parts _ _ _ HJ p Hp) (part_nonempty J p Hp)
      (part_clean J p (lt_clean _ _ _ HJ)) Hsh). rewrite bind_ret_l.
    eexists. split; [reflexivity|]. split; [done|]. split; [by eexists|]. split; [|split; [done|]].
    + right. exists J, p. split; [done|]. split; [done|]. split; [done|]. split; [|done]. cbn. constructor; [left|]. apply Forall_app. split.
      * apply Forall_forall. intros op ->%line_ops_path. left.
      * repeat constructor; set_solver.
    + intros J' q [= <-] Hred. rewrite Hsh in Hred. apply (f_equal (λ x, x.1.1.1)) in Hred.
      by apply part_name_inj in Hred as ->.
Qed.

Lemma Done_loop_assigned now ts :
  Forall2 (λ t t', t_Id t' = t_Id t ∧ (t_AssignedWorkerId t' = t_AssignedWorkerId t ∨ t_AssignedWorkerId t' = -1))
    ts (Done_loop now ts).1.
Proof.
  assert (∀ l : list Task, Forall2 (λ t t', t_Id t' = t_Id t ∧
    (t_AssignedWorkerId t' = t_AssignedWorkerId t ∨ t_AssignedWorkerId t' = -1)) l l) as Hrefl.
  { intros l. apply Forall_Forall2_diag, Forall_true. by auto. }
  assert (∀ t, t_Id (setNotStartedIfApplicable now (setSkippedIfApplicable now t)) = t_Id t ∧
    (t_AssignedWorkerId (setNotStartedIfApplicable now (setSkippedIfApplicable now t)) = t_AssignedWorkerId t ∨
     t_AssignedWorkerId (setNotStartedIfApplicable now (setSkippedIfApplicable now t)) = -1)) as Ht.
  { intros t. unfold setNotStartedIfApplicable, setSkippedIfApplicable. repeat case_decide; cbn; auto. }
  induction ts as [|t ts IH]; cbn [Done_loop]; [constructor|]. destruct (over _); [|by constructor].
  destruct (Done_loop now ts). by constructor.
Qed.

(** A worker that has not read its input has nothing to do yet. *)
Lemma idle_worker oI s pid w :
  job_inv oI s → mr_busy s !! pid = Some w → wk_report w = None → wk_todo w = [].
Proof.
  intros Hs Hb Hr. destruct (ji_work oI s Hs pid w Hb) as [(i & f & _ & _ & _ & H)|(J & p & _ & _ & _ & _ & H)];
    by rewrite Hr in H.
Qed.

Lemma job_work oI s pid w op ops fs d :
  job_inv oI s → mr_busy s !! pid = Some w → wk_todo w = op :: ops → do_op op (wk_data w) (mr_fs s) = (fs, d) →
  job_inv oI (after s pid w fs ops d).
Proof.
  intros Hs Hb Et Ed. pose proof (ji_work oI s Hs pid w Hb) as Hw.
  destruct (worker_op oI w op ops (wk_data w) (mr_fs s) (ji_set _ s Hs) Hw Et) as (ps & Hch & Hwr & Hp & Hq).
  rewrite Ed in Hch. cbn in Hch. eapply (job_inv_next oI oI ps s); [done| |apply Hs|done|done| |apply Hs|].
  - pose proof (mr_ok_work (s <| mr_fs := fs |>) pid w (w <| wk_todo := ops |> <| wk_data := d |>)
      (mr_ok_files s fs (ji_ok _ s Hs))) as Hx. apply Hx; [done|done|]. cbn.
    apply (mo_busy s (ji_ok _ s Hs) pid w Hb).
  - unfold after. cbn. intros pid' u. rewrite lookup_insert. case_decide; [|apply Hs]. intros [= <-].
    eapply worker_ok_next; [exact Hw|done|done|]. exists [op]. exact Et.
  - eapply table_changes; [apply Hs|exact Hch|done|done].
Qed.

(** What may be said of the output files, before and after the reduce tasks are made. *)
Definition good_opt (oI : option (list KeyValue)) (s : mr_state) : Prop := ∀ J, oI = Some J → good J s.

Lemma job_request oI s pid now :
  job_inv oI s → mr_busy s !! pid = None →
  ∃ s', step (EvRequest pid now) s = Ret s' ∧ job_inv oI s' ∧ (good_opt oI s → good_opt oI s').
Proof.
  intros Hs Hb.
  assert (∀ s', step (EvRequest pid now) s = Ret s' → mr_ok s') as Hok
    by (intros s' E; eapply step_ok; [exact Hrange|apply Hs|exact E]).
  cbn [mr_step] in *. rewrite Hb in *.
  pose proof (calm_request now {| ra_WorkerId := Z.of_nat pid |} (mr_coord s)) as Hc. revert Hok Hc.
  unfold RequestTask. destruct (list_find requestable (Tasks (mr_coord s))) as [[i t]|] eqn:E; intros Hok Hc.
  2: { exists s. split; [|done]. by destruct s. }
  apply list_find_Some in E as (Hi & [_ Has] & _). cbn [fst rr_Task] in *.
  set (t1 := t <| t_Status := "in progress" |> <| t_AssignedWorkerId := _ |> <| t_LastUpdated := now |>) in *.
  set (c := (mr_coord s) <| Tasks := <[i := t1]> (Tasks (mr_coord s)) |>) in *.
  assert (shape t1 ∈ shape <$> Tasks (mr_coord s)) as Hin.
  { apply list_elem_of_fmap. exists t. split; [done|by eapply list_elem_of_lookup_2]. }
  pose proof (worker_ok_new _ _ _ _ t1 (ji_table _ s Hs) Hin) as Hnew.
  assert (good_opt oI s → good_opt oI (s <| mr_coord := c |>)) as Hgc.
  { intros Hg J EJ. apply good_table; [by apply Hg| |].
    - intros pid' w' Hb' (u & Hu & Hid & Ha)%owns_spec. apply owns_spec. cbn in Hu.
      apply list_elem_of_lookup in Hu as [j Hj]. apply list_lookup_insert_Some in Hj as [(-> & <- & _)|[_ Hj]].
      + cbn in Ha. apply Nat2Z.inj in Ha as ->. congruence.
      + exists u. split; [by eapply list_elem_of_lookup_2|done].
    - intros u p Hu Hid Hcc. left. destruct (Forall2_elem_r _ _ _ _ Hc Hu) as (u0 & Hu0 & [= Hid0 _ _ _] & _ & Hcu).
      exists u0. split_and!; [done|congruence|auto]. }
  case_decide; (eexists; split; [done|]).
  - split; [|done]. apply (job_inv_calm oI s _ _ Hs); try done; [by apply Hok|apply Hs].
  - split.
    + apply (job_inv_calm oI s _ _ Hs); try done; [by apply Hok|]. cbn. intros pid' u. rewrite lookup_insert.
      case_decide; [by intros [= <-]|apply Hs].
    + intros Hg J EJ. apply (good_insert J (s <| mr_coord := c |>)); [by apply Hgc|done| |].
      * cbn. rewrite Hb. done.
      * intros p _ [? Hx]. done.
Qed.

Lemma job_Done oI s now :
  job_inv oI s → ∃ s', step (EvDone now) s = Ret s' ∧ job_inv oI s' ∧ (good_opt oI s → good_opt oI s').
Proof.
  intros Hs. eexists. split; [done|]. pose proof (calm_Done now (mr_coord s)) as Hc. split.
  - apply (job_inv_calm oI s _ _ Hs); try done; [|unfold Done; by destruct (Done_loop _ _)..|apply Hs].
    by apply (step_ok mapf reducef sort_Sort range_order Hrange (EvDone now) s _ (ji_ok _ s Hs)).
  - intros Hg J EJ. apply good_table; [by apply Hg| |].
    + intros pid w Hb (t & Ht & Hid & Ha)%owns_spec. apply owns_spec. cbn in Ht.
      assert (Forall2 (λ t t', t_Id t' = t_Id t ∧ (t_AssignedWorkerId t' = t_AssignedWorkerId t ∨ t_AssignedWorkerId t' = -1))
        (Tasks (mr_coord s)) (Tasks (Done now (mr_coord s)).1)) as Hd.
      { unfold Done. pose proof (Done_loop_assigned now (Tasks (mr_coord s))). by destruct (Done_loop _ _). }
      destruct (Forall2_elem_r _ _ _ _ Hd Ht) as (t0 & Ht0 & Hid0 & [Ha0|Ha0]); [|lia].
      exists t0. split_and!; [done|congruence|congruence].
    + intros t p Ht Hid Hcc. left. destruct (Forall2_elem_r _ _ _ _ Hc Ht) as (t0 & Ht0 & [= Hid0 _ _ _] & _ & Hct).
      exists t0. split_and!; [done|congruence|auto].
Qed.

(** A worker is gone without a report. *)
Lemma job_leave oI s pid :
  job_inv oI s →
  let s' := s <| mr_busy := delete pid (mr_busy s) |> in
  job_inv oI s' ∧
  ((∀ w, mr_busy s !! pid = Some w → half_copied w = false ∨ owns pid w s = true) → good_opt oI s → good_opt oI s').
Proof.
  intros Hs s'. split.
  - apply (job_inv_calm oI s _ _ Hs); try done; [by apply mr_ok_leave, Hs|apply calm_refl|].
    intros pid' u [_ Hu]%lookup_delete_Some. by eapply Hs.
  - intros Hw Hg J EJ. by apply good_delete; [apply Hg|apply Hs|].
Qed.

(** The report of a worker whose reduce task is its own comes when its output is finished. *)
Lemma report_late J s pid now w kvs :
  job_inv (Some J) s → good J s → mr_busy s !! pid = Some w → is_Some (wk_report w) → wk_todo w = [] →
  good J (reported s pid now (done_args (wk_task w) kvs)).
Proof.
  intros Hs Hg Hb Hr Et. assert (half_copied w = false) as Hh by (unfold half_copied; by rewrite Et).
  set (sd := s <| mr_busy := delete pid (mr_busy s) |>).
  assert (good J sd) as Hgd by (apply good_delete; [done|apply Hs|]; intros w0 Hw0; simplify_eq; by left).
  set (c := update_task now (done_args (wk_task w) kvs) (mr_coord s)).
  enough (good J (sd <| mr_coord := c |>)) as H by by destruct H; split.
  destruct (update_cases s now kvs pid w (ji_ok _ s Hs) Hb (worker_shape _ _ _ _ w (ji_table _ s Hs) (ji_work _ s Hs pid w Hb)))
    as [E|(i & t0 & t1 & Hi & H0 & H1 & _ & Ha & Ha1 & E)].
  { unfold c. rewrite E. apply good_table; [done..|]. intros t p Ht Hid Hcc. left. by exists t. }
  assert (Tasks c = <[i := t1]> (Tasks (mr_coord s))) as Ec by (unfold c; by rewrite E).
  assert (t0 ∈ Tasks (mr_coord s)) as Hin0 by by eapply list_elem_of_lookup_2.
  injection H0 as Hid0 Hty0 Hrd0 Hwr0. injection H1 as Hid1 _ _ _.
  apply good_table; [done|..].
  - intros pid' w' Hb' (u & Hu & Hid & Hau)%owns_spec. apply owns_spec. cbn [mr_coord update] in Hu. rewrite Ec in Hu.
    apply list_elem_of_lookup in Hu as [j Hj]. apply list_lookup_insert_Some in Hj as [(-> & <- & _)|[_ Hj]].
    + exists t0. split_and!; [done|congruence|congruence].
    + exists u. split; [by eapply list_elem_of_lookup_2|done].
  - intros t p Ht Hid Hcc. rewrite Ec in Ht. apply list_elem_of_lookup in Ht as [j Hj].
    apply list_lookup_insert_Some in Hj as [(-> & <- & _)|[_ Hj]]; [right|left; exists t; split; [by eapply list_elem_of_lookup_2|done]].
    assert (on p w) as Hon by (unfold on; congruence).
    assert (shape (wk_task w) = red_shape p) as Hsh.
    { destruct (ji_work _ s Hs pid w Hb) as [(k & f & Hm)|(J1 & q & _ & _ & Hq & _)]; [by destruct (map_work_on k f w p Hm)|].
      rewrite Hq. f_equal. by eapply on_inj; [apply red_on|]. }
    apply finished_delete; [|intros w0 Hw0; by simplify_eq].
    pose proof (gd_work J s Hg pid w p Hb Hsh Hr) as Hst. rewrite Et in Hst.
    inversion Hst as [|done todo d1 ? ? X| | |d0 Hf]; [by destruct todo|].
    apply Hf, owns_spec. exists t0. split_and!; [done|congruence|congruence].
Qed.

Lemma report_good oI s pid now w args :
  job_inv oI s → mr_busy s !! pid = Some w → wk_report w = Some args → wk_todo w = [] →
  ∃ s' oI', step (EvReport pid now) s = Ret s' ∧ job_inv oI' s' ∧ (good_opt oI s → good_opt oI' s').
Proof.
  intros Hs Hb Hr Et. destruct (job_report oI s pid now w args Hs Hb Hr Et) as (s' & oI' & Estep & Hs' & Hbs & Hcase).
  exists s', oI'. split; [done|]. split; [done|]. intros Hg J EJ.
  destruct (worker_args oI w args (ji_work oI s Hs pid w Hb) Hr) as (kvs & -> & _).
  destruct oI as [J0|].
  - destruct Hcase as [-> ->]. injection EJ as <-.
    apply report_late; [done|by apply Hg|done|by eexists|done].
  - destruct Hcase as (ts & Ets & Hts). apply good_fresh.
    + rewrite Hbs. intros pid' u [_ Hu]%lookup_delete_Some.
      destruct (ji_work _ s Hs pid' u Hu) as [?|(J1 & q & ? & _)]; done.
    + intros t p Ht Hid Hcc. rewrite Ets in Ht. apply elem_of_app in Ht as [Ht|Ht].
      * destruct (reported_table None s pid now w kvs Hs Hb) as (_ & _ & _ & Hsh & _).
        rewrite (proj1 (proj2 (ji_table _ s Hs))) in Hsh. destruct (early_map _ t Hsh Ht) as (i & f & _ & [= Hid' _ _ _]).
        rewrite Hid' in Hid. by apply pretty_nat_ne_p in Hid.
      * rewrite Forall_forall in Hts. specialize (Hts t Ht). unfold completed in Hcc. congruence.
Qed.

Lemma work_good J s pid w op ops fs d :
  job_inv (Some J) s → good J s → careful (EvWork pid) s = true → mr_busy s !! pid = Some w → wk_todo w = op :: ops →
  do_op op (wk_data w) (mr_fs s) = (fs, d) → good J (after s pid w fs ops d).
Proof.
  intros Hs Hg Hc Hb Et Ed. pose proof (ji_work _ s Hs pid w Hb) as Hw.
  assert (is_Some (wk_report w)) as Hr.
  { destruct (wk_report w) eqn:Er; [by eexists|]. pose proof (idle_worker _ _ _ _ Hs Hb Er). congruence. }
  destruct Hw as [(i & f & Hm)|(J' & p & [= <-] & _ & Hsh & _)].
  2: { by eapply (red_op J s pid w p); [apply Hs|apply Hs|done|done|by apply red_on|..]. }
  pose proof (map_op_changes (mr_fs s) i op (wk_data w) (ji_set _ s Hs)) as Hch. rewrite Ed in Hch.
  destruct (Hm) as (Hf & Hsh & Ho & Ha). rewrite Et in Ho. apply Forall_cons in Ho as [Ho1 Ho2].
  destruct (Hch Ho1) as [_ Hfs]. pose proof (map_paths (mr_fs s) i) as Hmp.
  pose proof (good_insert J (s <| mr_fs := fs |>) pid (w <| wk_todo := ops |> <| wk_data := d |>)) as Hgi. apply Hgi.
  - apply good_files; [done|..]; intros p; apply Hfs; intros Hin;
      destruct (Hmp _ (ji_set _ s Hs) Hin) as (_ & _ & Ht & Hm'); [by destruct (Hm' p)|by destruct (Ht p)].
  - apply (map_work_idle i f). split_and!; [done|done|done|]. by destruct Hr as [args Hr]; cbn; rewrite Hr in *.
  - intros w0 Hw0. cbn in Hw0. simplify_eq. by eapply map_work_idle.
  - intros p Hred. by destruct (map_work_on i f w p Hm (red_on p w Hred)).
Qed.

Lemma job_step e oI s :
  job_inv oI s → in_tmp e →
  ∃ s' oI', step e s = Ret s' ∧ job_inv oI' s' ∧ (careful e s = true → good_opt oI s → good_opt oI' s').
Proof.
  intros Hs He.
  assert (∃ s' oI', Ret s = Ret s' ∧ job_inv oI' s' ∧ (careful e s = true → good_opt oI s → good_opt oI' s')) as Hnone
    by by exists s, oI.
  destruct e as [pid now|pid d|pid|pid now|pid|pid|now]; cbn [in_tmp] in He.
  - destruct (mr_busy s !! pid) eqn:Hb; [cbn [mr_step]; by rewrite Hb|].
    destruct (job_request oI s pid now Hs Hb) as (s' & ? & ? & ?). exists s', oI. auto.
  - subst d. destruct (mr_busy s !! pid) as [[t [args|] todo data]|] eqn:Hb; try (cbn [mr_step]; by rewrite Hb).
    pose proof (idle_worker _ _ _ _ Hs Hb eq_refl) as Et. cbn in Et. subst todo.
    destruct (job_begin oI s pid t _ _ Hs Hb) as (w & Estep & Hwt & Hwr & Hw & Hcw & Hnew).
    exists (s <| mr_busy := <[pid := w]> (mr_busy s) |>), oI. split; [done|]. split.
    + apply (job_inv_calm oI s _ _ Hs); try done; [|apply calm_refl|].
      * exact (step_ok mapf reducef sort_Sort range_order Hrange _ s _ (ji_ok _ s Hs) Estep).
      * intros pid' u. rewrite lookup_insert. case_decide; [by intros [= <-]|apply Hs].
    + intros _ Hg J EJ. apply good_insert; [by apply Hg|done|by intros w0 Hw0; simplify_eq|].
      intros p Hsh _ own fs busy. rewrite (Hnew J p EJ) by congruence. constructor.
  - destruct (mr_busy s !! pid) as [w|] eqn:Hb; [|cbn [mr_step]; by rewrite Hb].
    destruct (wk_todo w) as [|op ops] eqn:Et.
    { cbn [mr_step]. rewrite Hb. destruct w. cbn in Et. by rewrite Et. }
    destruct (do_op op (wk_data w) (mr_fs s)) as [fs d] eqn:Ed. exists (after s pid w fs ops d), oI. split.
    { cbn [mr_step]. rewrite Hb. destruct w as [t r todo data]. cbn in Et, Ed. subst todo. cbn [wk_data]. by rewrite Ed. }
    split; [by eapply job_work|]. intros Hc Hg J EJ. subst oI.
    exact (work_good J s pid w op ops fs d Hs (Hg J eq_refl) Hc Hb Et Ed).
  - destruct (mr_busy s !! pid) as [w|] eqn:Hb; [|cbn [mr_step]; by rewrite Hb].
    destruct (wk_report w) as [args|] eqn:Er; [|cbn [mr_step]; rewrite Hb; destruct w; cbn in Er; by rewrite Er].
    destruct (wk_todo w) as [|op ops] eqn:Et; [|cbn [mr_step]; rewrite Hb; destruct w; cbn in Er, Et; by rewrite Er, Et].
    destruct (report_good oI s pid now w args Hs Hb Er Et) as (s' & oI' & ? & ? & ?). exists s', oI'. auto.
  - cbn [mr_step]. destruct (mr_busy s !! pid) as [[t [args|] [|op ops] data]|] eqn:Hb; try done.
    destruct (job_leave oI s pid Hs) as [H1 H2]. eexists _, oI. split; [done|]. split; [done|]. intros _. apply H2.
    intros w Hw. simplify_eq. by left.
  - exists (s <| mr_busy := delete pid (mr_busy s) |>), oI. split; [done|].
    destruct (job_leave oI s pid Hs) as [Hs' Hg']. split; [done|]. cbn [careful]. intros Hc. apply Hg'.
    intros w Hb. rewrite Hb in Hc.
    apply orb_true_iff in Hc as [Hc|Hc]; [left; by apply negb_true_iff|by right].
  - destruct (job_Done oI s now Hs) as (s' & ? & ? & ?). exists s', oI. auto.
Qed.

Lemma job_run es oI s :
  job_inv oI s → Forall in_tmp es →
  ∃ s' oI', run es s = Ret s' ∧ job_inv oI' s' ∧
    (undisturbed mapf reducef sort_Sort range_order es s = true → good_opt oI s →
     good_opt oI' s' ∧ ∀ pid w, mr_busy s' !! pid = Some w → half_copied w = false).
Proof.
  intros Hs Hes. revert oI s Hs. induction Hes as [|e es He _ IH]; intros oI s Hs.
  { exists s, oI. split; [done|]. split; [done|]. cbn [undisturbed]. intros Hu Hg. split; [done|]. intros pid w Hb.
    rewrite forallb_forall in Hu. specialize (Hu (pid, w)). rewrite <- list_elem_of_In, elem_of_map_to_list in Hu.
    by apply negb_true_iff, (Hu Hb). }
  destruct (job_step e oI s Hs He) as (s1 & oI1 & E1 & H1 & Hg1). destruct (IH oI1 s1 H1) as (s' & oI' & E & H & Hg').
  exists s', oI'. cbn [mr_run undisturbed]. rewrite E1, bind_ret_l. split; [done|]. split; [done|].
  intros [Hc Hu]%andb_true_iff Hg. auto.
Qed.


(** No output of an earlier job lies in the workers' directory. *)
Definition fresh_outputs : Prop := ∀ q, fs_files fs0 !! path_Join tmp (out_name q) = None.

Lemma cleaned_kept c p : MainDir c = dir → ¬ written p → fs_files (cleanUp c fs0) !! p = fs_files fs0 !! p.
Proof.
  intros Hm Hp. cbn. rewrite Hm. destruct (fs_files fs0 !! p) as [data|] eqn:E.
  - apply map_lookup_filter_Some. split; [done|]. cbn. intros [Hd Hj]. apply Hp. left. split; [done|].
    unfold job_name. apply orb_true_iff. done.
  - apply map_lookup_filter_None. by left.
Qed.

Lemma job_init now : setting fs0 → fresh_outputs → job_inv None (mr_init dir now files R fs0).
Proof.
  intros Hset Hfresh. set (c0 := setMainDir dir {| MainDir := ""; IntermediateResults := []; ReducerCount := 0;
                             Tasks := []; IsReduceGenerated := false |}).
  split.
  - apply init_ok.
  - done.
  - eapply setting_keeps; [exact Hset|done|]. intros p Hp. by apply (cleaned_kept c0).
  - split; [done|]. intros p Hp. by apply (cleaned_kept c0).
  - intros pid t. cbn. by rewrite lookup_empty.
  - intros id kvs i f Hin. by apply elem_of_nil in Hin.
  - split; [done|]. cbn. unfold early. split_and!.
    + rewrite fmap_imap. done.
    + intros q. apply map_lookup_filter_None. left. apply Hfresh.
    + destruct files as [|f l] eqn:E; [by left|right]. eexists. split; [left|]. done.
Qed.

(** *** What is in the files in the end *)

Lemma reduce_all_parts I ps :
  Forall clean I → (∀ p, p ∈ ps → p ∈ part_ids I) →
  reduce_all reducef sort_Sort (parts I) ps = Ret (concat (out_lines I <$> ps)).
Proof.
  intros HI. induction ps as [|p ps IH]; intros Hps; [done|]. cbn [reduce_all]. unfold reduce_output.
  rewrite parse_format, !bind_ret_l; [|apply part_nonempty, Hps; left|by apply part_clean].
  rewrite IH by (intros q Hq; apply Hps; by right). done.
Qed.

Context (Hblind : order_blind reducef).

Lemma reduce_lines_perm l l' : l ≡ₚ l' → reduce_lines reducef (sort_Sort l) ≡ₚ reduce_lines reducef (sort_Sort l').
Proof.
  intros Hl. assert (∀ k, k ∈ remove_dups (kv_Key <$> l') ↔ k ∈ kv_Key <$> l') as Hk
    by (intros k; by rewrite elem_of_remove_dups).
  rewrite (reduce_lines_spec reducef sort_Sort Hsort Hblind l l' _ Hl (NoDup_remove_dups _) Hk).
  by rewrite (reduce_lines_spec reducef sort_Sort Hsort Hblind l' l' _ (reflexivity _) (NoDup_remove_dups _) Hk).
Qed.

Lemma outputs_sequential I :
  Forall clean I → I ≡ₚ all_kvs →
  concat (out_lines I <$> part_ids I) ≡ₚ reduce_lines reducef (sort_Sort all_kvs).
Proof.
  intros Hc HI. rewrite <- (reduce_lines_perm I) by done.
  destruct (mrdistributed_spec reducef sort_Sort Hsort Hblind range_order R I Hrange HR Hc) as (out & E & Hp).
  unfold mrdistributed in E. rewrite shuffle_parts, bind_ret_l in E.
  change (range_order ((map_to_list (parts I)).*1)) with (part_ids I) in E.
  rewrite reduce_all_parts in E by done. by injection E as <-.
Qed.

Lemma sequential_lines :
  mrsequential mapf reducef sort_Sort ((λ f, (f, Some (content f))) <$> files) =
    Ret (concat_str (reduce_lines reducef (sort_Sort all_kvs))).
Proof.
  unfold mrsequential. enough (map_all mapf ((λ f, (f, Some (content f))) <$> files) = Ret all_kvs) as -> by done.
  unfold all_kvs. clear Hclean. induction files as [|f l IH]; [done|]. cbn. by rewrite IH.
Qed.

Lemma part_id_range I p : p ∈ part_ids I → 0 ≤ p < R.
Proof.
  intros [l Hl]%elem_part_ids. assert (p ∈ (λ kv, Z.rem (ihash (kv_Key kv)) R) <$> sort_Sort I) as Hin.
  { pose proof (group_by_lookup (λ kv, Z.rem (ihash (kv_Key kv)) R) (sort_Sort I) p) as H.
    fold (parts I) in H. rewrite Hl in H.
    destruct (filter _ (sort_Sort I)) as [|kv ls] eqn:E; [done|]. apply list_elem_of_fmap.
    assert (kv ∈ filter (λ kv, Z.rem (ihash (kv_Key kv)) R = p) (sort_Sort I)) as Hkv by (rewrite E; left).
    apply list_elem_of_filter in Hkv as [Hkv ?]. by exists kv. }
  apply list_elem_of_fmap in Hin as (kv & -> & _).
  assert (0 ≤ ihash (kv_Key kv)) by (unfold ihash; apply Z.land_nonneg; right; lia).
  rewrite Z.rem_mod_nonneg by lia. by apply Z.mod_pos_bound.
Qed.

(** The output of a completed task, when nobody is in the middle of copying it. *)
Lemma finished_copied J p s :
  finished J p (mr_fs s) (mr_busy s) → (∀ pid w, mr_busy s !! pid = Some w → half_copied w = false) →
  fs_files (mr_fs s) !! tmp_out p = Some (out_text J p).
Proof. intros (_ & _ & [?|(pid & w & Hb & _ & Hh)]) Hn; [done|]. by rewrite (Hn pid w Hb) in Hh. Qed.

Lemma job_end oI s now :
  job_inv oI s → good_opt oI s → (∀ pid w, mr_busy s !! pid = Some w → half_copied w = false) →
  (Done now (mr_coord s)).2 = true →
  Forall (λ t, t_Status t ≠ "skipped") (Tasks (Done now (mr_coord s)).1) →
  ∃ I, Forall clean I ∧ I ≡ₚ all_kvs ∧
    ∀ q data, fs_files (mr_fs s) !! path_Join tmp (out_name q) = Some data ↔
      q ∈ part_ids I ∧ data = out_text I q.
Proof.
  intros Hs Hg Hhalf Hd Hns.
  assert (∀ t, t ∈ Tasks (mr_coord s) → completed t) as Hall.
  { intros t Ht. destruct (Forall2_elem_l _ _ _ _ (calm_Done now (mr_coord s)) Ht) as (t' & Ht' & _ & _ & Hc).
    apply Hc. rewrite Forall_forall in Hns. specialize (Hns t' Ht').
    unfold Done in *. pose proof (Done_loop_true now (Tasks (mr_coord s))) as Ho.
    destruct (Done_loop now (Tasks (mr_coord s))) as [ts b]; cbn in *. rewrite Forall_forall in Ho.
    destruct (proj1 (over_cases t') (Ho Hd t' Ht')) as [|?]; done. }
  pose proof (ji_table _ s Hs) as Htab. destruct oI as [J|].
  - destruct Htab as [_ HJ]. exists J. split; [apply HJ|]. split; [apply HJ; auto|].
    assert (∀ q, q ∈ part_ids J → fs_files (mr_fs s) !! tmp_out q = Some (out_text J q)) as Hout.
    { intros q Hq. apply finished_copied; [|done].
      assert (∃ t, t ∈ Tasks (mr_coord s) ∧ shape t = red_shape q) as (t & Ht & [= Hid _ _ _]).
      { assert (red_shape q ∈ shape <$> Tasks (mr_coord s)) as (t & E & Ht)%list_elem_of_fmap; [|by exists t].
        rewrite (lt_shape _ _ _ HJ). apply elem_of_app. right. apply list_elem_of_fmap. eauto. }
      apply (gd_done J s (Hg J eq_refl) t); auto. }
    intros q data. split; [|intros [Hq ->]; auto].
    intros E. assert (q ∈ part_ids J) as Hq by (apply (lt_outs _ _ _ HJ); by eexists).
    split; [done|]. rewrite Hout in E by done. by injection E.
  - destruct Htab as (_ & _ & Hout & [Hf|(t & Ht & Hn)]); [|by destruct Hn; auto].
    exists []. assert (all_kvs = []) as -> by (unfold all_kvs; by rewrite Hf).
    split_and!; [constructor|done|]. intros q data. rewrite Hout. split; [done|]. intros [Hq _].
    apply elem_part_ids in Hq as [l Hl]. revert Hl. unfold parts.
    assert (sort_Sort [] = []) as -> by (apply Permutation_nil_r, Hsort). done.
Qed.
End job.


Definition main_and_tmp : FS :=
  {| fs_dirs := {["/main"; "/tmp"]}; fs_files := {[ "/in/a" := "x y"; "/in/b" := "x" ]} |}.

(** A worker asks for a task, does it with everything that belongs to it, and reports. *)
Definition does (pid : nat) (workerInitDir : string) (now : Z) : list mr_event :=
  EvRequest pid now :: works pid workerInitDir 6 ++ [EvReport pid (now + 1)].

(** Worker 7 dies inside its first reduce task, its output created and not written; after the
    timeout worker 8 begins it anew and is itself so late that worker 9 gets the task when
    worker 8 has written and not copied; they finish in turns, worker 8 without the task. *)
Definition crash_and_redo : list mr_event :=
  does 7 "/tmp" 1 ++ does 8 "/tmp" 3 ++
  EvRequest 7 5 :: works 7 "/tmp" 1 ++ [EvCrash 7; EvDone (6 * sec); EvRequest 8 (6 * sec)] ++
  works 8 "/tmp" 2 ++ [EvDone (12 * sec); EvRequest 9 (12 * sec)] ++ works 9 "/tmp" 1 ++ [EvWork 8; EvWork 9] ++
  replicate 2 (EvWork 8) ++ replicate 3 (EvWork 9) ++ [EvReport 9 (13 * sec); EvReport 8 (13 * sec)] ++
  does 8 "/tmp" (14 * sec).

Definition toy_content (f : string) : string := if decide (f = "/in/a") then "x y" else "x".

Lemma main_and_tmp_setting : setting "/main" "/tmp" ["/in/a"; "/in/b"] toy_content main_and_tmp.
Proof.
  split; [by vm_compute..|done|done| |].
  - intros d n Hd Hn. assert (n ≠ "") as Hne by (by intros ->). rewrite path_Join_name by done.
    change (fs_dirs main_and_tmp) with ({["/main"; "/tmp"]} : gset string). rewrite elem_of_union, !elem_of_singleton.
    destruct Hd as [-> | ->]; intros [E|E]; discriminate E.
  - intros f Hf. split_and!.
    + intros ->. by repeat (apply elem_of_cons in Hf as [Hf|Hf]; [done|]); apply elem_of_nil in Hf.
    + assert (path_Dir f = "/in") as Hd.
      { repeat (apply elem_of_cons in Hf as [-> |Hf]; [by vm_compute|]). by apply elem_of_nil in Hf. }
      intros [[H _]|[[i ->]|[q ->]]]; revert Hd; [by rewrite H|rewrite path_Dir_Join by auto with mr; discriminate..].
    + repeat (apply elem_of_cons in Hf as [-> |Hf]; [by vm_compute|]). by apply elem_of_nil in Hf.
Qed.

Abbreviation toy_run es := (mr_run word_map wc_Reduce (merge_sort by_key) id es
  (mr_init "/main" 0 ["/in/a"; "/in/b"] 10 main_and_tmp)).
Abbreviation toy_undisturbed es := (undisturbed word_map wc_Reduce (merge_sort by_key) id es
  (mr_init "/main" 0 ["/in/a"; "/in/b"] 10 main_and_tmp)).

(** Is the job over, without a task given up? *)
Definition all_done (now : Z) (s : mr_state) : bool :=
  (Done now (mr_coord s)).2 &&
  forallb (λ t, negb (bool_decide (t_Status t = "skipped"))) (Tasks (Done now (mr_coord s)).1).


(** *** Runs that are disturbed *)

(** Worker 8 has lost the task it has not begun to write, and creates its output after worker 9
    has written the lines and before it reads them back: worker 9 copies an empty file and its
    report is the one that counts. *)
Definition late_create : list mr_event :=
  does 7 "/tmp" 1 ++ does 8 "/tmp" 3 ++
  [EvRequest 8 5; EvBegin 8 "/tmp"; EvDone (6 * sec); EvRequest 9 (6 * sec)] ++ works 9 "/tmp" 2 ++ [EvWork 8] ++
  replicate 3 (EvWork 9) ++ [EvReport 9 (7 * sec)] ++ does 9 "/tmp" (8 * sec).

(** Both have read their output back; worker 8, which has lost the task, creates the copy after
    worker 9 has written it, and dies. *)
Definition two_copies : list mr_event :=
  does 7 "/tmp" 1 ++ does 8 "/tmp" 3 ++
  EvRequest 8 5 :: works 8 "/tmp" 3 ++ [EvDone (6 * sec); EvRequest 9 (6 * sec)] ++ works 9 "/tmp" 5 ++
  [EvWork 8; EvCrash 8; EvReport 9 (7 * sec)] ++ does 9 "/tmp" (8 * sec).

(** What the conditions exclude does happen: the job is over, no task was given up, and the
    output of a partition in the workers' directory is empty, in the first run because a worker
    created an output that was no longer its own, in the second because it died copying one. *)
Lemma disturbed_output_lost :
  ((λ s, (all_done (18 * sec) s, fs_files (mr_fs s) !! "/tmp/mr-out-7")) <$> toy_run late_create) = Ret (true, Some "") ∧
  ((λ s, (all_done (18 * sec) s, fs_files (mr_fs s) !! "/tmp/mr-out-7")) <$> toy_run two_copies) = Ret (true, Some "") ∧
  toy_undisturbed late_create = false ∧ toy_undisturbed two_copies = false.
Proof. split_and!; vm_compute; reflexivity. Qed.
