(* ===== verification/MRWorker.v ===== *)
(** * The worker's loop

    [Worker] of src/src/mr/worker.go with the calls it makes and what may become of each: a
    round of the loop, whatever happens to its two calls, is a sequence of events of the
    system in [MRCoordinator], so what [MRSafety] and [MRRun] show of the events holds of
    workers that lose calls. *)
From stdpp Require Import base tactics numbers list fin_maps gmap strings.
From S2P Require Import Prelude MRText MRJob MRCoordinator.

(** What becomes of a call: no connection, lost before or after the handler ran, answered. *)
Inductive rpc_fate := NoDial | NoHandler | NoReply | Answered.

(** What the caller sees; without a connection [call] ends the process. *)
Inductive call_result (A : Type) := Exited | CallFailed | CallOk (reply : A).
Arguments Exited {A}. Arguments CallFailed {A}. Arguments CallOk {A} reply.

(** The coordinator and the files. *)
Definition world : Type := Coordinator * FS.

Definition call {A} (fate : rpc_fate) (handler : world → outcome (world * A)) (w : world)
    : outcome (world * call_result A) :=
  match fate with
  | NoDial => Ret (w, Exited)
  | NoHandler => Ret (w, CallFailed)
  | NoReply => '(w, _) ← handler w; Ret (w, CallFailed)
  | Answered => '(w, reply) ← handler w; Ret (w, CallOk reply)
  end.

Section worker.
Context (mapf : string → string → list KeyValue) (reducef : string → list string → string).
Context (sort_Sort : list KeyValue → list KeyValue) (range_order : list Z → list Z).

Definition CallRequestTask (workerId now : Z) (fate : rpc_fate) : world → outcome (world * call_result RequestTaskReply) :=
  call fate (λ '(c, fs), let '(c, reply) := RequestTask now {| ra_WorkerId := workerId |} c in Ret ((c, fs), reply)).

Definition CallUpdateTaskStatus (args : UpdateTaskStatusArgs) (now : Z) (fate : rpc_fate)
    : world → outcome (world * call_result unit) :=
  call fate (λ '(c, fs), cfs ← UpdateTaskStatus sort_Sort range_order now args c fs; Ret (cfs, tt)).

(** The coordinator has no method of that name, so a call that reaches it fails. *)
Definition CallUpdateWorkerStatus (fate : rpc_fate) (w : world) : outcome (world * call_result unit) :=
  Ret (w, match fate with NoDial => Exited | _ => CallFailed end).

(** One round of the loop; true when the process has ended. *)
Definition Worker_round (workerId : Z) (workerInitDir : string) (now : Z) (fate : rpc_fate)
    (now' : Z) (fate' : rpc_fate) (w : world) : outcome (world * bool) :=
  '(w, r) ← CallRequestTask workerId now fate w;
  match r with
  | Exited => Ret (w, true)
  | CallFailed => Ret (w, false)
  | CallOk reply =>
      if decide (t_ReadLocation (rr_Task reply) = "") then Ret (w, false)
      else
        let '(c, fs) := w in
        '(fs, args) ← execute mapf reducef sort_Sort workerInitDir (rr_Task reply) fs;
        '(w, r) ← CallUpdateTaskStatus args now' fate' (c, fs);
        Ret (w, match r with Exited => true | _ => false end)
  end.

(** The rounds of one worker until its process ends. *)
Fixpoint Worker (workerId : Z) (workerInitDir : string) (env : list (Z * rpc_fate * Z * rpc_fate)) (w : world)
    : outcome (world * bool) :=
  match env with
  | [] => Ret (w, false)
  | (now, fate, now', fate') :: env =>
      '(w, exited) ← Worker_round workerId workerInitDir now fate now' fate' w;
      if exited : bool then Ret (w, true) else Worker workerId workerInitDir env w
  end.

(** ** Rounds are events *)

Definition worker_event (pid : nat) (workerInitDir : string) (e : mr_event) : Prop :=
  match e with
  | EvRequest p _ | EvWork p | EvReport p _ | EvLost p | EvCrash p => p = pid
  | EvBegin p d => p = pid ∧ d = workerInitDir
  | EvDone _ => False
  end.

Definition in_world (s : mr_state) (w : world) : Prop := mr_coord s = w.1 ∧ mr_fs s = w.2.

Abbreviation run := (mr_run mapf reducef sort_Sort range_order).
Abbreviation step := (mr_step mapf reducef sort_Sort range_order).

(** A worker that just got its task. *)
Definition fresh_worker (t : Task) : worker :=
  {| wk_task := t; wk_report := None; wk_todo := []; wk_data := None |}.

Lemma request_step s pid now c reply :
  mr_busy s !! pid = None → RequestTask now {| ra_WorkerId := Z.of_nat pid |} (mr_coord s) = (c, reply) →
  step (EvRequest pid now) s = Ret (if decide (t_ReadLocation (rr_Task reply) = "") then s <| mr_coord := c |>
                                    else s <| mr_coord := c |> <| mr_busy := <[pid := fresh_worker (rr_Task reply)]> (mr_busy s) |>).
Proof. intros Hb E. cbn [mr_step]. rewrite Hb, E. by case_decide. Qed.

Lemma left_busy (m : gmap nat worker) pid w : m !! pid = None → delete pid (<[pid := w]> m) = m.
Proof. intros H. rewrite delete_insert_eq. by apply delete_id. Qed.

Lemma run_app es es' s s' s'' : run es s = Ret s' → run es' s' = Ret s'' → run (es ++ es') s = Ret s''.
Proof.
  revert s. induction es as [|e es IH]; intros s; cbn [app mr_run]; [by intros [= ->]|].
  intros (s1 & E & Er)%bind_ret_inv Er'. rewrite E, bind_ret_l. by apply IH.
Qed.

(** The file operations of a worker, one after the other. *)
Lemma work_events pid t args ops data s :
  mr_busy s !! pid = Some {| wk_task := t; wk_report := Some args; wk_todo := ops; wk_data := data |} →
  ∃ data', run (replicate (length ops) (EvWork pid)) s =
    Ret (s <| mr_fs := run_ops ops data (mr_fs s) |>
           <| mr_busy := <[pid := {| wk_task := t; wk_report := Some args; wk_todo := []; wk_data := data' |}]> (mr_busy s) |>).
Proof.
  revert data s. induction ops as [|op ops IH]; intros data s Hb.
  - exists data. cbn. rewrite insert_id by done. by destruct s.
  - cbn [replicate length mr_run mr_step run_ops]. rewrite Hb. cbn [wk_data wk_todo wk_report wk_task].
    destruct (do_op op data (mr_fs s)) as [fs d]. rewrite bind_ret_l.
    set (w1 := {| wk_task := t; wk_report := Some args; wk_todo := ops; wk_data := d |}).
    change (_ <| wk_todo := ops |> <| wk_data := d |>) with w1.
    destruct (IH d (s <| mr_fs := fs |> <| mr_busy := <[pid := w1]> (mr_busy s) |>)) as (data' & ->); [by apply lookup_insert_eq|].
    exists data'. cbn. by rewrite insert_insert_eq.
Qed.

(** A worker that has the task [t]: what it does and its report. *)
Lemma execute_events pid dir now fate s t fs args w b :
  mr_busy s !! pid = Some (fresh_worker t) → execute mapf reducef sort_Sort dir t (mr_fs s) = Ret (fs, args) →
  CallUpdateTaskStatus args now fate (mr_coord s, fs) = Ret (w, b) →
  ∃ es s', Forall (worker_event pid dir) es ∧ run es s = Ret s' ∧ in_world s' w ∧ mr_busy s' = delete pid (mr_busy s).
Proof.
  intros Hb Hex. unfold execute in Hex. apply bind_ret_inv in Hex as ([ops args'] & Eb & [= <- <-]).
  set (w1 := {| wk_task := t; wk_report := Some args'; wk_todo := ops; wk_data := None |}).
  set (s1 := s <| mr_busy := <[pid := w1]> (mr_busy s) |>).
  assert (step (EvBegin pid dir) s = Ret s1) as E1 by (cbn [mr_step]; unfold fresh_worker in Hb; by rewrite Hb, Eb).
  destruct (work_events pid t args' ops None s1) as (d & E2); [by apply lookup_insert_eq|].
  set (w2 := {| wk_task := t; wk_report := Some args'; wk_todo := []; wk_data := d |}) in *.
  set (s2 := s1 <| mr_fs := _ |> <| mr_busy := <[pid := w2]> (mr_busy s1) |>) in E2.
  assert (mr_busy s2 !! pid = Some w2 ∧ delete pid (mr_busy s2) = delete pid (mr_busy s)) as [Hb2 Hd2].
  { cbn. by rewrite lookup_insert_eq, !delete_insert_eq. }
  assert (∀ e s', worker_event pid dir e → step e s2 = Ret s' → in_world s' w → mr_busy s' = delete pid (mr_busy s2) →
    ∃ es s', Forall (worker_event pid dir) es ∧ run es s = Ret s' ∧ in_world s' w ∧ mr_busy s' = delete pid (mr_busy s)) as Hall.
  { intros e s' He Es Hw Hbs. exists (EvBegin pid dir :: replicate (length ops) (EvWork pid) ++ [e]), s'.
    split; [constructor; [done|]; apply Forall_app; split; [by apply Forall_replicate|by repeat constructor]|].
    split; [|split; [done|by rewrite Hbs]]. cbn [mr_run]. rewrite E1, bind_ret_l. eapply run_app; [exact E2|].
    cbn [mr_run]. by rewrite Es. }
  assert (w = (mr_coord s, run_ops ops None (mr_fs s)) → ∃ es s', Forall (worker_event pid dir) es ∧ run es s = Ret s' ∧
    in_world s' w ∧ mr_busy s' = delete pid (mr_busy s)) as Hlost.
  { intros ->. eapply (Hall (EvLost pid)); [done|cbn [mr_step]; rewrite Hb2; reflexivity|by split|done]. }
  assert (∀ c' fs', UpdateTaskStatus sort_Sort range_order now args' (mr_coord s) (run_ops ops None (mr_fs s)) = Ret (c', fs') →
    w = (c', fs') → ∃ es s', Forall (worker_event pid dir) es ∧ run es s = Ret s' ∧ in_world s' w ∧
    mr_busy s' = delete pid (mr_busy s)) as Hfin.
  { intros c' fs' Eu ->.
    assert (∃ s', step (EvReport pid now) s2 = Ret s' ∧ in_world s' (c', fs') ∧ mr_busy s' = delete pid (mr_busy s2))
      as (s' & Es & Hw & Hbs); [|exact (Hall (EvReport pid now) s' eq_refl Es Hw Hbs)].
    eexists {| mr_coord := c'; mr_fs := fs'; mr_busy := delete pid (mr_busy s2); mr_log := _ |}.
    split; [|split; [by split|done]]. cbn [mr_step]. rewrite Hb2. change (mr_coord s2) with (mr_coord s).
    change (mr_fs s2) with (run_ops ops None (mr_fs s)). cbn [wk_report wk_todo w2]. rewrite Eu. reflexivity. }
  unfold CallUpdateTaskStatus, call. destruct fate.
  1,2: intros [= <- _]; by apply Hlost.
  all: intros ([w1' r] & ([c' fs'] & Eu & [= <- _])%bind_ret_inv & [= <- _])%bind_ret_inv; by eapply Hfin.
Qed.

Lemma round_events pid dir now fate now' fate' w w' b s :
  in_world s w → mr_busy s !! pid = None →
  Worker_round (Z.of_nat pid) dir now fate now' fate' w = Ret (w', b) →
  ∃ es s', Forall (worker_event pid dir) es ∧ run es s = Ret s' ∧ in_world s' w' ∧ mr_busy s' = mr_busy s.
Proof.
  destruct w as [c fs]. intros [Hc Hf] Hb. unfold Worker_round, CallRequestTask. cbn in Hc, Hf.
  destruct (RequestTask now {| ra_WorkerId := Z.of_nat pid |} c) as [c1 reply] eqn:Er. pose proof Er as Er'.
  rewrite <- Hc in Er'. pose proof (request_step s pid now c1 reply Hb Er') as Hreq. clear Er'.
  destruct fate; cbn [call]; rewrite ?Er, ?bind_ret_l.
  1,2: intros [= <- _]; exists [], s; by split_and!.
  - intros [= <- _]. exists [EvRequest pid now; EvCrash pid]. eexists. split; [by repeat constructor|].
    cbn [mr_run]. rewrite Hreq, bind_ret_l. split; [done|]. case_decide; (split; [done|]); cbn; [by apply delete_id|by apply left_busy].
  - case_decide as Hr.
    { intros [= <- _]. exists [EvRequest pid now]. eexists. split; [by repeat constructor|].
      cbn [mr_run]. by rewrite Hreq. }
    set (s1 := s <| mr_coord := c1 |> <| mr_busy := <[pid := fresh_worker (rr_Task reply)]> (mr_busy s) |>) in *.
    intros ([fs1 args] & Hex & ([w2 r] & Hup & [= <- _])%bind_ret_inv)%bind_ret_inv. rewrite <- Hf in Hex.
    destruct (execute_events pid dir now' fate' s1 (rr_Task reply) fs1 args w2 r) as (es & s' & He & Est & Hw & Hbs);
      [apply lookup_insert_eq|done|done|].
    exists (EvRequest pid now :: es), s'. split; [by constructor|]. cbn [mr_run]. rewrite Hreq, bind_ret_l.
    split; [exact Est|]. split; [done|]. rewrite Hbs. by apply left_busy.
Qed.

Lemma worker_events pid dir env w w' b s :
  in_world s w → mr_busy s !! pid = None →
  Worker (Z.of_nat pid) dir env w = Ret (w', b) →
  ∃ es s', Forall (worker_event pid dir) es ∧ run es s = Ret s' ∧ in_world s' w' ∧ mr_busy s' = mr_busy s.
Proof.
  revert w s. induction env as [|[[[now fate] now'] fate'] env IH]; intros w s Hw Hb; cbn [Worker].
  { intros [= <- _]. exists [], s. by split_and!. }
  intros ([w1 b1] & Er & E)%bind_ret_inv.
  destruct (round_events pid dir now fate now' fate' w w1 b1 s Hw Hb Er) as (es & s1 & He & Hrun & Hw1 & Hb1).
  destruct b1; [injection E as <- _; by exists es, s1|].
  destruct (IH w1 s1 Hw1 ltac:(by rewrite Hb1) E) as (es' & s' & He' & Hrun' & Hw' & Hb').
  exists (es ++ es'), s'. split; [by apply Forall_app|]. split; [by eapply run_app|]. split; [done|]. by rewrite Hb'.
Qed.
End worker.
