(* ===== verification/MRUtil.v ===== *)
(** * The MapReduce tests

    src/src/mr/util.go: what a test of [mr_test.go] does around a job. It makes a directory
    for the workers, writes the sequential program's output there, runs the job, collects the
    output files and compares the two.

    [find], [sort] and [cmp] are programs of the system and parameters here: [find] gives what
    it prints, [None] when it fails; [sort] what it prints for the contents of its files;
    [cmp] whether two contents are the same. *)
From Stdlib Require Import Ascii.
From stdpp Require Import base tactics numbers list fin_maps gmap strings sorting pretty.
From S2P Require Import Prelude GoLib GoStrings GoStrconv MRText MRJob MRCoordinator MRFiles MRSafety MRApps MRRun.

(** ** Text *)

Definition is_white (a : ascii) : bool :=
  let n := N_of_ascii a in bool_decide (n = 32 ∨ 9 ≤ n ≤ 13)%N.

Fixpoint trim_left (s : string) : string :=
  match s with
  | EmptyString => EmptyString
  | String a s' => if is_white a then trim_left s' else s
  end.

Fixpoint trim_right (s : string) : string :=
  match s with
  | EmptyString => EmptyString
  | String a s =>
      match trim_right s with
      | EmptyString => if is_white a then EmptyString else String a EmptyString
      | r => String a r
      end
  end.

(** [strings.TrimSpace] of ASCII text. *)
Definition strings_TrimSpace (s : string) : string := trim_right (trim_left s).

(** The lines of a text, as [sort] reads them: the last one may lack its newline. *)
Definition text_lines (s : string) : list string :=
  let ws := strings_Split s newline in
  if decide (List.last ws "" = "") then removelast ws else ws.

(** ** Files *)

(** A path below [d], at any depth. *)
Definition under (d p : string) : Prop := ∃ n, p = d +:+ String slash n.

Definition underb (d p : string) : bool := String.prefix (d +:+ String slash "") p.

(** [os.Remove]: a file, or a directory with nothing in it. The errors are ignored. *)
Definition os_Remove (p : string) (fs : FS) : FS :=
  if decide (is_Some (fs_files fs !! p)) then {| fs_dirs := fs_dirs fs; fs_files := delete p (fs_files fs) |}
  else if existsb (underb p) ((map_to_list (fs_files fs)).*1 ++ elements (fs_dirs fs)) then fs
  else {| fs_dirs := fs_dirs fs ∖ {[p]}; fs_files := fs_files fs |}.

Section util.
Context (find : string → string → FS → option string) (sort_prog : list string → string).
Context (cmp_prog : string → string → bool).
Context (tmp : string).

Definition findFiles (dir s : string) (fs : FS) : outcome (list string) :=
  match find dir s fs with
  | None => Fatal "find failed err"
  | Some output =>
      let s1 := strings_TrimSpace output in
      if decide (s1 = "") then Ret [] else Ret (strings_Split s1 newline)
  end.

(** The third argument is not used: the files are always seen from one directory below. *)
Definition findFilesPre (dir s pre : string) (fs : FS) : outcome (list string) :=
  files ← findFiles dir s fs; Ret (fmap (M := list) (path_Join "..") files).

(** [sort] on some files, [None] when one cannot be read. *)
Definition run_sort (paths : list string) (fs : FS) : option string :=
  sort_prog <$> mapM (λ p, fs_files fs !! p) paths.

(** [os.Create] of the output file comes before [sort] reads its files. *)
Definition sort_into (paths : list string) (out : string) (fs : FS) : outcome FS :=
  let fs := fs_write (path_Join tmp out) "" fs in
  match run_sort paths fs with
  | None => Fatal "sort failed err"
  | Some text => Ret (fs_write (path_Join tmp out) text fs)
  end.

Definition mergeOutput (out : string) (fs : FS) : outcome FS :=
  files ← findFiles tmp "mr-out-[0-9]" fs;
  if decide (length files < 1)%nat then Fatal "reduce created no mr-out-X output files!"
  else sort_into files out fs.

(** [cleanup], at the end of a test that has passed. *)
Definition cleanup (fs : FS) : outcome FS :=
  files ← findFiles tmp "mr-*" fs;
  Ret (os_Remove tmp (foldl (λ fs f, os_Remove f fs) fs files)).

(** [cmp] runs in [tmp]; a file it cannot read fails the test too. *)
Definition runCmp (f1 f2 msg : string) (fs : FS) : outcome unit :=
  match fs_files fs !! path_Join tmp f1, fs_files fs !! path_Join tmp f2 with
  | Some c1, Some c2 => if cmp_prog c1 c2 then Ret tt else Fatal msg
  | _, _ => Fatal msg
  end.

Section app.
Context (mapf : string → string → list KeyValue) (reducef : string → list string → string).
Context (sort_Sort : list KeyValue → list KeyValue) (range_order : list Z → list Z).

(** main/mrsequential.go, started in [tmp]. *)
Definition run_mrsequential (files : list string) (fs : FS) : outcome FS :=
  text ← mrsequential mapf reducef sort_Sort ((λ f, (f, fs_files fs !! f)) <$> files);
  Ret (fs_write (path_Join tmp "mr-out-0") text fs).

Definition mkCorrectOutput (files : list string) (out : string) (fs : FS) : outcome FS :=
  fs ← run_mrsequential files fs;
  fs ← sort_into [path_Join tmp "mr-out-0"] out fs;
  if decide (is_Some (fs_files fs !! path_Join tmp "mr-out-0"))
  then Ret (os_Remove (path_Join tmp "mr-out-0") fs) else Fatal "Remove failed err".

(** [runMR], as main/mrcoordinator.go and main/mrworker.go do it: a coordinator for ten
    reduce tasks, workers started in [tmp], until [Done] answers true. Which workers there
    are and what happens to them is in [es]. *)
Definition runMR (dir : string) (files : list string) (es : list mr_event) (now now' : Z) (fs : FS)
    : outcome (option mr_state) :=
  s ← mr_run mapf reducef sort_Sort range_order es (mr_init dir now files 10 fs);
  let '(c, done) := Done now' (mr_coord s) in
  Ret (if done then Some (s <| mr_coord := c |>) else None).
End app.
End util.

(** ** Counting

    [regexp_count] is the number of matches of a pattern in a text, [None] when the pattern
    does not compile. *)
Section counting.
Context (regexp_count : string → string → option Z).

Definition countPatternFile (f p : string) (fs : FS) : outcome Z :=
  match fs_files fs !! f with
  | None => Fatal ("Open failed " +:+ f)
  | Some data => match regexp_count p data with Some n => Ret n | None => Fatal ("Compile " +:+ p +:+ " failed") end
  end.

Definition countPattern (files : list string) (p : string) (fs : FS) : outcome Z :=
  go_for (λ f n, m ← countPatternFile f p fs; Ret (i64 (n + m))) files 0.

(** The sum over the files, whatever their order, as long as it is an [int]. *)
Lemma countPattern_sum files p fs (c : string → Z) :
  (∀ f, f ∈ files → ∃ data, fs_files fs !! f = Some data ∧ regexp_count p data = Some (c f)) →
  (∀ f, 0 ≤ c f) → Z.of_nat (sum_list_with (λ f, Z.to_nat (c f)) files) < 2 ^ 63 →
  countPattern files p fs = Ret (Z.of_nat (sum_list_with (λ f, Z.to_nat (c f)) files)).
Proof.
  intros Hf Hc. unfold countPattern.
  assert (∀ k, 0 ≤ k → k + Z.of_nat (sum_list_with (λ f, Z.to_nat (c f)) files) < 2 ^ 63 →
    go_for (λ f n, m ← countPatternFile f p fs; Ret (i64 (n + m))) files k =
      Ret (k + Z.of_nat (sum_list_with (λ f, Z.to_nat (c f)) files))) as H.
  { induction files as [|f files IH]; intros k Hk Hs; cbn [go_for sum_list_with] in *; [by rewrite Z.add_0_r|].
    destruct (Hf f) as (data & Hd & Hm); [by left|]. assert (countPatternFile f p fs = Ret (c f)) as -> by (unfold countPatternFile; by rewrite Hd, Hm). rewrite !bind_ret_l.
    pose proof (Hc f). rewrite i64_small by lia. rewrite IH; [f_equal; lia| |lia|lia]. intros g Hg. apply Hf. by right. }
  intros Hs. by apply H.
Qed.
End counting.

(** [rand] is what [crand.Read] puts into a buffer of that length. *)
Definition RandString (rand : nat → list Z) (n : Z) : outcome string :=
  if decide (n < 0) then Panic "makeslice: len out of range"
  else
    let s := EncodeToString (rand (Z.to_nat (2 * n))) in
    if decide (n ≤ Z.of_nat (String.length s)) then Ret (String.substring 0 (Z.to_nat n) s)
    else Panic "slice bounds out of range".

Definition coordinatorSock (rand : nat → list Z) : outcome string :=
  s ← RandString rand 20; Ret ("/tmp/5840-mr-" +:+ s).

(** An error of [os.Mkdir] is ignored. *)
Definition mkOut (wd : string) (rand : nat → list Z) (fs : FS) : outcome (string * FS) :=
  s ← RandString rand 8;
  let tmp := path_Join wd ("mr-tmp-" +:+ s) in
  Ret (tmp, if decide (wd ∈ fs_dirs fs ∧ fs_files fs !! tmp = None)
            then {| fs_dirs := {[tmp]} ∪ fs_dirs fs; fs_files := fs_files fs |} else fs).

(** ** Text and lines *)

Definition with_nl (l : string) : string := l +:+ String newline "".

Lemma trim_left_app p t : p ≠ "" → trim_left p = p → trim_left (p +:+ t) = p +:+ t.
Proof.
  destruct p as [|a p]; [done|]. intros _. rewrite append_cons. cbn. destruct (is_white a); [|done].
  intros E. exfalso. assert (∀ s, (String.length (trim_left s) ≤ String.length s)%nat) as Hl.
  { induction s as [|b s IH]; cbn; [lia|]. destruct (is_white b); cbn; lia. }
  specialize (Hl p). rewrite E in Hl. cbn in Hl. lia.
Qed.

Lemma trim_right_app p t : p ≠ "" → trim_right p = p → trim_right (t +:+ p) = t +:+ p.
Proof.
  intros Hp Ht. induction t as [|a t IH]; [done|]. rewrite append_cons. cbn. rewrite IH.
  destruct (t +:+ p) eqn:E; [|done]. by destruct t, p.
Qed.

Lemma trim_right_newline t : trim_right (with_nl t) = trim_right t.
Proof. unfold with_nl. induction t as [|a t IH]; [done|]. rewrite append_cons. cbn. by rewrite IH. Qed.

(** What [find] may print as a name and [findFiles] reads back. *)
Record printable (p : string) : Prop := {
  pr_some : p ≠ "";
  pr_left : trim_left p = p;
  pr_right : trim_right p = p;
  pr_line : contains newline p = false
}.

Lemma concat_str_cons s ls : concat_str (s :: ls) = s +:+ concat_str ls.
Proof. done. Qed.

Lemma with_nl_lines (l : list string) (p : string) :
  concat_str (with_nl <$> (l ++ [p])) = with_nl (concat_str (with_nl <$> l) +:+ p).
Proof.
  induction l as [|x l IH].
  - cbn. by rewrite append_nil_r.
  - cbn [app]. rewrite !fmap_cons, !concat_str_cons, IH. unfold with_nl. by rewrite !append_assoc.
Qed.

Lemma lines_Split (l : list string) (t : string) :
  Forall (λ l, contains newline l = false) l →
  strings_Split (concat_str (with_nl <$> l) +:+ t) newline = l ++ strings_Split t newline.
Proof.
  induction 1 as [|x l Hx _ IH]; [done|]. rewrite fmap_cons, concat_str_cons.
  unfold with_nl at 1. rewrite !append_assoc. change (String newline "" +:+ ?u) with (String newline u).
  rewrite strings_Split_cut by done. rewrite IH. done.
Qed.

Lemma trim_lines (l : list string) :
  Forall printable l → l ≠ [] →
  ∃ s, strings_TrimSpace (concat_str (with_nl <$> l)) = s ∧ s ≠ "" ∧ strings_Split s newline = l.
Proof.
  intros Hl Hne. destruct l as [|p l _] using rev_ind; [done|]. apply Forall_app in Hl as [Hl [Hp _]%Forall_cons].
  eexists. split; [done|]. unfold strings_TrimSpace.
  assert (trim_left (concat_str (with_nl <$> (l ++ [p]))) = concat_str (with_nl <$> (l ++ [p]))) as ->.
  { destruct l as [|x l]; cbn [app]; rewrite !fmap_cons, !concat_str_cons; unfold with_nl at 1 3.
    - rewrite !append_assoc. apply trim_left_app; apply Hp.
    - rewrite !append_assoc. apply Forall_cons in Hl as [Hx _]. apply trim_left_app; apply Hx. }
  rewrite with_nl_lines, trim_right_newline, trim_right_app by apply Hp. split.
  - intros E. destruct (concat_str (with_nl <$> l)); [|done]. by apply (pr_some p Hp).
  - rewrite lines_Split by (eapply Forall_impl; [exact Hl|apply pr_line]). by rewrite strings_Split_none by apply Hp.
Qed.

(** A text of whole lines. *)
Definition whole (s : string) : Prop := s = "" ∨ ∃ t, s = with_nl t.

Lemma text_lines_app s t : whole s → text_lines (s +:+ t) = text_lines s ++ text_lines t.
Proof.
  intros [->|[u ->]]; [done|]. unfold with_nl. rewrite append_assoc. change (String newline "" +:+ t) with (String newline t).
  unfold text_lines. rewrite !strings_Split_app. pose proof (strings_Split_nonempty t newline) as Hn.
  destruct (strings_Split t newline) as [|w ws _] using rev_ind; [done|].
  change (strings_Split "" newline) with [""].
  rewrite app_assoc, !last_last, !removelast_last, (decide_True (P := "" = "")) by done.
  case_decide; [done|]. by rewrite app_assoc.
Qed.

Lemma text_lines_concat ls : Forall whole ls → text_lines (concat_str ls) = ls ≫= text_lines.
Proof.
  induction 1 as [|s ls Hs _ IH]; [done|]. change (concat_str (s :: ls)) with (s +:+ concat_str ls).
  rewrite text_lines_app by done. cbn [mbind list_bind]. by f_equal.
Qed.

Lemma whole_format kv : whole (format_kv kv).
Proof. right. exists (kv_Key kv +:+ " " +:+ kv_Value kv). unfold format_kv, with_nl. by rewrite !append_assoc. Qed.

(** ** A directory of its own *)

Lemma base64_text_plain s :
  base64_text s = true → contains slash s = false ∧ contains newline s = false ∧ trim_right s = s.
Proof.
  induction s as [|a s IH]; [done|]. cbn [base64_text]. intros [Ha Hs]%andb_true_iff.
  destruct (IH Hs) as (H1 & H2 & H3). cbn [contains trim_right]. rewrite H1, H2, H3, !orb_false_r.
  apply existsb_exists in Ha as (b & Hb & <-%bool_decide_eq_true).
  assert (forallb (λ a, negb (bool_decide (a = slash) || bool_decide (a = newline) || is_white a))
    (String.list_ascii_of_string base64_alphabet) = true) as H by (vm_compute; reflexivity).
  rewrite forallb_forall in H. specialize (H a Hb). apply negb_true_iff, orb_false_iff in H as [[H4 H5]%orb_false_iff H6].
  rewrite H6. split_and!; [done..|]. by destruct s.
Qed.

(** [mkOut] does not panic, and the directory it makes has a name the tests can find files under. *)
Lemma mkOut_ready wd rand fs :
  (∀ k, length (rand k) = k) → printable wd → wd ∈ fs_dirs fs →
  ∃ n fs', mkOut wd rand fs = Ret (path_Join wd n, fs') ∧ is_name n ∧ job_name n = true ∧
    printable (path_Join wd n) ∧ (fs_files fs !! path_Join wd n = None → path_Join wd n ∈ fs_dirs fs').
Proof.
  intros Hr Hwd Hd. unfold mkOut, RandString. rewrite decide_False by lia.
  pose proof (EncodeToString_length (rand (Z.to_nat (2 * 8)))) as Hl. rewrite Hr in Hl.
  rewrite decide_True by lia. rewrite bind_ret_l. eexists _, _. split; [done|].
  pose proof (Encode_text (rand (Z.to_nat (2 * 8))) (Z.to_nat 8)) as Ht. rewrite Hr in Ht.
  apply base64_text_plain in Ht as (Hsl & Hnl & Htr); [|lia].
  set (s := String.substring 0 (Z.to_nat 8) (EncodeToString (rand (Z.to_nat (2 * 8))))) in *.
  assert (is_name ("mr-tmp-" +:+ s)) as Hn by by apply contains_prefix_name.
  assert (s ≠ "") as Hs.
  { intros E. pose proof (substring_length (Z.to_nat 8) (EncodeToString (rand (Z.to_nat (2 * 8))))) as Hsub.
    fold s in Hsub. rewrite E in Hsub. specialize (Hsub ltac:(lia)). done. }
  split_and!; [apply Hn..|by apply (prefix_append "mr-" ("tmp-" +:+ s))| |].
  - assert (path_Join wd ("mr-tmp-" +:+ s) = wd +:+ ("/mr-tmp-" +:+ s)) as -> by by apply path_Join_name.
    split.
    + pose proof (pr_some _ Hwd). by destruct wd.
    + apply trim_left_app; apply Hwd.
    + rewrite <- append_assoc. by apply trim_right_app.
    + rewrite !contains_append, (pr_line _ Hwd), Hnl. done.
  - intros Hfree. rewrite decide_True by done. cbn. set_solver.
Qed.

(** ** What the tests rely on of the programs they start *)

(** [find dir -type f -name pat] prints the files below [dir] whose name matches, a line each. *)
Definition find_law (fnmatch : string → string → bool) (find : string → string → FS → option string) : Prop :=
  ∀ dir pat fs, dir ∈ fs_dirs fs →
  ∃ l, find dir pat fs = Some (concat_str (with_nl <$> l)) ∧ NoDup l ∧
    ∀ p, p ∈ l ↔ is_Some (fs_files fs !! p) ∧ under dir p ∧ fnmatch pat (path_Base p) = true.

(** [sort] prints the lines of its files, and their order alone does not change it. *)
Definition sort_law (sort_prog : list string → string) : Prop :=
  ∀ ts us, ts ≫= text_lines ≡ₚ us ≫= text_lines → sort_prog ts = sort_prog us.

Definition cmp_law (cmp_prog : string → string → bool) : Prop :=
  ∀ a b, cmp_prog a b = true ↔ a = b.

(** The pattern matches the outputs of the first ten partitions. *)
Definition out_pattern (fnmatch : string → string → bool) : Prop :=
  ∀ n, fnmatch "mr-out-[0-9]" n = true ↔ ∃ q, 0 ≤ q ≤ 9 ∧ n = out_name q.

Lemma prefix_spec p s : String.prefix p s = true ↔ ∃ t, s = p +:+ t.
Proof.
  split; [|intros [t ->]; apply prefix_append]. revert s. induction p as [|a p IH]; intros s Hp; [by exists s|].
  destruct s as [|b s]; [done|]. cbn in Hp. destruct (ascii_dec a b) as [<-|]; [|done].
  destruct (IH s Hp) as [t ->]. by exists t.
Qed.

Lemma underb_spec d p : underb d p = true ↔ under d p.
Proof.
  unfold underb. rewrite prefix_spec. unfold under. f_equiv. intros t.
  rewrite append_assoc. done.
Qed.

Lemma join_with_app sep a b :
  a ≠ [] → b ≠ [] → join_with sep (a ++ b) = join_with sep a +:+ sep +:+ join_with sep b.
Proof.
  intros Ha Hb. induction a as [|x a IH]; [done|]. destruct a as [|y a].
  - cbn. by destruct b.
  - cbn [app join_with] in *. rewrite IH by done. by rewrite !append_assoc.
Qed.

Lemma under_Dir d p : under d p → path_Dir p = d ∨ under d (path_Dir p).
Proof.
  intros [n ->]. unfold path_Dir. rewrite strings_Split_app, removelast_app by apply strings_Split_nonempty.
  destruct (decide (removelast (strings_Split n slash) = [])) as [->|Hn].
  - left. rewrite app_nil_r. apply join_Split.
  - right. eexists. rewrite join_with_app, join_Split by (done || apply strings_Split_nonempty). done.
Qed.

Section tests.
Context (find : string → string → FS → option string) (sort_prog : list string → string).
Context (cmp_prog : string → string → bool) (fnmatch : string → string → bool).
Context (Hfind : find_law fnmatch find) (Hsp : sort_law sort_prog) (Hcmp : cmp_law cmp_prog).
Context (Hpat : out_pattern fnmatch).
Context (tmp : string) (Htmp : printable tmp).

Lemma printable_out q : 0 ≤ q ≤ 9 → printable (path_Join tmp (out_name q)).
Proof.
  intros Hq. assert (printable (out_name q)) as Hn.
  { assert (q = 0 ∨ q = 1 ∨ q = 2 ∨ q = 3 ∨ q = 4 ∨ q = 5 ∨ q = 6 ∨ q = 7 ∨ q = 8 ∨ q = 9) as H by lia.
    repeat destruct H as [-> |H]; [..|subst]; (split; [discriminate|vm_compute; reflexivity..]). }
  assert (out_name q ≠ "") by apply Hn. rewrite path_Join_name by done. split.
  - destruct Htmp as [Hs _ _ _]. by destruct tmp.
  - rewrite trim_left_app; [done|apply Htmp..].
  - change (tmp +:+ String slash (out_name q)) with (tmp +:+ (String slash "" +:+ out_name q)).
    rewrite <- append_assoc. by apply trim_right_app; [|apply Hn].
  - rewrite contains_append. cbn. by rewrite (pr_line _ Htmp), (pr_line _ Hn).
Qed.

Lemma findFiles_lines dir pat fs l :
  find dir pat fs = Some (concat_str (with_nl <$> l)) → Forall printable l → findFiles find dir pat fs = Ret l.
Proof.
  intros E Hl. unfold findFiles. rewrite E. destruct (decide (l = [])) as [->|Hne]; [done|].
  destruct (trim_lines l Hl Hne) as (s & -> & Hs & Hsp'). cbv zeta. rewrite decide_False by done. by rewrite Hsp'.
Qed.

Lemma tmp_file fs dir files content n :
  setting dir tmp files content fs → is_name n → job_name n = true →
  path_Dir (path_Join tmp n) ∈ fs_dirs fs ∧ path_Join tmp n ∉ fs_dirs fs.
Proof.
  intros Hs Hn Hj. rewrite path_Dir_Join by done. split; [apply Hs|]. apply (st_free _ _ _ _ _ Hs); [by right|done].
Qed.

Lemma sort_into_spec fs dir files content out paths ts :
  setting dir tmp files content fs → is_name out → job_name out = true →
  path_Join tmp out ∉ paths → Forall2 (λ p d, fs_files fs !! p = Some d) paths ts →
  ∃ fs', sort_into sort_prog tmp paths out fs = Ret fs' ∧ changes [path_Join tmp out] fs fs' ∧
    fs_files fs' !! path_Join tmp out = Some (sort_prog ts).
Proof.
  intros Hs Hn Hj Hout Hts. destruct (tmp_file _ _ _ _ _ Hs Hn Hj) as [Hd Hf]. unfold sort_into, run_sort.
  assert (mapM (λ p, fs_files (fs_write (path_Join tmp out) "" fs) !! p) paths = Some ts) as ->.
  { apply mapM_Some_2. induction Hts as [|p d ps ds Hp _ IH]; [constructor|].
    apply not_elem_of_cons in Hout as [Hne Hout]. constructor; [by rewrite fs_write_other|auto]. }
  cbn. eexists. split; [done|]. split.
  - apply changes_write; [left|]. apply changes_write; [left|done].
  - apply fs_write_there; by rewrite fs_write_dirs.
Qed.

Lemma remove_files l fs :
  NoDup l → (∀ p, p ∈ l → is_Some (fs_files fs !! p)) →
  fs_dirs (foldl (λ fs f, os_Remove f fs) fs l) = fs_dirs fs ∧
  ∀ p, fs_files (foldl (λ fs f, os_Remove f fs) fs l) !! p = if decide (p ∈ l) then None else fs_files fs !! p.
Proof.
  intros Hnd. revert fs. induction Hnd as [|f l Hf _ IH]; intros fs Hl.
  - split; [done|]. intros p. cbn. rewrite decide_False by apply not_elem_of_nil. done.
  - cbn [foldl]. assert (os_Remove f fs = {| fs_dirs := fs_dirs fs; fs_files := delete f (fs_files fs) |}) as ->.
    { unfold os_Remove. rewrite decide_True; [done|]. apply Hl. left. }
    destruct (IH {| fs_dirs := fs_dirs fs; fs_files := delete f (fs_files fs) |}) as [Hd Hp].
    { intros p Hp. cbn. rewrite lookup_delete_ne by (by intros ->). apply Hl. by right. }
    split; [done|]. intros p. rewrite Hp. cbn [fs_files]. destruct (decide (p = f)) as [->|Hne].
    + rewrite lookup_delete_eq, (decide_True (P := f ∈ f :: l)) by left. by case_decide.
    + rewrite lookup_delete_ne by done. destruct (decide (p ∈ l)); [rewrite decide_True by (by right)|rewrite decide_False]; [done..|].
      by apply not_elem_of_cons.
Qed.

(** [cleanup] leaves nothing of a directory in which every file is named [mr-*]. *)
Lemma cleanup_removes fs :
  (∀ n, fnmatch "mr-*" n = true ↔ String.prefix "mr-" n = true) →
  tmp ∈ fs_dirs fs → fs_files fs !! tmp = None → (∀ d, d ∈ fs_dirs fs → underb tmp d = false) →
  (∀ p, under tmp p → is_Some (fs_files fs !! p) → printable p ∧ String.prefix "mr-" (path_Base p) = true) →
  ∃ fs', cleanup find tmp fs = Ret fs' ∧ fs_dirs fs' = fs_dirs fs ∖ {[tmp]} ∧
    ∀ p, (under tmp p → fs_files fs' !! p = None) ∧ (¬ under tmp p → fs_files fs' !! p = fs_files fs !! p).
Proof.
  intros Hmr Hd Hfile Hdirs Hnames. destruct (Hfind tmp "mr-*" fs Hd) as (l & E & Hnd & Hin).
  assert (findFiles find tmp "mr-*" fs = Ret l) as El.
  { eapply findFiles_lines; [done|]. apply Forall_forall. intros p (H & Hu & _)%Hin. by apply Hnames. }
  destruct (remove_files l fs Hnd) as [Hrd Hrf]; [intros p Hp; by apply Hin|].
  unfold cleanup. rewrite El, bind_ret_l. eexists. split; [done|].
  set (fs1 := foldl _ fs l) in *.
  assert (∀ p, under tmp p → fs_files fs1 !! p = None) as Hgone.
  { intros p Hu. rewrite Hrf. case_decide as Hp; [done|]. destruct (fs_files fs !! p) as [d|] eqn:Ep; [|done].
    destruct Hp. apply Hin. rewrite Ep. split_and!; [by eexists|done|]. apply Hmr, Hnames; [done|by rewrite Ep; eexists]. }
  unfold os_Remove. rewrite decide_False by (rewrite Hrf, Hfile; case_decide; by intros [? ?]).
  destruct (existsb _ _) eqn:Ex; cbn [fs_dirs fs_files].
  - exfalso. apply existsb_exists in Ex as (p & [Hp|Hp]%list_elem_of_In%elem_of_app & Hu).
    + apply list_elem_of_fmap in Hp as ([q d] & -> & Hq%elem_of_map_to_list). apply underb_spec in Hu.
      by rewrite Hgone in Hq.
    + apply elem_of_elements in Hp. rewrite Hrd in Hp. by rewrite Hdirs in Hu.
  - rewrite Hrd. split; [done|]. intros p. split; [apply Hgone|]. intros Hu. rewrite Hrf. rewrite decide_False; [done|].
    intros Hp. by apply Hin in Hp as (_ & Hp & _).
Qed.

Section app.
Context (mapf : string → string → list KeyValue) (reducef : string → list string → string).
Context (sort_Sort : list KeyValue → list KeyValue) (range_order : list Z → list Z).
Context (dir : string) (files : list string) (content : string → string).
Context (Hrange : ∀ ps, range_order ps ≡ₚ ps) (Hsort : sorts_by_key sort_Sort).
Context (Hblind : order_blind reducef) (Hclean : ∀ f, f ∈ files → Forall clean (mapf f (content f))).

(** The test's own files are none of the job's. *)
Definition test_file (n : string) : Prop :=
  is_name n ∧ job_name n = true ∧ (∀ i, n ≠ map_name i) ∧ ∀ q, n ≠ out_name q.

Lemma test_file_new n : test_file n → tmp ≠ dir → ¬ written dir tmp (path_Join tmp n).
Proof.
  intros (Hn & _ & Hm & Ho) Hne [[Hd _]|[[i E]|[q E]]].
  - rewrite path_Dir_Join in Hd by done. done.
  - apply path_Join_inj in E as [_ E]; auto with mr. by apply (Hm i).
  - apply path_Join_inj in E as [_ E]; auto with mr. by apply (Ho q).
Qed.

Definition correct_lines : list string :=
  reduce_lines reducef (sort_Sort (all_kvs mapf files content)).

Lemma mkCorrectOutput_spec fs out :
  setting dir tmp files content fs → test_file out → (∀ p, under tmp p → fs_files fs !! p = None) →
  ∃ fs', mkCorrectOutput sort_prog tmp mapf reducef sort_Sort files out fs = Ret fs' ∧
    fs_dirs fs' = fs_dirs fs ∧
    (∀ p, p ≠ path_Join tmp out → fs_files fs' !! p = fs_files fs !! p) ∧
    fs_files fs' !! path_Join tmp out = Some (sort_prog [concat_str correct_lines]).
Proof.
  intros Hs Ht Hempty. unfold mkCorrectOutput, run_mrsequential.
  assert ((λ f, (f, fs_files fs !! f)) <$> files = (λ f, (f, Some (content f))) <$> files) as ->.
  { apply list_fmap_ext. intros i f Hf. f_equal. apply (st_input _ _ _ _ _ Hs), list_elem_of_lookup. by exists i. }
  rewrite sequential_lines, !bind_ret_l. change "mr-out-0" with (out_name 0).
  set (text := concat_str (reduce_lines reducef (sort_Sort (all_kvs mapf files content)))).
  set (seq_out := path_Join tmp (out_name 0)). set (fs1 := fs_write seq_out text fs).
  assert (setting dir tmp files content fs1) as Hs1.
  { apply (setting_keeps _ _ _ _ _ _ Hs); [apply fs_write_dirs|]. intros p Hp. apply fs_write_other.
    intros ->. apply Hp, written_out. }
  destruct (tmp_file _ _ _ _ _ Hs (out_name_ok 0) (out_name_job 0)) as [Hd Hnd].
  assert (fs_files fs1 !! seq_out = Some text) as Htext by (by apply fs_write_there).
  assert (path_Join tmp out ≠ seq_out) as Hne.
  { intros E. apply path_Join_inj in E as [_ E]; [by apply Ht in E|apply Ht|apply out_name_ok]. }
  destruct (sort_into_spec fs1 dir files content out [seq_out] [text] Hs1) as (fs2 & -> & [Hd2 Hf2] & Hout);
    [apply Ht..|by rewrite list_elem_of_singleton|by repeat constructor|].
  assert (fs_files fs2 !! seq_out = Some text) as Htext2.
  { rewrite Hf2; [done|]. by rewrite list_elem_of_singleton. }
  rewrite bind_ret_l, decide_True by eauto. eexists. split; [done|].
  unfold os_Remove. rewrite decide_True by eauto. cbn. split_and!.
  - rewrite Hd2. apply fs_write_dirs.
  - intros p Hp. destruct (decide (p = seq_out)) as [->|Hp'].
    + rewrite lookup_delete_eq. symmetry. apply Hempty. exists (out_name 0). by apply path_Join_name, out_name_ok.
    + rewrite lookup_delete_ne by done. rewrite Hf2 by (by rewrite list_elem_of_singleton). by apply fs_write_other.
  - by rewrite lookup_delete_ne.
Qed.

(** What the job may not find in its way: the directories are there, [dir] is not below [tmp],
    and below [tmp] lies only the sequential program's sorted output. *)
Record test_setting (correct : string) (fs : FS) : Prop := {
  ts_set : setting dir tmp files content fs;
  ts_apart : ¬ under tmp dir;
  ts_file : test_file correct;
  ts_only p : under tmp p → p ≠ path_Join tmp correct → fs_files fs !! p = None
}.

Lemma under_Join n : is_name n → under tmp (path_Join tmp n).
Proof. intros Hn. exists n. by apply path_Join_name, Hn. Qed.

Lemma test_fresh correct fs : test_setting correct fs → fresh_outputs tmp fs.
Proof.
  intros [_ _ Hc Ho] q. apply Ho; [apply under_Join, out_name_ok|]. intros E.
  apply path_Join_inj in E as [_ E]; [|apply out_name_ok|apply Hc]. destruct Hc as (_ & _ & _ & Hc). by destruct (Hc q).
Qed.

Lemma outputs_only correct fs fs' p :
  test_setting correct fs → (∀ p, ¬ written dir tmp p → fs_files fs' !! p = fs_files fs !! p) →
  is_Some (fs_files fs' !! p) → under tmp p → fnmatch "mr-out-[0-9]" (path_Base p) = true →
  ∃ q, 0 ≤ q ≤ 9 ∧ p = path_Join tmp (out_name q).
Proof.
  intros [Hs Ha Hc Ho] Hf Hp Hu Hm. apply Hpat in Hm as (q & Hq & Hb). exists q. split; [done|].
  destruct (decide (p = path_Join tmp (out_name q))) as [|Hne]; [done|]. exfalso.
  assert (¬ written dir tmp p) as Hw.
  { intros [[Hd _]|[[i E]|[q' E]]].
    - destruct (under_Dir tmp p Hu) as [E|E]; rewrite Hd in E; [|done]. by apply (st_apart _ _ _ _ _ Hs).
    - rewrite E, path_Base_Join in Hb by auto with mr. by apply map_name_ne_out in Hb.
    - rewrite E, path_Base_Join in Hb by auto with mr. rewrite Hb in E. done. }
  rewrite (Hf p Hw), Ho in Hp; [by destruct Hp|done|]. intros ->. rewrite path_Base_Join in Hb by apply Hc.
  destruct Hc as (_ & _ & _ & Hc). by apply Hc in Hb.
Qed.

Lemma outputs_found fs (ps : list Z) (text : Z → string) :
  tmp ∈ fs_dirs fs → NoDup ps → (∀ q, q ∈ ps → 0 ≤ q ≤ 9) →
  (∀ q data, fs_files fs !! path_Join tmp (out_name q) = Some data ↔ q ∈ ps ∧ data = text q) →
  (∀ p, is_Some (fs_files fs !! p) → under tmp p → fnmatch "mr-out-[0-9]" (path_Base p) = true →
     ∃ q, 0 ≤ q ≤ 9 ∧ p = path_Join tmp (out_name q)) →
  ∃ l, findFiles find tmp "mr-out-[0-9]" fs = Ret l ∧ l ≡ₚ (λ q, path_Join tmp (out_name q)) <$> ps.
Proof.
  intros Hd Hnd Hps Htext Honly. destruct (Hfind tmp "mr-out-[0-9]" fs Hd) as (l & E & Hl & Hin). exists l.
  assert (∀ p, p ∈ l ↔ p ∈ (λ q, path_Join tmp (out_name q)) <$> ps) as Hiff.
  { intros p. rewrite Hin, list_elem_of_fmap. split.
    - intros ([d Hp] & Hu & Hm). destruct (Honly p ltac:(eauto) Hu Hm) as (q & Hq & ->). exists q. split; [done|].
      by apply Htext in Hp as [Hp _].
    - intros (q & -> & Hq). split_and!; [|apply under_Join, out_name_ok|].
      + exists (text q). by apply Htext.
      + apply Hpat. exists q. rewrite path_Base_Join by auto with mr. auto. }
  split.
  - eapply findFiles_lines; [done|]. apply Forall_forall. intros p Hp. apply Hiff, list_elem_of_fmap in Hp as (q & -> & Hq).
    by apply printable_out, Hps.
  - apply NoDup_Permutation; [done| |done]. apply NoDup_fmap_2_strong; [|done]. intros q q' _ _ Eq.
    apply path_Join_inj in Eq as [_ Eq]; auto with mr. by apply out_name_inj.
Qed.

Lemma job_inv_files oI s p fs :
  job_inv mapf sort_Sort range_order dir tmp files content 10 fs oI s → ¬ written dir tmp p →
  fs_files (mr_fs s) !! p = fs_files fs !! p.
Proof. intros Hs. by apply Hs. Qed.

Lemma lines_agree I :
  Forall clean I → I ≡ₚ all_kvs mapf files content →
  (out_text reducef sort_Sort 10 I <$> part_ids sort_Sort range_order 10 I) ≫= text_lines ≡ₚ
    [concat_str correct_lines] ≫= text_lines.
Proof.
  intros HI Hp. assert (∀ l, Forall whole (reduce_lines reducef l)) as Hw.
  { intros l. apply Forall_fmap, Forall_true. intros g. apply whole_format. }
  cbn [mbind list_bind]. rewrite app_nil_r, text_lines_concat by apply Hw. unfold correct_lines.
  rewrite <- (outputs_sequential mapf reducef sort_Sort range_order files content 10 Hrange Hsort eq_refl Hblind I HI Hp).
  set (ps := part_ids sort_Sort range_order 10 I). induction ps as [|p ps IH]; [done|].
  rewrite !fmap_cons. cbn [mbind list_bind concat]. rewrite bind_app. apply Permutation_app; [|exact IH].
  unfold out_text. by rewrite text_lines_concat by apply Hw.
Qed.

Lemma parts_some I :
  Forall clean I → I ≡ₚ all_kvs mapf files content → all_kvs mapf files content ≠ [] →
  part_ids sort_Sort range_order 10 I ≠ [].
Proof.
  intros HI Hp Hne E.
  pose proof (outputs_sequential mapf reducef sort_Sort range_order files content 10 Hrange Hsort eq_refl Hblind I HI Hp) as H.
  rewrite E in H. apply Permutation_nil_l in H. unfold reduce_lines in H. symmetry in H. apply fmap_nil_inv in H.
  destruct (Hsort (all_kvs mapf files content)) as [Hperm _].
  destruct (sort_Sort (all_kvs mapf files content)) as [|kv l]; [by apply Permutation_nil_l in Hperm; congruence|].
  unfold groups in H. cbn in H. by destruct (take_run _ _).
Qed.

Lemma merge_passes correct all oI s now' fs1 msg :
  test_setting correct fs1 → test_file all → all ≠ correct → all_kvs mapf files content ≠ [] →
  fs_files fs1 !! path_Join tmp correct = Some (sort_prog [concat_str correct_lines]) →
  job_inv mapf sort_Sort range_order dir tmp files content 10 fs1 oI s →
  good_opt reducef sort_Sort dir tmp 10 oI s →
  (∀ pid w, mr_busy s !! pid = Some w → half_copied w = false) →
  (Done now' (mr_coord s)).2 = true →
  Forall (λ t, t_Status t ≠ "skipped") (Tasks (Done now' (mr_coord s)).1) →
  ∃ fs2, mergeOutput find sort_prog tmp all (mr_fs s) = Ret fs2 ∧ runCmp cmp_prog tmp all correct msg fs2 = Ret tt.
Proof.
  intros Hset Hall Hne Hkvs Hcorrect Hs Hg Hhalf Hd Hns.
  destruct (job_end mapf reducef sort_Sort range_order dir tmp files content 10 Hrange Hsort fs1 oI s now' Hs Hg Hhalf Hd Hns)
    as (I & HI & Hp & Hout).
  set (ps := part_ids sort_Sort range_order 10 I) in *.
  destruct (outputs_found (mr_fs s) ps (out_text reducef sort_Sort 10 I)) as (l & El & Hl).
  { apply (st_tmp _ _ _ _ _ (ji_set _ _ _ _ _ _ _ _ _ _ _ Hs)). }
  { by apply part_ids_NoDup. }
  { intros q Hq. enough (0 ≤ q < 10) by lia. by apply (part_id_range sort_Sort range_order 10 Hrange eq_refl I). }
  { exact Hout. }
  { intros p Hp' Hu Hm. eapply (outputs_only correct fs1); [done| |done..]. intros p' Hw. by apply (job_inv_files oI). }
  assert (Forall2 (λ p d, fs_files (mr_fs s) !! p = Some d) ((λ q, path_Join tmp (out_name q)) <$> ps)
            (out_text reducef sort_Sort 10 I <$> ps)) as Hts.
  { apply Forall2_fmap, Forall_Forall2_diag, Forall_forall. intros q Hq. by apply Hout. }
  destruct (Permutation_Forall2 (symmetry Hl) Hts) as (ts & Hpt & Htl).
  assert (path_Join tmp all ∉ l) as Hnew.
  { rewrite Hl. intros (q & E & _)%list_elem_of_fmap. apply path_Join_inj in E as [_ E]; [|apply Hall|apply out_name_ok].
    destruct Hall as (_ & _ & _ & Hall). by destruct (Hall q). }
  destruct (sort_into_spec (mr_fs s) dir files content all l ts (ji_set _ _ _ _ _ _ _ _ _ _ _ Hs)) as (fs2 & E2 & [_ Hf2] & Hsum);
    [apply Hall..|done|done|].
  exists fs2. split.
  - unfold mergeOutput. rewrite El, bind_ret_l. rewrite decide_False; [done|].
    rewrite Hl, length_fmap. pose proof (parts_some I HI Hp Hkvs) as Hps. fold ps in Hps.
    destruct ps; [done|cbn; lia].
  - unfold runCmp. rewrite Hsum, Hf2.
    + rewrite (job_inv_files oI s _ fs1 Hs), Hcorrect by (apply test_file_new; [apply Hset|apply (ts_set _ _ Hset)]).
      rewrite (proj2 (Hcmp _ _)); [done|]. apply Hsp. rewrite <- Hpt. by apply lines_agree.
    + intros E%list_elem_of_singleton. apply path_Join_inj in E as [_ E]; [done|apply Hset|apply Hall].
Qed.
End app.
End tests.

(** C24: the tests [TestWc], [TestIndexer] and [TestCrashWorker], from the sequential program's
    output to the comparison, for applications whose keys and values hold no space and no
    newline and whose Reduce does not mind the order of its values, and input files that give
    some pair. [mkCorrectOutput] succeeds; then no run of the job panics, and when the
    coordinator is done, no task given up and the run [undisturbed] (no two workers in each
    other's output files, see [MRFiles]), [mergeOutput] finds every output file and the
    comparison passes, whatever else times out, is done twice, is reported late or dies.
    [find], [sort] and [cmp] do what their manuals say. *)
Theorem mr_test_passes find sort_prog cmp_prog fnmatch mapf reducef sort_Sort range_order
    dir tmp files content correct all msg fs0 :
  find_law fnmatch find → out_pattern fnmatch → sort_law sort_prog → cmp_law cmp_prog →
  (∀ ps, range_order ps ≡ₚ ps) → sorts_by_key sort_Sort → order_blind reducef →
  (∀ f, f ∈ files → Forall clean (mapf f (content f))) → all_kvs mapf files content ≠ [] →
  printable tmp → setting dir tmp files content fs0 → ¬ under tmp dir →
  (∀ p, under tmp p → fs_files fs0 !! p = None) →
  test_file correct → test_file all → all ≠ correct →
  ∃ fs1, mkCorrectOutput sort_prog tmp mapf reducef sort_Sort files correct fs0 = Ret fs1 ∧
    ∀ es now now', Forall (in_tmp tmp) es →
    ∃ r, runMR mapf reducef sort_Sort range_order dir files es now now' fs1 = Ret r ∧
      ∀ s, r = Some s → Forall (λ t, t_Status t ≠ "skipped") (Tasks (mr_coord s)) →
      undisturbed mapf reducef sort_Sort range_order es (mr_init dir now files 10 fs1) = true →
      ∃ fs2, mergeOutput find sort_prog tmp all (mr_fs s) = Ret fs2 ∧
        runCmp cmp_prog tmp all correct msg fs2 = Ret tt.
Proof.
  intros Hfind Hpat Hsp Hcmp Hr Hsort Hb Hc Hkvs Htmp Hset Hapart Hempty Hcor Hall Hne.
  destruct (mkCorrectOutput_spec sort_prog tmp mapf reducef sort_Sort dir files content fs0 correct Hset Hcor Hempty)
    as (fs1 & E1 & Hdirs & Hfs & Hcorrect).
  exists fs1. split; [exact E1|]. intros es now now' Hes.
  assert (test_setting tmp dir files content correct fs1) as Hts.
  { split; [|done|done|by intros p Hu Hp; rewrite Hfs by done; auto].
    destruct Hset as [H1 H2 H3 H4 H5 H6]. split; rewrite ?Hdirs; auto. intros f Hf.
    destruct (H6 f Hf) as (? & ? & Hin). split_and!; [done..|]. rewrite Hfs; [done|]. intros ->.
    rewrite Hempty in Hin; [done|]. apply under_Join, Hcor. }
  pose proof (ts_set _ _ _ _ _ _ Hts) as Hset1.
  pose proof (job_init mapf sort_Sort range_order dir tmp files content 10 Hc fs1 now Hset1
                (test_fresh _ _ _ _ _ _ Hts)) as Hi.
  destruct (job_run mapf reducef sort_Sort range_order dir tmp files content 10 Hr Hsort eq_refl Hc fs1 es _ _ Hi Hes)
    as (s & oI & Hrun & Hs & Hgood).
  pose proof (merge_passes find sort_prog cmp_prog fnmatch Hfind Hsp Hcmp Hpat tmp Htmp mapf reducef sort_Sort range_order
    dir files content Hr Hsort Hb correct all oI s now' fs1 msg Hts Hall Hne Hkvs Hcorrect Hs) as Hmerge.
  unfold runMR. rewrite Hrun, bind_ret_l. destruct (Done now' (mr_coord s)) as [c []]; eexists; (split; [done|]); [|done].
  intros s' [= <-] Hns Hu. destruct (Hgood Hu) as [Hg Hhalf]; [by intros J ?|]. by apply Hmerge.
Qed.

(** ** The programs, as some functions *)

Definition digit_outputs (pat n : string) : bool := existsb (λ q, bool_decide (n = out_name q)) (seqZ 0 10).

Definition toy_find (dir pat : string) (fs : FS) : option string :=
  Some (concat_str (with_nl <$> filter (λ p, underb dir p && digit_outputs pat (path_Base p) = true)
                                  ((map_to_list (fs_files fs)).*1))).

Definition toy_sort (ts : list string) : string := concat_str (with_nl <$> sort_Strings (ts ≫= text_lines)).

Lemma toy_find_law : find_law digit_outputs toy_find.
Proof.
  intros dir pat fs _. eexists. split; [done|]. split.
  - apply NoDup_filter, NoDup_fst_map_to_list.
  - intros p. rewrite list_elem_of_filter, andb_true_iff, underb_spec, list_elem_of_fmap.
    assert (is_Some (fs_files fs !! p) ↔ ∃ y, p = y.1 ∧ y ∈ map_to_list (fs_files fs)) as ->; [|tauto].
    split; [intros [d Hd]; exists (p, d); by rewrite elem_of_map_to_list|].
    intros ([q d] & -> & Hin%elem_of_map_to_list). by exists d.
Qed.

Lemma digit_outputs_pattern : out_pattern digit_outputs.
Proof.
  intros n. unfold digit_outputs. rewrite existsb_exists. split.
  - intros (q & Hq%list_elem_of_In%elem_of_seqZ & E%bool_decide_eq_true). exists q. split; [lia|done].
  - intros (q & Hq & ->). exists q. split; [|by apply bool_decide_eq_true]. apply list_elem_of_In, elem_of_seqZ. lia.
Qed.

Lemma toy_sort_law : sort_law toy_sort.
Proof. intros ts us H. unfold toy_sort. by rewrite (sort_Strings_perm _ _ H). Qed.

Lemma eqb_cmp_law : cmp_law String.eqb.
Proof. intros a b. apply String.eqb_eq. Qed.

Lemma wc_test_file n : test_file ("mr-wc-" +:+ n) ↔ contains slash n = false.
Proof.
  split.
  - intros ((_ & H) & _). rewrite contains_append in H. done.
  - intros Hn. split_and!; [by apply contains_prefix_name|by apply (prefix_append "mr-" ("wc-" +:+ n))| |].
    + intros i E. change ("mr-wc-" +:+ n) with ("mr-" +:+ ("wc-" +:+ n)) in E. apply append_inj_r in E.
      pose proof (pretty_nat_digit i) as Hd. rewrite <- E in Hd. done.
    + intros q E. discriminate E.
Qed.

Lemma mr_test_passes_witness :
  ∃ fs1, mkCorrectOutput toy_sort "/tmp" word_map wc_Reduce (merge_sort by_key) ["/in/a"; "/in/b"]
           "mr-wc-correct.txt" main_and_tmp = Ret fs1 ∧
  ∃ s fs2, runMR word_map wc_Reduce (merge_sort by_key) id "/main" ["/in/a"; "/in/b"] crash_and_redo 0 (18 * sec) fs1 =
             Ret (Some s) ∧
    mergeOutput toy_find toy_sort "/tmp" "mr-wc-all.txt" (mr_fs s) = Ret fs2 ∧
    runCmp String.eqb "/tmp" "mr-wc-all.txt" "mr-wc-correct.txt" "incorrect" fs2 = Ret tt.
Proof.
  destruct (mr_test_passes toy_find toy_sort String.eqb digit_outputs word_map wc_Reduce (merge_sort by_key) id
    "/main" "/tmp" ["/in/a"; "/in/b"] toy_content "mr-wc-correct.txt" "mr-wc-all.txt" "incorrect" main_and_tmp
    toy_find_law digit_outputs_pattern toy_sort_law eqb_cmp_law (λ ps, reflexivity ps) merge_sort_by_key wc_Reduce_blind)
    as (fs1 & E1 & Hrun).
  - intros f Hf. repeat (apply elem_of_cons in Hf as [-> |Hf]; [by repeat constructor|]). by apply elem_of_nil in Hf.
  - discriminate.
  - by split.
  - apply main_and_tmp_setting.
  - intros [n E]. discriminate E.
  - intros p [n ->]. cbn [fs_files main_and_tmp]. apply lookup_insert_None. split; [apply lookup_singleton_ne|]; intros E; discriminate E.
  - by apply (wc_test_file "correct.txt").
  - by apply (wc_test_file "all.txt").
  - discriminate.
  - exists fs1. split; [exact E1|].
    destruct (Hrun crash_and_redo 0 (18 * sec)) as (r & Er & Hr); [by repeat constructor|].
    assert ((fs1 ← mkCorrectOutput toy_sort "/tmp" word_map wc_Reduce (merge_sort by_key) ["/in/a"; "/in/b"]
                    "mr-wc-correct.txt" main_and_tmp;
             r ← runMR word_map wc_Reduce (merge_sort by_key) id "/main" ["/in/a"; "/in/b"] crash_and_redo 0 (18 * sec) fs1;
             Ret (match r with
                  | Some s => forallb (λ t, negb (bool_decide (t_Status t = "skipped"))) (Tasks (mr_coord s))
                  | None => false
                  end)) = Ret true) as E by (vm_compute; reflexivity).
    rewrite E1, bind_ret_l, Er, bind_ret_l in E. destruct r as [s|]; [|discriminate E]. injection E as Hns.
    destruct (Hr s eq_refl) as (fs2 & Hm & Hc).
    { apply Forall_forall. intros t Ht. rewrite forallb_forall in Hns. apply list_elem_of_In, Hns in Ht.
      by apply negb_true_iff, bool_decide_eq_false in Ht. }
    { assert ((fs1 ← mkCorrectOutput toy_sort "/tmp" word_map wc_Reduce (merge_sort by_key) ["/in/a"; "/in/b"]
                      "mr-wc-correct.txt" main_and_tmp;
               Ret (undisturbed word_map wc_Reduce (merge_sort by_key) id crash_and_redo
                      (mr_init "/main" 0 ["/in/a"; "/in/b"] 10 fs1))) = Ret true) as E' by (vm_compute; reflexivity).
      rewrite E1, bind_ret_l in E'. by injection E'. }
    exists s, fs2. split; [exact Er|]. split; [exact Hm|exact Hc].
Defined.
