(* ===== verification/LabRpc.v ===== *)
(** * The simulated network

    [src/src/labrpc/labrpc.go]: end points, servers and services, and the life of one request
    from [Call] to its reply.  The network's maps are guarded by [rn.mu], so an operation is
    one function on the network; [processReq] runs without the lock and is cut into sections
    where it sleeps, waits or takes the lock, with the handler's thread beside it.

    A pointer to a [Server] is a number into the servers' heap; names are strings.  What a
    service's methods do is a function of the type [handler] on the application's state
    [St]: decoding the arguments, the call and encoding the reply.  Random numbers and which
    case of a select fires are arguments of a section.  The encoding itself ([Marshall],
    [Unmarshall]) is [encoding/gob] behind [labgob]. *)
From Stdlib Require Import Ascii.
From stdpp Require Import base tactics numbers list fin_maps gmap strings.
From S2P Require Import Prelude GoStrings.

Definition SHORTDELAY : Z := 27.
Definition LONGDELAY : Z := 7000.
Definition MAXDELAY : Z := LONGDELAY + 100.

Abbreviation bytes := (list Z) (only parsing).

Record reqMsg := { rq_endname : string; rq_svcMeth : string; rq_args : bytes }.
Record replyMsg := { rp_ok : bool; rp_reply : bytes }.

(** [replyMsg{false, nil}] *)
Definition no_reply : replyMsg := {| rp_ok := false; rp_reply := [] |}.

#[export] Instance replyMsg_eq_dec : EqDecision replyMsg.
Proof. solve_decision. Defined.

(** [req.svcMeth[:dot]] and [req.svcMeth[dot+1:]] for the last dot; slicing up to -1 panics. *)
Definition dot : ascii := ".".
Definition split_method (svcMeth : string) : outcome (string * string) :=
  let parts := strings_Split svcMeth dot in
  if decide (length parts < 2)%nat then Panic "slice bounds out of range"
  else Ret (join_with "." (removelast parts), List.last parts "").

Section labrpc.
Context {St : Type}.

Definition handler := bytes → St → outcome (St * bytes).

(** ** Services and servers *)

(** What reflection tells about a method of the receiver's type. *)
Record Method := {
  me_Name : string; me_PkgPath : string; me_NumIn : Z; me_ReplyIsPtr : bool; me_NumOut : Z;
  me_Func : handler
}.

Record Service := { sv_name : string; sv_methods : gmap string handler }.

Definition suitable (m : Method) : bool :=
  negb (bool_decide (me_PkgPath m ≠ "") || bool_decide (me_NumIn m ≠ 3) ||
        negb (me_ReplyIsPtr m) || bool_decide (me_NumOut m ≠ 0)).

Definition MakeService (name : string) (ms : list Method) : Service :=
  {| sv_name := name;
     sv_methods := foldl (λ M m, if suitable m then <[me_Name m := me_Func m]> M else M) ∅ ms |}.

Definition Service_dispatch (svc : Service) (methname : string) (req : reqMsg) (st : St)
    : outcome (St * replyMsg) :=
  match sv_methods svc !! methname with
  | Some f => '(st, b) ← f (rq_args req) st; Ret (st, {| rp_ok := true; rp_reply := b |})
  | None => Fatal ("labrpc.Service.dispatch(): unknown method " +:+ methname)
  end.

Record Server := {
  se_services : gmap string Service;
  se_count : Z;
  se_dispatchf : option (string → bytes → St → outcome (St * (bytes * bool)))
}.
#[export] Instance eta_Server : Eta Server := λ s,
  {| se_services := se_services s; se_count := se_count s; se_dispatchf := se_dispatchf s |}.

Definition MakeServer : Server := {| se_services := ∅; se_count := 0; se_dispatchf := None |}.

Definition AddService (svc : Service) (rs : Server) : Server :=
  rs <| se_services := <[sv_name svc := svc]> (se_services rs) |>.

Definition SetDispatch (f : string → bytes → St → outcome (St * (bytes * bool))) (rs : Server) : Server :=
  rs <| se_dispatchf := Some f |>.

Definition Server_dispatch (req : reqMsg) (rs : Server) (st : St)
    : outcome (Server * St * replyMsg) :=
  let rs := rs <| se_count := i64 (se_count rs + 1) |> in
  '(serviceName, methodName) ← split_method (rq_svcMeth req);
  match se_dispatchf rs with
  | Some f =>
      '(st, (rep, ok)) ← f (rq_svcMeth req) (rq_args req) st;
      Ret (rs, st, {| rp_ok := ok; rp_reply := rep |})
  | None =>
      match se_services rs !! serviceName with
      | Some service =>
          '(st, r) ← Service_dispatch service methodName req st;
          Ret (rs, st, r)
      | None => Fatal ("labrpc.Server.dispatch(): unknown service " +:+ serviceName)
      end
  end.

(** [Dispatch], the entry for a server that runs in a daemon of its own. *)
Definition Server_Dispatch (svcMeth clnt : string) (args : bytes) (rs : Server) (st : St)
    : outcome (Server * St * (bytes * bool)) :=
  '(rs, st, rep) ← Server_dispatch {| rq_endname := clnt; rq_svcMeth := svcMeth; rq_args := args |} rs st;
  Ret (rs, st, (rp_reply rep, rp_ok rep)).

(** ** The network *)

(** [connections] holds nil for an end that is not connected, [servers] nil for a deleted
    server; reading a missing key gives nil too. *)
Record Network := {
  nw_reliable : bool; nw_longDelays : bool; nw_longReordering : bool;
  nw_ends : gset string;
  nw_enabled : gmap string bool;
  nw_servers : gmap string (option nat);
  nw_connections : gmap string (option string);
  nw_count : Z; nw_bytes : Z; nw_done : bool
}.
#[export] Instance eta_Network : Eta Network := λ n,
  {| nw_reliable := nw_reliable n; nw_longDelays := nw_longDelays n;
     nw_longReordering := nw_longReordering n; nw_ends := nw_ends n; nw_enabled := nw_enabled n;
     nw_servers := nw_servers n; nw_connections := nw_connections n; nw_count := nw_count n;
     nw_bytes := nw_bytes n; nw_done := nw_done n |}.

Definition MakeNetwork : Network :=
  {| nw_reliable := true; nw_longDelays := false; nw_longReordering := false; nw_ends := ∅;
     nw_enabled := ∅; nw_servers := ∅; nw_connections := ∅; nw_count := 0; nw_bytes := 0;
     nw_done := false |}.

Definition Network_Cleanup (rn : Network) : Network := rn <| nw_done := true |>.
Definition Reliable (yes : bool) (rn : Network) : Network := rn <| nw_reliable := yes |>.
Definition IsReliable (rn : Network) : bool := nw_reliable rn.
Definition LongReordering (yes : bool) (rn : Network) : Network := rn <| nw_longReordering := yes |>.
Definition LongDelays (yes : bool) (rn : Network) : Network := rn <| nw_longDelays := yes |>.
Definition IsLongDelays (rn : Network) : bool := nw_longDelays rn.

Definition MakeEnd (endname : string) (rn : Network) : outcome Network :=
  if decide (endname ∈ nw_ends rn) then Fatal "MakeEnd: already exists"
  else Ret (rn <| nw_ends := {[endname]} ∪ nw_ends rn |>
               <| nw_enabled := <[endname := false]> (nw_enabled rn) |>
               <| nw_connections := <[endname := None]> (nw_connections rn) |>).

Definition LookupEnd (endname : string) (rn : Network) : outcome string :=
  if decide (endname ∈ nw_ends rn) then Ret endname else Fatal "MakeEnd: doesn't exists".

Definition DeleteEnd (endname : string) (rn : Network) : outcome Network :=
  if decide (endname ∈ nw_ends rn) then
    Ret (rn <| nw_ends := nw_ends rn ∖ {[endname]} |>
            <| nw_enabled := delete endname (nw_enabled rn) |>
            <| nw_connections := delete endname (nw_connections rn) |>)
  else Fatal "MakeEnd: doesn't exists".

Definition AddServer (servername : string) (rs : nat) (rn : Network) : Network :=
  rn <| nw_servers := <[servername := Some rs]> (nw_servers rn) |>.
Definition DeleteServer (servername : string) (rn : Network) : Network :=
  rn <| nw_servers := <[servername := None]> (nw_servers rn) |>.
Definition Connect (endname servername : string) (rn : Network) : Network :=
  rn <| nw_connections := <[endname := Some servername]> (nw_connections rn) |>.
Definition Enable (endname : string) (enabled : bool) (rn : Network) : Network :=
  rn <| nw_enabled := <[endname := enabled]> (nw_enabled rn) |>.

Definition enabled_of (rn : Network) (endname : string) : bool :=
  default false (nw_enabled rn !! endname).
Definition server_of (rn : Network) (servername : string) : option nat :=
  default None (nw_servers rn !! servername).
Definition connection_of (rn : Network) (endname : string) : option string :=
  default None (nw_connections rn !! endname).

(** Dereferencing the nil pointer of a deleted server panics. *)
Definition GetCount (servername : string) (srvs : gmap nat Server) (rn : Network) : outcome Z :=
  match server_of rn servername ≫= λ p, srvs !! p with
  | Some svr => Ret (se_count svr)
  | None => Panic "nil pointer dereference"
  end.
Definition GetTotalCount (rn : Network) : Z := nw_count rn.
Definition GetTotalBytes (rn : Network) : Z := nw_bytes rn.

(** What [processReq] reads under the lock at its start. *)
Record binding := {
  bi_enabled : bool; bi_servername : option string; bi_server : option nat;
  bi_reliable : bool; bi_longreordering : bool
}.

Definition readEndnameInfo (rn : Network) (endname : string) : binding :=
  let servername := connection_of rn endname in
  {| bi_enabled := enabled_of rn endname; bi_servername := servername;
     bi_server := servername ≫= server_of rn;
     bi_reliable := nw_reliable rn; bi_longreordering := nw_longReordering rn |}.

Definition isServerDead (rn : Network) (endname servername : string) (server : nat) : bool :=
  negb (enabled_of rn endname) || bool_decide (server_of rn servername ≠ Some server).

(** ** One request *)

(** The thread that runs the handler, on the server it was started for; it goes on when
    [processReq] has given up waiting for it. *)
Inductive handler_pc := HNone | HRunning (sid : nat) | HDone (r : replyMsg).

(** [processReq]: not begun, past the short delay, in the loop that waits for the handler,
    past the loop, waiting out a long reordering delay or the delay of a dead end, and the
    reply sent to the caller. *)
Inductive req_pc :=
  | RqStart
  | RqBefore (sn : string) (sid : nat) (reliable longreordering : bool)
  | RqWaiting (sn : string) (sid : nat) (reliable longreordering : bool)
  | RqCheck (sn : string) (sid : nat) (reliable longreordering : bool) (r : option replyMsg)
  | RqDelayed (r : replyMsg)
  | RqDead
  | RqSent (r : replyMsg).

Record request := { rs_msg : reqMsg; rs_pc : req_pc; rs_handler : handler_pc }.
#[export] Instance eta_request : Eta request := λ r,
  {| rs_msg := rs_msg r; rs_pc := rs_pc r; rs_handler := rs_handler r |}.

(** [nt_loop] says that the loop of [MakeNetwork] still takes calls.  [nt_log] records, for every handler that ran, the request and its reply; no section reads
    it. *)
Record net := {
  nt_rn : Network; nt_srv : gmap nat Server; nt_st : St;
  nt_reqs : list request; nt_log : list (nat * replyMsg); nt_loop : bool
}.
#[export] Instance eta_net : Eta net := λ n,
  {| nt_rn := nt_rn n; nt_srv := nt_srv n; nt_st := nt_st n; nt_reqs := nt_reqs n;
     nt_log := nt_log n; nt_loop := nt_loop n |}.

(** A section of [processReq].  [r1] and [r2] are what [rand] returns; [timer] says that the
    100 ms timer of the select fires rather than the handler's channel. *)
Definition processReq_section (r1 r2 : Z) (timer : bool) (rn : Network) (q : request)
    : Network * request :=
  let e := rq_endname (rs_msg q) in
  match rs_pc q with
  | RqStart =>
      let b := readEndnameInfo rn e in
      match bi_enabled b, bi_servername b, bi_server b with
      | true, Some sn, Some sid =>
          (rn, q <| rs_pc := RqBefore sn sid (bi_reliable b) (bi_longreordering b) |>)
      | _, _, _ => (rn, q <| rs_pc := RqDead |>)
      end
  | RqBefore sn sid reliable lr =>
      if negb reliable && bool_decide (Z.rem r1 1000 < 100)
      then (rn, q <| rs_pc := RqSent no_reply |>)
      else (rn, q <| rs_pc := RqWaiting sn sid reliable lr |> <| rs_handler := HRunning sid |>)
  | RqWaiting sn sid reliable lr =>
      if timer then
        if isServerDead rn e sn sid then (rn, q <| rs_pc := RqCheck sn sid reliable lr None |>)
        else (rn, q)
      else
        match rs_handler q with
        | HDone r => (rn, q <| rs_pc := RqCheck sn sid reliable lr (Some r) |>)
        | _ => (rn, q)
        end
  | RqCheck sn sid reliable lr r =>
      let serverDead := isServerDead rn e sn sid in
      match r with
      | Some reply =>
          if serverDead then (rn, q <| rs_pc := RqSent no_reply |>)
          else if negb reliable && bool_decide (Z.rem r1 1000 < 100)
          then (rn, q <| rs_pc := RqSent no_reply |>)
          else if lr && bool_decide (r2 < 600) then (rn, q <| rs_pc := RqDelayed reply |>)
          else (rn <| nw_bytes := i64 (nw_bytes rn + zlen (rp_reply reply)) |>,
                q <| rs_pc := RqSent reply |>)
      | None => (rn, q <| rs_pc := RqSent no_reply |>)
      end
  | RqDelayed reply =>
      (rn <| nw_bytes := i64 (nw_bytes rn + zlen (rp_reply reply)) |>, q <| rs_pc := RqSent reply |>)
  | RqDead => (rn, q <| rs_pc := RqSent no_reply |>)
  | RqSent r => (rn, q)
  end.

Inductive config_op :=
  | OReliable (yes : bool) | OLongReordering (yes : bool) | OLongDelays (yes : bool)
  | OMakeEnd (e : string) | ODeleteEnd (e : string)
  | OAddServer (sn : string) (sid : nat) | ODeleteServer (sn : string)
  | OConnect (e sn : string) | OEnable (e : string) (yes : bool).

Definition config (op : config_op) (rn : Network) : outcome Network :=
  match op with
  | OReliable yes => Ret (Reliable yes rn)
  | OLongReordering yes => Ret (LongReordering yes rn)
  | OLongDelays yes => Ret (LongDelays yes rn)
  | OMakeEnd e => MakeEnd e rn
  | ODeleteEnd e => DeleteEnd e rn
  | OAddServer sn sid => Ret (AddServer sn sid rn)
  | ODeleteServer sn => Ret (DeleteServer sn rn)
  | OConnect e sn => Ret (Connect e sn rn)
  | OEnable e yes => Ret (Enable e yes rn)
  end.

Inductive net_event :=
  | NvConfig (op : config_op)
  | NvSend (req : reqMsg) (taken : bool)
  | NvLoopStops
  | NvStep (k : nat) (r1 r2 : Z) (timer : bool)
  | NvHandle (k : nat).

(** A call is taken by the loop of [MakeNetwork], or, once the network is closed, it may see
    [done] first and fail; [taken] is the choice of the select.  A handler is one step: what a
    service does between two of its own critical sections is in that service's model. *)
Definition net_step (e : net_event) (s : net) : outcome net :=
  match e with
  | NvConfig op => rn ← config op (nt_rn s); Ret (s <| nt_rn := rn |>)
  | NvLoopStops => Ret (if nw_done (nt_rn s) then s <| nt_loop := false |> else s)
  | NvSend req taken =>
      if negb (nt_loop s && (taken || negb (nw_done (nt_rn s)))) then Ret s
      else Ret (s <| nt_rn := (nt_rn s) <| nw_count := i32 (nw_count (nt_rn s) + 1) |>
                                        <| nw_bytes := i64 (nw_bytes (nt_rn s) + zlen (rq_args req)) |> |>
                  <| nt_reqs := nt_reqs s ++
                       [{| rs_msg := req; rs_pc := RqStart; rs_handler := HNone |}] |>)
  | NvStep k r1 r2 timer =>
      match nt_reqs s !! k with
      | None => Ret s
      | Some q =>
          let '(rn, q) := processReq_section r1 r2 timer (nt_rn s) q in
          Ret (s <| nt_rn := rn |> <| nt_reqs := <[k := q]> (nt_reqs s) |>)
      end
  | NvHandle k =>
      match nt_reqs s !! k with
      | None => Ret s
      | Some q =>
          match rs_handler q with
          | HRunning sid =>
              match nt_srv s !! sid with
              | None => Ret s
              | Some srv =>
                  '(srv, st, r) ← Server_dispatch (rs_msg q) srv (nt_st s);
                  Ret (s <| nt_srv := <[sid := srv]> (nt_srv s) |> <| nt_st := st |>
                         <| nt_reqs := <[k := q <| rs_handler := HDone r |>]> (nt_reqs s) |>
                         <| nt_log := nt_log s ++ [(k, r)] |>)
              end
          | _ => Ret s
          end
      end
  end.

Fixpoint net_run (es : list net_event) (s : net) : outcome net :=
  match es with
  | [] => Ret s
  | e :: es => s ← net_step e s; net_run es s
  end.

Definition net_init (rn : Network) (srv : gmap nat Server) (st : St) : net :=
  {| nt_rn := rn; nt_srv := srv; nt_st := st; nt_reqs := []; nt_log := []; nt_loop := true |}.

(** What [Call] and [Forward] make of the reply that arrives on [replyCh]. *)
Definition Call_finish {Rep} (Unmarshall : bytes → outcome Rep) (rep : replyMsg) : outcome (option Rep) :=
  if rp_ok rep then v ← Unmarshall (rp_reply rep); Ret (Some v) else Ret None.

Definition Forward_finish (rep : replyMsg) : bytes * bool := (rp_reply rep, rp_ok rep).

(** ** A call runs its handler at most once *)

Definition runs_of (k : nat) (l : list (nat * replyMsg)) : list (nat * replyMsg) :=
  filter (λ e, e.1 = k) l.

(** The reply a request has in hand or has delivered positively. *)
Definition carried (pc : req_pc) : option replyMsg :=
  match pc with
  | RqCheck _ _ _ _ r => r
  | RqDelayed r => Some r
  | RqSent r => if rp_ok r then Some r else None
  | _ => None
  end.

Definition not_handed (pc : req_pc) : bool :=
  match pc with RqStart | RqBefore _ _ _ _ => true | _ => false end.

Definition req_inv (k : nat) (q : request) (l : list (nat * replyMsg)) : Prop :=
  (not_handed (rs_pc q) → rs_handler q = HNone) ∧
  match rs_handler q with
  | HDone r => runs_of k l = [(k, r)] ∧ (carried (rs_pc q) = None ∨ carried (rs_pc q) = Some r)
  | _ => runs_of k l = [] ∧ carried (rs_pc q) = None
  end.

Definition dispatched (m : reqMsg) (r : replyMsg) : Prop :=
  ∃ srv st srv' st', Server_dispatch m srv st = Ret (srv', st', r).

Definition net_inv (s : net) : Prop :=
  (∀ k q, nt_reqs s !! k = Some q → req_inv k q (nt_log s)) ∧
  (∀ k r, (k, r) ∈ nt_log s → ∃ q, nt_reqs s !! k = Some q ∧ dispatched (rs_msg q) r).

Lemma processReq_section_inv r1 r2 timer rn q rn' q' k l :
  processReq_section r1 r2 timer rn q = (rn', q') → req_inv k q l →
  req_inv k q' l ∧ rs_msg q' = rs_msg q.
Proof.
  destruct q as [m pc h]. unfold processReq_section, req_inv. cbn.
  intros E [Hn Hh].
  repeat (case_match; simplify_eq/=; try (specialize (Hn I); simplify_eq/=));
    split; try done; naive_solver.
Qed.

Lemma runs_of_snoc k k' r l :
  runs_of k (l ++ [(k', r)]) = runs_of k l ++ (if decide (k' = k) then [(k', r)] else []).
Proof. unfold runs_of. rewrite filter_app, filter_cons, filter_nil. cbn. by repeat case_decide. Qed.

Lemma log_in_range s k r : net_inv s → (k, r) ∈ nt_log s → (k < length (nt_reqs s))%nat.
Proof. intros [_ Hl] (q & Hq & _)%Hl. by eapply lookup_lt_Some. Qed.

Lemma net_inv_send s m rn :
  net_inv s →
  net_inv (s <| nt_rn := rn |>
             <| nt_reqs := nt_reqs s ++ [{| rs_msg := m; rs_pc := RqStart; rs_handler := HNone |}] |>).
Proof.
  intros Hinv. destruct (Hinv) as [Hk Hl]. split; cbn.
  - intros k q Hq. apply lookup_app_Some in Hq as [Hq|[Hge Hq]]; [by apply Hk|].
    apply list_lookup_singleton_Some in Hq as [Hz <-]. split; [done|]. cbn. split; [|done].
    apply filter_none. intros [k' r'] Hin. cbn. intros ->.
    pose proof (log_in_range _ _ _ Hinv Hin). lia.
  - intros k r (q & Hq & Hd)%Hl. exists q. split; [by apply lookup_app_l_Some|done].
Qed.

Lemma net_inv_section s k q q' rn r1 r2 timer :
  nt_reqs s !! k = Some q → processReq_section r1 r2 timer (nt_rn s) q = (rn, q') →
  net_inv s → net_inv (s <| nt_rn := rn |> <| nt_reqs := <[k := q']> (nt_reqs s) |>).
Proof.
  intros Hq Ep [Hk Hl].
  destruct (processReq_section_inv _ _ _ _ _ _ _ k _ Ep (Hk k q Hq)) as [Hinv Hm].
  split; cbn.
  - intros k' q''. rewrite list_lookup_insert. case_decide as Hc; [|apply Hk].
    destruct Hc as [-> _]. by intros [= <-].
  - intros k' r (q'' & Hq'' & Hd)%Hl. rewrite list_lookup_insert. case_decide as Hc; [|eauto].
    destruct Hc as [-> _]. simplify_eq. exists q'. by rewrite Hm.
Qed.

Lemma net_inv_handled s k q r srvs st sid :
  nt_reqs s !! k = Some q → rs_handler q = HRunning sid → dispatched (rs_msg q) r →
  net_inv s →
  net_inv (s <| nt_srv := srvs |> <| nt_st := st |>
             <| nt_reqs := <[k := q <| rs_handler := HDone r |>]> (nt_reqs s) |>
             <| nt_log := nt_log s ++ [(k, r)] |>).
Proof.
  intros Hq Hh Hd [Hk Hl]. destruct (Hk k q Hq) as [Hn Hr]. rewrite Hh in Hr.
  pose proof (lookup_lt_Some _ _ _ Hq) as Hlt. split; cbn.
  - intros k' q''. rewrite list_lookup_insert. case_decide as Hc.
    + destruct Hc as [<- _]. intros [= <-]. split; cbn.
      { intros Hb. specialize (Hn Hb). congruence. }
      rewrite runs_of_snoc, decide_True by done. destruct Hr as [-> ->]. eauto.
    + intros Hq''. unfold req_inv. rewrite runs_of_snoc, decide_False by naive_solver.
      rewrite app_nil_r. by apply Hk.
  - intros k' r'. rewrite elem_of_app, list_elem_of_singleton, list_lookup_insert.
    intros [(q'' & Hq'' & Hd')%Hl|[= -> ->]].
    + case_decide as Hc; [|eauto]. destruct Hc as [-> _]. simplify_eq. eauto.
    + rewrite decide_True by done. eauto.
Qed.

Lemma net_step_inv e s s' : net_step e s = Ret s' → net_inv s → net_inv s'.
Proof.
  intros E Hinv. destruct e as [op|m taken| |k r1 r2 timer|k]; cbn in E.
  - apply bind_ret_inv in E as (rn & _ & [= <-]). exact Hinv.
  - case_match; injection E as <-; [done|]. by apply net_inv_send.
  - injection E as <-. destruct (nw_done (nt_rn s)); exact Hinv.
  - destruct (nt_reqs s !! k) as [q|] eqn:Hq; [|injection E as <-; done].
    destruct (processReq_section _ _ _ _ _) as [rn q'] eqn:Ep. injection E as <-.
    by eapply net_inv_section.
  - destruct (nt_reqs s !! k) as [q|] eqn:Hq; [|injection E as <-; done].
    destruct (rs_handler q) as [|sid|] eqn:Hh; [injection E as <-; done| |injection E as <-; done].
    destruct (nt_srv s !! sid) as [srv|]; [|injection E as <-; done].
    apply bind_ret_inv in E as ([[srv' st'] r] & Ed & [= <-]).
    eapply net_inv_handled; [done..| |done]. by eexists _, _, _, _.
Qed.

Lemma net_run_inv es s s' : net_run es s = Ret s' → net_inv s → net_inv s'.
Proof.
  revert s. induction es as [|e es IH]; intros s E Hinv; cbn in E; [by simplify_eq|].
  apply bind_ret_inv in E as (s1 & E1 & E). eapply IH; [done|]. by eapply net_step_inv.
Qed.

Lemma net_init_inv rn srv st : net_inv (net_init rn srv st).
Proof. split; intros k ?; cbn; [by rewrite lookup_nil|by intros ?%elem_of_nil]. Qed.

(** C23: whatever the network drops, delays or reorders and however the tests reconfigure it,
    a call runs its handler at most once, and a positive reply is the reply of that one run,
    which dispatched the very request that was sent. *)
Theorem call_at_most_once es rn srv st s k q :
  net_run es (net_init rn srv st) = Ret s → nt_reqs s !! k = Some q →
  (length (runs_of k (nt_log s)) ≤ 1)%nat ∧
  (∀ r, rs_pc q = RqSent r → rp_ok r = true →
     runs_of k (nt_log s) = [(k, r)] ∧ dispatched (rs_msg q) r).
Proof.
  intros Hrun Hq. destruct (net_run_inv _ _ _ Hrun (net_init_inv _ _ _)) as [Hk Hl].
  destruct (Hk k q Hq) as [_ Hinv]. split.
  - destruct (rs_handler q); destruct Hinv as [-> _]; simpl; lia.
  - intros r Hpc Hok. rewrite Hpc in Hinv. cbn in Hinv. rewrite Hok in Hinv.
    destruct (rs_handler q) as [| |r']; destruct Hinv as [Hr Hc]; try done.
    assert (r' = r) as -> by naive_solver. split; [done|].
    destruct (Hl k r) as (q' & Hq' & Hd); [|by simplify_eq].
    eapply list_elem_of_filter. unfold runs_of in Hr. rewrite Hr. left.
Qed.

(** ** No positive reply from a deleted server *)

Definition adds (sn : string) (sid : nat) (e : net_event) : bool :=
  match e with NvConfig (OAddServer sn' sid') => bool_decide (sn' = sn ∧ sid' = sid) | _ => false end.

(** The request was handed, or is about to be, to server [sid] under the name [sn], and no
    positive reply is on its way. *)
Definition bound_to (sn : string) (sid : nat) (pc : req_pc) : Prop :=
  match pc with
  | RqBefore sn' sid' _ _ | RqWaiting sn' sid' _ _ | RqCheck sn' sid' _ _ _ => sn' = sn ∧ sid' = sid
  | RqSent r => rp_ok r = false
  | _ => False
  end.

Lemma isServerDead_removed rn e sn sid :
  server_of rn sn ≠ Some sid → isServerDead rn e sn sid = true.
Proof. intros Hs. unfold isServerDead. rewrite bool_decide_true by done. apply orb_true_r. Qed.

Lemma processReq_section_bound sn sid r1 r2 timer rn q rn' q' :
  server_of rn sn ≠ Some sid → bound_to sn sid (rs_pc q) →
  processReq_section r1 r2 timer rn q = (rn', q') → bound_to sn sid (rs_pc q').
Proof.
  intros Hs Hb E. destruct q as [m pc h]. unfold processReq_section in E.
  destruct pc; cbn in Hb, E |- *; try done; try (by simplify_eq/=); destruct Hb as [-> ->];
    try (rewrite isServerDead_removed in E by done); repeat (case_match; simplify_eq/=); done.
Qed.

Lemma processReq_section_servers r1 r2 timer rn q rn' q' :
  processReq_section r1 r2 timer rn q = (rn', q') → nw_servers rn' = nw_servers rn.
Proof. unfold processReq_section. intros E. repeat (case_match; simplify_eq/=); done. Qed.

Definition removed (sn : string) (sid k : nat) (s : net) : Prop :=
  server_of (nt_rn s) sn ≠ Some sid ∧
  ∃ q, nt_reqs s !! k = Some q ∧ bound_to sn sid (rs_pc q).

Lemma config_servers op rn rn' sn sid :
  config op rn = Ret rn' → server_of rn sn ≠ Some sid → adds sn sid (NvConfig op) = false →
  server_of rn' sn ≠ Some sid.
Proof.
  unfold server_of. intros E Hs Ha. destruct op; cbn in E, Ha; simplify_eq/=; try done.
  - unfold MakeEnd in E. case_decide; by simplify_eq/=.
  - unfold DeleteEnd in E. case_decide; by simplify_eq/=.
  - apply bool_decide_eq_false in Ha. rewrite lookup_insert. case_decide; naive_solver.
  - rewrite lookup_insert. case_decide; naive_solver.
Qed.

Lemma net_step_removed sn sid k e s s' :
  net_step e s = Ret s' → adds sn sid e = false → removed sn sid k s → removed sn sid k s'.
Proof.
  intros E Ha (Hs & q & Hq & Hb). destruct e as [op|m taken| |k' r1 r2 timer|k']; cbn in E.
  - apply bind_ret_inv in E as (rn & Hc & [= <-]). split; [by eapply config_servers|eauto].
  - case_match; injection E as <-; [by split; eauto|]. split; [done|].
    exists q. split; [by apply lookup_app_l_Some|done].
  - injection E as <-. destruct (nw_done (nt_rn s)); (split; [exact Hs|by exists q]).
  - destruct (nt_reqs s !! k') as [q1|] eqn:Hq1; [|injection E as <-; split; eauto].
    destruct (processReq_section _ _ _ _ _) as [rn q2] eqn:Ep. injection E as <-. split; cbn.
    { unfold server_of. by rewrite (processReq_section_servers _ _ _ _ _ _ _ Ep). }
    rewrite list_lookup_insert. case_decide as Hc; [|eauto]. destruct Hc as [-> _]. simplify_eq.
    eexists. split; [done|]. by eapply processReq_section_bound.
  - destruct (nt_reqs s !! k') as [q1|] eqn:Hq1; [|injection E as <-; split; eauto].
    destruct (rs_handler q1) as [|sid'|]; [injection E as <-; split; eauto| |injection E as <-; split; eauto].
    destruct (nt_srv s !! sid') as [srv|]; [|injection E as <-; split; eauto].
    apply bind_ret_inv in E as ([[srv' st'] r] & Ed & [= <-]). split; [done|]. cbn.
    rewrite list_lookup_insert. case_decide as Hc; [|eauto]. destruct Hc as [-> _]. simplify_eq.
    by eexists.
Qed.

(** A server that was deleted while it held a request, and is not added again, never
    answers it positively, even when its handler has run or still runs: the caller gets a
    failure. *)
Theorem deleted_server_never_replies es s s' sn sid k q :
  nt_reqs s !! k = Some q → bound_to sn sid (rs_pc q) →
  net_run (NvConfig (ODeleteServer sn) :: es) s = Ret s' →
  Forall (λ e, adds sn sid e = false) es →
  ∃ q', nt_reqs s' !! k = Some q' ∧ (∀ r, rs_pc q' = RqSent r → r.(rp_ok) = false) ∧
    ∀ r, rs_pc q' ≠ RqDelayed r.
Proof.
  intros Hq Hb E Ha. cbn in E.
  assert (removed sn sid k (s <| nt_rn := DeleteServer sn (nt_rn s) |>)) as Hrem.
  { split; [|by eexists]. unfold server_of. cbn. by rewrite lookup_insert_eq. }
  revert E Hrem. generalize (s <| nt_rn := DeleteServer sn (nt_rn s) |>). clear -Ha.
  induction Ha as [|e es He Hes IH]; intros s E Hrem; cbn in E.
  - simplify_eq. destruct Hrem as (_ & q & Hq & Hb). exists q. split; [done|].
    destruct (rs_pc q); naive_solver.
  - apply bind_ret_inv in E as (s1 & E1 & E). eapply IH; [done|]. by eapply net_step_removed.
Qed.

(** ** A quiet network delivers *)

Lemma net_step_last s L q r1 r2 timer :
  nt_reqs s = L ++ [q] →
  net_step (NvStep (length L) r1 r2 timer) s =
    let '(rn, q') := processReq_section r1 r2 timer (nt_rn s) q in
    Ret (s <| nt_rn := rn |> <| nt_reqs := L ++ [q'] |>).
Proof.
  intros E. cbn. rewrite E, list_lookup_middle by done.
  destruct (processReq_section _ _ _ _ _). by rewrite insert_app_r_alt, Nat.sub_diag by done.
Qed.

Lemma net_send_open s m :
  nt_loop s = true → nw_done (nt_rn s) = false →
  net_step (NvSend m true) s =
    Ret (s <| nt_rn := (nt_rn s) <| nw_count := i32 (nw_count (nt_rn s) + 1) |>
                                 <| nw_bytes := i64 (nw_bytes (nt_rn s) + zlen (rq_args m)) |> |>
           <| nt_reqs := nt_reqs s ++
                [{| rs_msg := m; rs_pc := RqStart; rs_handler := HNone |}] |>).
Proof. intros Hlo Hd. cbn. by rewrite Hlo. Qed.

Lemma net_handle_last s L m pc sid srv srv' st' r :
  nt_reqs s = L ++ [{| rs_msg := m; rs_pc := pc; rs_handler := HRunning sid |}] →
  nt_srv s !! sid = Some srv → Server_dispatch m srv (nt_st s) = Ret (srv', st', r) →
  net_step (NvHandle (length L)) s =
    Ret (s <| nt_srv := <[sid := srv']> (nt_srv s) |> <| nt_st := st' |>
           <| nt_reqs := L ++ [{| rs_msg := m; rs_pc := pc; rs_handler := HDone r |}] |>
           <| nt_log := nt_log s ++ [(length L, r)] |>).
Proof.
  intros E Hs Hd. cbn. rewrite E, list_lookup_middle by done. cbn. rewrite Hs. cbn. rewrite Hd.
  cbn. by rewrite insert_app_r_alt, Nat.sub_diag by done.
Qed.

Lemma processReq_begin r1 r2 timer rn m h sn sid :
  nw_enabled rn !! rq_endname m = Some true → nw_connections rn !! rq_endname m = Some (Some sn) →
  nw_servers rn !! sn = Some (Some sid) →
  processReq_section r1 r2 timer rn {| rs_msg := m; rs_pc := RqStart; rs_handler := h |} =
    (rn, {| rs_msg := m; rs_pc := RqBefore sn sid (nw_reliable rn) (nw_longReordering rn);
            rs_handler := h |}).
Proof.
  intros He Hc Hs. unfold processReq_section, readEndnameInfo, enabled_of, connection_of. cbn.
  rewrite He, Hc. cbn. unfold server_of. by rewrite Hs.
Qed.

Lemma isServerDead_live rn e sn sid :
  nw_enabled rn !! e = Some true → nw_servers rn !! sn = Some (Some sid) →
  isServerDead rn e sn sid = false.
Proof.
  intros He Hs. unfold isServerDead, enabled_of, server_of. rewrite He, Hs. cbn.
  rewrite bool_decide_false by naive_solver. done.
Qed.

Lemma processReq_before r1 r2 timer rn m h sn sid lr :
  processReq_section r1 r2 timer rn
    {| rs_msg := m; rs_pc := RqBefore sn sid true lr; rs_handler := h |} =
    (rn, {| rs_msg := m; rs_pc := RqWaiting sn sid true lr; rs_handler := HRunning sid |}).
Proof. done. Qed.

Lemma processReq_answered r1 r2 rn m r sn sid rel lr :
  processReq_section r1 r2 false rn
    {| rs_msg := m; rs_pc := RqWaiting sn sid rel lr; rs_handler := HDone r |} =
    (rn, {| rs_msg := m; rs_pc := RqCheck sn sid rel lr (Some r); rs_handler := HDone r |}).
Proof. done. Qed.

Lemma processReq_replies r1 r2 timer rn m h r sn sid :
  nw_enabled rn !! rq_endname m = Some true → nw_servers rn !! sn = Some (Some sid) →
  processReq_section r1 r2 timer rn
    {| rs_msg := m; rs_pc := RqCheck sn sid true false (Some r); rs_handler := h |} =
    (rn <| nw_bytes := i64 (nw_bytes rn + zlen (rp_reply r)) |>,
     {| rs_msg := m; rs_pc := RqSent r; rs_handler := h |}).
Proof. intros. unfold processReq_section. cbn. by rewrite isServerDead_live. Qed.

(** On a reliable network without long reordering, a call over an enabled end that is
    connected to a live server runs the handler once on the server's state and returns its
    reply. *)
Theorem reliable_call_delivers s m sn sid srv srv' st' r ra rb :
  nt_loop s = true → nw_done (nt_rn s) = false →
  nw_reliable (nt_rn s) = true → nw_longReordering (nt_rn s) = false →
  nw_enabled (nt_rn s) !! rq_endname m = Some true →
  nw_connections (nt_rn s) !! rq_endname m = Some (Some sn) →
  nw_servers (nt_rn s) !! sn = Some (Some sid) → nt_srv s !! sid = Some srv →
  Server_dispatch m srv (nt_st s) = Ret (srv', st', r) →
  let k := length (nt_reqs s) in
  ∃ s', net_run [NvSend m true; NvStep k ra rb false; NvStep k ra rb false; NvHandle k;
                 NvStep k ra rb false; NvStep k ra rb false] s = Ret s' ∧
    nt_reqs s' = nt_reqs s ++ [{| rs_msg := m; rs_pc := RqSent r; rs_handler := HDone r |}] ∧
    nt_srv s' = <[sid := srv']> (nt_srv s) ∧ nt_st s' = st' ∧
    nw_count (nt_rn s') = i32 (nw_count (nt_rn s) + 1).
Proof.
  intros Hlo Hd Hrel Hlr Hen Hco Hse Hsrv Hdi k. unfold k. cbn [net_run].
  rewrite net_send_open, bind_ret_l by done.
  erewrite net_step_last by done. erewrite processReq_begin by done. rewrite bind_ret_l.
  cbn [nt_rn update nw_reliable nw_longReordering]. rewrite Hrel, Hlr.
  erewrite net_step_last by done. rewrite processReq_before, bind_ret_l.
  erewrite net_handle_last by done. rewrite bind_ret_l.
  erewrite net_step_last by done. erewrite processReq_answered, bind_ret_l.
  erewrite net_step_last by done. erewrite processReq_replies, bind_ret_l by done.
  eexists. split; [done|]. done.
Qed.

End labrpc.
Arguments Server : clear implicits.
Arguments Service : clear implicits.
Arguments Method : clear implicits.
Arguments net : clear implicits.

(** ** A counter behind the network *)

Definition inc_handler : handler (St := Z) := λ _ n, Ret (i64 (n + 1), [n + 1]).

Definition counter_method : Method Z :=
  {| me_Name := "Inc"; me_PkgPath := ""; me_NumIn := 3; me_ReplyIsPtr := true; me_NumOut := 0;
     me_Func := inc_handler |}.

Definition counter_server : Server Z := AddService (MakeService "C" [counter_method]) MakeServer.

Definition inc_req : reqMsg := {| rq_endname := "e"; rq_svcMeth := "C.Inc"; rq_args := [] |}.

Definition counter_net : net Z :=
  {| nt_rn := Enable "e" true (Connect "e" "s" (AddServer "s" 0 MakeNetwork));
     nt_srv := {[0%nat := counter_server]}; nt_st := 41; nt_reqs := []; nt_log := [];
     nt_loop := true |}.

Lemma reliable_call_delivers_witness :
  ∃ s, net_run [NvSend inc_req true; NvStep 0 7 7 false; NvStep 0 7 7 false; NvHandle 0;
                NvStep 0 7 7 false; NvStep 0 7 7 false] counter_net = Ret s ∧
    nt_reqs s = [{| rs_msg := inc_req; rs_pc := RqSent {| rp_ok := true; rp_reply := [42] |};
                    rs_handler := HDone {| rp_ok := true; rp_reply := [42] |} |}] ∧
    nt_st s = 42.
Proof.
  destruct (reliable_call_delivers counter_net inc_req "s" 0 counter_server
    (counter_server <| se_count := 1 |>) 42 {| rp_ok := true; rp_reply := [42] |} 7 7)
    as (s & Hrun & Hreqs & _ & Hst & _); [reflexivity..|].
  exists s. split; [exact Hrun|]. split; [exact Hreqs|exact Hst].
Defined.

Definition counter_calls : list (net_event) :=
  [NvSend inc_req true; NvConfig (OReliable false); NvStep 0 999 7 false; NvStep 0 999 7 false;
   NvConfig (OLongReordering true); NvHandle 0; NvHandle 0; NvStep 0 999 7 true;
   NvStep 0 999 7 false; NvStep 0 999 7 false].

Definition net_view (s : net Z) : list req_pc * list (nat * replyMsg) :=
  (rs_pc <$> nt_reqs s, nt_log s).

Definition reply42 : replyMsg := {| rp_ok := true; rp_reply := [42] |}.

Lemma call_at_most_once_witness :
  ∃ s q, net_run counter_calls (net_init (nt_rn counter_net) (nt_srv counter_net) 41) = Ret s ∧
    nt_reqs s !! 0%nat = Some q ∧ rs_pc q = RqSent reply42 ∧
    runs_of 0 (nt_log s) = [(0%nat, reply42)].
Proof.
  assert (net_view <$> net_run counter_calls (net_init (nt_rn counter_net) (nt_srv counter_net) 41)
          = Ret ([RqSent reply42], [(0%nat, reply42)])) as Hv by (vm_compute; reflexivity).
  destruct (net_run _ _) as [s| |] eqn:E; [|discriminate..].
  injection Hv as Hr Hl. destruct (nt_reqs s) as [|q l] eqn:Hq; [discriminate Hr|].
  injection Hr as Hpc _. exists s, q. split; [reflexivity|].
  split; [by rewrite Hq|]. split; [exact Hpc|].
  eapply (call_at_most_once _ _ _ _ _ _ q E); [by rewrite Hq|exact Hpc|reflexivity].
Defined.

(** The handler has answered when the server is deleted; the caller still gets a failure. *)
Lemma deleted_server_never_replies_witness :
  let pre := [NvSend inc_req true; NvStep 0 7 7 false; NvStep 0 7 7 false; NvHandle 0] in
  let post := [NvConfig (OAddServer "s" 1); NvStep 0 7 7 false; NvStep 0 7 7 false] in
  ∃ s s' q', net_run pre counter_net = Ret s ∧ nt_log s = [(0%nat, reply42)] ∧
    net_run (NvConfig (ODeleteServer "s") :: post) s = Ret s' ∧ nt_reqs s' !! 0%nat = Some q' ∧
    ∀ r, rs_pc q' = RqSent r → rp_ok r = false.
Proof.
  intros pre post.
  assert (net_view <$> net_run pre counter_net =
          Ret ([RqWaiting "s" 0 true false], [(0%nat, reply42)])) as Hv by (vm_compute; reflexivity).
  assert ((λ _, tt) <$> (net_run pre counter_net ≫= net_run (NvConfig (ODeleteServer "s") :: post))
          = Ret tt) as Hw by (vm_compute; reflexivity).
  destruct (net_run pre counter_net) as [s| |] eqn:E; [|discriminate..].
  rewrite bind_ret_l in Hw.
  destruct (net_run (NvConfig (ODeleteServer "s") :: post) s) as [s'| |] eqn:E'; [|discriminate..].
  injection Hv as Hr Hl. destruct (nt_reqs s) as [|q l] eqn:Hq; [discriminate Hr|].
  injection Hr as Hpc _.
  destruct (deleted_server_never_replies post s s' "s" 0 0 q) as (q' & Hq' & Hn & _);
    [by rewrite Hq|by rewrite Hpc|exact E'|repeat constructor|].
  exists s, s', q'. by rewrite Hl.
Defined.
