(* ===== verification/RaftTester.v ===== *)
(** * The Raft tester

    The server process around a Raft peer, [src/src/raft1/server.go], which reports every
    applied command to the tester; the RPC stubs between the two, [src/src/raft1/proxy.go];
    and the tester's checks, [src/src/raft1/test.go].

    A value of type [any] is nil or a command.  [show] is what [%v] prints of it.  Calls
    between a server process and the tester may fail; each has its fate as an argument.  What
    a check reads from the servers while time passes is an argument of the check: one
    observation for each time it looks.  Annotations are left out. *)
From stdpp Require Import base tactics numbers list fin_maps gmap strings pretty.
From S2P Require Import Prelude GoLib GoSlice RaftNode.

Definition SnapShotInterval : Z := 10.

(** [raftServer]; [rs_rfsrv] says that the interface value is not nil. *)
Record raftServer {Cmd : Type} := {
  rs_rfsrv : bool; rs_applyErr : string; rs_logs : gmap Z (option Cmd)
}.
Arguments raftServer : clear implicits.
#[export] Instance eta_raftServer {Cmd} : Eta (raftServer Cmd) := λ r,
  {| rs_rfsrv := rs_rfsrv r; rs_applyErr := rs_applyErr r; rs_logs := rs_logs r |}.

(** [Test]; [makeTest] fills every slot of [srvs]. *)
Record Test {Cmd : Type} := {
  ts_n : nat; ts_finished : bool; ts_srvs : list (raftServer Cmd); ts_maxIndex : Z; ts_snapshot : bool
}.
Arguments Test : clear implicits.
#[export] Instance eta_Test {Cmd} : Eta (Test Cmd) := λ t,
  {| ts_n := ts_n t; ts_finished := ts_finished t; ts_srvs := ts_srvs t;
     ts_maxIndex := ts_maxIndex t; ts_snapshot := ts_snapshot t |}.

(** [rfsrv], the server process; [s_raft] says that its Raft peer was made. *)
Record rfsrv {Cmd : Type} := {
  s_me : Z; s_lastApplied : Z; s_raft : bool; s_log : gmap Z (option Cmd)
}.
Arguments rfsrv : clear implicits.
#[export] Instance eta_rfsrv {Cmd} : Eta (rfsrv Cmd) := λ s,
  {| s_me := s_me s; s_lastApplied := s_lastApplied s; s_raft := s_raft s; s_log := s_log s |}.

(** [Itester]: what a server process asks of the tester; each call has its fate, [T] is all
    that a call may change. *)
Class Itester (Cmd T : Type) := {
  it_CheckLogs : call_fate → Z → ApplyMsg Cmd → T → outcome (T * (string * bool));
  it_IngestLog : call_fate → Z → gmap Z (option Cmd) → T → outcome T;
  it_ApplyErr : call_fate → Z → string → T → outcome T
}.

Section tester.
Context {Cmd : Type} `{EqDecision Cmd} (show : option Cmd → string).
Implicit Types (ts : Test Cmd) (m : ApplyMsg Cmd) (s : rfsrv Cmd).

(** ** The tester's side *)

Definition newRaftServer (srv : bool) : raftServer Cmd :=
  {| rs_rfsrv := srv; rs_applyErr := ""; rs_logs := ∅ |}.

Definition entry (rs : raftServer Cmd) (i : Z) : option (option Cmd) := rs_logs rs !! i.

Definition makeTest (n : nat) (snapshot : bool) : Test Cmd :=
  {| ts_n := n; ts_finished := false; ts_srvs := replicate n (newRaftServer true);
     ts_maxIndex := 0; ts_snapshot := snapshot |}.

Definition cleanup ts : Test Cmd := ts <| ts_finished := true |>.
Definition checkFinished ts : bool := ts_finished ts.

Definition update_srv (i : Z) (f : raftServer Cmd → raftServer Cmd) ts : outcome (Test Cmd) :=
  rs ← go_index (ts_srvs ts) i;
  srvs ← go_update (ts_srvs ts) i (f rs);
  Ret (ts <| ts_srvs := srvs |>).

Definition mksrv (srv : Z) ts : outcome (Test Cmd) :=
  update_srv srv (λ rs, rs <| rs_rfsrv := true |>) ts.

Fixpoint kill (srvs : list Z) ts : outcome (Test Cmd) :=
  match srvs with
  | [] => Ret ts
  | srv :: srvs => ts ← update_srv srv (λ rs, rs <| rs_rfsrv := false |>) ts; kill srvs ts
  end.

Fixpoint restart (srvs : list Z) ts : outcome (Test Cmd) :=
  match srvs with
  | [] => Ret ts
  | srv :: srvs => ts ← mksrv srv ts; restart srvs ts
  end.

Definition commit_err m (i j : Z) (old : option Cmd) : string :=
  "commit index=" +:+ pretty (am_CommandIndex m) +:+ " server=" +:+ pretty i +:+ " " +:+
  show (am_Command m) +:+ " != server=" +:+ pretty j +:+ " " +:+ show old.

(** The loop over [ts.srvs]: the last server that disagrees names the error. *)
Fixpoint disagreement m (i j : Z) (srvs : list (raftServer Cmd)) (err_msg : string) : string :=
  match srvs with
  | [] => err_msg
  | rs :: srvs =>
      disagreement m i (j + 1) srvs
        (match entry rs (am_CommandIndex m) with
         | Some old => if decide (old ≠ am_Command m) then commit_err m i j old else err_msg
         | None => err_msg
         end)
  end.

Definition CheckLogs (i : Z) m ts : outcome (Test Cmd * (string * bool)) :=
  me ← go_index (ts_srvs ts) i;
  let err_msg := disagreement m i 0 (ts_srvs ts) "" in
  let prevok := bool_decide (is_Some (entry me (am_CommandIndex m - 1))) in
  srvs ← go_update (ts_srvs ts) i
           (me <| rs_logs := <[am_CommandIndex m := am_Command m]> (rs_logs me) |>);
  Ret (ts <| ts_srvs := srvs |>
          <| ts_maxIndex := if decide (am_CommandIndex m > ts_maxIndex ts)
                            then am_CommandIndex m else ts_maxIndex ts |>,
       (err_msg, prevok)).

Definition IngestLog (i : Z) (xlog : gmap Z (option Cmd)) ts : outcome (Test Cmd) :=
  update_srv i (λ me, me <| rs_logs := xlog |>) ts.

Definition ApplyErr (i : Z) (err : string) ts : outcome (Test Cmd) :=
  update_srv i (λ me, me <| rs_applyErr := err |>) ts.

(** ** The stubs *)

Record GetStateReply := { gs_Term : Z; gs_Leader : bool }.
Record StartReply := { st_Index : Z; st_Term : Z; st_Leader : bool }.

Definition Rfproxy_GetState (f : call_fate) (rep : GetStateReply) : Z * bool :=
  match f with Delivered => (gs_Term rep, gs_Leader rep) | _ => (0, false) end.

Definition Rfproxy_Start (f : call_fate) (rep : StartReply) : Z * Z * bool :=
  match f with Delivered => (st_Index rep, st_Term rep, st_Leader rep) | _ => (0, 0, false) end.

Definition TesterProxy_CheckLogs (f : call_fate) (i : Z) m ts
    : outcome (Test Cmd * (string * bool)) :=
  match f with
  | RequestLost => Ret (ts, ("ErrRPC", false))
  | ReplyLost => '(ts, _) ← CheckLogs i m ts; Ret (ts, ("ErrRPC", false))
  | Delivered => CheckLogs i m ts
  end.

Definition TesterProxy_IngestLog (f : call_fate) (i : Z) (xlog : gmap Z (option Cmd)) ts
    : outcome (Test Cmd) :=
  match f with RequestLost => Ret ts | _ => IngestLog i xlog ts end.

Definition TesterProxy_ApplyErr (f : call_fate) (i : Z) (err : string) ts : outcome (Test Cmd) :=
  match f with RequestLost => Ret ts | _ => ApplyErr i err ts end.

(** The tester reached by calls of which nothing but the fate is known. *)
Definition fates : Itester Cmd (Test Cmd) :=
  {| it_CheckLogs := TesterProxy_CheckLogs; it_IngestLog := TesterProxy_IngestLog; it_ApplyErr := TesterProxy_ApplyErr |}.

(** ** The server process *)

Definition rfsrv_Start s (grow : nat) (command : Cmd) (rf : Raft Cmd) : Raft Cmd * (Z * Z * bool) :=
  if s_raft s then Start grow command rf else (rf, (0, 0, false)).

Definition rfsrv_GetState s (rf : Raft Cmd) : outcome (Z * bool) :=
  if s_raft s then Ret (GetState rf) else Panic "nil pointer dereference".

Definition GetStateRPC s (rf : Raft Cmd) : outcome GetStateReply :=
  '(term, leader) ← rfsrv_GetState s rf; Ret {| gs_Term := term; gs_Leader := leader |}.

Definition StartRPC s (grow : nat) (command : Cmd) (rf : Raft Cmd) : Raft Cmd * StartReply :=
  let '(rf, (index, term, leader)) := rfsrv_Start s grow command rf in
  (rf, {| st_Index := index; st_Term := term; st_Leader := leader |}).

Definition out_of_order (me index : Z) : string :=
  "server " +:+ pretty me +:+ " apply out of order " +:+ pretty index.

Section process.
Context {T : Type} `{!Itester Cmd T}.
Implicit Types t : T.

(** One message of [applier]'s loop; [f1] and [f2] are the fates of its two calls. *)
Definition applier_step (f1 f2 : call_fate) (me : Z) m t : outcome T :=
  if negb (am_CommandValid m) then Ret t
  else
    '(t, (err_msg, prevok)) ← it_CheckLogs f1 me m t;
    let err_msg := if bool_decide (am_CommandIndex m > 1) && negb prevok
                   then out_of_order me (am_CommandIndex m) else err_msg in
    if decide (err_msg ≠ "") then it_ApplyErr f2 me err_msg t else Ret t.

(** ** Snapshots

    [Encode] and [Decode] are labgob's, on the pair of the last included index and the log. *)
Context (Encode : Z * list (option Cmd) → list Z) (Decode : list Z → option (Z * list (option Cmd))).

Fixpoint log_of (j : Z) (xlog : list (option Cmd)) (log : gmap Z (option Cmd)) : gmap Z (option Cmd) :=
  match xlog with [] => log | v :: xlog => log_of (j + 1) xlog (<[j := v]> log) end.

Definition ingestSnap (snapshot : option (list Z)) (index : Z) s : rfsrv Cmd * string :=
  match snapshot with
  | None => (s, "nil snapshot")
  | Some b =>
      match Decode b with
      | None => (s, "failed to decode snapshot")
      | Some (lastIncludedIndex, xlog) =>
          if decide (index ≠ -1 ∧ index ≠ lastIncludedIndex)
          then (s, "server " +:+ pretty (s_me s) +:+ " snapshot doesn't match m.SnapshotIndex")
          else (s <| s_log := log_of 0 xlog ∅ |> <| s_lastApplied := lastIncludedIndex |>, "")
      end
  end.

(** [rs.log[j]] for [j] from 0 to [index]; a missing key reads as nil. *)
Definition xlog_upto (index : Z) (log : gmap Z (option Cmd)) : list (option Cmd) :=
  (λ j, default None (log !! Z.of_nat j)) <$> seq 0 (Z.to_nat (index + 1)).

(** The command case of [applierSnap]'s loop; the snapshot it hands to the peer, if any, is
    the third result. *)
Definition applierSnap_command (f1 : call_fate) m s t
    : outcome (rfsrv Cmd * T * option (Z * list Z) * string) :=
  let index := am_CommandIndex m in
  let err_msg := if decide (index ≠ s_lastApplied s + 1) then
      "server " +:+ pretty (s_me s) +:+ " apply out of order, expected index " +:+
      pretty (s_lastApplied s + 1) +:+ ", got " +:+ pretty index else "" in
  '(t, err_msg) ←
    (if decide (err_msg = "") then
       '(t, (err_msg, prevok)) ← it_CheckLogs f1 (s_me s) m t;
       Ret (t, if bool_decide (err_msg ≠ "ErrRPC") && bool_decide (index > 1) && negb prevok
                then out_of_order (s_me s) index else err_msg)
     else Ret (t, err_msg));
  let s := s <| s_log := <[index := am_Command m]> (s_log s) |> <| s_lastApplied := index |> in
  let snap := if decide (Z.rem (index + 1) SnapShotInterval = 0)
              then Some (index, Encode (index, xlog_upto index (s_log s))) else None in
  Ret (s, t, snap, err_msg).

Definition applierSnap_step (f1 f2 f3 : call_fate) m s t
    : outcome (rfsrv Cmd * T * option (Z * list Z)) :=
  if negb (s_raft s) then Ret (s, t, None)
  else
    '(s, t, snap, err_msg) ←
      (if am_SnapshotValid m then
         let '(s, err_msg) := ingestSnap (am_Snapshot m) (am_SnapshotIndex m) s in
         t ← it_IngestLog f2 (s_me s) (s_log s) t;
         Ret (s, t, None, err_msg)
       else if am_CommandValid m then applierSnap_command f1 m s t
       else Ret (s, t, None, ""));
    t ← (if decide (err_msg ≠ "") then it_ApplyErr f3 (s_me s) err_msg t else Ret t);
    Ret (s, t, snap).

(** [newRfsrv]: with snapshots on, the persisted one is ingested before any message. *)
Definition newRfsrv (UseRaftStateMachine snapshot : bool) (f : call_fate) (srv : Z)
    (sn : option (list Z)) t : outcome (rfsrv Cmd * T) :=
  let s := {| s_me := srv; s_lastApplied := 0; s_raft := negb UseRaftStateMachine; s_log := ∅ |} in
  match snapshot, sn with
  | true, Some (b :: l) =>
      let '(s, err) := ingestSnap (Some (b :: l)) (-1) s in
      if decide (err ≠ "") then Fatal ("ingestSnap err " +:+ err)
      else t ← it_IngestLog f (s_me s) (s_log s) t; Ret (s, t)
  | _, _ => Ret (s, t)
  end.

(** ** A snapshot carries the log over *)

Lemma log_of_lookup j xlog log k :
  log_of j xlog log !! k =
    if decide (j ≤ k < j + zlen xlog) then xlog !! Z.to_nat (k - j) else log !! k.
Proof.
  revert j log. induction xlog as [|v xlog IH]; intros j log; cbn [log_of].
  { rewrite decide_False by (unfold zlen; cbn; lia). done. }
  rewrite IH, lookup_insert, zlen_cons. destruct (decide (j = k)) as [->|Hne].
  - rewrite decide_False by lia. rewrite decide_True by (pose proof (zlen_nonneg xlog); lia).
    by rewrite Z.sub_diag.
  - case_decide as Hr.
    + rewrite decide_True by lia. replace (Z.to_nat (k - j)) with (S (Z.to_nat (k - (j + 1)))) by lia.
      done.
    + rewrite decide_False by lia. done.
Qed.

Lemma zlen_xlog_upto index log : -1 ≤ index → zlen (xlog_upto index log) = index + 1.
Proof. intros. unfold zlen, xlog_upto. rewrite length_fmap, length_seq. lia. Qed.

Lemma xlog_upto_lookup index log k :
  0 ≤ k ≤ index → xlog_upto index log !! Z.to_nat k = Some (default None (log !! k)).
Proof.
  intros Hk. unfold xlog_upto. rewrite list_lookup_fmap, lookup_seq_lt by lia. cbn.
  by rewrite Z2Nat.id by lia.
Qed.

Lemma applierSnap_command_Ret f1 m s t s' t' snap err :
  applierSnap_command f1 m s t = Ret (s', t', snap, err) →
  s_log s' = <[am_CommandIndex m := am_Command m]> (s_log s) ∧
  s_lastApplied s' = am_CommandIndex m ∧
  (∀ i b, snap = Some (i, b) →
     i = am_CommandIndex m ∧ b = Encode (i, xlog_upto i (s_log s')) ∧ Z.rem (i + 1) SnapShotInterval = 0).
Proof.
  unfold applierSnap_command. intros ([ts1 err1] & _ & [= <- <- <- <-])%bind_ret_inv.
  split_and!; [done..|]. intros i b. case_decide; naive_solver.
Qed.

(** C30: a snapshot a server makes while applying, when another server ingests it, at its
    index or after a restart, gives that server the maker's log up to the snapshot's index,
    nothing beyond, and the maker's last applied index. *)
Theorem snapshot_carries_log f1 m s t s' t' index b err s2 :
  (∀ x, Decode (Encode x) = Some x) → 0 ≤ am_CommandIndex m →
  applierSnap_command f1 m s t = Ret (s', t', Some (index, b), err) →
  ∀ at_index, at_index = index ∨ at_index = -1 →
  ∃ s2', ingestSnap (Some b) at_index s2 = (s2', "") ∧
    s_lastApplied s2' = s_lastApplied s' ∧ s_lastApplied s' = index ∧
    ∀ k, s_log s2' !! k = if decide (0 ≤ k ≤ index) then Some (default None (s_log s' !! k)) else None.
Proof.
  intros Hcodec Hpos (Hlog & Hlast & Hsnap)%applierSnap_command_Ret at_index Hat.
  destruct (Hsnap index b eq_refl) as (-> & -> & _). unfold ingestSnap. rewrite Hcodec.
  rewrite decide_False by lia. eexists. split; [done|]. cbn. split_and!; [done..|]. intros k.
  rewrite log_of_lookup, zlen_xlog_upto by lia. rewrite lookup_empty.
  destruct (decide (0 ≤ k ≤ am_CommandIndex m)).
  - rewrite decide_True by lia. rewrite Z.sub_0_r. by apply xlog_upto_lookup.
  - by rewrite decide_False by lia.
Qed.
End process.
End tester.

(** A snapshot after the ninth command, with a toy encoding of a log of numbers. *)
Definition toy_entry (v : option Z) : list Z := match v with Some z => [1; z] | None => [0] end.

Definition toy_Encode (x : Z * list (option Z)) : list Z := x.1 :: concat (map toy_entry x.2).

Fixpoint toy_decode_log (fuel : nat) (b : list Z) : option (list (option Z)) :=
  match fuel, b with
  | _, [] => Some []
  | S fuel, 0 :: b => (cons None) <$> toy_decode_log fuel b
  | S fuel, 1 :: z :: b => (cons (Some z)) <$> toy_decode_log fuel b
  | _, _ => None
  end.

Definition toy_Decode (b : list Z) : option (Z * list (option Z)) :=
  match b with [] => None | i :: b => (pair i) <$> toy_decode_log (length b) b end.

Lemma toy_decode_log_app fuel (l : list (option Z)) :
  (length (concat (map toy_entry l)) ≤ fuel)%nat →
  toy_decode_log fuel (concat (map toy_entry l)) = Some l.
Proof.
  revert fuel. induction l as [|[z|] l IH]; intros fuel Hf; [by destruct fuel| |];
    (destruct fuel as [|fuel]; [cbn in Hf; lia|]); cbn in Hf |- *; rewrite IH by lia; done.
Qed.

Lemma toy_codec x : toy_Decode (toy_Encode x) = Some x.
Proof. destruct x as [i l]. cbn. by rewrite toy_decode_log_app. Qed.

Definition rfsrv8 : rfsrv Z :=
  {| s_me := 0; s_lastApplied := 8; s_raft := true; s_log := list_to_map [(7, Some 70); (8, Some 80)] |}.

#[local] Instance quiet : Itester Z (Test Z) := fates (λ _, "").

Definition apply9 := applierSnap_command (T := Test Z) toy_Encode Delivered (CommandMsg 9 (Some 90))
  rfsrv8 (makeTest 3 true).

Lemma snapshot_carries_log_witness :
  ∃ s' ts' b err s2', apply9 = Ret (s', ts', Some (9, b), err) ∧
    ingestSnap toy_Decode (Some b) 9 (rfsrv8 <| s_me := 1 |>) = (s2', "") ∧
    s_lastApplied s2' = 9 ∧ s_log s2' !! 10 = None ∧
    s_log s2' !! 9 = Some (default None (s_log s' !! 9)).
Proof.
  assert ((λ x, x.1.2) <$> apply9 =
          Ret (Some (9, [9; 0; 0; 0; 0; 0; 0; 0; 1; 70; 1; 80; 1; 90]))) as Hs by (vm_compute; reflexivity).
  destruct apply9 as [[[[s' ts'] snap] err]| |] eqn:E; [|discriminate..]. cbn in Hs. injection Hs as ->.
  assert (0 ≤ am_CommandIndex (CommandMsg 9 (Some 90))) as Hp by (cbn; lia).
  destruct (snapshot_carries_log _ _ _ _ _ _ _ _ _ _ _ (rfsrv8 <| s_me := 1 |>)
    toy_codec Hp E 9 (or_introl eq_refl)) as (s2' & Hi & Hl & Hl' & Hk).
  exists s', ts', [9; 0; 0; 0; 0; 0; 0; 0; 1; 70; 1; 80; 1; 90], err, s2'.
  split; [reflexivity|]. split; [exact Hi|]. split; [congruence|]. split; apply Hk.
Defined.
