(* ===== verification/RaftChecks.v ===== *)
(** * The Raft tester's checks

    The polling checks of [src/src/raft1/test.go]: [checkOneLeader], [checkTerms],
    [checkNoLeader], [nCommitted], [checkNoAgreement], [one] and [wait]; what each concludes
    from what it saw; and what the silence of [CheckLogs] proves of the messages the servers
    applied. *)
From stdpp Require Import base tactics numbers list fin_maps gmap strings pretty.
From S2P Require Import Prelude GoLib GoSlice RaftNode RaftTester.

(** What [IsConnected] and the calls of [GetState] answer in one pass over the servers. *)
Record poll := { po_connected : nat → bool; po_state : nat → Z * bool }.

Section checks.
Context {Cmd : Type} `{EqDecision Cmd} (show : option Cmd → string).
Implicit Types (ts : Test Cmd) (p : poll).

Definition poll_GetState p ts (i : nat) : outcome (Z * bool) :=
  rs ← go_index (ts_srvs ts) (Z.of_nat i);
  if rs_rfsrv rs then Ret (po_state p i) else Panic "nil pointer dereference".

(** ** [checkOneLeader] *)

Fixpoint collect_leaders (ids : list nat) p ts (leaders : gmap Z (list nat))
    : outcome (gmap Z (list nat)) :=
  match ids with
  | [] => Ret leaders
  | i :: ids =>
      if po_connected p i then
        '(term, leader) ← poll_GetState p ts i;
        collect_leaders ids p ts (if (leader : bool) then map_push leaders term i else leaders)
      else collect_leaders ids p ts leaders
  end.

Fixpoint lastTermWithLeader (l : list (Z * list nat)) (last : Z) : outcome Z :=
  match l with
  | [] => Ret last
  | (term, leaders) :: l =>
      if decide (1 < length leaders)%nat then
        Fatal ("term " +:+ pretty term +:+ " has " +:+ pretty (length leaders) +:+ " (>1) leaders")
      else lastTermWithLeader l (if decide (term > last) then term else last)
  end.

(** One pass; [range_order] is the order in which Go ranges over the map. *)
Definition checkOneLeader_pass (range_order : list (Z * list nat) → list (Z * list nat)) p ts
    : outcome (option nat) :=
  leaders ← collect_leaders (seq 0 (ts_n ts)) p ts ∅;
  last ← lastTermWithLeader (range_order (map_to_list leaders)) (-1);
  if decide (leaders = ∅) then Ret None
  else l ← go_index (group_at leaders last) 0; Ret (Some l).

Fixpoint checkOneLeader_loop range_order (iters : nat) (ps : nat → poll) ts : outcome nat :=
  match iters with
  | O => Fatal "expected one leader, got none"
  | S iters =>
      r ← checkOneLeader_pass range_order (ps O) ts;
      match r with
      | Some l => Ret l
      | None => checkOneLeader_loop range_order iters (λ k, ps (S k)) ts
      end
  end.

Definition checkOneLeader range_order (ps : nat → poll) ts : outcome nat :=
  checkOneLeader_loop range_order 10 ps ts.

(** ** [checkTerms] and [checkNoLeader] *)

Fixpoint checkTerms_loop (ids : list nat) p ts (term : Z) : outcome Z :=
  match ids with
  | [] => Ret term
  | i :: ids =>
      if po_connected p i then
        '(xterm, _) ← poll_GetState p ts i;
        if decide (term = -1) then checkTerms_loop ids p ts xterm
        else if decide (term ≠ xterm) then Fatal "servers disagree on term"
        else checkTerms_loop ids p ts term
      else checkTerms_loop ids p ts term
  end.

Definition checkTerms p ts : outcome Z := checkTerms_loop (seq 0 (ts_n ts)) p ts (-1).

Fixpoint checkNoLeader_loop (ids : list nat) p ts : outcome unit :=
  match ids with
  | [] => Ret tt
  | i :: ids =>
      if po_connected p i then
        '(_, is_leader) ← poll_GetState p ts i;
        if (is_leader : bool) then Fatal ("leader = " +:+ pretty i) else checkNoLeader_loop ids p ts
      else checkNoLeader_loop ids p ts
  end.

Definition checkNoLeader p ts : outcome unit := checkNoLeader_loop (seq 0 (ts_n ts)) p ts.

(** ** [nCommitted] and [checkNoAgreement] *)

Fixpoint nCommitted_loop (index : Z) (srvs : list (raftServer Cmd)) (count : Z) (cmd : option Cmd)
    : outcome (Z * option Cmd) :=
  match srvs with
  | [] => Ret (count, cmd)
  | rs :: srvs =>
      if decide (rs_applyErr rs ≠ "") then Fatal (rs_applyErr rs)
      else
        match entry rs index with
        | Some cmd1 =>
            if decide (count > 0 ∧ cmd ≠ cmd1) then
              Fatal ("committed values at index " +:+ pretty index +:+ " do not match (" +:+
                     show cmd +:+ " != " +:+ show cmd1 +:+ ")")
            else nCommitted_loop index srvs (count + 1) cmd1
        | None => nCommitted_loop index srvs count cmd
        end
  end.

Definition nCommitted (index : Z) ts : outcome (Z * option Cmd) :=
  nCommitted_loop index (ts_srvs ts) 0 None.

Definition checkNoAgreement (index : Z) ts : outcome unit :=
  '(n, _) ← nCommitted index ts;
  if decide (n > 0) then Fatal (pretty n +:+ " committed but no majority") else Ret tt.

(** ** [one]

    One turn of the outer loop: the flag read at its head, the servers' slots and the answers
    of [IsConnected] and [Start] while it looks for a leader, by the number of the try, and
    what each [nCommitted] within two seconds reads.  The list of turns is as long as ten
    seconds allow. *)
Record one_turn := {
  ot_finished : bool; ot_ts : Test Cmd;
  ot_connected : nat → bool; ot_Start : nat → Z * bool; ot_polls : list (Test Cmd)
}.

(** The loop that offers the command to each server in turn, from after [starts]. *)
Fixpoint one_tries (t : one_turn) (try n starts : nat) : outcome (nat * Z) :=
  match n with
  | O => Ret (starts, -1)
  | S n =>
      let starts := ((starts + 1) `mod` length (ts_srvs (ot_ts t)))%nat in
      rs ← go_index (ts_srvs (ot_ts t)) (Z.of_nat starts);
      if ot_connected t try && rs_rfsrv rs then
        let '(index1, ok) := ot_Start t try in
        if (ok : bool) then Ret (starts, index1) else one_tries t (S try) n starts
      else one_tries t (S try) n starts
  end.

Fixpoint one_wait (cmd : option Cmd) (expectedServers index : Z) (polls : list (Test Cmd))
    : outcome bool :=
  match polls with
  | [] => Ret false
  | ts :: polls =>
      '(nd, cmd1) ← nCommitted index ts;
      if decide (nd > 0 ∧ nd >= expectedServers ∧ cmd1 = cmd) then Ret true
      else one_wait cmd expectedServers index polls
  end.

Definition one_failed (cmd : option Cmd) : string :=
  "one(" +:+ show cmd +:+ ") failed to reach agreement".

(** [finished] is the flag as read after the loop. *)
Fixpoint one_loop (cmd : option Cmd) (expectedServers : Z) (retry finished : bool)
    (turns : list one_turn) (starts : nat) : outcome Z :=
  match turns with
  | [] => if finished then Ret (-1) else Fatal (one_failed cmd)
  | t :: turns =>
      if ot_finished t then Ret (-1)
      else
        '(starts, index) ← one_tries t 0 (length (ts_srvs (ot_ts t))) starts;
        if decide (index ≠ -1) then
          agreed ← one_wait cmd expectedServers index (ot_polls t);
          if (agreed : bool) then Ret index
          else if negb retry then Fatal (one_failed cmd)
          else one_loop cmd expectedServers retry finished turns starts
        else one_loop cmd expectedServers retry finished turns starts
  end.

Definition one (cmd : option Cmd) (expectedServers : Z) (retry finished : bool)
    (turns : list one_turn) : outcome Z :=
  one_loop cmd expectedServers retry finished turns 0.

(** ** [wait] *)

(** [wait] returns a command, or the int -1 when a server has left the term. *)
Inductive wait_result := WaitMoved | WaitCmd (cmd : option Cmd).

Fixpoint wait_moved (ids : list nat) p ts (startTerm : Z) : outcome bool :=
  match ids with
  | [] => Ret false
  | i :: ids =>
      '(t, _) ← poll_GetState p ts i;
      if decide (t > startTerm) then Ret true else wait_moved ids p ts startTerm
  end.

(** [obs k] is what turn [k] reads: the logs before its sleep, the terms after it. *)
Fixpoint wait_loop (index n startTerm : Z) (iters : nat) (obs : nat → Test Cmd * poll)
    : outcome bool :=
  match iters with
  | O => Ret false
  | S iters =>
      let '(ts, p) := obs O in
      '(nd, _) ← nCommitted index ts;
      if decide (nd >= n) then Ret false
      else
        moved ← (if decide (startTerm > -1)
                 then wait_moved (seq 0 (length (ts_srvs ts))) p ts startTerm else Ret false);
        if (moved : bool) then Ret true
        else wait_loop index n startTerm iters (λ k, obs (S k))
  end.

Definition wait (index n startTerm : Z) (obs : nat → Test Cmd * poll) (last : Test Cmd)
    : outcome wait_result :=
  moved ← wait_loop index n startTerm 30 obs;
  if (moved : bool) then Ret WaitMoved
  else
    '(nd, cmd) ← nCommitted index last;
    if decide (nd < n) then
      Fatal ("only " +:+ pretty nd +:+ " decided for index " +:+ pretty index +:+ "; wanted " +:+ pretty n)
    else Ret (WaitCmd cmd).

(** ** What [nCommitted] counts *)

Definition quiet_srvs (srvs : list (raftServer Cmd)) : Prop := Forall (λ rs, rs_applyErr rs = "") srvs.

Definition committed_at (index : Z) (srvs : list (raftServer Cmd)) : list (option Cmd) :=
  omap (λ rs, entry rs index) srvs.

Lemma nCommitted_loop_Ret index srvs count cmd n c :
  0 ≤ count →
  nCommitted_loop index srvs count cmd = Ret (n, c) →
  quiet_srvs srvs ∧ n = count + zlen (committed_at index srvs) ∧
  Forall (λ v, v = c) (committed_at index srvs) ∧ (count > 0 → c = cmd).
Proof.
  revert count cmd. induction srvs as [|rs srvs IH]; intros count cmd Hc E; cbn in E.
  - injection E as <- <-. split_and!; [by constructor|unfold zlen; cbn; lia|by constructor|done].
  - case_decide as He; [done|]. unfold committed_at in *. cbn.
    destruct (entry rs index) as [v|].
    + case_decide as Hd; [done|]. destruct (IH (count + 1) v ltac:(lia) E) as (Hq & -> & Hall & Hv).
      rewrite zlen_cons. specialize (Hv ltac:(lia)) as ->.
      split_and!; [by constructor|lia|by constructor|]. intros. destruct (decide (cmd = v)); naive_solver.
    + destruct (IH count cmd Hc E) as (Hq & -> & Hall & Hv). split_and!; [by constructor|done..].
Qed.

Lemma nCommitted_Ret index ts n c :
  nCommitted index ts = Ret (n, c) →
  quiet_srvs (ts_srvs ts) ∧ n = zlen (committed_at index (ts_srvs ts)) ∧
  Forall (λ v, v = c) (committed_at index (ts_srvs ts)).
Proof. intros (Hq & -> & Hall & _)%nCommitted_loop_Ret; [|lia]. done. Qed.

Lemma nCommitted_loop_total index srvs count cmd c :
  quiet_srvs srvs → Forall (λ v, v = c) (committed_at index srvs) → (count > 0 → cmd = c) →
  is_ret (nCommitted_loop index srvs count cmd).
Proof.
  intros Hq. revert count cmd. induction Hq as [|rs srvs Hrs Hq IH]; intros count cmd Hall Hc; cbn.
  { by eexists. }
  rewrite Hrs, decide_False by naive_solver. unfold committed_at in *. cbn in Hall.
  destruct (entry rs index) as [v|]; [|by apply IH].
  apply Forall_cons in Hall as [-> Hall]. rewrite decide_False by naive_solver. by apply IH.
Qed.

(** ** [one] *)

Lemma one_tries_Ret t try n starts starts' index :
  one_tries t try n starts = Ret (starts', index) → index ≠ -1 →
  ∃ k, ot_connected t k = true ∧ ot_Start t k = (index, true).
Proof.
  revert try starts. induction n as [|n IH]; intros try starts E Hi; cbn in E; [by simplify_eq|].
  apply bind_ret_inv in E as (rs & _ & E).
  destruct (ot_connected t try && rs_rfsrv rs) eqn:Hc; [|by eapply IH].
  destruct (ot_Start t try) as [index1 [|]] eqn:Hs; [|by eapply IH].
  injection E as <- <-. exists try. by apply andb_prop in Hc as [-> _].
Qed.

Lemma one_wait_true cmd e index polls :
  one_wait cmd e index polls = Ret true →
  ∃ ts, ts ∈ polls ∧ quiet_srvs (ts_srvs ts) ∧ 1 ≤ zlen (committed_at index (ts_srvs ts)) ∧
    e ≤ zlen (committed_at index (ts_srvs ts)) ∧ Forall (λ v, v = cmd) (committed_at index (ts_srvs ts)).
Proof.
  induction polls as [|ts polls IH]; intros E; cbn in E; [done|].
  apply bind_ret_inv in E as ([nd cmd1] & (Hq & -> & Hall)%nCommitted_Ret & E).
  case_decide as Hd.
  - destruct Hd as (? & ? & ->). exists ts. split_and!; [left|done|lia|lia|done].
  - destruct (IH E) as (ts' & ? & ?). exists ts'. split; [by right|done].
Qed.

(** Some turn offered the command to a connected server that accepted it at [index], and at
    some later look of that turn at least [e] servers, and one, had committed [cmd] there,
    none another command, and no server had reported an error. *)
Definition reached (cmd : option Cmd) (e index : Z) (turns : list one_turn) : Prop :=
  ∃ t k ts, t ∈ turns ∧ ot_connected t k = true ∧ ot_Start t k = (index, true) ∧
    ts ∈ ot_polls t ∧ quiet_srvs (ts_srvs ts) ∧
    1 ≤ zlen (committed_at index (ts_srvs ts)) ∧ e ≤ zlen (committed_at index (ts_srvs ts)) ∧
    Forall (λ v, v = cmd) (committed_at index (ts_srvs ts)).

Definition gave_up (finished : bool) (turns : list one_turn) : Prop :=
  finished = true ∨ ∃ t, t ∈ turns ∧ ot_finished t = true.

Lemma reached_cons cmd e index t turns : reached cmd e index turns → reached cmd e index (t :: turns).
Proof. intros (t' & k & ts & ? & ?). exists t', k, ts. split; [by right|done]. Qed.

Lemma gave_up_cons finished t turns : gave_up finished turns → gave_up finished (t :: turns).
Proof. intros [|(t' & ? & ?)]; [by left|]. right. exists t'. split; [by right|done]. Qed.

(** An index that [one] returns is one at which, at some look, at least the expected
    number of servers had committed the command and none another one, and a connected server
    had accepted the command for that index; it returns -1 only for a finished test. *)
Theorem one_agreement cmd e retry finished turns index :
  one cmd e retry finished turns = Ret index →
  (index = -1 ∧ gave_up finished turns) ∨ (index ≠ -1 ∧ reached cmd e index turns).
Proof.
  unfold one. generalize 0%nat. induction turns as [|t turns IH]; intros starts E; cbn in E.
  - destruct finished; [|done]. injection E as <-. left. split; [done|by left].
  - destruct (ot_finished t) eqn:Hf.
    { injection E as <-. left. split; [done|]. right. exists t. split; [left|done]. }
    apply bind_ret_inv in E as ([starts' index1] & Ht & E).
    case_decide as Hi; [|destruct (IH _ E); naive_solver eauto using reached_cons, gave_up_cons].
    apply bind_ret_inv in E as (agreed & Hw & E). destruct agreed.
    + injection E as <-. right. split; [done|].
      destruct (one_tries_Ret _ _ _ _ _ _ Ht Hi) as (k & ? & ?).
      destruct (one_wait_true _ _ _ _ Hw) as (ts & ? & ?). exists t, k, ts. by split; [left|].
    + destruct retry; [|done]. destruct (IH _ E); naive_solver eauto using reached_cons, gave_up_cons.
Qed.

#[local] Instance tester_fates : Itester Cmd (Test Cmd) := fates show.

(** ** The silence of [CheckLogs]

    The servers' processes deliver their peers' messages in some order; the calls to the
    tester get through. *)
Fixpoint deliver (ds : list (Z * ApplyMsg Cmd)) ts : outcome (Test Cmd) :=
  match ds with
  | [] => Ret ts
  | (me, m) :: ds => ts ← applier_step Delivered Delivered me m ts; deliver ds ts
  end.

(** The commands among the deliveries: server, index, command. *)
Definition commands (ds : list (Z * ApplyMsg Cmd)) : list (Z * Z * option Cmd) :=
  omap (λ '(me, m), if am_CommandValid m
                    then Some (me, am_CommandIndex m, am_Command m) else None) ds.

(** No server applies at an index anything but what was applied there before, and none an
    index above 1 before the index below it. *)
Definition trace_ok (cs : list (Z * Z * option Cmd)) : Prop :=
  ∀ k i idx v, cs !! k = Some (i, idx, v) →
    (∀ k' j w, (k' < k)%nat → cs !! k' = Some (j, idx, w) → w = v) ∧
    (idx > 1 → ∃ k' w, (k' < k)%nat ∧ cs !! k' = Some (i, idx - 1, w)).

Definition extends_ok (cs : list (Z * Z * option Cmd)) (i idx : Z) (v : option Cmd) : Prop :=
  (∀ j w, (j, idx, w) ∈ cs → w = v) ∧ (idx > 1 → ∃ w, (i, idx - 1, w) ∈ cs).

Lemma trace_ok_snoc cs i idx v :
  trace_ok (cs ++ [(i, idx, v)]) ↔ trace_ok cs ∧ extends_ok cs i idx v.
Proof.
  split.
  - intros Hok. split.
    + intros k j idx' w Hk. destruct (Hok k j idx' w) as [H1 H2]; [by apply lookup_app_l_Some|].
      pose proof (lookup_lt_Some _ _ _ Hk). split.
      * intros k' j' w' Hlt Hk'. eapply H1; [done|by apply lookup_app_l_Some].
      * intros Hgt. destruct (H2 Hgt) as (k' & w' & Hlt & Hk'). exists k', w'. split; [done|].
        rewrite lookup_app_l in Hk' by lia. done.
    + destruct (Hok (length cs) i idx v) as [H1 H2]; [by apply list_lookup_middle|]. split.
      * intros j w (k & Hk)%list_elem_of_lookup. eapply (H1 k); [by eapply lookup_lt_Some|].
        by apply lookup_app_l_Some.
      * intros Hgt. destruct (H2 Hgt) as (k' & w' & Hlt & Hk'). rewrite lookup_app_l in Hk' by done.
        exists w'. by eapply list_elem_of_lookup_2.
  - intros [Hok [H1 H2]] k j idx' w Hk.
    apply lookup_app_Some in Hk as [Hk|[Hge [Hz [= <- <- <-]]%list_lookup_singleton_Some]].
    + destruct (Hok k j idx' w Hk) as [H3 H4]. pose proof (lookup_lt_Some _ _ _ Hk). split.
      * intros k' j' w' Hlt Hk'. rewrite lookup_app_l in Hk' by lia. by eapply H3.
      * intros (k' & w' & Hlt & Hk')%H4. exists k', w'. split; [done|by apply lookup_app_l_Some].
    + assert (k = length cs) as -> by lia. split.
      * intros k' j' w' Hlt Hk'. rewrite lookup_app_l in Hk' by lia.
        eapply H1, list_elem_of_lookup_2, Hk'.
      * intros (w' & (k' & Hk')%list_elem_of_lookup)%H2. exists k', w'.
        split; [by eapply lookup_lt_Some|by apply lookup_app_l_Some].
Qed.

Lemma disagreement_quiet m i j srvs err :
  disagreement show m i j srvs err = "" ↔
  err = "" ∧ Forall (λ rs, ∀ old, entry rs (am_CommandIndex m) = Some old → old = am_Command m) srvs.
Proof.
  revert j err. induction srvs as [|rs srvs IH]; intros j err; cbn [disagreement].
  { split; [by split; [|constructor]|by intros [? _]]. }
  rewrite IH, Forall_cons. destruct (entry rs (am_CommandIndex m)) as [old|]; [|naive_solver].
  case_decide as Hd; [|destruct (decide (old = am_Command m)); naive_solver].
  split; [intros [He _]; by apply eq_sym in He|]. intros (_ & Ho & _). destruct Hd. by apply Ho.
Qed.

(** The tester after a delivery of a command to server [k]. *)
Lemma applier_step_Delivered m ts (k : nat) rs :
  am_CommandValid m = true → ts_srvs ts !! k = Some rs →
  ∃ ts' err, applier_step Delivered Delivered (Z.of_nat k) m ts = Ret ts' ∧
    ts_srvs ts' = <[k := {| rs_rfsrv := rs_rfsrv rs; rs_applyErr := err;
                            rs_logs := <[am_CommandIndex m := am_Command m]> (rs_logs rs) |}]> (ts_srvs ts) ∧
    (err = "" ↔ rs_applyErr rs = "" ∧
       Forall (λ rs, ∀ old, entry rs (am_CommandIndex m) = Some old → old = am_Command m) (ts_srvs ts) ∧
       (am_CommandIndex m > 1 → is_Some (entry rs (am_CommandIndex m - 1)))).
Proof.
  intros Hv Hk. pose proof (lookup_lt_Some _ _ _ Hk) as Hlt.
  unfold applier_step. rewrite Hv. cbn [negb it_CheckLogs it_ApplyErr tester_fates fates TesterProxy_CheckLogs]. unfold CheckLogs.
  rewrite (go_index_nat _ k rs), bind_ret_l, go_update_nat, !bind_ret_l by done.
  pose proof (disagreement_quiet m (Z.of_nat k) 0 (ts_srvs ts) "") as Hd.
  set (msg := disagreement _ _ _ _ _ _) in *.
  match goal with |- context [decide (?e ≠ "")] => set (err_msg := e) end.
  assert (err_msg = "" ↔ msg = "" ∧ (am_CommandIndex m > 1 → is_Some (entry rs (am_CommandIndex m - 1)))) as He.
  { unfold err_msg. clear. repeat case_bool_decide; cbn; naive_solver. }
  case_decide as Hm.
  - cbn [TesterProxy_ApplyErr]. unfold ApplyErr, update_srv. cbn [ts_srvs update].
    erewrite go_index_nat by (apply list_lookup_insert_eq; done). rewrite bind_ret_l.
    rewrite go_update_nat, bind_ret_l by (by rewrite length_insert).
    eexists _, err_msg. split; [done|]. cbn. rewrite list_insert_insert_eq. split; [done|].
    split; [intros ->; done|]. naive_solver.
  - eexists _, (rs_applyErr rs). split; [done|]. split; [done|]. naive_solver.
Qed.

(** ** Invariant of the deliveries *)

Definition logs_are (cs : list (Z * Z * option Cmd)) (srvs : list (raftServer Cmd)) : Prop :=
  ∀ (k : nat) rs, srvs !! k = Some rs → ∀ idx v, entry rs idx = Some v ↔ (Z.of_nat k, idx, v) ∈ cs.

Definition tester_inv (n : nat) (cs : list (Z * Z * option Cmd)) ts : Prop :=
  length (ts_srvs ts) = n ∧ (quiet_srvs (ts_srvs ts) ↔ trace_ok cs) ∧
  (trace_ok cs → logs_are cs (ts_srvs ts)).

Lemma quiet_insert srvs (k : nat) rs rs' :
  srvs !! k = Some rs → (rs_applyErr rs' = "" → rs_applyErr rs = "") →
  quiet_srvs (<[k := rs']> srvs) ↔ quiet_srvs srvs ∧ rs_applyErr rs' = "".
Proof.
  intros Hk Hr. unfold quiet_srvs. rewrite !Forall_lookup. split.
  - intros Hall. assert (rs_applyErr rs' = "") as He.
    { apply (Hall k). apply list_lookup_insert_eq. by eapply lookup_lt_Some. }
    split; [|done]. intros j r Hj. destruct (decide (j = k)) as [->|]; [naive_solver|].
    apply (Hall j). by rewrite list_lookup_insert_ne.
  - intros [Hall He] j r. rewrite list_lookup_insert. case_decide; naive_solver.
Qed.

Lemma extends_ok_logs cs srvs (k : nat) rs idx v :
  logs_are cs srvs → (∀ i j w, (i, j, w) ∈ cs → 0 ≤ i < zlen srvs) → srvs !! k = Some rs →
  extends_ok cs (Z.of_nat k) idx v ↔
    Forall (λ rs, ∀ old, entry rs idx = Some old → old = v) srvs ∧
    (idx > 1 → is_Some (entry rs (idx - 1))).
Proof.
  intros Hl Hr Hk. unfold extends_ok. rewrite Forall_lookup.
  split.
  - intros [H1 H2]. split.
    + intros j r Hj old Ho. eapply H1, Hl; done.
    + intros (w & Hw)%H2. exists w. by eapply Hl.
  - intros [H1 H2]. split.
    + intros j w Hin. destruct (Hr _ _ _ Hin) as [Hge Hlt]. unfold zlen in Hlt.
      destruct (lookup_lt_is_Some_2 srvs (Z.to_nat j)) as [r Hj]; [lia|].
      eapply H1; [done|]. eapply Hl; [done|]. by rewrite Z2Nat.id.
    + intros [w Hw]%H2. exists w. by eapply Hl.
Qed.

Lemma logs_are_insert cs srvs (k : nat) rs rs' idx v :
  logs_are cs srvs → srvs !! k = Some rs → rs_logs rs' = <[idx := v]> (rs_logs rs) →
  (∀ j w, (j, idx, w) ∈ cs → w = v) →
  logs_are (cs ++ [(Z.of_nat k, idx, v)]) (<[k := rs']> srvs).
Proof.
  intros Hl Hk Hr Hv j r Hj idx' w. rewrite elem_of_app, list_elem_of_singleton.
  rewrite list_lookup_insert in Hj. case_decide as Hc.
  - destruct Hc as [<- Hlt]. injection Hj as <-. unfold entry. rewrite Hr, lookup_insert.
    case_decide as Hi.
    + subst idx'. split; [intros [= ->]; by right|]. intros [Hin%Hv|[= ->]]; congruence.
    + rewrite (Hl k rs Hk idx' w). naive_solver.
  - rewrite (Hl j r Hj idx' w). split; [by left|]. intros [|[= Hjk _ _]]; [done|].
    assert (j = k) as -> by lia. exfalso. apply Hc. split; [done|]. by eapply lookup_lt_Some.
Qed.

Definition from_servers (n : nat) (cs : list (Z * Z * option Cmd)) : Prop :=
  ∀ i j w, (i, j, w) ∈ cs → 0 ≤ i < Z.of_nat n.

Lemma deliver1_inv n cs (k : nat) m ts :
  tester_inv n cs ts → from_servers n cs → (k < n)%nat →
  ∃ ts', applier_step Delivered Delivered (Z.of_nat k) m ts = Ret ts' ∧
    tester_inv n (cs ++ commands [(Z.of_nat k, m)]) ts'.
Proof.
  intros (Hlen & Hq & Hl) Hfrom Hk. cbn. destruct (am_CommandValid m) eqn:Hv.
  2: { exists ts. unfold applier_step. rewrite Hv, app_nil_r. done. }
  destruct (lookup_lt_is_Some_2 (ts_srvs ts) k) as [rs Hrs]; [lia|].
  destruct (applier_step_Delivered m ts k rs Hv Hrs) as (ts' & err & -> & Hsrvs & Herr).
  exists ts'. split; [done|]. unfold tester_inv. rewrite Hsrvs, length_insert.
  split; [done|]. split.
  - rewrite (quiet_insert _ _ rs) by (cbn; naive_solver). cbn. rewrite trace_ok_snoc, Hq.
    split; (intros [Hok Hx]; split; [done|]); specialize (Hl Hok);
      rewrite (extends_ok_logs _ (ts_srvs ts) k rs) in * by (try done; unfold zlen; rewrite Hlen; done).
    + naive_solver.
    + apply Herr. split; [|done]. apply Hq in Hok. eapply (proj1 (Forall_lookup _ _)) in Hok; done.
  - intros [Hok [Hx _]]%trace_ok_snoc. by eapply logs_are_insert; [apply Hl| | |].
Qed.

Lemma commands_app ds ds' : commands (ds ++ ds') = commands ds ++ commands ds'.
Proof. unfold commands. apply omap_app. Qed.

Lemma deliver_inv n cs ds ts :
  tester_inv n cs ts → from_servers n cs → Forall (λ d, 0 ≤ d.1 < Z.of_nat n) ds →
  ∃ ts', deliver ds ts = Ret ts' ∧ tester_inv n (cs ++ commands ds) ts'.
Proof.
  intros Hinv Hfrom Hds. revert cs ts Hinv Hfrom.
  induction Hds as [|[me m] ds Hme Hds IH]; intros cs ts Hinv Hfrom; cbn [deliver].
  { exists ts. by rewrite app_nil_r. }
  cbn in Hme. destruct (deliver1_inv n cs (Z.to_nat me) m ts Hinv Hfrom) as (ts' & E & Hinv'); [lia|].
  rewrite Z2Nat.id in E, Hinv' by lia. rewrite E, bind_ret_l.
  destruct (IH _ _ Hinv') as (ts2 & -> & Hinv2).
  - intros i j w [Hin|Hin]%elem_of_app; [by eapply Hfrom|]. cbn in Hin.
    destruct (am_CommandValid m); [|by apply elem_of_nil in Hin].
    apply list_elem_of_singleton in Hin. by simplify_eq.
  - exists ts2. split; [done|].
    change ((me, m) :: ds) with ([(me, m)] ++ ds). by rewrite commands_app, app_assoc.
Qed.

Lemma makeTest_inv n snapshot : tester_inv n [] (makeTest n snapshot).
Proof.
  unfold tester_inv. cbn. rewrite length_replicate. split; [done|]. split.
  - split; [intros _ k i idx v; by rewrite lookup_nil|]. intros _. by apply Forall_replicate.
  - intros _ k rs [-> _]%lookup_replicate idx v. split; [done|by intros ?%elem_of_nil].
Qed.

(** The tester records an error for some server exactly when the servers' applied
    commands disagree at an index or one server skips an index: its silence is state machine
    safety and in-order delivery of the trace, and it raises no false alarm. *)
Theorem applier_silence n snapshot ds :
  Forall (λ d, 0 ≤ d.1 < Z.of_nat n) ds →
  ∃ ts, deliver ds (makeTest n snapshot) = Ret ts ∧
    (quiet_srvs (ts_srvs ts) ↔ trace_ok (commands ds)).
Proof.
  intros Hds. destruct (deliver_inv n [] ds _ (makeTest_inv n snapshot)) as (ts & E & _ & Hq & _);
    [by intros ??? ?%elem_of_nil|done|]. by exists ts.
Qed.

(** ** What the polls conclude *)

(** Every slot has a server to ask. *)
Definition alive ts : Prop := length (ts_srvs ts) = ts_n ts ∧ Forall (λ rs, rs_rfsrv rs = true) (ts_srvs ts).

(** The connected servers that say they lead, and the connected servers. *)
Definition connected_ids p ts : list nat := filter (λ i, po_connected p i = true) (seq 0 (ts_n ts)).
Definition leader_ids p ts : list nat :=
  filter (λ i, po_connected p i = true ∧ (po_state p i).2 = true) (seq 0 (ts_n ts)).
Definition term_of p (i : nat) : Z := (po_state p i).1.

Lemma poll_GetState_alive p ts i :
  alive ts → (i < ts_n ts)%nat → poll_GetState p ts i = Ret (po_state p i).
Proof.
  intros [Hlen Hall] Hi. destruct (lookup_lt_is_Some_2 (ts_srvs ts) i) as [rs Hrs]; [lia|].
  unfold poll_GetState. rewrite (go_index_nat _ _ _ Hrs), bind_ret_l.
  eapply Forall_lookup in Hall; [|done]. cbn in Hall. by rewrite Hall.
Qed.

Lemma collect_leaders_alive p ts ids leaders :
  alive ts → Forall (λ i, (i < ts_n ts)%nat) ids →
  collect_leaders ids p ts leaders =
    Ret (foldl (λ M i, map_push M (term_of p i) i) leaders
           (filter (λ i, po_connected p i = true ∧ (po_state p i).2 = true) ids)).
Proof.
  intros Ha Hids. revert leaders. induction Hids as [|i ids Hi Hids IH]; intros leaders; [done|].
  cbn [collect_leaders]. rewrite filter_cons. destruct (po_connected p i).
  - rewrite poll_GetState_alive, bind_ret_l by done. unfold term_of at 1.
    destruct (po_state p i) as [t l] eqn:Hp. rewrite IH. cbn. destruct l.
    + rewrite decide_True by done. cbn. unfold term_of. by rewrite Hp.
    + rewrite decide_False by naive_solver. done.
  - rewrite IH, decide_False by naive_solver. done.
Qed.

Lemma lastTermWithLeader_cases l last :
  (∃ t, lastTermWithLeader l last = Ret t ∧ Forall (λ x, (length x.2 ≤ 1)%nat) l ∧ last ≤ t ∧
     Forall (λ x, x.1 ≤ t) l ∧ (t = last ∨ t ∈ l.*1)) ∨
  (∃ w, lastTermWithLeader l last = Fatal w ∧ Exists (λ x, (1 < length x.2)%nat) l).
Proof.
  revert last. induction l as [|[t ls] l IH]; intros last; cbn [lastTermWithLeader].
  { left. exists last. split_and!; [done|by constructor|lia|by constructor|by left]. }
  case_decide as Hls; [right; by eexists; split; [|by left]|].
  destruct (IH (if decide (t > last) then t else last)) as [(t' & -> & H1 & H2 & H3 & H4)|(w & -> & H1)].
  - left. exists t'. cbn. split_and!; [done| |case_decide; lia| |].
    + constructor; [cbn; lia|done].
    + constructor; [cbn; case_decide; lia|done].
    + rewrite elem_of_cons. case_decide; naive_solver.
  - right. exists w. split; [done|by right].
Qed.

Lemma NoDup_fmap_groups {A} (f : A → Z) (l : list A) :
  (∀ t, (length (filter (λ i, f i = t) l) ≤ 1)%nat) → NoDup (f <$> l).
Proof.
  induction l as [|x l IH]; intros Hg; cbn; [by constructor|]. constructor.
  - intros (y & Hy & Hin)%list_elem_of_fmap. specialize (Hg (f x)).
    rewrite filter_cons, decide_True in Hg by done. cbn in Hg.
    assert (y ∈ filter (λ i, f i = f x) l) as Hf by (apply list_elem_of_filter; done).
    destruct (filter (λ i, f i = f x) l); [by apply elem_of_nil in Hf|cbn in Hg; lia].
  - apply IH. intros t. specialize (Hg t). rewrite filter_cons in Hg.
    case_decide; [cbn in Hg; lia|done].
Qed.

(** A pass names [l]: it is a leader, of the highest term with one, and no term has two. *)
Definition pass_leader p ts (l : nat) : Prop :=
  l ∈ leader_ids p ts ∧ (∀ j, j ∈ leader_ids p ts → term_of p j ≤ term_of p l) ∧
  NoDup (term_of p <$> leader_ids p ts).

Definition two_leaders p ts : Prop :=
  ∃ i j, i ≠ j ∧ i ∈ leader_ids p ts ∧ j ∈ leader_ids p ts ∧ term_of p i = term_of p j.

Lemma two_leaders_of_group p ts t :
  (1 < length (filter (λ i, term_of p i = t) (leader_ids p ts)))%nat → two_leaders p ts.
Proof.
  intros Hlen. assert (NoDup (filter (λ i, term_of p i = t) (leader_ids p ts))) as Hnd
    by apply NoDup_filter, NoDup_filter, NoDup_seq.
  assert (∀ x, x ∈ filter (λ i, term_of p i = t) (leader_ids p ts) →
               term_of p x = t ∧ x ∈ leader_ids p ts) as Hin by (intros x; by rewrite list_elem_of_filter).
  destruct (filter _ (leader_ids p ts)) as [|i [|j l]]; cbn in Hlen; [lia..|].
  exists i, j. destruct (Hin i) as [Hi ?]; [left|]. destruct (Hin j) as [Hj ?]; [right; left|].
  split_and!; [|done|done|congruence]. apply NoDup_cons in Hnd as [Hnd _]. intros ->. apply Hnd. left.
Qed.

Lemma leaders_group p ts t ls :
  (t, ls) ∈ map_to_list (group_by (term_of p) (leader_ids p ts)) ↔
  ls = filter (λ i, term_of p i = t) (leader_ids p ts) ∧ ls ≠ [].
Proof.
  rewrite elem_of_map_to_list, group_by_lookup. destruct (filter _ (leader_ids p ts)); naive_solver.
Qed.

Lemma leaders_head p ts t ls :
  (t, ls) ∈ map_to_list (group_by (term_of p) (leader_ids p ts)) →
  ∃ l ls', ls = l :: ls' ∧ l ∈ leader_ids p ts ∧ term_of p l = t.
Proof.
  intros [Hls Hne]%leaders_group. destruct ls as [|l ls']; [done|]. exists l, ls'.
  assert (l ∈ filter (λ i, term_of p i = t) (leader_ids p ts)) as [? ?]%list_elem_of_filter;
    [rewrite <- Hls; left|done].
Qed.

Lemma leaders_term p ts i :
  i ∈ leader_ids p ts →
  ∃ ls, (term_of p i, ls) ∈ map_to_list (group_by (term_of p) (leader_ids p ts)).
Proof.
  intros Hi. exists (filter (λ j, term_of p j = term_of p i) (leader_ids p ts)).
  apply leaders_group. split; [done|]. intros Hf.
  assert (i ∈ filter (λ j, term_of p j = term_of p i) (leader_ids p ts)) as Hin
    by (by apply list_elem_of_filter).
  rewrite Hf in Hin. by apply elem_of_nil in Hin.
Qed.

Lemma checkOneLeader_pass_cases ro p ts :
  (∀ l, ro l ≡ₚ l) → alive ts → (∀ i, i ∈ leader_ids p ts → 0 ≤ term_of p i) →
  (leader_ids p ts = [] ∧ checkOneLeader_pass ro p ts = Ret None) ∨
  (∃ l, checkOneLeader_pass ro p ts = Ret (Some l) ∧ pass_leader p ts l) ∨
  (∃ w, checkOneLeader_pass ro p ts = Fatal w ∧ two_leaders p ts).
Proof.
  intros Hro Ha Hterm. unfold checkOneLeader_pass.
  rewrite collect_leaders_alive, bind_ret_l by (done || apply Forall_seq; lia).
  fold (leader_ids p ts). fold (group_by (term_of p) (leader_ids p ts)).
  set (M := group_by (term_of p) (leader_ids p ts)).
  destruct (lastTermWithLeader_cases (ro (map_to_list M)) (-1))
    as [(t & -> & H1 & H2 & H3 & H4)|(w & -> & H1)].
  - rewrite Hro in H1, H3, H4. rewrite bind_ret_l. case_decide as Hm.
    + left. split; [|done]. destruct (nil_or_elem (leader_ids p ts)) as [|[i Hi]]; [done|].
      destruct (leaders_term _ _ _ Hi) as [ls Hls]. fold M in Hls. rewrite Hm, map_to_list_empty in Hls.
      by apply elem_of_nil in Hls.
    + right. left.
      assert (t ∈ (map_to_list M).*1) as ([t' ls] & -> & Hls)%list_elem_of_fmap.
      { destruct H4 as [->|]; [|done]. exfalso. apply map_choose in Hm as (t & ls & Hls).
        apply elem_of_map_to_list in Hls. pose proof (proj1 (Forall_forall _ _) H3 _ Hls) as Hle.
        apply leaders_head in Hls as (l & _ & _ & Hl & <-). specialize (Hterm l Hl). cbn in Hle. lia. }
      cbn. cbn in H3. destruct (leaders_head _ _ _ _ Hls) as (l & ls' & -> & Hl & Ht).
      exists l. split.
      { unfold group_at. apply elem_of_map_to_list in Hls. by rewrite Hls. }
      split_and!; [done| |].
      * intros j (lsj & Hj)%leaders_term. rewrite Ht.
        exact (proj1 (Forall_forall _ _) H3 _ Hj).
      * apply NoDup_fmap_groups. intros t.
        destruct (decide (filter (λ i, term_of p i = t) (leader_ids p ts) = [])) as [->|Hne]; [cbn; lia|].
        refine (proj1 (Forall_forall _ _) H1 (t, _) _). by apply leaders_group.
  - right. right. exists w. split; [done|]. rewrite Hro in H1.
    apply Exists_exists in H1 as ([t ls] & [-> _]%leaders_group & Hlen). by eapply two_leaders_of_group.
Qed.

(** With every server answering, [checkOneLeader] names a server only when, in one of its
    ten passes, that server alone led the highest term with a connected leader, and no pass
    before had one; otherwise it fails, because ten passes saw no leader, or one saw two
    leaders of one term. *)
Theorem checkOneLeader_functional ro (ps : nat → poll) ts :
  (∀ l, ro l ≡ₚ l) → alive ts → (∀ k i, i ∈ leader_ids (ps k) ts → 0 ≤ term_of (ps k) i) →
  match checkOneLeader ro ps ts with
  | Ret l => ∃ k, (k < 10)%nat ∧ (∀ k', (k' < k)%nat → leader_ids (ps k') ts = []) ∧
                  pass_leader (ps k) ts l
  | Fatal _ => (∀ k, (k < 10)%nat → leader_ids (ps k) ts = []) ∨
               ∃ k, (k < 10)%nat ∧ two_leaders (ps k) ts
  | Panic _ => False
  end.
Proof.
  intros Hro Ha. unfold checkOneLeader. generalize 10%nat as iters.
  intros iters. revert ps. induction iters as [|iters IH]; intros ps Hterm; cbn [checkOneLeader_loop].
  { left. lia. }
  destruct (checkOneLeader_pass_cases ro (ps 0%nat) ts Hro Ha (Hterm 0%nat))
    as [[Hno ->]|[(l & -> & Hl)|(w & -> & Hw)]]; rewrite ?bind_ret_l; cbn.
  - specialize (IH (λ k, ps (S k)) (λ k, Hterm (S k))).
    destruct (checkOneLeader_loop _ _ _ _) as [l| |].
    + destruct IH as (k & Hk & Hb & Hl). exists (S k). split_and!; [lia| |done].
      intros [|k'] Hlt; [done|]. apply Hb. lia.
    + done.
    + destruct IH as [Hb|(k & Hk & H2)].
      * left. intros [|k] Hk; [done|]. apply Hb. lia.
      * right. exists (S k). split; [lia|done].
  - exists 0%nat. split_and!; [lia|lia|done].
  - right. exists 0%nat. split; [lia|done].
Qed.
End checks.

(** ** Examples: three servers, commands that are numbers *)

Definition show_Z (v : option Z) : string := match v with Some z => pretty z | None => "<nil>" end.

(** Servers 0 and 2 apply different commands at index 1: the tester records an error. *)
Lemma applier_silence_witness :
  ∃ ts, deliver show_Z [(0, CommandMsg 1 (Some 100)); (2, CommandMsg 1 (Some 200))] (makeTest 3 false)
          = Ret ts ∧ ¬ quiet_srvs (ts_srvs ts).
Proof.
  destruct (applier_silence show_Z 3 false
    [(0, CommandMsg 1 (Some 100)); (2, CommandMsg 1 (Some 200))]) as (ts & E & Hq).
  { repeat constructor; cbn; lia. }
  exists ts. split; [exact E|]. intros Hok. apply Hq in Hok.
  destruct (Hok 1%nat 2 1 (Some 200) eq_refl) as [H _].
  specialize (H 0%nat 0 (Some 100) ltac:(lia) eq_refl). discriminate H.
Defined.

Definition three_srvs (l : list (option Z)) : Test Z :=
  (makeTest 3 false) <| ts_srvs := (λ v, {| rs_rfsrv := true; rs_applyErr := "";
    rs_logs := match v with Some z => {[1 := Some z]} | None => ∅ end |}) <$> l |>.

(** The second server leads and accepts the command; two servers hold it at the third look. *)
Definition agreeing_turn : one_turn (Cmd := Z) :=
  {| ot_finished := false; ot_ts := three_srvs [None; None; None]; ot_connected := λ _, true;
     ot_Start := λ k, (1, bool_decide (k = 1%nat));
     ot_polls := [three_srvs [None; None; None]; three_srvs [None; None; Some 7];
                  three_srvs [Some 7; None; Some 7]] |}.

Lemma one_agreement_witness :
  one show_Z (Some 7) 2 false false [agreeing_turn] = Ret 1 ∧ reached (Some 7) 2 1 [agreeing_turn].
Proof.
  assert (one show_Z (Some 7) 2 false false [agreeing_turn] = Ret 1) as E by (vm_compute; reflexivity).
  split; [exact E|]. destruct (one_agreement show_Z _ _ _ _ _ _ E) as [[H _]|[_ H]];
    [discriminate H|exact H].
Defined.

(** No leader in the first pass, then server 2 in term 4 beside an old leader in term 3. *)
Definition old_and_new (k : nat) : poll :=
  {| po_connected := λ _, true;
     po_state := λ i, if decide (k = 0%nat) then (3, false)
                      else match i with 0%nat => (3, true) | 2%nat => (4, true) | _ => (4, false) end |}.

Lemma checkOneLeader_functional_witness :
  checkOneLeader (λ l, l) old_and_new (makeTest (Cmd := Z) 3 false) = Ret 2%nat ∧
  ∃ k, (k < 10)%nat ∧ pass_leader (old_and_new k) (makeTest (Cmd := Z) 3 false) 2.
Proof.
  assert (checkOneLeader (λ l, l) old_and_new (makeTest (Cmd := Z) 3 false) = Ret 2%nat) as E
    by (vm_compute; reflexivity).
  split; [exact E|].
  assert (alive (makeTest (Cmd := Z) 3 false)) as Ha by (split; [reflexivity|repeat constructor]).
  assert (∀ k i, i ∈ leader_ids (old_and_new k) (makeTest (Cmd := Z) 3 false) →
                 0 ≤ term_of (old_and_new k) i) as Ht.
  { intros k i _. unfold term_of, old_and_new. cbn. case_decide; [cbn; lia|].
    destruct i as [|[|[|]]]; cbn; lia. }
  pose proof (checkOneLeader_functional (λ l, l) old_and_new _ (λ l, Permutation_refl l) Ha Ht) as H.
  rewrite E in H. destruct H as (k & Hk & _ & Hl). exists k. split; [exact Hk|exact Hl].
Defined.
