(* ===== verification/RaftTested.v ===== *)
(** * A cluster under the tester

    The messages of a run of the cluster ([RaftSystem]) reach the appliers of the server
    processes, each its own peer's in the order sent and at any later moment, and through
    them the tester ([RaftTester]).  What the tester then reports is exactly a violation of
    state machine safety: the order it also checks no run breaks. *)
From stdpp Require Import base tactics numbers list fin_maps gmap strings pretty.
From S2P Require Import Prelude GoLib GoSlice RaftNode RaftSpec RaftSystem RaftSafety RaftElection.
From S2P Require Import RaftTester RaftChecks.

Section tested.
Context {Cmd : Type} `{EqDecision Cmd} (show : option Cmd → string).
Implicit Types (s : system Cmd) (ds : list (Z * ApplyMsg Cmd)).

(** The messages the applier of server [i] has taken from its channel. *)
Definition taken (i : nat) ds : list (ApplyMsg Cmd) := (filter (λ d, d.1 = Z.of_nat i) ds).*2.

(** Every applier has taken, in order, some of the messages its peer has sent. *)
Definition feeds s ds : Prop :=
  Forall (λ d, 0 ≤ d.1 < Z.of_nat (length (sy_nodes s))) ds ∧
  ∀ i nd, sy_nodes s !! i = Some nd → taken i ds `prefix_of` nd_applied nd.

(** No two of the messages taken carry different commands for one index. *)
Definition agreement ds : Prop :=
  ∀ i j m m', (i, m) ∈ ds → (j, m') ∈ ds → am_CommandIndex m = am_CommandIndex m' →
    am_Command m = am_Command m'.

Lemma taken_app i ds ds' : taken i (ds ++ ds') = taken i ds ++ taken i ds'.
Proof. unfold taken. by rewrite filter_app, fmap_app. Qed.

Lemma taken_one (k : nat) m : taken k [(Z.of_nat k, m)] = [m].
Proof. unfold taken. by rewrite filter_cons_True. Qed.

Lemma taken_in i ds m : m ∈ taken i ds ↔ (Z.of_nat i, m) ∈ ds.
Proof.
  unfold taken. rewrite list_elem_of_fmap. split.
  - intros ([j x] & -> & [Hj Hin]%list_elem_of_filter). cbn in *. by subst.
  - intros Hin. exists (Z.of_nat i, m). split; [done|]. by apply list_elem_of_filter.
Qed.

Lemma in_order_prefix (l l' : list (ApplyMsg Cmd)) : l `prefix_of` l' → in_order l' → in_order l.
Proof. intros [k ->] Ho j m Hj. apply Ho. by apply lookup_app_l_Some. Qed.

Lemma in_order_valid (l : list (ApplyMsg Cmd)) m : in_order l → m ∈ l → am_CommandValid m = true.
Proof. intros Ho [j Hj]%list_elem_of_lookup. by eapply Ho. Qed.

Definition orderly ds : Prop :=
  Forall (λ d, 0 ≤ d.1) ds ∧ ∀ i, in_order (taken i ds).

Lemma orderly_valid ds i m : orderly ds → (i, m) ∈ ds → am_CommandValid m = true.
Proof.
  intros [Hpos Ho] Hin. rewrite Forall_forall in Hpos. specialize (Hpos _ Hin). cbn in Hpos.
  eapply in_order_valid; [apply (Ho (Z.to_nat i))|]. apply taken_in. by rewrite Z2Nat.id.
Qed.

Lemma commands_valid ds i idx v :
  (∀ j m, (j, m) ∈ ds → am_CommandValid m = true) →
  (i, idx, v) ∈ commands ds ↔ ∃ m, (i, m) ∈ ds ∧ am_CommandIndex m = idx ∧ am_Command m = v.
Proof.
  intros Hv. unfold commands. rewrite list_elem_of_omap. split.
  - intros ([j m] & Hin & Hm). rewrite (Hv j m Hin) in Hm. injection Hm as <- <- <-. by exists m.
  - intros (m & Hin & <- & <-). exists (i, m). split; [done|]. by rewrite (Hv i m Hin).
Qed.

Lemma orderly_snoc ds d : orderly (ds ++ [d]) → orderly ds.
Proof.
  intros [Hpos Ho]. apply Forall_app in Hpos as [Hpos _]. split; [done|]. intros i.
  eapply in_order_prefix; [|apply (Ho i)]. rewrite taken_app. by eexists.
Qed.

(** The last message of an orderly feed follows the one before it. *)
Lemma orderly_last ds i m :
  orderly (ds ++ [(i, m)]) → am_CommandIndex m > 1 →
  ∃ m', (i, m') ∈ ds ∧ am_CommandIndex m' = am_CommandIndex m - 1.
Proof.
  intros [Hpos Ho] Hgt. apply Forall_app in Hpos as [_ Hi]. rewrite Forall_singleton in Hi. cbn in Hi.
  specialize (Ho (Z.to_nat i)). rewrite taken_app in Ho.
  pose proof (taken_one (Z.to_nat i) m) as Hone. rewrite Z2Nat.id in Hone by done. rewrite Hone in Ho.
  set (l := taken (Z.to_nat i) ds) in *.
  destruct (Ho (length l) m) as [Hm _]; [by apply list_lookup_middle|].
  destruct (lookup_lt_is_Some_2 l (length l - 1)%nat) as [m' Hm']; [lia|].
  exists m'. destruct (Ho (length l - 1)%nat m') as [Hx _]; [by apply lookup_app_l_Some|].
  split; [|lia]. apply list_elem_of_lookup_2, taken_in in Hm'. by rewrite Z2Nat.id in Hm'.
Qed.

Lemma agreement_snoc ds d :
  agreement (ds ++ [d]) ↔
  agreement ds ∧ ∀ j m, (j, m) ∈ ds → am_CommandIndex m = am_CommandIndex d.2 → am_Command m = am_Command d.2.
Proof.
  destruct d as [i x]. unfold agreement. split.
  - intros H. split; intros; [eapply H|eapply (H _ i)]; rewrite ?elem_of_app, ?list_elem_of_singleton; eauto.
  - intros [H1 H2] j k m m'. rewrite !elem_of_app, !list_elem_of_singleton.
    intros [Hm|[= -> ->]] [Hm'|[= -> ->]] He; [by eapply H1|by eapply H2| |done].
    symmetry. by eapply H2.
Qed.

(** In-order feeds are good traces exactly if they agree. *)
Lemma orderly_trace ds : orderly ds → trace_ok (commands ds) ↔ agreement ds.
Proof.
  induction ds as [|[i m] ds IH] using rev_ind; intros Ho.
  { split; [by intros _ ???? ?%elem_of_nil|]. intros _ k i idx v Hk. by apply lookup_lt_Some, Nat.nlt_0_r in Hk. }
  pose proof (orderly_snoc _ _ Ho) as Ho'. rewrite commands_app, agreement_snoc, <- IH by done.
  assert (am_CommandValid m = true) as Hv.
  { eapply orderly_valid; [exact Ho|]. apply elem_of_app. right. by left. }
  pose proof (λ idx v j, commands_valid ds j idx v (λ j m, orderly_valid ds j m Ho')) as Hin.
  unfold commands at 2. cbn [omap list_omap]. rewrite Hv, trace_ok_snoc. unfold extends_ok. cbn.
  split; intros [Hok Hx]; (split; [done|]).
  - intros j m' Hm' He. apply (proj1 Hx j), Hin. by exists m'.
  - split; [intros j w (m' & Hm' & He & <-)%Hin; by eapply Hx|].
    intros Hgt. destruct (orderly_last _ _ _ Ho Hgt) as (m' & Hm' & He).
    exists (am_Command m'). apply Hin. by exists m'.
Qed.

(** What a run feeds to the appliers is in order. *)
Lemma feeds_orderly es ets grow s ds :
  sys_run es (sys_init ets grow) = Ret s → feeds s ds → orderly ds.
Proof.
  intros Hrun [Hr Hp]. pose proof (sys_run_ok es _ s (sys_init_ok ets grow) Hrun) as Hok.
  split; [eapply Forall_impl; [done|]; by intros d [? _]|]. intros i.
  destruct (sy_nodes s !! i) as [nd|] eqn:Hi.
  - eapply in_order_prefix; [by apply Hp|]. apply (sys_ok_lookup s i nd Hok Hi).
  - intros j m Hj. exfalso. rewrite Forall_forall in Hr.
    apply list_elem_of_lookup_2, taken_in, Hr in Hj. cbn in Hj. apply lookup_ge_None in Hi. lia.
Qed.

(** C29: the tester never stops on what a run of the cluster delivers, and it holds an error
    for some server exactly when two of the messages the appliers have taken carry different
    commands for one index: no run makes it complain of the order, and no disagreement
    escapes it. *)
Theorem tester_judges_run es ets grow s ds n snapshot :
  sys_run es (sys_init ets grow) = Ret s → feeds s ds → n = length (sy_nodes s) →
  ∃ ts, deliver show ds (makeTest n snapshot) = Ret ts ∧
    (quiet_srvs (ts_srvs ts) ↔ agreement ds).
Proof.
  intros Hrun Hf ->. pose proof (feeds_orderly _ _ _ _ _ Hrun Hf) as Ho.
  destruct (deliver_inv show _ [] ds _ (makeTest_inv (length (sy_nodes s)) snapshot))
    as (ts & E & _ & Hq & _); [by intros ??? ?%elem_of_nil|apply Hf|].
  exists ts. split; [done|]. rewrite Hq. by apply orderly_trace.
Qed.
End tested.

(** The two leaders of [diverge] and the tester: an error is recorded. *)
Definition diverged : list (Z * ApplyMsg Z) := [(0, msg_at 1 100); (2, msg_at 1 200)].

Lemma tester_judges_run_witness :
  ∃ ts, deliver show_Z diverged (makeTest 3 false) = Ret ts ∧ ¬ quiet_srvs (ts_srvs ts).
Proof.
  assert (fmap nd_applied <$> (sy_nodes <$> sys_run diverge (sys_init [0; 0; 0] 0)) =
          Ret [[msg_at 1 100]; []; [msg_at 1 200]]) as Ha by (vm_compute; reflexivity).
  destruct (sys_run diverge (sys_init [0; 0; 0] 0)) as [s|w|m] eqn:E; [|discriminate Ha..].
  cbn in Ha. injection Ha as Ha.
  destruct (sy_nodes s) as [|a [|b [|c [|]]]] eqn:Hn; try discriminate Ha.
  injection Ha as Ha Hb Hc.
  destruct (tester_judges_run show_Z diverge [0; 0; 0] 0 s diverged 3 false E) as (ts & Hd & Hq).
  - split; rewrite Hn; [repeat constructor; cbn; lia|].
    intros [|[|[|i]]] nd [= <-]; [rewrite Ha|rewrite Hb|rewrite Hc]; vm_compute; eexists; reflexivity.
  - by rewrite Hn.
  - exists ts. split; [exact Hd|]. intros Hagree. apply Hq in Hagree.
    discriminate (Hagree 0 2 (msg_at 1 100) (msg_at 1 200) ltac:(left) ltac:(right; left) eq_refl).
Defined.
