(* ===== verification/Labgob.v ===== *)
(** * The gob wrapper

    [src/src/labgob/labgob.go]: the checks around [encoding/gob].  [checkType] walks the types
    a value is made of and complains of every struct field gob would leave out; [checkDefault]
    walks a value about to be decoded into.  Types are numbers into a table, what [reflect]
    knows of them, and may refer to each other and to themselves; [unicode.IsUpper] is the
    variable [IsUpper].

    The mutex is held around each access to the three globals; the checks of one goroutine are
    modelled, without another one's in between.  The encoding itself is not modelled. *)
From Stdlib Require Import Ascii.
From stdpp Require Import base tactics numbers list fin_sets gmap strings relations.
From S2P Require Import Prelude GoLib GoUtf8.

(** ** What [reflect] knows *)

Abbreviation tid := N (only parsing).

Inductive kind :=
  | Struct (fields : list (string * tid))
  | Slice (elem : tid)
  | Array (elem : tid)
  | Ptr (elem : tid)
  | Map (key elem : tid)
  | Basic
  | OtherKind.

Record rtype := { ty_Name : string; ty_Kind : kind }.

Record labgob := { checked : gset tid; errorCount : Z; printed : list string }.
#[export] Instance eta_labgob : Eta labgob := λ s,
  {| checked := checked s; errorCount := errorCount s; printed := printed s |}.

Definition labgob_init : labgob := {| checked := ∅; errorCount := 0; printed := [] |}.

Section check.
Variable types : gmap tid rtype.
Variable IsUpper : Z → bool.

(** ** [checkType] *)

Definition lower_case (name : string) : bool :=
  negb (IsUpper (decode_rune (String.list_ascii_of_string name)).1).

Definition complaint (ty : rtype) (name : string) : string :=
  "labgob error: lower-case field " +:+ name +:+ " of " +:+ ty_Name ty +:+
  " in RPC or persist/snapshot will break your Raft".

Definition check_field (check : tid → labgob → outcome labgob) (ty : rtype) (f : string * tid) (s : labgob)
    : outcome labgob :=
  let s := if lower_case (f.1)
           then s <| printed := printed s ++ [complaint ty (f.1)] |> <| errorCount := errorCount s + 1 |>
           else s in
  check (f.2) s.

(** The fuel is the depth of the call stack. *)
Fixpoint checkType (fuel : nat) (t : tid) (s : labgob) : outcome labgob :=
  match fuel with
  | O => Fatal "stack overflow"
  | S fuel =>
      if decide (t ∈ checked s) then Ret s
      else
        match types !! t with
        | None => Panic "nil pointer dereference"
        | Some ty =>
            let s := s <| checked := {[t]} ∪ checked s |> in
            match ty_Kind ty with
            | Struct fields => go_for (check_field (checkType fuel) ty) fields s
            | Slice e | Array e | Ptr e => checkType fuel e s
            | Map k e => s ← checkType fuel e s; checkType fuel k s
            | Basic | OtherKind => Ret s
            end
        end
  end.

Definition enough : nat := S (size types).

(** [checkValue] of a value of dynamic type [t]; nil has none. *)
Definition checkValue (t : option tid) (s : labgob) : outcome labgob :=
  match t with None => Panic "nil pointer dereference" | Some t => checkType enough t s end.

(** ** [checkDefault] *)

(** A value; a pointer leads into a heap of values. *)
Inductive value :=
  | VStruct (t : tid) (fields : list (string * value))
  | VPtr (l : option N)
  | VBasic (t : tid) (is_zero : bool)
  | VOther.

Variable heap : gmap N value.

Definition type_name (t : tid) : string := from_option ty_Name "" (types !! t).

Definition warn (name : string) (t : tid) (s : labgob) : labgob :=
  let s := if decide (errorCount s < 1) then
             let what := if decide (name = "") then type_name t else name in
             s <| printed := printed s ++
                  ["labgob warning: Decoding into a non-default variable/field " +:+ what +:+ " may not work"] |>
           else s in
  s <| errorCount := errorCount s + 1 |>.

(** [levels] is what is left of the three levels below the value decoded into; [private]
    that the value was reached through an unexported field, of which [reflect] gives no
    [Interface]. *)
Fixpoint checkDefault1 (levels : nat) (private : bool) (v : value) (name : string) (s : labgob)
    : outcome labgob :=
  match levels with
  | O => Ret s
  | S levels =>
      match v with
      | VStruct _ fields =>
          go_for (λ f s, checkDefault1 levels (private || lower_case (f.1)) (f.2)
                           (if decide (name = "") then f.1 else name +:+ "." +:+ f.1) s) fields s
      | VPtr None => Ret s
      | VPtr (Some l) =>
          match heap !! l with
          | Some v => checkDefault1 levels private v name s
          | None => Panic "invalid memory address"
          end
      | VBasic t is_zero =>
          if private then
            Panic "reflect.Value.Interface: cannot return value obtained from unexported field or method"
          else Ret (if is_zero : bool then s else warn name t s)
      | VOther => Ret s
      end
  end.

Definition checkDefault (v : option value) (s : labgob) : outcome labgob :=
  match v with None => Ret s | Some v => checkDefault1 3 false v "" s end.

(** [Decode] before it hands over to gob, and [Encode], [Register] and [RegisterName], which
    only check the type. *)
Definition LabDecoder_Decode_checks (t : option tid) (v : option value) (s : labgob) : outcome labgob :=
  s ← checkValue t s; checkDefault v s.
Definition LabEncoder_Encode_checks (t : option tid) (s : labgob) : outcome labgob := checkValue t s.
Definition Register_checks (t : option tid) (s : labgob) : outcome labgob := checkValue t s.

(** ** What [checkType] finds *)

Definition succs (ty : rtype) : list tid :=
  match ty_Kind ty with
  | Struct fields => snd <$> fields
  | Slice e | Array e | Ptr e => [e]
  | Map k e => [e; k]
  | Basic | OtherKind => []
  end.

(** The complaints one type gives. *)
Definition complaints_of (ty : rtype) : list string :=
  match ty_Kind ty with
  | Struct fields => complaint ty <$> filter (λ n, lower_case n = true) (fst <$> fields)
  | _ => []
  end.

Definition edge (t u : tid) : Prop := ∃ ty, types !! t = Some ty ∧ u ∈ succs ty.

Definition complaints (ts : gset tid) : list string :=
  concat ((λ t, from_option complaints_of [] (types !! t)) <$> elements ts).

(** Every type a type refers to is in the table. *)
Definition closed_table : Prop := ∀ t u, edge t u → is_Some (types !! u).

Lemma complaints_union (X Y : gset tid) : X ## Y → complaints (X ∪ Y) ≡ₚ complaints X ++ complaints Y.
Proof.
  intros Hd. unfold complaints. rewrite elements_disj_union by done.
  by rewrite fmap_app, concat_app.
Qed.

Lemma complaints_singleton t : complaints {[t]} = from_option complaints_of [] (types !! t).
Proof. unfold complaints. rewrite elements_singleton. cbn. by rewrite app_nil_r. Qed.

(** What a walk from [roots] does, besides complaining of [extra]: it checks the roots, only
    what they reach, and with every type it checks the types that one refers to. *)
Record walked (roots : list tid) (extra : list string) (s s' : labgob) : Prop := {
  wk_mono : checked s ⊆ checked s';
  wk_dom : checked s ⊆ dom types → checked s' ⊆ dom types;
  wk_roots t : t ∈ roots → t ∈ checked s';
  wk_new x : x ∈ checked s' → x ∉ checked s →
    (∃ t, t ∈ roots ∧ rtc edge t x) ∧ ∀ y, edge x y → y ∈ checked s';
  wk_printed : printed s' ≡ₚ printed s ++ extra ++ complaints (checked s' ∖ checked s);
  wk_count : errorCount s' - errorCount s = zlen (printed s') - zlen (printed s)
}.

Lemma walked_refl s : walked [] [] s s.
Proof.
  split; try done.
  - intros t Ht. by apply elem_of_nil in Ht.
  - rewrite difference_diag_L. unfold complaints. rewrite elements_empty. cbn. by rewrite app_nil_r.
  - lia.
Qed.

Lemma walked_trans r1 e1 r2 e2 s1 s2 s3 :
  walked r1 e1 s1 s2 → walked r2 e2 s2 s3 → walked (r1 ++ r2) (e1 ++ e2) s1 s3.
Proof.
  intros [M1 D1 R1 N1 P1 C1] [M2 D2 R2 N2 P2 C2]. split.
  - by transitivity (checked s2).
  - auto.
  - intros t [Ht|Ht]%elem_of_app; [by apply M2, R1|by apply R2].
  - intros x Hx Hnx. destruct (decide (x ∈ checked s2)) as [H2|H2].
    + destruct (N1 x H2 Hnx) as [(t & ? & ?) Hy]. split; [exists t; split; [by apply elem_of_app; left|done]|].
      intros y Hxy. apply M2, Hy, Hxy.
    + destruct (N2 x Hx H2) as [(t & ? & ?) Hy]. split; [|done]. exists t. split; [by apply elem_of_app; right|done].
  - rewrite P2, P1. assert (checked s3 ∖ checked s1 = (checked s2 ∖ checked s1) ∪ (checked s3 ∖ checked s2)) as ->.
    { apply set_eq. intros x. rewrite elem_of_union, !elem_of_difference.
      destruct (decide (x ∈ checked s2)); naive_solver. }
    rewrite complaints_union by set_solver.
    generalize (complaints (checked s2 ∖ checked s1)), (complaints (checked s3 ∖ checked s2)).
    intros c1 c2. solve_Permutation.
  - lia.
Qed.

(** A field's complaint comes before its type is walked. *)
Lemma walked_complain c r s s' :
  walked r [] (s <| printed := printed s ++ [c] |> <| errorCount := errorCount s + 1 |>) s' →
  walked r [c] s s'.
Proof.
  intros [M D R N P C]. cbn in *. split; try done.
  - rewrite P, <- app_assoc. done.
  - rewrite zlen_app, zlen_cons, zlen_nil in C. lia.
Qed.

Lemma walked_root t ty e s s' : types !! t = Some ty → t ∉ checked s →
  walked (succs ty) (complaints_of ty) (s <| checked := {[t]} ∪ checked s |>) s' → e = [] →
  walked [t] e s s'.
Proof.
  intros Hty Hnt [M D R N P C] ->. cbn in *. split.
  - set_solver.
  - intros Hd. apply D. intros x [->%elem_of_singleton|Hx]%elem_of_union; [|auto].
    by apply elem_of_dom_2 in Hty.
  - intros x ->%list_elem_of_singleton. set_solver.
  - intros x Hx Hnx. destruct (decide (x = t)) as [->|Hne].
    + split; [exists t; split; [by apply list_elem_of_singleton|done]|].
      intros y (ty' & Hty' & Hy). rewrite Hty in Hty'. injection Hty' as <-. by apply R.
    + destruct (N x Hx ltac:(set_solver)) as [(u & Hu & Hux) Hy]. split; [|done].
      exists t. split; [by apply list_elem_of_singleton|]. eapply rtc_l; [|exact Hux]. by exists ty.
  - rewrite P. assert (checked s' ∖ checked s = {[t]} ∪ (checked s' ∖ ({[t]} ∪ checked s))) as ->.
    { apply set_eq. intros x. rewrite elem_of_union, !elem_of_difference, elem_of_union, elem_of_singleton.
      destruct (decide (x = t)) as [->|]; [|naive_solver].
      assert (t ∈ checked s') by set_solver. naive_solver. }
    rewrite complaints_union by set_solver. rewrite complaints_singleton, Hty. done.
  - done.
Qed.

(** The types of the table left to check. *)
Definition unchecked (s : labgob) : nat := size (dom types ∖ checked s).

Lemma unchecked_mono s s' : checked s ⊆ checked s' → (unchecked s' ≤ unchecked s)%nat.
Proof. intros H. unfold unchecked. apply subseteq_size. set_solver. Qed.

Lemma unchecked_visit t s : is_Some (types !! t) → t ∉ checked s →
  (unchecked (s <| checked := {[t]} ∪ checked s |>) < unchecked s)%nat.
Proof.
  intros Ht%elem_of_dom Hnt. unfold unchecked. apply subset_size. cbn. split; [set_solver|].
  intros H. specialize (H t). set_solver.
Qed.

(** What the recursion is used for: a walk from one type. *)
Definition walks (check : tid → labgob → outcome labgob) (n : nat) : Prop :=
  ∀ t s, is_Some (types !! t) → (unchecked s < n)%nat → ∃ s', check t s = Ret s' ∧ walked [t] [] s s'.

Lemma fields_walk check n ty fields s :
  walks check n → (∀ f, f ∈ fields → is_Some (types !! f.2)) → (unchecked s < n)%nat →
  ∃ s', go_for (check_field check ty) fields s = Ret s' ∧
    walked (snd <$> fields) (complaint ty <$> filter (λ n, lower_case n = true) (fst <$> fields)) s s'.
Proof.
  intros Hw. revert s. induction fields as [|[nm u] fields IH]; intros s Hin Hn.
  { exists s. split; [done|apply walked_refl]. }
  assert (∃ s1, check_field check ty (nm, u) s = Ret s1 ∧
    walked [u] (if lower_case nm then [complaint ty nm] else []) s s1) as (s1 & E1 & W1).
  { unfold check_field. cbn. assert (is_Some (types !! u)) as Hu by (apply (Hin (nm, u)); left).
    destruct (lower_case nm); [|by apply Hw].
    match goal with |- context [check u ?s0] => destruct (Hw u s0 Hu) as (s1 & E1 & W1) end; [done|].
    exists s1. split; [done|]. by apply walked_complain. }
  destruct (IH s1) as (s2 & E2 & W2).
  { intros f Hf. apply Hin. by right. }
  { pose proof (unchecked_mono s s1 (wk_mono _ _ _ _ W1)). lia. }
  exists s2. cbn [go_for]. rewrite E1, bind_ret_l. split; [done|].
  pose proof (walked_trans _ _ _ _ _ _ _ W1 W2) as W. cbn [fmap list_fmap fst snd] in *.
  rewrite filter_cons. by destruct (lower_case nm).
Qed.

Lemma checkType_walks fuel : closed_table → walks (checkType fuel) fuel.
Proof.
  intros Hc. induction fuel as [|fuel IH]; intros t s [ty Hty] Hn; [lia|]. cbn [checkType].
  destruct (decide (t ∈ checked s)) as [Hin|Hnt].
  { exists s. split; [done|]. destruct (walked_refl s) as [M D R N P C]. split; try done.
    by intros x ->%list_elem_of_singleton. }
  rewrite Hty. pose proof (unchecked_visit t s ltac:(by eexists) Hnt) as Hlt.
  set (s0 := s <| checked := _ |>) in *.
  assert (∀ u, u ∈ succs ty → is_Some (types !! u)) as Hs by (intros u Hu; apply (Hc t); by exists ty).
  enough (∃ s', match ty_Kind ty with
    | Struct fields => go_for (check_field (checkType fuel) ty) fields s0
    | Slice e | Array e | Ptr e => checkType fuel e s0
    | Map k e => s ← checkType fuel e s0; checkType fuel k s
    | Basic | OtherKind => Ret s0 end = Ret s' ∧ walked (succs ty) (complaints_of ty) s0 s') as (s' & E & W).
  { exists s'. split; [exact E|]. by eapply walked_root. }
  unfold succs, complaints_of in *.
  destruct (ty_Kind ty) as [fields|e|e|e|k e| |].
  2-4: apply IH; [apply Hs, list_elem_of_here|lia].
  3-4: exists s0; split; [done|apply walked_refl].
  - apply fields_walk with fuel; [done| |lia]. intros f Hf. apply Hs, list_elem_of_fmap. by exists f.
  - destruct (IH e s0) as (s1 & E1 & W1); [apply Hs; left|lia|]. rewrite E1, bind_ret_l.
    destruct (IH k s1) as (s2 & E2 & W2).
    { apply Hs. right. left. }
    { pose proof (unchecked_mono s0 s1 (wk_mono _ _ _ _ W1)). lia. }
    exists s2. split; [done|]. exact (walked_trans _ _ _ _ _ _ _ W1 W2).
Qed.

(** C39: [checkType] returns, however the types refer to each other.  With the fuel
    for one call per type of the table, it checks the type and all it reaches, and nothing
    else; it complains of every lower-case field of the types it had not checked before, once,
    and of no other; and [errorCount] counts its complaints. *)
Theorem checkType_exact t s :
  closed_table → is_Some (types !! t) →
  (∀ x y, x ∈ checked s → edge x y → y ∈ checked s) →
  ∃ s', checkType enough t s = Ret s' ∧
    (∀ x, x ∈ checked s' ↔ x ∈ checked s ∨ rtc edge t x) ∧
    printed s' ≡ₚ printed s ++ complaints (checked s' ∖ checked s) ∧
    errorCount s' - errorCount s = zlen (printed s') - zlen (printed s).
Proof.
  intros Hc Ht Hcl. destruct (checkType_walks enough Hc t s Ht) as (s' & E & [M D R N P C]).
  { unfold unchecked, enough. rewrite <- size_dom. apply Nat.lt_succ_r, subseteq_size. set_solver. }
  exists s'. split; [exact E|]. split; [|done]. intros x. split.
  - intros Hx. destruct (decide (x ∈ checked s)) as [|Hnx]; [by left|right].
    destruct (N x Hx Hnx) as [(u & ->%list_elem_of_singleton & Hux) _]. done.
  - assert (∀ x y, x ∈ checked s' → edge x y → y ∈ checked s') as Hcl'.
    { intros y z Hy Hyz. destruct (decide (y ∈ checked s)) as [Hys|Hys]; [by eapply M, Hcl|].
      by apply (N y Hy Hys). }
    intros [Hx|Hx]; [by apply M|]. assert (t ∈ checked s') as Ht' by (by apply R, list_elem_of_singleton).
    clear -Hx Ht' Hcl'. induction Hx; eauto.
Qed.

(** ** What [checkDefault] finds *)

(** The non-zero basic values within [levels] of [v], in order: their names and types; [None]
    when a basic value there is in an unexported field. *)
Fixpoint leaves (levels : nat) (private : bool) (v : value) (name : string) : option (list (string * tid)) :=
  match levels with
  | O => Some []
  | S levels =>
      match v with
      | VStruct _ fields =>
          (λ ls, concat ls) <$> mapM (λ f, leaves levels (private || lower_case (f.1)) (f.2)
                                  (if decide (name = "") then f.1 else name +:+ "." +:+ f.1)) fields
      | VPtr (Some l) => heap !! l ≫= λ v, leaves levels private v name
      | VPtr None | VOther => Some []
      | VBasic t is_zero => if private then None else Some (if is_zero : bool then [] else [(name, t)])
      end
  end.

Definition warnings (ls : list (string * tid)) (s : labgob) : labgob :=
  foldl (λ s l, warn (l.1) (l.2) s) s ls.

Lemma checkDefault1_leaves levels private v name ls s :
  leaves levels private v name = Some ls → checkDefault1 levels private v name s = Ret (warnings ls s).
Proof.
  revert private v name ls s. induction levels as [|levels IH]; intros private v name ls s; cbn.
  { by intros [= <-]. }
  destruct v as [t fields|[l|]|t z|].
  - intros (lss & Hm & ->)%fmap_Some. revert lss s Hm.
    induction fields as [|[n v] fields IHf]; intros lss s Hm; cbn in Hm; [by injection Hm as <-|].
    apply bind_Some in Hm as (l1 & H1 & (l2 & H2 & [= <-])%bind_Some). cbn [go_for fst snd].
    rewrite (IH _ _ _ _ _ H1), bind_ret_l, (IHf _ _ H2). cbn [concat].
    unfold warnings. by rewrite foldl_app.
  - intros (v & -> & Hv)%bind_Some. by apply IH.
  - by intros [= <-].
  - destruct private; [done|]. intros [= <-]. by destruct z.
  - by intros [= <-].
Qed.

Lemma warnings_count ls s :
  errorCount (warnings ls s) = errorCount s + zlen ls ∧ checked (warnings ls s) = checked s.
Proof.
  revert s. induction ls as [|l ls IH]; intros s; [split; [rewrite zlen_nil; cbn; lia|done]|].
  change (warnings (l :: ls) s) with (warnings ls (warn (l.1) (l.2) s)).
  destruct (IH (warn (l.1) (l.2) s)) as [-> ->]. rewrite zlen_cons. unfold warn.
  case_decide; cbn; split; lia || done.
Qed.

Lemma warnings_silent ls s : 1 ≤ errorCount s → printed (warnings ls s) = printed s.
Proof.
  revert s. induction ls as [|l ls IH]; intros s Hs; [done|].
  change (warnings (l :: ls) s) with (warnings ls (warn (l.1) (l.2) s)).
  rewrite IH; unfold warn; rewrite decide_False by lia; cbn; [done|lia].
Qed.

(** A value with no basic value in an unexported field, as far as [checkDefault] looks,
    is decoded into after [errorCount] has grown by its non-zero basic values; one warning at
    most is printed, naming the first of them, and only while nothing was complained of. *)
Theorem checkDefault_exact v ls s :
  leaves 3 false v "" = Some ls → 0 ≤ errorCount s →
  ∃ s', checkDefault (Some v) s = Ret s' ∧
    checked s' = checked s ∧ errorCount s' = errorCount s + zlen ls ∧
    printed s' = match ls with
                 | (name, t) :: _ => if decide (errorCount s < 1) then printed (warn name t s) else printed s
                 | [] => printed s
                 end.
Proof.
  intros Hl Hpos. exists (warnings ls s). cbn [checkDefault]. split; [by apply checkDefault1_leaves|].
  destruct (warnings_count ls s) as [-> ->]. split; [done|split; [done|]].
  destruct ls as [|[n t] ls]; [done|]. case_decide.
  - change (warnings _ s) with (warnings ls (warn n t s)). apply warnings_silent. unfold warn. rewrite decide_True by done. cbn. lia.
  - apply warnings_silent. lia.
Qed.

(** Decoding into a struct with a private basic field, the mistake the wrapper is there to
    point out, panics. *)
Lemma private_field_panics l t n u z fields s :
  heap !! l = Some (VStruct t ((n, VBasic u z) :: fields)) → lower_case n = true →
  checkDefault (Some (VPtr (Some l))) s =
    Panic "reflect.Value.Interface: cannot return value obtained from unexported field or method".
Proof. intros Hl Hn. cbn. rewrite Hl. cbn. by rewrite Hn. Qed.
End check.

(** A list node with a private link to the next: the types refer to each other. *)
Definition node_types : gmap tid rtype :=
  {[ 1%N := {| ty_Name := "Node"; ty_Kind := Struct [("Value", 2%N); ("next", 3%N)] |};
     2%N := {| ty_Name := "int"; ty_Kind := Basic |};
     3%N := {| ty_Name := ""; ty_Kind := Ptr 1%N |} ]}.

Definition ascii_upper (r : Z) : bool := bool_decide (65 ≤ r ≤ 90).

Lemma checkType_exact_witness :
  checkType node_types ascii_upper 4 1%N labgob_init =
    Ret {| checked := {[1%N; 2%N; 3%N]}; errorCount := 1;
           printed := [complaint {| ty_Name := "Node"; ty_Kind := Basic |} "next"] |} ∧
  ∃ s', checkType node_types ascii_upper 4 1%N labgob_init = Ret s' ∧
    (∀ x, x ∈ checked s' ↔ x ∈ (∅ : gset tid) ∨ rtc (edge node_types) 1%N x) ∧
    printed s' ≡ₚ [] ++ complaints node_types ascii_upper (checked s' ∖ ∅) ∧
    errorCount s' - 0 = zlen (printed s') - zlen (@nil string).
Proof.
  split; [by vm_compute|].
  apply (checkType_exact node_types ascii_upper 1%N labgob_init).
  - intros t u (ty & Hty & Hu). unfold node_types in Hty.
    repeat (apply lookup_insert_Some in Hty as [[<- <-]|[_ Hty]]); cbn in Hu; set_unfold;
      try done; subst; first [by eexists|destruct Hu as [-> | [-> | []]]; by eexists|idtac].
    apply lookup_singleton_Some in Hty as [_ <-]. cbn in Hu. set_unfold. destruct Hu as [-> | []]. by eexists.

  - by eexists.
  - intros x y Hx. by apply elem_of_empty in Hx.
Defined.
