(* ===== verification/Annotation.v ===== *)
(** * Annotations of a test

    [src/src/tester1/annotation.go]: the annotations of the running test, collected for the
    visualisation of its history, and the tester's view of which servers are disconnected or
    crashed, which it annotates itself; and [annotator.go], through which a server process
    annotates.

    Every function takes the lock of what it works on for its whole body, so it is one
    function on the two globals [annotation] and [finfo].  A timestamp is an argument, one
    for each call of [timestamp]; the order in which [finalize] ranges over a map is the
    argument [range_order]. *)
From stdpp Require Import base tactics numbers list fin_maps gmap strings pretty.
From S2P Require Import Prelude GoLib GoStrings GoStrconv.

(** ** The globals *)

(** What the code fills in of a [porcupine.Annotation]. *)
Record PAnnotation := {
  a_Tag : string;
  a_Start : Z;
  a_End : Z;
  a_Description : string;
  a_Details : string;
  a_BackgroundColor : string
}.

Record Continuous := { c_start : Z; c_desp : string; c_details : string; c_bgcolor : string }.

(** The zero value a lookup of a missing tag yields. *)
Definition Continuous_zero : Continuous := {| c_start := 0; c_desp := ""; c_details := ""; c_bgcolor := "" |}.

Record Annotation := {
  annotations : list PAnnotation;
  continuous : gmap string Continuous;
  finalized : bool
}.
#[export] Instance eta_Annotation : Eta Annotation := λ a,
  {| annotations := annotations a; continuous := continuous a; finalized := finalized a |}.

Record CheckerBegin := { ck_ts : Z; ck_details : string }.

Record FrameworkInfo := {
  nservers : nat;
  connected : list bool;
  crashed : list bool;
  ckbegin : CheckerBegin
}.
#[export] Instance eta_FrameworkInfo : Eta FrameworkInfo := λ f,
  {| nservers := nservers f; connected := connected f; crashed := crashed f; ckbegin := ckbegin f |}.

(** [finfo] is nil until the first [AnnotateTest]. *)
Record globals := { g_annotation : Annotation; g_finfo : option FrameworkInfo }.
#[export] Instance eta_globals : Eta globals := λ g,
  {| g_annotation := g_annotation g; g_finfo := g_finfo g |}.

#[export] Instance PAnnotation_eq_dec : EqDecision PAnnotation.
Proof. solve_decision. Defined.
#[export] Instance Continuous_eq_dec : EqDecision Continuous.
Proof. solve_decision. Defined.

Definition mkAnnotation : Annotation := {| annotations := []; continuous := ∅; finalized := false |}.

Definition mkFrameworkInfo (n : nat) : FrameworkInfo :=
  {| nservers := n; connected := replicate n true; crashed := replicate n false;
     ckbegin := {| ck_ts := 0; ck_details := "" |} |}.

Definition globals_init : globals := {| g_annotation := mkAnnotation; g_finfo := None |}.

Definition COLOR_INFO : string := "#FAFAFA".
Definition COLOR_NEUTRAL : string := "#FFECB3".
Definition COLOR_SUCCESS : string := "#C8E6C9".
Definition COLOR_FAILURE : string := "#FFCDD2".
Definition COLOR_FAULT : string := "#B3E5FC".
Definition COLOR_USER : string := "#FFF176".
Definition TAG_CHECKER : string := "$ Checker".
Definition TAG_PARTITION : string := "$ Failure".
Definition TAG_INFO : string := "$ Test Info".

(** ** The methods of [Annotation] *)

Definition add (a : PAnnotation) (an : Annotation) : Annotation :=
  an <| annotations := annotations an ++ [a] |>.

Definition clear (an : Annotation) : Annotation :=
  an <| annotations := [] |> <| continuous := ∅ |> <| finalized := false |>.

Definition point (tag desp details bgcolor : string) (t : Z) : PAnnotation :=
  {| a_Tag := tag; a_Start := t; a_End := 0; a_Description := desp; a_Details := details;
     a_BackgroundColor := bgcolor |}.

Definition annotatePointColor (tag desp details bgcolor : string) (t : Z) (an : Annotation) : Annotation :=
  add (point tag desp details bgcolor t) an.

Definition annotateIntervalColor (tag : string) (start : Z) (desp details bgcolor : string) (t : Z)
    (an : Annotation) : Annotation :=
  add {| a_Tag := tag; a_Start := start; a_End := t; a_Description := desp; a_Details := details;
         a_BackgroundColor := bgcolor |} an.

(** The annotation a continuous one leaves when it ends at [t]. *)
Definition concretize (tag : string) (c : Continuous) (t : Z) : PAnnotation :=
  {| a_Tag := tag; a_Start := c_start c; a_End := t; a_Description := c_desp c; a_Details := c_details c;
     a_BackgroundColor := c_bgcolor c |}.

Definition annotateContinuousColor (tag desp details bgcolor : string) (t : Z) (an : Annotation) : Annotation :=
  let new := {| c_start := t; c_desp := desp; c_details := details; c_bgcolor := bgcolor |} in
  match continuous an !! tag with
  | None => an <| continuous := <[tag := new]> (continuous an) |>
  | Some cont => (add (concretize tag cont t) an) <| continuous := <[tag := new]> (continuous an) |>
  end.

(** A tag that is not in the map is ended all the same, with the zero value. *)
Definition annotateContinuousEnd (tag : string) (t : Z) (an : Annotation) : Annotation :=
  let cont := default Continuous_zero (continuous an !! tag) in
  (add (concretize tag cont t) an) <| continuous := delete tag (continuous an) |>.

Section ranging.
Variable range_order : list (string * Continuous) → list (string * Continuous).

(** The copy of the annotations with the ones still going on ended at [t]. *)
Definition finalize (t : Z) (an : Annotation) : list PAnnotation * Annotation :=
  (annotations an ++ ((λ tc, concretize (tc.1) (tc.2) t) <$> range_order (map_to_list (continuous an))),
   an <| finalized := true |>).

Definition FinalizeAnnotations (end_ : string) (t1 t2 : Z) (g : globals) : list PAnnotation * globals :=
  let '(l, an) := finalize t1 (g_annotation g) in
  (l ++ [point TAG_INFO end_ end_ COLOR_INFO t2], g <| g_annotation := an |>).

(** [cleanup], from the value of [VIS_ENABLE] and whether the file could be opened: what it
    writes to the file. *)
Definition cleanup (enabled : string) (opened : bool) (failed : bool) (end_ : string) (t1 t2 : Z)
    (an : Annotation) : option (list PAnnotation) * Annotation :=
  if decide (enabled = "never" ∨ (failed = false ∧ enabled ≠ "always") ∨ finalized an = true)
  then (None, clear an)
  else
    let '(l, an) := finalize t1 an in
    if decide (l = []) then (None, an)
    else (if opened then Some (l ++ [point TAG_INFO end_ end_ COLOR_INFO t2]) else None, an).
End ranging.

(** ** The public functions *)

Definition on_annotation (f : Annotation → Annotation) (g : globals) : globals :=
  g <| g_annotation := f (g_annotation g) |>.

(** A function that starts with [finfo.mu.Lock()]. *)
Definition with_finfo {A} (f : FrameworkInfo → globals → outcome A) (g : globals) : outcome A :=
  match g_finfo g with None => Panic "nil pointer dereference" | Some fi => f fi g end.

Definition AnnotatePointColor (tag desp details bgcolor : string) (t : Z) : globals → globals :=
  on_annotation (annotatePointColor tag desp details bgcolor t).
Definition AnnotateIntervalColor (tag : string) (start : Z) (desp details bgcolor : string) (t : Z)
    : globals → globals :=
  on_annotation (annotateIntervalColor tag start desp details bgcolor t).
Definition AnnotateContinuousColor (tag desp details bgcolor : string) (t : Z) : globals → globals :=
  on_annotation (annotateContinuousColor tag desp details bgcolor t).
Definition AnnotateContinuousEnd (tag : string) (t : Z) : globals → globals :=
  on_annotation (annotateContinuousEnd tag t).

Definition AnnotatePoint (tag desp details : string) (t : Z) : globals → globals :=
  AnnotatePointColor tag desp details COLOR_USER t.
Definition AnnotateInterval (tag : string) (start : Z) (desp details : string) (t : Z) : globals → globals :=
  AnnotateIntervalColor tag start desp details COLOR_USER t.
Definition AnnotateContinuous (tag desp details : string) (t : Z) : globals → globals :=
  AnnotateContinuousColor tag desp details COLOR_USER t.

Definition AnnotateInfo (desp details : string) (t : Z) : globals → globals :=
  AnnotatePointColor TAG_INFO desp details COLOR_INFO t.
Definition AnnotateInfoInterval (start : Z) (desp details : string) (t : Z) : globals → globals :=
  AnnotateIntervalColor TAG_INFO start desp details COLOR_INFO t.

Definition AnnotateTest (desp : string) (n : nat) (t : Z) (g : globals) : globals :=
  let details := desp +:+ " (" +:+ strconv_Itoa (Z.of_nat n) +:+ " servers)" in
  AnnotateInfo details details t
    (on_annotation clear (g <| g_finfo := Some (mkFrameworkInfo n) |>)).

Definition AnnotateCheckerBegin (details : string) (t : Z) : globals → outcome globals :=
  with_finfo (λ fi g,
    Ret (g <| g_finfo := Some (fi <| ckbegin := {| ck_ts := t; ck_details := details |} |>) |>)).

(** [ckbegin] is a copy of [finfo.ckbegin]: setting its [ts] to 0 at the end changes nothing. *)
Definition AnnotateCheckerEnd (desp details color : string) (t : Z) : globals → outcome globals :=
  with_finfo (λ fi g,
    let b := ckbegin fi in
    if decide (ck_ts b = 0) then Ret (AnnotatePointColor TAG_CHECKER desp details color t g)
    else Ret (AnnotateIntervalColor TAG_CHECKER (ck_ts b) desp (ck_details b +:+ ": " +:+ details) color t g)).

Definition AnnotateCheckerSuccess (desp details : string) (t : Z) : globals → outcome globals :=
  AnnotateCheckerEnd desp details COLOR_SUCCESS t.
Definition AnnotateCheckerFailure (desp details : string) (t : Z) : globals → outcome globals :=
  AnnotateCheckerEnd desp details COLOR_FAILURE t.
Definition AnnotateCheckerNeutral (desp details : string) (t : Z) : globals → outcome globals :=
  AnnotateCheckerEnd desp details COLOR_NEUTRAL t.

Definition SetAnnotationFinalized : globals → globals := on_annotation (λ an, an <| finalized := true |>).
Definition GetAnnotationFinalized (g : globals) : bool := finalized (g_annotation g).

(** ** Faults *)

(** [fmt.Sprintf("%v", l)] of a slice of ints. *)
Definition show_ints (l : list Z) : string := "[" +:+ join_with " " (strconv_Itoa <$> l) +:+ "]".

(** One turn of the loop: the connected and the crashed ids so far, and the text. *)
Definition fault_turn (cr : list bool) (id : nat) (conn : bool) (s : list Z * list Z * string)
    : outcome (list Z * list Z * string) :=
  let '(conns, crashes, text) := s in
  c ← go_index cr (Z.of_nat id);
  if c : bool then Ret (conns, crashes ++ [Z.of_nat id], text)
  else if conn then Ret (conns ++ [Z.of_nat id], crashes, text)
  else Ret (conns, crashes, text +:+ show_ints [Z.of_nat id] +:+ " ").

Definition fault_text (co cr : list bool) : outcome string :=
  '(conns, crashes, text) ← go_for (λ ic, fault_turn cr (ic.1) (ic.2)) (imap pair co) ([], [], "partition = ");
  let text := if decide (0 < zlen conns) then text +:+ show_ints conns else text in
  Ret (if decide (0 < zlen crashes) then text +:+ " / crash = " +:+ show_ints crashes else text).

(** The tester holds [finfo]'s lock. *)
Definition annotateFault (fi : FrameworkInfo) (t : Z) (g : globals) : outcome globals :=
  if decide (connected fi = replicate (nservers fi) true ∧ crashed fi = replicate (nservers fi) false)
  then Ret (AnnotateContinuousEnd TAG_PARTITION t g)
  else
    text ← fault_text (connected fi) (crashed fi);
    Ret (AnnotateContinuousColor TAG_PARTITION text text COLOR_FAULT t g).

(** [copy(dst, src)]. *)
Definition go_copy {A} (dst src : list A) : list A := take (length dst) src ++ drop (length src) dst.

Definition AnnotateConnection (connection : list bool) (t : Z) : globals → outcome globals :=
  with_finfo (λ fi g,
    if decide (connected fi = connection) then Ret g
    else
      let fi := fi <| connected := go_copy (connected fi) connection |> in
      annotateFault fi t (g <| g_finfo := Some fi |>)).

Definition AnnotateTwoPartitions (p1 p2 : list Z) (t : Z) : globals → globals :=
  let text := "partition = " +:+ show_ints p1 +:+ " " +:+ show_ints p2 in
  AnnotateContinuousColor TAG_PARTITION text text COLOR_FAULT t.

Definition AnnotateClearFailure (t : Z) : globals → outcome globals :=
  with_finfo (λ fi g,
    let fi := fi <| crashed := replicate (length (crashed fi)) false |>
                 <| connected := replicate (length (connected fi)) true |> in
    Ret (AnnotateContinuousEnd TAG_PARTITION t (g <| g_finfo := Some fi |>))).

(** Marking one server: the flags and whether any changed. *)
Definition mark_turn (value : bool) (id : Z) (s : list bool * bool) : outcome (list bool * bool) :=
  let '(cr, changed) := s in
  old ← go_index cr id;
  cr ← go_update cr id value;
  Ret (cr, changed || negb (eqb old value)).

Definition mark_crashed (value : bool) (servers : list Z) (t : Z) : globals → outcome globals :=
  with_finfo (λ fi g,
    '(cr, changed) ← go_for (mark_turn value) servers (crashed fi, false);
    let fi := fi <| crashed := cr |> in
    let g := g <| g_finfo := Some fi |> in
    if changed : bool then annotateFault fi t g else Ret g).

Definition AnnotateShutdown : list Z → Z → globals → outcome globals := mark_crashed true.
Definition AnnotateRestart : list Z → Z → globals → outcome globals := mark_crashed false.

Definition all_servers (n : nat) : list Z := Z.of_nat <$> seq 0 n.

Definition AnnotateShutdownAll (t : Z) : globals → outcome globals :=
  with_finfo (λ fi g, AnnotateShutdown (all_servers (nservers fi)) t g).
Definition AnnotateRestartAll (t : Z) : globals → outcome globals :=
  with_finfo (λ fi g, AnnotateRestart (all_servers (nservers fi)) t g).

(** ** [annotator.go]: annotating from a server process *)

(** The handlers of [TesterRPC], at time [t] of the tester. *)
Definition PostAnnotatorPoint (tag desp details : string) (t : Z) : globals → globals :=
  AnnotatePoint tag desp details t.
Definition GetAnnotatorTimestamp_handler (t : Z) : Z := t.
Definition PostAnnotatorInfoInterval_handler (start : Z) (desp details : string) (t : Z) : globals → globals :=
  AnnotateInfoInterval start desp details t.

(** The callers' side: the call may fail, and the handler may have run then. *)
Definition handler_runs (f : call_fate) : bool := match f with RequestLost => false | _ => true end.

Definition Annotate (f : call_fate) (tag desp details : string) (t : Z) (g : globals) : globals :=
  if handler_runs f then PostAnnotatorPoint tag desp details t g else g.
Definition GetAnnotatorTimestamp (f : call_fate) (t : Z) : Z :=
  match f with Delivered => GetAnnotatorTimestamp_handler t | _ => 0 end.
Definition PostAnnotatorInfoInterval (f : call_fate) (start : Z) (desp details : string) (t : Z)
    (g : globals) : globals :=
  if handler_runs f then PostAnnotatorInfoInterval_handler start desp details t g else g.
