(* ===== verification/AnnotationSafety.v ===== *)
(** * What the annotations of a test tell

    The failure annotation names the servers that are disconnected or crashed now, unless
    something else was put in its place; the
    intervals of a continuous annotation follow each other in time; and the two places where
    the code records what did not happen ([Annotation.v]). *)
From Stdlib Require Import Sorting.Sorted.
From stdpp Require Import base tactics numbers list fin_maps gmap strings pretty sorting.
From S2P Require Import Prelude GoLib GoStrings GoStrconv Annotation.

(** ** Runs *)

Inductive ann_event :=
  | EvPoint (tag desp details color : string)
  | EvInterval (tag : string) (start : Z) (desp details color : string)
  | EvContinuous (tag desp details color : string)
  | EvContinuousEnd (tag : string)
  | EvCheckerBegin (details : string)
  | EvCheckerEnd (desp details color : string)
  | EvConnection (connection : list bool)
  | EvShutdown (servers : list Z)
  | EvRestart (servers : list Z)
  | EvShutdownAll
  | EvRestartAll
  | EvTwoPartitions (p1 p2 : list Z)
  | EvClearFailure
  | EvSetFinalized
  | EvFinalize (end_ : string).

Definition ann_step (e : ann_event) (t : Z) (g : globals) : outcome globals :=
  match e with
  | EvPoint tag desp details color => Ret (AnnotatePointColor tag desp details color t g)
  | EvInterval tag start desp details color => Ret (AnnotateIntervalColor tag start desp details color t g)
  | EvContinuous tag desp details color => Ret (AnnotateContinuousColor tag desp details color t g)
  | EvContinuousEnd tag => Ret (AnnotateContinuousEnd tag t g)
  | EvCheckerBegin details => AnnotateCheckerBegin details t g
  | EvCheckerEnd desp details color => AnnotateCheckerEnd desp details color t g
  | EvConnection connection => AnnotateConnection connection t g
  | EvShutdown servers => AnnotateShutdown servers t g
  | EvRestart servers => AnnotateRestart servers t g
  | EvShutdownAll => AnnotateShutdownAll t g
  | EvRestartAll => AnnotateRestartAll t g
  | EvTwoPartitions p1 p2 => Ret (AnnotateTwoPartitions p1 p2 t g)
  | EvClearFailure => AnnotateClearFailure t g
  | EvSetFinalized => Ret (SetAnnotationFinalized g)
  | EvFinalize end_ => Ret (FinalizeAnnotations id end_ t t g).2
  end.

Fixpoint ann_run (es : list (ann_event * Z)) (g : globals) : outcome globals :=
  match es with [] => Ret g | (e, t) :: es => g ← ann_step e t g; ann_run es g end.

(** ** The text of a failure *)

(** The servers from [i] on whose two flags satisfy [P]. *)
Fixpoint ids (P : bool → bool → bool) (i : nat) (co cr : list bool) : list Z :=
  match co, cr with
  | c :: co, k :: cr => (if P c k then [Z.of_nat i] else []) ++ ids P (S i) co cr
  | _, _ => []
  end.

Definition alone (co cr : list bool) : list Z := ids (λ c k, negb k && negb c) 0 co cr.
Definition together (co cr : list bool) : list Z := ids (λ c k, negb k && c) 0 co cr.
Definition down (co cr : list bool) : list Z := ids (λ _ k, k) 0 co cr.

(** Each disconnected server in a partition of its own, the connected ones together, the
    crashed ones last. *)
Definition fault_summary (co cr : list bool) : string :=
  "partition = " +:+ concat_str ((λ i, show_ints [i] +:+ " ") <$> alone co cr) +:+
  (match together co cr with [] => "" | l => show_ints l end) +:+
  (match down co cr with [] => "" | l => " / crash = " +:+ show_ints l end).

Section fault.
Implicit Types (co cr : list bool).

Lemma concat_str_app l1 l2 : concat_str (l1 ++ l2) = concat_str l1 +:+ concat_str l2.
Proof.
  induction l1 as [|w l1 IH]; [done|]. cbn. unfold concat_str in IH. rewrite IH. by rewrite append_assoc.
Qed.
Lemma fault_loop crf i co cr conns crashes text :
  drop i crf = cr → length cr = length co →
  go_for (λ ic, fault_turn crf (ic.1) (ic.2)) (imap (λ j, pair (i + j)%nat) co) (conns, crashes, text) =
  Ret (conns ++ ids (λ c k, negb k && c) i co cr, crashes ++ ids (λ _ k, k) i co cr,
       text +:+ concat_str ((λ i, show_ints [i] +:+ " ") <$> ids (λ c k, negb k && negb c) i co cr)).
Proof.
  revert i cr conns crashes text. induction co as [|c co IH]; intros i [|k cr] conns crashes text Hd Hlen; try done.
  { cbn. by rewrite !app_nil_r, append_nil_r. }
  rewrite imap_cons. cbn [go_for fst snd]. rewrite Nat.add_0_r.
  assert (crf !! i = Some k) as Hi by (rewrite <- (Nat.add_0_r i), <- lookup_drop, Hd; done).
  assert (drop (S i) crf = cr) as Hd' by (rewrite <- Nat.add_1_r, <- drop_drop, Hd; done).
  assert (imap ((λ j, pair (i + j)%nat) ∘ S) co = imap (λ j, pair (S i + j)%nat) co) as ->.
  { apply imap_ext. intros j x _. cbn. f_equal. lia. }
  cbn [fault_turn fst snd]. rewrite (go_index_nat _ _ _ Hi), bind_ret_l. cbn [ids].
  assert (length cr = length co) as Hlen' by (by injection Hlen).
  specialize (λ a b t, IH (S i) cr a b t Hd' Hlen').
  destruct k; [|destruct c]; rewrite bind_ret_l, IH; cbn [negb andb app]; rewrite <- ?app_assoc; [done..|].
  change (concat_str ((λ i, show_ints [i] +:+ " ") <$> Z.of_nat i :: ?l)) with
    ((show_ints [Z.of_nat i] +:+ " ") +:+ concat_str ((λ i, show_ints [i] +:+ " ") <$> l)).
  by rewrite !append_assoc.
Qed.

Lemma fault_text_spec co cr : length cr = length co → fault_text co cr = Ret (fault_summary co cr).
Proof.
  intros Hlen. unfold fault_text. change (imap pair co) with (imap (λ j : nat, pair (0 + j)%nat) co).
  rewrite (fault_loop cr 0 co cr) by done. rewrite bind_ret_l. cbn [app]. unfold fault_summary.
  fold (together co cr) (down co cr) (alone co cr). f_equal.
  assert (∀ (l : list Z) s t, (if decide (0 < zlen l) then t +:+ s else t) =
    t +:+ match l with [] => "" | _ => s end) as Hif.
  { intros [|x l] s t; [by rewrite append_nil_r|]. rewrite decide_True; [done|].
    rewrite zlen_cons. pose proof (zlen_nonneg l). lia. }
  rewrite !Hif, !append_assoc. by destruct (together co cr), (down co cr).
Qed.
End fault.

(** ** The failure annotation tracks the failures *)

Definition marks (v : bool) (l : list Z) (cr : list bool) : list bool :=
  foldl (λ cr i, <[Z.to_nat i := v]> cr) cr l.

(** What an event does to the flags of the servers. *)
Definition flags_step (e : ann_event) (flags : list bool * list bool) : list bool * list bool :=
  let '(co, cr) := flags in
  match e with
  | EvConnection connection => (connection, cr)
  | EvShutdown servers => (co, marks true servers cr)
  | EvRestart servers => (co, marks false servers cr)
  | EvShutdownAll => (co, replicate (length cr) true)
  | EvRestartAll => (co, replicate (length cr) false)
  | EvClearFailure => (replicate (length co) true, replicate (length cr) false)
  | _ => flags
  end.

Definition flags_run (es : list (ann_event * Z)) (flags : list bool * list bool) : list bool * list bool :=
  foldl (λ flags et, flags_step (et.1) flags) flags es.

(** Servers in range. *)
Definition valid_event (n : nat) (e : ann_event) : Prop :=
  match e with
  | EvConnection connection => length connection = n
  | EvShutdown servers | EvRestart servers => Forall (λ i, 0 ≤ i < Z.of_nat n) servers
  | _ => True
  end.

(** An annotation of a failure: its text, given twice, and its colour. *)
Definition failure : Type := string * string * string.

Definition two_partitions (p1 p2 : list Z) : failure :=
  ("partition = " +:+ show_ints p1 +:+ " " +:+ show_ints p2,
   "partition = " +:+ show_ints p1 +:+ " " +:+ show_ints p2, COLOR_FAULT).

(** What an event puts in the place of the failure annotation: [None], nothing; [Some x],
    [x] whatever the flags say. [AnnotateTwoPartitions] does not look at the flags, a user's
    annotation under the tester's tag neither, and only an event that changes a flag, or
    clears them, looks at the flags again. *)
Definition override_step (e : ann_event) (flags : list bool * list bool) (o : option (option failure))
    : option (option failure) :=
  match e with
  | EvTwoPartitions p1 p2 => Some (Some (two_partitions p1 p2))
  | EvContinuous tag desp details color => if decide (tag = TAG_PARTITION) then Some (Some (desp, details, color)) else o
  | EvContinuousEnd tag => if decide (tag = TAG_PARTITION) then Some None else o
  | EvConnection _ | EvShutdown _ | EvRestart _ | EvShutdownAll | EvRestartAll =>
      if decide (flags_step e flags = flags) then o else None
  | EvClearFailure => None
  | _ => o
  end.

Fixpoint override_run (es : list (ann_event * Z)) (flags : list bool * list bool) (o : option (option failure))
    : option (option failure) :=
  match es with
  | [] => o
  | (e, _) :: es => override_run es (flags_step e flags) (override_step e flags o)
  end.

Definition faultless (co cr : list bool) : Prop :=
  co = replicate (length co) true ∧ cr = replicate (length cr) false.

#[export] Instance faultless_dec co cr : Decision (faultless co cr).
Proof. unfold faultless. apply _. Defined.

(** The failure annotation that goes on. *)
Definition ongoing_failure (g : globals) : option failure :=
  (λ c, (c_desp c, c_details c, c_bgcolor c)) <$> continuous (g_annotation g) !! TAG_PARTITION.

Definition expected_failure (co cr : list bool) : option failure :=
  if decide (faultless co cr) then None
  else Some (fault_summary co cr, fault_summary co cr, COLOR_FAULT).

(** What is to be seen. *)
Definition displayed (o : option (option failure)) (co cr : list bool) : option failure :=
  match o with Some x => x | None => expected_failure co cr end.

Section tracking.
Context (n : nat).
Implicit Types (g : globals) (fi : FrameworkInfo) (co cr : list bool) (o : option (option failure)).

Definition info_ok fi co cr : Prop :=
  nservers fi = n ∧ connected fi = co ∧ crashed fi = cr ∧ length co = n ∧ length cr = n.

Definition shows o co cr g : Prop :=
  (∃ fi, g_finfo g = Some fi ∧ info_ok fi co cr) ∧ ongoing_failure g = displayed o co cr.

Definition tracks : list bool → list bool → globals → Prop := shows None.

Lemma ongoing_Continuous tag desp details color t g :
  ongoing_failure (AnnotateContinuousColor tag desp details color t g) =
  if decide (tag = TAG_PARTITION) then Some (desp, details, color) else ongoing_failure g.
Proof.
  unfold ongoing_failure, AnnotateContinuousColor, on_annotation, annotateContinuousColor.
  destruct (continuous (g_annotation g) !! tag); cbn; rewrite lookup_insert; by case_decide.
Qed.

Lemma ongoing_End tag t g :
  ongoing_failure (AnnotateContinuousEnd tag t g) =
  if decide (tag = TAG_PARTITION) then None else ongoing_failure g.
Proof.
  unfold ongoing_failure, AnnotateContinuousEnd, on_annotation, annotateContinuousEnd. cbn.
  rewrite lookup_delete. by case_decide.
Qed.

(** [annotateFault] brings the annotation in line with the flags. *)
Lemma annotateFault_tracks fi t g co cr :
  info_ok fi co cr →
  ∃ g', annotateFault fi t (g <| g_finfo := Some fi |>) = Ret g' ∧ tracks co cr g'.
Proof.
  intros Hfi. assert (Hfi' := Hfi). destruct Hfi' as (Hn & <- & <- & Hco & Hcr).
  unfold annotateFault. rewrite Hn.
  assert (connected fi = replicate n true ∧ crashed fi = replicate n false ↔ faultless (connected fi) (crashed fi))
    as Hiff by (unfold faultless; by rewrite Hco, Hcr).
  unfold tracks, shows, displayed, expected_failure. case_decide as Hd.
  - eexists. split; [done|]. split; [by exists fi|]. rewrite ongoing_End.
    by rewrite decide_True, decide_True by (done || by apply Hiff).
  - rewrite fault_text_spec by congruence. eexists. split; [done|]. split; [by exists fi|].
    rewrite ongoing_Continuous. rewrite decide_True by done. rewrite decide_False; [done|].
    by rewrite <- Hiff.
Qed.

Lemma mark_turn_ok v i cr changed :
  0 ≤ i < zlen cr → ∃ old, cr !! Z.to_nat i = Some old ∧
    mark_turn v i (cr, changed) = Ret (<[Z.to_nat i := v]> cr, changed || negb (eqb old v)).
Proof.
  intros Hi. unfold mark_turn. destruct (go_index_in_range cr i Hi) as (old & -> & Hold).
  exists old. split; [done|]. rewrite bind_ret_l. unfold go_update. by rewrite decide_True.
Qed.

(** What is marked stays marked. *)
Lemma marks_keep v l cr (j : nat) : cr !! j = Some v → marks v l cr !! j = Some v.
Proof.
  revert cr. induction l as [|i l IH]; intros cr Hj; [done|]. cbn. apply IH.
  rewrite list_lookup_insert. by case_decide.
Qed.

Lemma mark_turns v l cr changed :
  Forall (λ i, 0 ≤ i < zlen cr) l →
  ∃ changed', go_for (mark_turn v) l (cr, changed) = Ret (marks v l cr, changed') ∧
    length (marks v l cr) = length cr ∧ changed' = changed || bool_decide (marks v l cr ≠ cr).
Proof.
  intros Hl. revert cr changed Hl. induction l as [|i l IH]; intros cr changed Hl.
  { exists changed. cbn [marks foldl go_for]. rewrite bool_decide_false by (intros Hne; by apply Hne). by rewrite orb_false_r. }
  apply Forall_cons in Hl as [Hi Hl]. cbn [go_for].
  destruct (mark_turn_ok v i cr changed Hi) as (old & Hold & ->). rewrite bind_ret_l.
  destruct (IH (<[Z.to_nat i := v]> cr) (changed || negb (eqb old v))) as (c' & -> & Hlen & Hc').
  { eapply Forall_impl; [exact Hl|]. intros j. by rewrite zlen_insert. }
  change (marks v (i :: l) cr) with (marks v l (<[Z.to_nat i := v]> cr)).
  exists c'. split; [done|]. split; [by rewrite Hlen, length_insert|].
  rewrite Hc'. destruct (decide (old = v)) as [->|Hne].
  - rewrite (list_insert_id cr) by done. by rewrite eqb_reflx, orb_false_r.
  - rewrite (proj2 (eqb_false_iff _ _) Hne), orb_true_r. symmetry. apply orb_true_iff. right. apply bool_decide_eq_true.
    intros E. apply Hne. assert (marks v l (<[Z.to_nat i := v]> cr) !! Z.to_nat i = Some v) as Hv.
    { apply marks_keep, list_lookup_insert_eq. by eapply lookup_lt_Some. }
    rewrite E in Hv. congruence.
Qed.

Lemma marks_lookup v l cr (j : nat) :
  (j < length cr)%nat → Forall (λ i, 0 ≤ i) l → Z.of_nat j ∈ l → marks v l cr !! j = Some v.
Proof.
  intros Hj Hl. revert cr Hj. induction Hl as [|i l Hi Hl IH]; intros cr Hj Hin; [by apply elem_of_nil in Hin|].
  cbn. destruct (decide (Z.of_nat j ∈ l)) as [Hjl|Hjl].
  - apply IH; [by rewrite length_insert|done].
  - apply elem_of_cons in Hin as [<-|]; [|done]. rewrite Nat2Z.id.
    apply marks_keep. by rewrite list_lookup_insert_eq.
Qed.

Lemma marks_all v cr : marks v (all_servers (length cr)) cr = replicate (length cr) v.
Proof.
  destruct (mark_turns v (all_servers (length cr)) cr false) as (_ & _ & Hlen & _).
  { apply Forall_fmap, Forall_forall. intros i Hi%elem_of_seq. cbn. unfold zlen. lia. }
  apply list_eq_same_length with (length cr); [by rewrite length_replicate|done|].
  intros i x y Hi Hx [-> _]%lookup_replicate.
  rewrite marks_lookup in Hx; [by injection Hx|done|..].
  - apply Forall_fmap, Forall_forall. intros j _. cbn. lia.
  - apply list_elem_of_fmap. exists i. split; [done|]. apply elem_of_seq. lia.
Qed.

Lemma mark_crashed_shows v l t g o co cr :
  shows o co cr g → Forall (λ i, 0 ≤ i < Z.of_nat n) l →
  ∃ g', mark_crashed v l t g = Ret g' ∧ shows (if decide ((co, marks v l cr) = (co, cr)) then o else None) co (marks v l cr) g'.
Proof.
  intros [(fi & Hg & Hfi) Hong] Hl. unfold mark_crashed, with_finfo. rewrite Hg.
  assert (Hfi' := Hfi). destruct Hfi' as (Hn & <- & <- & Hco & Hcr).
  destruct (mark_turns v l (crashed fi) false) as (ch & -> & Hlen & ->); [by rewrite <- Hcr in Hl|].
  rewrite bind_ret_l. assert (info_ok (fi <| crashed := marks v l (crashed fi) |>) (connected fi) (marks v l (crashed fi)))
    as Hok by (split_and!; [done..|congruence]). cbn [orb]. case_bool_decide as Hd.
  - rewrite decide_False by congruence. by apply annotateFault_tracks.
  - rewrite decide_True by congruence. eexists. split; [done|]. split; [by eexists|]. rewrite Hd. exact Hong.
Qed.

Lemma ann_step_shows e t g o co cr :
  shows o co cr g → valid_event n e →
  ∃ g', ann_step e t g = Ret g' ∧
    shows (override_step e (co, cr) o) (flags_step e (co, cr)).1 (flags_step e (co, cr)).2 g'.
Proof.
  intros Htr Hv. assert (Htr' := Htr). destruct Htr' as [(fi & Hg & Hfi) Hong].
  assert (Hfi' := Hfi). destruct Hfi' as (Hn & Hfco & Hfcr & Hco & Hcr).
  assert (∀ i, i ∈ seq 0 n → 0 ≤ Z.of_nat i < Z.of_nat n) as Hseq by (intros i Hi%elem_of_seq; lia).
  destruct e as [| |tag ? ? ?|tag|details|? ? ?|conn|l|l| | |p1 p2| | |?]; cbn [ann_step flags_step override_step fst snd]; cbn in Hv;
    try (eexists; split; [done|]; done).
  - eexists. split; [done|]. split; [by exists fi|]. rewrite ongoing_Continuous. by case_decide.
  - eexists. split; [done|]. split; [by exists fi|]. rewrite ongoing_End. by case_decide.
  - unfold AnnotateCheckerBegin, with_finfo. rewrite Hg. eexists. split; [done|]. split; [|done].
    by eexists.
  - unfold AnnotateCheckerEnd, with_finfo. rewrite Hg. case_decide; (eexists; split; [done|]); done.
  - unfold AnnotateConnection, with_finfo. rewrite Hg. case_decide as Hd.
    { exists g. split; [done|]. rewrite decide_True; [|congruence]. by rewrite <- Hd, Hfco. }
    assert (go_copy (connected fi) conn = conn) as Hcopy.
    { unfold go_copy. rewrite Hfco, Hco, <- Hv, firstn_all, drop_ge by lia. by rewrite app_nil_r. }
    rewrite Hcopy, decide_False by congruence. apply annotateFault_tracks. by split_and!.
  - by apply mark_crashed_shows.
  - by apply mark_crashed_shows.
  - unfold AnnotateShutdownAll, with_finfo. rewrite Hg, Hn, <- Hcr, <- marks_all.
    apply mark_crashed_shows; [done|]. rewrite Hcr. apply Forall_fmap, Forall_forall, Hseq.
  - unfold AnnotateRestartAll, with_finfo. rewrite Hg, Hn, <- Hcr, <- marks_all.
    apply mark_crashed_shows; [done|]. rewrite Hcr. apply Forall_fmap, Forall_forall, Hseq.
  - eexists. split; [done|]. split; [by exists fi|]. unfold AnnotateTwoPartitions. rewrite ongoing_Continuous.
    by rewrite decide_True.
  - unfold AnnotateClearFailure, with_finfo. rewrite Hg. eexists. split; [done|]. split.
    + eexists. split; [done|]. rewrite <- Hfco, <- Hfcr. split_and!; cbn; rewrite ?length_replicate; congruence.
    + rewrite ongoing_End. rewrite decide_True by done. unfold displayed, expected_failure. rewrite decide_True; [done|].
      split; by rewrite length_replicate.
Qed.

(** Without an override an event that puts none in place keeps the annotation with the flags. *)
Lemma ann_step_tracks e t g co cr :
  tracks co cr g → valid_event n e → override_step e (co, cr) None = None →
  ∃ g', ann_step e t g = Ret g' ∧ tracks (flags_step e (co, cr)).1 (flags_step e (co, cr)).2 g'.
Proof. intros Htr Hv Ho. destruct (ann_step_shows e t g None co cr Htr Hv) as (g' & E & H). rewrite Ho in H. eauto. Qed.

Lemma ann_run_shows es g o co cr :
  shows o co cr g → Forall (λ et, valid_event n (et.1)) es →
  ∃ g', ann_run es g = Ret g' ∧
    shows (override_run es (co, cr) o) (flags_run es (co, cr)).1 (flags_run es (co, cr)).2 g'.
Proof.
  intros Htr Hes. revert g o co cr Htr. induction Hes as [|[e t] es He Hes IH]; intros g o co cr Htr; cbn [ann_run].
  { by exists g. }
  destruct (ann_step_shows e t g o co cr Htr He) as (g1 & -> & H1). rewrite bind_ret_l.
  destruct (IH _ _ _ _ H1) as (g' & -> & H'). exists g'. split; [done|].
  cbn [flags_run override_run foldl]. cbn in H'. by rewrite <- surjective_pairing in H'.
Qed.
End tracking.

(** C38: From the start of a test with [n] servers up to its cleanup, whatever is connected,
    shut down, restarted, partitioned and cleared, and in whatever order, nothing panics, and
    the failure annotation that goes on is determined: it tells exactly which servers are
    disconnected or crashed now (there is none when there is no such server, and otherwise its
    text lists every server by its state), unless [AnnotateTwoPartitions], or a user under the
    tester's own tag, has put something else in its place since the last event that changed a
    flag or cleared them.  What was put there last is then shown, whatever the flags say. *)
Theorem failure_annotation_exact desp n t0 es g0 :
  Forall (λ et, valid_event n (et.1)) es →
  ∃ g fi, ann_run es (AnnotateTest desp n t0 g0) = Ret g ∧ g_finfo g = Some fi ∧
    let flags := flags_run es (replicate n true, replicate n false) in
    (connected fi, crashed fi) = flags ∧
    ongoing_failure g =
      match override_run es (replicate n true, replicate n false) None with
      | None => expected_failure (flags.1) (flags.2)
      | Some shown => shown
      end.
Proof.
  intros Hes. destruct (ann_run_shows n es (AnnotateTest desp n t0 g0) None (replicate n true) (replicate n false))
    as (g & Hg & (fi & Hfi & (_ & Hco & Hcr & _)) & Hong); [|done|].
  - split.
    + eexists. split; [done|]. by split_and!; cbn; rewrite ?length_replicate.
    + unfold displayed, expected_failure. rewrite decide_True; [done|]. split; by rewrite length_replicate.
  - exists g, fi. cbv zeta. rewrite Hco, Hcr. split_and!; [done|done| |exact Hong].
    by rewrite <- surjective_pairing.
Qed.

Definition outage : list (ann_event * Z) :=
  [(EvConnection [true; false; true], 5); (EvPoint "note" "x" "x" COLOR_USER, 6); (EvShutdown [2; 0], 7);
   (EvTwoPartitions [0; 1] [2], 8); (EvShutdown [0], 9); (EvRestart [0], 10)].

(** The partitions are shown while servers are down, also after a shutdown of a server that
    was down already; the restart of one brings the flags back. *)
Lemma failure_annotation_exact_witness :
  Forall (λ et, valid_event 3 (et.1)) outage ∧
  (∃ g, ann_run (take 5 outage) (AnnotateTest "crash" 3 1 globals_init) = Ret g ∧
    ongoing_failure g = Some ("partition = [0 1] [2]", "partition = [0 1] [2]", COLOR_FAULT)) ∧
  ∃ g, ann_run outage (AnnotateTest "crash" 3 1 globals_init) = Ret g ∧
    ongoing_failure g =
      Some ("partition = [1] [0] / crash = [2]", "partition = [1] [0] / crash = [2]", COLOR_FAULT).
Proof.
  assert (Forall (λ et, valid_event 3 (et.1)) outage) as Hes by (repeat constructor; cbn; lia).
  split; [exact Hes|]. split.
  - destruct (failure_annotation_exact "crash" 3 1 (take 5 outage) globals_init) as (g & fi & Hg & _ & _ & Hong);
      [by apply Forall_take|].
    exists g. split; [exact Hg|]. rewrite Hong. vm_compute. reflexivity.
  - destruct (failure_annotation_exact "crash" 3 1 outage globals_init Hes) as (g & fi & Hg & _ & _ & Hong).
    exists g. split; [exact Hg|]. rewrite Hong. vm_compute. reflexivity.
Defined.

(** ** Continuous annotations *)

(** What is recorded under a tag. *)
Definition recorded (tag : string) (g : globals) : list PAnnotation :=
  filter (λ a, a_Tag a = tag) (annotations (g_annotation g)).

Definition ongoing (tag : string) (g : globals) : option Continuous := continuous (g_annotation g) !! tag.

(** The descriptions a tag was given. *)
Definition descriptions (tag : string) (es : list (ann_event * Z)) : list string :=
  omap (λ et, match et.1 with
              | EvContinuous tag' desp _ _ => if decide (tag' = tag) then Some desp else None
              | _ => None end) es.

(** The tag is used for continuous annotations alone, and ended only where one goes on. *)
Fixpoint bracketed (tag : string) (open : bool) (es : list (ann_event * Z)) : Prop :=
  match es with
  | [] => True
  | (e, _) :: es =>
      match e with
      | EvPoint tag' _ _ _ | EvInterval tag' _ _ _ _ => tag' ≠ tag ∧ bracketed tag open es
      | EvContinuous tag' _ _ _ => bracketed tag (open || bool_decide (tag' = tag)) es
      | EvContinuousEnd tag' =>
          if decide (tag' = tag) then open = true ∧ bracketed tag false es else bracketed tag open es
      | _ => bracketed tag open es
      end
  end.

(** Times that do not decrease. *)
Fixpoint times_from (t : Z) (es : list (ann_event * Z)) : Prop :=
  match es with [] => True | (_, t') :: es => t ≤ t' ∧ times_from t' es end.

Section timeline.
Context (tag : string) (Hpart : tag ≠ TAG_PARTITION) (Hcheck : tag ≠ TAG_CHECKER).
Implicit Types (g : globals).

Definition same_tag g g' : Prop := recorded tag g' = recorded tag g ∧ ongoing tag g' = ongoing tag g.

#[local] Instance same_tag_preorder : PreOrder same_tag.
Proof. split; [by intros g|]. intros a b c [? ?] [? ?]. split; congruence. Qed.

Lemma recorded_add a g :
  recorded tag (on_annotation (add a) g) = recorded tag g ++ if decide (a_Tag a = tag) then [a] else [].
Proof. unfold recorded. cbn. rewrite filter_app, filter_cons. by case_decide. Qed.

Lemma same_Point tag' desp details color t g :
  tag' ≠ tag → same_tag g (AnnotatePointColor tag' desp details color t g).
Proof.
  intros Hne. split; [|done]. unfold AnnotatePointColor, annotatePointColor. rewrite recorded_add.
  cbn. rewrite decide_False by done. by rewrite app_nil_r.
Qed.

Lemma same_Interval tag' start desp details color t g :
  tag' ≠ tag → same_tag g (AnnotateIntervalColor tag' start desp details color t g).
Proof.
  intros Hne. split; [|done]. unfold AnnotateIntervalColor, annotateIntervalColor. rewrite recorded_add.
  cbn. rewrite decide_False by done. by rewrite app_nil_r.
Qed.

Lemma same_Continuous tag' desp details color t g :
  tag' ≠ tag → same_tag g (AnnotateContinuousColor tag' desp details color t g).
Proof.
  intros Hne. unfold same_tag, recorded, ongoing, AnnotateContinuousColor, on_annotation, annotateContinuousColor.
  destruct (continuous (g_annotation g) !! tag'); cbn; rewrite lookup_insert_ne by done; split; try done.
  rewrite filter_app, filter_cons. cbn. rewrite decide_False by done. by rewrite app_nil_r.
Qed.

Lemma same_ContinuousEnd tag' t g : tag' ≠ tag → same_tag g (AnnotateContinuousEnd tag' t g).
Proof.
  intros Hne. unfold same_tag, recorded, ongoing, AnnotateContinuousEnd, on_annotation, annotateContinuousEnd.
  cbn. rewrite lookup_delete_ne by done. split; [|done].
  rewrite filter_app, filter_cons. cbn. rewrite decide_False by done. by rewrite app_nil_r.
Qed.

Lemma same_Fault fi t g g' : annotateFault fi t g = Ret g' → same_tag g g'.
Proof.
  unfold annotateFault. case_decide; [intros [= <-]; by apply same_ContinuousEnd|].
  intros (text & _ & [= <-])%bind_ret_inv. by apply same_Continuous.
Qed.

Lemma same_mark v l t g g' : mark_crashed v l t g = Ret g' → same_tag g g'.
Proof.
  unfold mark_crashed, with_finfo. destruct (g_finfo g) as [fi|]; [|done].
  intros ([cr changed] & _ & E)%bind_ret_inv. destruct changed; [|by injection E as <-].
  apply same_Fault in E. exact E.
Qed.

(** An event that is not about the tag. *)
Lemma ann_step_same e t g g' :
  match e with
  | EvPoint tag' _ _ _ | EvInterval tag' _ _ _ _ | EvContinuous tag' _ _ _ | EvContinuousEnd tag' => tag' ≠ tag
  | _ => True
  end → ann_step e t g = Ret g' → same_tag g g'.
Proof.
  destruct e as [| |tag'| |details|desp details color|conn|l|l| | |p1 p2| | |?]; cbn [ann_step]; intros Hne.
  - intros [= <-]. by apply same_Point.
  - intros [= <-]. by apply same_Interval.
  - intros [= <-]. by apply same_Continuous.
  - intros [= <-]. by apply same_ContinuousEnd.
  - unfold AnnotateCheckerBegin, with_finfo. destruct (g_finfo g); [|done]. by intros [= <-].
  - unfold AnnotateCheckerEnd, with_finfo. destruct (g_finfo g); [|done].
    case_decide; intros [= <-]; [by apply same_Point|by apply same_Interval].
  - unfold AnnotateConnection, with_finfo. destruct (g_finfo g) as [fi|]; [|done].
    case_decide; [by intros [= <-]|]. intros E%same_Fault. exact E.
  - apply same_mark.
  - apply same_mark.
  - unfold AnnotateShutdownAll, with_finfo. destruct (g_finfo g); [|done]. apply same_mark.
  - unfold AnnotateRestartAll, with_finfo. destruct (g_finfo g); [|done]. apply same_mark.
  - intros [= <-]. by apply same_Continuous.
  - unfold AnnotateClearFailure, with_finfo. destruct (g_finfo g) as [fi|]; [|done].
    intros [= <-]. set (fi' := fi <| crashed := _ |> <| connected := _ |>).
    transitivity (g <| g_finfo := Some fi' |>); [done|by apply same_ContinuousEnd].
  - by intros [= <-].
  - by intros [= <-].
Qed.

(** One interval after the other, up to now. *)
Record timeline (now : Z) (descs : list string) (open : bool) g : Prop := {
  tl_chain : StronglySorted (λ a b, a_End a ≤ a_Start b) (recorded tag g);
  tl_span : Forall (λ a, a_Start a ≤ a_End a ≤ now) (recorded tag g);
  tl_open : match ongoing tag g with
            | None => open = false
            | Some c => open = true ∧ c_start c ≤ now ∧ Forall (λ a, a_End a ≤ c_start c) (recorded tag g)
            end;
  tl_descs : (a_Description <$> recorded tag g) ++ option_list (c_desp <$> ongoing tag g) = descs
}.

Lemma timeline_same now now' descs open g g' :
  now ≤ now' → same_tag g g' → timeline now descs open g → timeline now' descs open g'.
Proof.
  intros Hnow [Hr Ho] [? Hs Hop ?]. split; rewrite ?Hr, ?Ho; try done.
  - eapply Forall_impl; [exact Hs|]. cbn. lia.
  - destruct (ongoing tag g); [|done]. destruct Hop as (? & ? & ?). split_and!; [done|lia|done].
Qed.

(** Ending the interval that goes on. *)
Lemma timeline_close now t g c :
  now ≤ t → c_start c ≤ now → StronglySorted (λ a b, a_End a ≤ a_Start b) (recorded tag g) →
  Forall (λ a, a_Start a ≤ a_End a ≤ now) (recorded tag g) →
  Forall (λ a, a_End a ≤ c_start c) (recorded tag g) →
  StronglySorted (λ a b, a_End a ≤ a_Start b) (recorded tag g ++ [concretize tag c t]) ∧
  Forall (λ a, a_Start a ≤ a_End a ≤ t) (recorded tag g ++ [concretize tag c t]).
Proof.
  intros Hnow Hc Hch Hs Hend. split.
  - apply StronglySorted_app_2; [|done|repeat constructor]. intros a b Ha ->%list_elem_of_singleton.
    rewrite Forall_forall in Hend. by apply Hend.
  - apply Forall_app. split; [eapply Forall_impl; [exact Hs|]; cbn; lia|]. repeat constructor; cbn; lia.
Qed.

Lemma recorded_Continuous desp details color t g :
  recorded tag (AnnotateContinuousColor tag desp details color t g) =
    recorded tag g ++ option_list ((λ c, concretize tag c t) <$> ongoing tag g) ∧
  ongoing tag (AnnotateContinuousColor tag desp details color t g) =
    Some {| c_start := t; c_desp := desp; c_details := details; c_bgcolor := color |}.
Proof.
  unfold recorded, ongoing, AnnotateContinuousColor, on_annotation, annotateContinuousColor.
  destruct (continuous (g_annotation g) !! tag) as [c|]; cbn; rewrite lookup_insert_eq; split; try done.
  - by rewrite filter_app, filter_cons, decide_True.
  - by rewrite app_nil_r.
Qed.

Lemma timeline_Continuous now t desp details color descs open g :
  now ≤ t → timeline now descs open g →
  timeline t (descs ++ [desp]) true (AnnotateContinuousColor tag desp details color t g).
Proof.
  intros Hnow [Hch Hs Hop Hd]. destruct (recorded_Continuous desp details color t g) as [Hr Ho].
  destruct (ongoing tag g) as [c|] eqn:Hong; cbn in Hr, Ho, Hd.
  - destruct Hop as (-> & Hc & Hend).
    destruct (timeline_close now t g c Hnow Hc Hch Hs Hend) as [Hch' Hs'].
    split; rewrite ?Hr, ?Ho; [done|done| |].
    + cbn. split_and!; [done|lia|]. eapply Forall_impl; [exact Hs'|]. cbn. lia.
    + rewrite <- Hd, fmap_app. done.
  - rewrite app_nil_r in Hr, Hd. subst descs. split; rewrite ?Hr, ?Ho; [done| | |done].
    + eapply Forall_impl; [exact Hs|]. cbn. lia.
    + cbn. split_and!; [done|lia|]. eapply Forall_impl; [exact Hs|]. cbn. lia.
Qed.

Lemma timeline_End now t descs g :
  now ≤ t → timeline now descs true g → timeline t descs false (AnnotateContinuousEnd tag t g).
Proof.
  intros Hnow [Hch Hs Hop Hd].
  destruct (ongoing tag g) as [c|] eqn:Hong; [|done]. destruct Hop as (_ & Hc & Hend).
  assert (recorded tag (AnnotateContinuousEnd tag t g) = recorded tag g ++ [concretize tag c t]) as Hr.
  { unfold recorded, AnnotateContinuousEnd, on_annotation, annotateContinuousEnd. unfold ongoing in Hong.
    rewrite Hong. cbn. by rewrite filter_app, filter_cons, decide_True. }
  assert (ongoing tag (AnnotateContinuousEnd tag t g) = None) as Ho by (unfold ongoing; cbn; apply lookup_delete_eq).
  destruct (timeline_close now t g c Hnow Hc Hch Hs Hend) as [Hch' Hs'].
  split; rewrite ?Hr, ?Ho; [done|done|done|].
  rewrite <- Hd, fmap_app. cbn. by rewrite app_nil_r.
Qed.

Lemma timeline_run now es g g' descs open :
  timeline now descs open g → times_from now es → bracketed tag open es → ann_run es g = Ret g' →
  ∃ now' open', timeline now' (descs ++ descriptions tag es) open' g'.
Proof.
  revert now g descs open. induction es as [|[e t] es IH]; intros now g descs open Htl Hts Hbr; cbn [ann_run].
  { intros [= <-]. exists now, open. cbn. by rewrite app_nil_r. }
  destruct Hts as [Hnow Hts]. intros (g1 & E1 & E)%bind_ret_inv.
  assert (∀ descs1 open1, timeline t descs1 open1 g1 → bracketed tag open1 es →
    descs1 ++ descriptions tag es = descs ++ descriptions tag ((e, t) :: es) →
    ∃ now' open', timeline now' (descs ++ descriptions tag ((e, t) :: es)) open' g') as Hgo.
  { intros descs1 open1 H1 Hb1 <-. by eapply IH. }
  pose proof (ann_step_same e t g g1) as Hsame.
  destruct e as [tag' ? ? ?|tag' ? ? ? ?|tag' ? ? ?|tag'| | | | | | | | | | |]; cbn [bracketed] in Hbr;
    try (apply (Hgo descs open); [by eapply timeline_same; [|apply Hsame|]|tauto|done]).
  - destruct Hbr as [Hne Hbr]. apply (Hgo descs open); [by eapply timeline_same; [|apply Hsame|]|done|done].
  - destruct Hbr as [Hne Hbr]. apply (Hgo descs open); [by eapply timeline_same; [|apply Hsame|]|done|done].
  - destruct (decide (tag' = tag)) as [->|Hne].
    + rewrite bool_decide_true, orb_true_r in Hbr by done. cbn in E1. injection E1 as <-.
      apply (Hgo (descs ++ [desp]) true); [by eapply timeline_Continuous|done|].
      cbn. rewrite decide_True by done. by rewrite <- app_assoc.
    + rewrite bool_decide_false, orb_false_r in Hbr by done. apply (Hgo descs open); [|done|].
      * by eapply timeline_same; [|apply Hsame|].
      * cbn. by rewrite decide_False.
  - case_decide as Hd.
    + subst tag'. destruct Hbr as [-> Hbr]. cbn in E1. injection E1 as <-.
      apply (Hgo descs false); [by eapply timeline_End|done|done].
    + apply (Hgo descs open); [by eapply timeline_same; [|apply Hsame|]|done|done].
Qed.
End timeline.

(** Under a tag that a test uses for continuous annotations alone, each annotation given
    is recorded once, in order, as an interval that ends where the next begins or earlier; the
    last one goes on if it was not ended. *)
Theorem continuous_timeline tag desp n t0 es g0 g :
  tag ≠ TAG_PARTITION → tag ≠ TAG_CHECKER → tag ≠ TAG_INFO →
  times_from t0 es → bracketed tag false es →
  ann_run es (AnnotateTest desp n t0 g0) = Ret g →
  (a_Description <$> recorded tag g) ++ option_list (c_desp <$> ongoing tag g) = descriptions tag es ∧
  StronglySorted (λ a b, a_End a ≤ a_Start b) (recorded tag g) ∧
  Forall (λ a, a_Start a ≤ a_End a) (recorded tag g) ∧
  ∀ c, ongoing tag g = Some c → Forall (λ a, a_End a ≤ c_start c) (recorded tag g).
Proof.
  intros Hp Hc Hi Hts Hbr Hrun.
  destruct (timeline_run tag Hp Hc t0 es (AnnotateTest desp n t0 g0) g [] false) as (now & open & Htl); [|done..|].
  - assert (recorded tag (AnnotateTest desp n t0 g0) = []) as Hr.
    { unfold recorded, AnnotateTest, AnnotateInfo, AnnotatePointColor, on_annotation. cbn.
      by rewrite decide_False. }
    assert (ongoing tag (AnnotateTest desp n t0 g0) = None) as Ho by (unfold ongoing; cbn; apply lookup_empty).
    by split; rewrite ?Hr, ?Ho; [constructor|constructor|..].
  - destruct Htl as [? Hs Ho ?]. split_and!; [done|done| |].
    + eapply Forall_impl; [exact Hs|]. cbn. lia.
    + intros c Hong. rewrite Hong in Ho. by destruct Ho as (_ & _ & ?).
Qed.

Definition phases : list (ann_event * Z) :=
  [(EvContinuous "phase" "load" "" COLOR_USER, 3); (EvShutdown [1], 4); (EvContinuous "phase" "crash" "" COLOR_USER, 6);
   (EvContinuousEnd "phase", 8); (EvClearFailure, 9); (EvContinuous "phase" "drain" "" COLOR_USER, 9)].

Lemma continuous_timeline_witness :
  ∃ g, ann_run phases (AnnotateTest "t" 2 1 globals_init) = Ret g ∧
    (λ a, (a_Start a, a_End a, a_Description a)) <$> recorded "phase" g = [(3, 6, "load"); (6, 8, "crash")] ∧
    (a_Description <$> recorded "phase" g) ++ option_list (c_desp <$> ongoing "phase" g) =
      ["load"; "crash"; "drain"].
Proof.
  destruct (ann_run phases (AnnotateTest "t" 2 1 globals_init)) as [g|w|m] eqn:E; [|discriminate..].
  exists g. split; [done|]. split; [vm_compute in E; by injection E as <-|].
  refine (proj1 (continuous_timeline "phase" "t" 2 1 phases globals_init g _ _ _ _ _ E)); try discriminate.
  - cbn. lia.
  - vm_compute. done.
Defined.

(** ** Two things that did not happen *)

(** A check that never began is shown as one that runs since the last beginning: the
    beginning is kept after the check it belongs to has ended, so the next [AnnotateChecker]
    call without a beginning records an interval from the old time with the old details. *)
Theorem stale_checker_begin details t1 e1 d1 col1 t2 e2 d2 col2 t3 g fi :
  g_finfo g = Some fi → t1 ≠ 0 →
  ∃ g', ann_run [(EvCheckerBegin details, t1); (EvCheckerEnd e1 d1 col1, t2); (EvCheckerEnd e2 d2 col2, t3)] g = Ret g' ∧
    annotations (g_annotation g') = annotations (g_annotation g) ++
      [{| a_Tag := TAG_CHECKER; a_Start := t1; a_End := t2; a_Description := e1;
          a_Details := details +:+ ": " +:+ d1; a_BackgroundColor := col1 |};
       {| a_Tag := TAG_CHECKER; a_Start := t1; a_End := t3; a_Description := e2;
          a_Details := details +:+ ": " +:+ d2; a_BackgroundColor := col2 |}].
Proof.
  intros Hg Ht. cbn [ann_run ann_step]. unfold AnnotateCheckerBegin, AnnotateCheckerEnd, with_finfo.
  rewrite Hg. rewrite bind_ret_l. cbn. rewrite decide_False by done. cbn. rewrite decide_False by done.
  eexists. split; [done|]. cbn. by rewrite <- app_assoc.
Qed.

Lemma stale_checker_begin_witness :
  ∃ g', ann_run [(EvCheckerBegin "checking leader", 5); (EvCheckerEnd "found" "OK" COLOR_SUCCESS, 6);
                 (EvCheckerEnd "agreed" "OK" COLOR_SUCCESS, 90)] (AnnotateTest "t" 3 1 globals_init) = Ret g' ∧
    (λ a, (a_Start a, a_End a, a_Details a)) <$> annotations (g_annotation g') =
      [(1, 0, "t (3 servers)"); (5, 6, "checking leader: OK"); (5, 90, "checking leader: OK")].
Proof.
  destruct (stale_checker_begin "checking leader" 5 "found" "OK" COLOR_SUCCESS 6 "agreed" "OK" COLOR_SUCCESS 90
    (AnnotateTest "t" 3 1 globals_init) (mkFrameworkInfo 3) eq_refl) as (g' & Hg & Ha); [lia|].
  exists g'. split; [exact Hg|]. rewrite Ha. vm_compute. reflexivity.
Defined.

(** Clearing failures where there are none records an annotation without text that starts at
    time 0: [annotateContinuousEnd] goes on when its tag has nothing to end. *)
Lemma clear_without_failure desp n t0 g0 t :
  ∃ g, AnnotateClearFailure t (AnnotateTest desp n t0 g0) = Ret g ∧
    ongoing_failure (AnnotateTest desp n t0 g0) = None ∧
    recorded TAG_PARTITION g =
      [{| a_Tag := TAG_PARTITION; a_Start := 0; a_End := t; a_Description := ""; a_Details := "";
          a_BackgroundColor := "" |}].
Proof. eexists. split; [done|]. split; [done|]. done. Qed.
