(* ===== verification/KVPorcupine.v ===== *)
(** * Checking a recorded history

    [checkPorcupine] of [src/src/kvtest1/porcupine.go]: what the tests do with the verdict of
    the linearizability checker.  The checker is a third-party package, the variable
    [CheckOperations]; it takes a timeout, after which its answer is [Unknown]. *)
From stdpp Require Import base tactics numbers list fin_maps gmap strings.
From S2P Require Import Prelude GoLib KVServer KVModel KVClerk KVTest KVCalls KVTestSafety KVHistory Annotation.

Inductive CheckResult := Unknown | Legal | Illegal.

#[export] Instance CheckResult_eq_dec : EqDecision CheckResult.
Proof. solve_decision. Defined.

Section check.
Variable CheckOperations : list Operation → CheckResult.
Variable range_order : list (string * Continuous) → list (string * Continuous).

(** [vis] is what the visualisation of the history is given, when one is made; [enabled] is
    the value of [VIS_ENABLE] and [opened] tells whether the file could be opened. *)
Record porcupine_end := { pe_failed : bool; pe_vis : option (list PAnnotation); pe_globals : globals }.

Definition checkPorcupine (enabled : string) (opened : bool) (opLog : OpLog) (t1 t2 : Z) (g : globals)
    : porcupine_end :=
  if decide (CheckOperations (OpLog_Read opLog) = Illegal) then
    if negb opened then {| pe_failed := true; pe_vis := None; pe_globals := g |}
    else if decide (enabled ≠ "never") then
      let '(l, g) := FinalizeAnnotations range_order "test failed" t1 t2 g in
      {| pe_failed := true; pe_vis := Some l; pe_globals := g |}
    else {| pe_failed := true; pe_vis := None; pe_globals := g |}
  else if decide (enabled = "always" ∧ GetAnnotationFinalized g = true) then
    if negb opened then {| pe_failed := false; pe_vis := None; pe_globals := g |}
    else
      let '(l, g) := FinalizeAnnotations range_order "test passed" t1 t2 g in
      {| pe_failed := false; pe_vis := Some l; pe_globals := g |}
  else {| pe_failed := false; pe_vis := None; pe_globals := g |}.

(** The test fails exactly on the verdict [Illegal]: a timeout passes. *)
Lemma checkPorcupine_failed enabled opened opLog t1 t2 g :
  pe_failed (checkPorcupine enabled opened opLog t1 t2 g) =
    bool_decide (CheckOperations opLog = Illegal).
Proof.
  unfold checkPorcupine, OpLog_Read, FinalizeAnnotations. case_decide as Hd.
  - rewrite bool_decide_true by done. destruct opened; cbn; [case_decide|]; done.
  - rewrite bool_decide_false by done. case_decide; [|done]. by destruct opened.
Qed.

(** Whatever is visualised was recorded before, then what still went on, then the verdict. *)
Lemma checkPorcupine_vis enabled opened opLog t1 t2 g l :
  pe_vis (checkPorcupine enabled opened opLog t1 t2 g) = Some l →
  ∃ going verdict, l = annotations (g_annotation g) ++ going ++ [point TAG_INFO verdict verdict COLOR_INFO t2] ∧
    going = (λ tc, concretize (tc.1) (tc.2) t1) <$> range_order (map_to_list (continuous (g_annotation g))) ∧
    verdict = if bool_decide (CheckOperations opLog = Illegal) then "test failed" else "test passed".
Proof.
  unfold checkPorcupine, OpLog_Read, FinalizeAnnotations, finalize. case_decide as Hd.
  - rewrite bool_decide_true by done. destruct opened; cbn; [case_decide|]; try done.
    intros [= <-]. do 2 eexists. rewrite <- app_assoc. done.
  - rewrite bool_decide_false by done. case_decide; [|done]. destruct opened; cbn; [|done].
    intros [= <-]. do 2 eexists. rewrite <- app_assoc. done.
Qed.
End check.

(** The linearizability check of the tests accepts every history a correct service gives:
    for a checker that reports [Illegal] only for histories that are not linearizable, as
    porcupine documents, [CheckPorcupine] does not fail the test, in any run of clients over
    a clerk that keeps the interface's laws that ends with all calls returned. *)
Theorem correct_service_passes_porcupine (C : IKVClerk) (HC : IKVClerkLaws C) {Ch S} (prog : client_prog Ch S)
    clients now es s CheckOperations range_order enabled opened t1 t2 g :
  (∀ h, CheckOperations h = Illegal → ¬ linearizable h) →
  prog_logged prog → zlen es ≤ max_u64 →
  kt_run prog es (kt_init MakeKVServer now clients) = Ret s → kt_idle s →
  Forall (λ o, ki_Op (op_Input o) = 1 → ko_Err (op_Output o) ≠ ErrNoKey) (ts_oplog (kt_test s)) →
  pe_failed (checkPorcupine CheckOperations range_order enabled opened (ts_oplog (kt_test s)) t1 t2 g) = false.
Proof.
  intros Hcheck Hprog Hes Hrun Hidle Hnk. rewrite checkPorcupine_failed. apply bool_decide_false.
  intros Hill. apply (Hcheck _ Hill). by eapply kt_history_linearizable.
Qed.

(** A checker that answers [Unknown] on every history keeps the promise; so does any better one. *)
Lemma correct_service_passes_porcupine_witness :
  ∃ s, kt_run put_prog (put_race ReplyLost) (kt_init MakeKVServer 0 (put_clients "k" 2 false)) = Ret s ∧
    pe_failed (checkPorcupine (λ _, Unknown) id "always" true (ts_oplog (kt_test s)) 30 31 globals_init) = false.
Proof.
  destruct put_race_log as (s & Hs & _ & Hidle & Hnk). exists s. split; [exact Hs|].
  apply (correct_service_passes_porcupine kvsrv_Clerk _ put_prog (put_clients "k" 2 false) 0 (put_race ReplyLost) s);
    [intros h; discriminate|apply put_prog_logged|vm_compute; discriminate|exact Hs|exact Hidle|exact Hnk].
Defined.
