(* ===== verification/Demux.v ===== *)
(** * Calls multiplexed over one connection

    [src/src/tester1/demux/]: the frames of [transport.go], the map of outstanding calls of
    [callmap.go], the client of [dmxclnt.go] with its reader thread, and the server of
    [dmxsrv.go] with a thread per request.

    The encoding of a message ([labrpc.Marshall]) and what the server answers are parameters.
    Bytes are numbers; a connection is the list of messages in flight in each direction,
    first in, first out, and may break at any time: a broken connection loses what is written
    and makes the reader's next read fail. *)
From stdpp Require Import base tactics numbers list fin_maps gmap strings.
From S2P Require Import Prelude GoLib.

(** ** [transport.go] *)

Record msg := { Tag : Z; Data : list Z; Ok : bool }.

Inductive read_err := EOF | UnexpectedEOF.

Definition le32 (n : Z) : list Z :=
  [n `mod` 256; (n / 2 ^ 8) `mod` 256; (n / 2 ^ 16) `mod` 256; (n / 2 ^ 24) `mod` 256].

Definition of_le32 (b0 b1 b2 b3 : Z) : Z := b0 + 2 ^ 8 * b1 + 2 ^ 16 * b2 + 2 ^ 24 * b3.

Section transport.
Context (Marshall : msg → list Z) (Unmarshall : list Z → outcome msg).

(** The bytes [WriteCall] sends. *)
Definition WriteCall (m : msg) : list Z := le32 (u32 (zlen (Marshall m))) ++ Marshall m.

(** [ReadCall] on a stream that ends after [s]: [binary.Read] and [io.ReadFull] report [EOF]
    when there is nothing to read and [ErrUnexpectedEOF] when there is too little. *)
Definition ReadCall (s : list Z) : outcome (read_err + msg * list Z) :=
  match s with
  | [] => Ret (inl EOF)
  | b0 :: b1 :: b2 :: b3 :: s =>
      let nbyte := of_le32 b0 b1 b2 b3 in
      if decide (zlen s < nbyte) then
        Ret (inl (match s with [] => EOF | _ => UnexpectedEOF end))
      else
        m ← Unmarshall (take (Z.to_nat nbyte) s);
        Ret (inr (m, drop (Z.to_nat nbyte) s))
  | _ => Ret (inl UnexpectedEOF)
  end.

(** A reader's loop: the messages of a stream up to the error that ends it. *)
Fixpoint read_stream (fuel : nat) (s : list Z) : outcome (list msg * option read_err) :=
  match fuel with
  | O => Ret ([], None)
  | S fuel =>
      r ← ReadCall s;
      match r with
      | inl e => Ret ([], Some e)
      | inr (m, s) => '(ms, e) ← read_stream fuel s; Ret (m :: ms, e)
      end
  end.

Lemma of_le32_le32 n :
  0 ≤ n < 2 ^ 32 →
  of_le32 (n `mod` 256) ((n / 2 ^ 8) `mod` 256) ((n / 2 ^ 16) `mod` 256) ((n / 2 ^ 24) `mod` 256) = n.
Proof.
  intros Hn. unfold of_le32.
  rewrite (Z.mod_small (n / 2 ^ 24)) by (split; [apply Z.div_pos|apply Z.div_lt_upper_bound]; lia).
  pose proof (Z.div_mod n (2 ^ 8)). pose proof (Z.div_mod (n / 2 ^ 8) (2 ^ 8)).
  pose proof (Z.div_mod (n / 2 ^ 16) (2 ^ 8)).
  assert (n / 2 ^ 8 / 2 ^ 8 = n / 2 ^ 16) by (rewrite Z.div_div by lia; done).
  assert (n / 2 ^ 16 / 2 ^ 8 = n / 2 ^ 24) by (rewrite Z.div_div by lia; done).
  change 256 with (2 ^ 8). lia.
Qed.

Definition fits (m : msg) : Prop := zlen (Marshall m) < 2 ^ 32.

Lemma ReadCall_frame m s :
  Unmarshall (Marshall m) = Ret m → fits m → ReadCall (WriteCall m ++ s) = Ret (inr (m, s)).
Proof.
  intros Hu Hf. unfold fits in Hf. pose proof (zlen_nonneg (Marshall m)). unfold WriteCall, le32. cbn.
  rewrite u32_small by lia. rewrite of_le32_le32 by lia.
  rewrite decide_False by (rewrite zlen_app; pose proof (zlen_nonneg s); lia).
  unfold zlen. rewrite Nat2Z.id, take_app_length, drop_app_length, Hu. done.
Qed.

(** A frame that is cut short is an error and never a message. *)
Lemma ReadCall_cut m k :
  fits m → (k < length (WriteCall m))%nat →
  ∃ e, ReadCall (take k (WriteCall m)) = Ret (inl e) ∧ (k = 0%nat → e = EOF).
Proof.
  intros Hf Hk. unfold fits in Hf. pose proof (zlen_nonneg (Marshall m)).
  unfold WriteCall, le32 in *. cbn in Hk.
  destruct k as [|[|[|[|k]]]]; cbn; try (eexists; split; [done|done]).
  rewrite u32_small by lia. rewrite of_le32_le32 by lia.
  rewrite decide_True by (unfold zlen; rewrite length_take; lia). by eexists.
Qed.

(** C32: the reader at the other end of a connection gets back exactly the calls that were
    written, in order, whatever their contents, and a connection cut in the middle of a frame
    ends the list with an error: no call is invented or altered. *)
Theorem transport_roundtrip ms m k fuel :
  (∀ m, Unmarshall (Marshall m) = Ret m) → Forall fits ms → fits m →
  (k < length (WriteCall m))%nat → (length ms < fuel)%nat →
  ∃ e, read_stream fuel (concat (WriteCall <$> ms) ++ take k (WriteCall m)) = Ret (ms, Some e) ∧
       (k = 0%nat → e = EOF).
Proof.
  intros Hu Hms Hm Hk Hfuel. destruct (ReadCall_cut m k Hm Hk) as (e & He & Heof). exists e.
  split; [|done]. revert fuel Hfuel. induction Hms as [|m' ms Hm' Hms IH]; intros [|fuel] Hfuel;
    cbn in Hfuel; try lia; cbn [read_stream].
  - cbn [fmap list_fmap concat app]. by rewrite He.
  - cbn [fmap list_fmap concat]. rewrite <- app_assoc, ReadCall_frame by done. rewrite bind_ret_l.
    rewrite IH by lia. done.
Qed.
End transport.

(** ** [callmap.go] *)

(** A channel is the number of the call that waits on it. *)
Record callMap := { cm_closed : bool; cm_calls : gmap Z nat }.
#[export] Instance eta_callMap : Eta callMap := λ c,
  {| cm_closed := cm_closed c; cm_calls := cm_calls c |}.

Definition newCallMap : callMap := {| cm_closed := false; cm_calls := ∅ |}.
Definition callMap_close (cm : callMap) : callMap := cm <| cm_closed := true |>.

(** [None] is the error of a closed connection. *)
Definition callMap_put (tag : Z) (ch : nat) (cm : callMap) : option callMap :=
  if cm_closed cm then None else Some (cm <| cm_calls := <[tag := ch]> (cm_calls cm) |>).

Definition callMap_remove (tag : Z) (cm : callMap) : option (nat * callMap) :=
  match cm_calls cm !! tag with
  | Some ch => Some (ch, cm <| cm_calls := delete tag (cm_calls cm) |>)
  | None => None
  end.

Definition outstanding (cm : callMap) : list Z := (map_to_list (cm_calls cm)).*1.

(** ** [dmxclnt.go] and [dmxsrv.go] *)

Record reply := { re_rep : list Z; re_ok : bool; re_err : option string }.

(** [SendReceive] before it draws its tag, before it enters the map, before it writes, while
    it waits, and when it has returned. *)
Inductive sr_pc :=
  | SrTag | SrPut (t : Z) | SrWrite (t : Z) | SrWait (t : Z) | SrDone (t : Z) (r : reply).

Record call := { ca_b : list Z; ca_pc : sr_pc }.

(** The client's reader: before a read; about to send a reply on channel [k], going on with
    the rest of the outstanding tags when it is failing them; about to list them; failing
    them; ended. *)
Inductive reader_pc :=
  | RdRead | RdSend (k : nat) (r : reply) (failing : option (list Z))
  | RdOutstanding | RdFail (ts : list Z) | RdEnd.

(** The server: before [NewDemuxSrv] has read the first message, then the name it read and
    whether its reader has met an error. *)
Inductive srv_pc := SvInit | SvRun (clntEnd : string) (stopped : bool).

Section demux.
Context {St : Type} (ServeRequest : string → list Z → St → St * (list Z * bool)).
Context (Marshall_InitMsg : string → list Z) (Unmarshall_InitMsg : list Z → string).
Context (range_order : list Z → list Z).

(** [dx_log] records each served request with its answer; no step reads it. *)
Record dmx := {
  dx_callmap : callMap; dx_nextTag : Z; dx_reader : reader_pc; dx_calls : list call;
  dx_c2s : list msg; dx_s2c : list msg;
  dx_srv : srv_pc; dx_pending : list (Z * list Z); dx_st : St;
  dx_log : list (Z * (list Z * (list Z * bool)))
}.
#[export] Instance eta_dmx : Eta dmx := λ d,
  {| dx_callmap := dx_callmap d; dx_nextTag := dx_nextTag d; dx_reader := dx_reader d;
     dx_calls := dx_calls d; dx_c2s := dx_c2s d; dx_s2c := dx_s2c d; dx_srv := dx_srv d;
     dx_pending := dx_pending d; dx_st := dx_st d; dx_log := dx_log d |}.

(** After [NewDemuxClnt]: the first tag went to the message that names the client. *)
Definition NewDemuxClnt (clnt : string) (st : St) : dmx :=
  {| dx_callmap := newCallMap; dx_nextTag := 1; dx_reader := RdRead; dx_calls := [];
     dx_c2s := [{| Tag := 0; Data := Marshall_InitMsg clnt; Ok := true |}]; dx_s2c := [];
     dx_srv := SvInit; dx_pending := []; dx_st := st; dx_log := [] |}.

Definition set_call (k : nat) (c : call) (pc : sr_pc) (d : dmx) : dmx :=
  d <| dx_calls := <[k := {| ca_b := ca_b c; ca_pc := pc |}]> (dx_calls d) |>.

Definition closed_reply : reply := {| re_rep := []; re_ok := false; re_err := Some "conn closed" |}.
Definition fail_reply : reply := {| re_rep := []; re_ok := false; re_err := Some "reader reply fail" |}.

(** One section of call [k]'s [SendReceive]; [lost]: what it writes does not arrive. *)
Definition SendReceive_section (k : nat) (c : call) (lost : bool) (d : dmx) : dmx :=
  match ca_pc c with
  | SrTag => set_call k c (SrPut (dx_nextTag d)) (d <| dx_nextTag := u32 (dx_nextTag d + 1) |>)
  | SrPut t =>
      match callMap_put t k (dx_callmap d) with
      | None => set_call k c (SrDone t closed_reply) d
      | Some cm => set_call k c (SrWrite t) (d <| dx_callmap := cm |>)
      end
  | SrWrite t =>
      set_call k c (SrWait t)
        (d <| dx_c2s := if lost then dx_c2s d
                        else dx_c2s d ++ [{| Tag := t; Data := ca_b c; Ok := true |}] |>)
  | SrWait t | SrDone t _ => d
  end.

(** [dmx.reply] up to the send on the channel. *)
Definition dmx_reply (t : Z) (r : reply) (failing : option (list Z)) (d : dmx) : outcome dmx :=
  match callMap_remove t (dx_callmap d) with
  | Some (k, cm) => Ret (d <| dx_callmap := cm |> <| dx_reader := RdSend k r failing |>)
  | None => Fatal "reply: no matching req"
  end.

(** A step of the reader; [broken]: the read it does returns an error. *)
Definition reader_step (broken : bool) (d : dmx) : outcome dmx :=
  match dx_reader d with
  | RdRead =>
      if broken then Ret (d <| dx_callmap := callMap_close (dx_callmap d) |>
                            <| dx_reader := RdOutstanding |>)
      else
        match dx_s2c d with
        | [] => Ret d
        | m :: s2c =>
            dmx_reply (Tag m) {| re_rep := Data m; re_ok := Ok m; re_err := None |} None
              (d <| dx_s2c := s2c |>)
        end
  | RdSend k r failing =>
      match dx_calls d !! k with
      | Some c =>
          match ca_pc c with
          | SrWait t =>
              Ret (set_call k c (SrDone t r) d
                     <| dx_reader := match failing with None => RdRead | Some ts => RdFail ts end |>)
          | _ => Ret d
          end
      | None => Ret d
      end
  | RdOutstanding => Ret (d <| dx_reader := RdFail (range_order (outstanding (dx_callmap d))) |>)
  | RdFail [] => Ret (d <| dx_reader := RdEnd |>)
  | RdFail (t :: ts) => dmx_reply t fail_reply (Some ts) d
  | RdEnd => Ret d
  end.

(** The server's reader takes the next message; the first one names the client. *)
Definition serve_step (d : dmx) : dmx :=
  match dx_srv d, dx_c2s d with
  | SvInit, m :: c2s =>
      d <| dx_srv := SvRun (Unmarshall_InitMsg (Data m)) false |> <| dx_c2s := c2s |>
  | SvRun _ false, m :: c2s =>
      d <| dx_pending := dx_pending d ++ [(Tag m, Data m)] |> <| dx_c2s := c2s |>
  | _, _ => d
  end.

(** The thread of request [j] calls the service and writes the answer. *)
Definition handle_step (j : nat) (lost : bool) (d : dmx) : dmx :=
  match dx_srv d, dx_pending d !! j with
  | SvRun clnt _, Some (t, req) =>
      let '(st, (rep, ok)) := ServeRequest clnt req (dx_st d) in
      d <| dx_st := st |> <| dx_pending := delete j (dx_pending d) |>
        <| dx_s2c := if lost then dx_s2c d
                     else dx_s2c d ++ [{| Tag := t; Data := rep; Ok := ok |}] |>
        <| dx_log := dx_log d ++ [(t, (req, (rep, ok)))] |>
  | _, _ => d
  end.

Inductive dmx_event :=
  | DvCall (b : list Z) | DvSection (k : nat) (lost : bool) | DvReader (broken : bool)
  | DvServe | DvStop | DvHandle (j : nat) (lost : bool) | DvClose.

Definition dmx_step (e : dmx_event) (d : dmx) : outcome dmx :=
  match e with
  | DvCall b => Ret (d <| dx_calls := dx_calls d ++ [{| ca_b := b; ca_pc := SrTag |}] |>)
  | DvSection k lost =>
      Ret (match dx_calls d !! k with Some c => SendReceive_section k c lost d | None => d end)
  | DvReader broken => reader_step broken d
  | DvServe => Ret (serve_step d)
  | DvStop => Ret (match dx_srv d with SvRun c _ => d <| dx_srv := SvRun c true |> | SvInit => d end)
  | DvHandle j lost => Ret (handle_step j lost d)
  | DvClose => Ret (if cm_closed (dx_callmap d) then d
                    else d <| dx_callmap := callMap_close (dx_callmap d) |>)
  end.

Fixpoint dmx_run (es : list dmx_event) (d : dmx) : outcome dmx :=
  match es with [] => Ret d | e :: es => d ← dmx_step e d; dmx_run es d end.
End demux.
Arguments dmx : clear implicits.

(** ** An example of frames *)

Definition toy_Marshall (m : msg) : list Z := Tag m :: (if Ok m then 1 else 0) :: Data m.
Definition toy_Unmarshall (b : list Z) : outcome msg :=
  match b with
  | t :: o :: d => Ret {| Tag := t; Data := d; Ok := bool_decide (o = 1) |}
  | _ => Fatal "Unmarshall fatal"
  end.

Lemma transport_roundtrip_witness :
  let m1 := {| Tag := 1; Data := [7; 8]; Ok := true |} in
  let m2 := {| Tag := 2; Data := []; Ok := false |} in
  ∃ e, read_stream toy_Unmarshall 5
         (concat (WriteCall toy_Marshall <$> [m1; m2]) ++ take 6 (WriteCall toy_Marshall m1))
       = Ret ([m1; m2], Some e).
Proof.
  intros m1 m2.
  destruct (transport_roundtrip toy_Marshall toy_Unmarshall [m1; m2] m1 6 5) as (e & E & _).
  - intros [t d [|]]; reflexivity.
  - repeat constructor.
  - reflexivity.
  - vm_compute. lia.
  - cbn. lia.
  - exists e. exact E.
Defined.
