(* ===== verification/DemuxSafety.v ===== *)
(** * Matching replies to calls

    The invariant of a multiplexed connection ([Demux.v]) and what it gives: no reply without
    a call, each call its own answer, and no call left waiting when the reader ends.  The
    tags are drawn from a 32-bit counter, so a connection carries fewer than 2^32 - 1 calls. *)
From stdpp Require Import base tactics numbers list fin_maps gmap strings.
From S2P Require Import Prelude GoLib Demux.

(** ** The invariant of a connection *)

Definition tag_of (pc : sr_pc) : option Z :=
  match pc with SrTag => None | SrPut t | SrWrite t | SrWait t | SrDone t _ => Some t end.

Definition untagged (c : call) : bool := match ca_pc c with SrTag => true | _ => false end.
Arguments untagged : simpl never.

(** The call is in the map, or the reader has just taken it out. *)
Definition live (pc : sr_pc) (t : Z) : Prop := pc = SrWrite t ∨ pc = SrWait t.

Definition wrote (pc : sr_pc) (t : Z) : Prop := pc = SrWait t ∨ ∃ r, pc = SrDone t r.

Definition some_call (Q : call → Prop) (calls : list call) : Prop :=
  ∃ k c, calls !! k = Some c ∧ Q c.

Lemma some_call_insert Q calls k c c' :
  calls !! k = Some c → (Q c → Q c') → some_call Q calls → some_call Q (<[k := c']> calls).
Proof.
  intros Hk HQ (j & cj & Hj & Hq). destruct (decide (j = k)) as [->|Hne].
  - exists k, c'. simplify_eq. split; [|auto]. apply list_lookup_insert_eq. by eapply lookup_lt_Some.
  - exists j, cj. by rewrite list_lookup_insert_ne.
Qed.

Lemma some_call_app Q calls l : some_call Q calls → some_call Q (calls ++ l).
Proof. intros (k & c & Hk & Hq). exists k, c. split; [by apply lookup_app_l_Some|done]. Qed.

(** The bytes of the call with tag [t] are [b]; the call with tag [t] has written. *)
Definition tag_b (calls : list call) (t : Z) (b : list Z) : Prop :=
  some_call (λ c, tag_of (ca_pc c) = Some t ∧ ca_b c = b) calls.
Definition written (calls : list call) (t : Z) : Prop := some_call (λ c, wrote (ca_pc c) t) calls.

Section dmx_inv.
Context {St : Type} (ServeRequest : string → list Z → St → St * (list Z * bool)).
Implicit Types (d : dmx St).

Definition requests d : list (Z * list Z) :=
  ((λ m, (Tag m, Data m)) <$> match dx_srv d with SvInit => tail (dx_c2s d) | _ => dx_c2s d end)
  ++ dx_pending d.

Definition nreq d (t : Z) : nat := count_occ t (requests d).*1.
Definition nrep d (t : Z) : nat := count_occ t (Tag <$> dx_s2c d).
Definition nlog d (t : Z) : nat := count_occ t (dx_log d).*1.

Definition answered d (t : Z) (r : reply) : Prop :=
  re_err r = None → ∃ b, (t, (b, (re_rep r, re_ok r))) ∈ dx_log d.

Definition reader_alive (rd : reader_pc) : bool :=
  match rd with RdRead | RdSend _ _ None => true | _ => false end.

(** Tags are drawn one by one and belong to one call each. *)
Record tags_ok d : Prop := {
  iv_count : dx_nextTag d + Z.of_nat (count_occ true (untagged <$> dx_calls d))
             = 1 + Z.of_nat (length (dx_calls d));
  iv_range : ∀ k c t, dx_calls d !! k = Some c → tag_of (ca_pc c) = Some t → 1 ≤ t < dx_nextTag d;
  iv_inj : ∀ k k' c c' t, dx_calls d !! k = Some c → dx_calls d !! k' = Some c' →
             tag_of (ca_pc c) = Some t → tag_of (ca_pc c') = Some t → k = k'
}.

(** A request travels once, is served once and answered at most once. *)
Record msgs_ok d : Prop := {
  iv_life : ∀ t, (nreq d t + nlog d t ≤ 1)%nat ∧ (nrep d t ≤ nlog d t)%nat;
  iv_written : ∀ t, (0 < nreq d t + nlog d t)%nat → written (dx_calls d) t;
  iv_reqs : ∀ t b, (t, b) ∈ requests d → tag_b (dx_calls d) t b;
  iv_log : ∀ t b a, (t, (b, a)) ∈ dx_log d → tag_b (dx_calls d) t b;
  iv_reps : ∀ m, m ∈ dx_s2c d → ∃ b, (Tag m, (b, (Data m, Ok m))) ∈ dx_log d;
  iv_srv : dx_srv d = SvInit → dx_c2s d ≠ []
}.

(** The map holds the waiting calls, short of the one the reader is about to answer. *)
Record map_ok d : Prop := {
  iv_map : ∀ t k, cm_calls (dx_callmap d) !! t = Some k →
             ∃ c, dx_calls d !! k = Some c ∧ live (ca_pc c) t;
  iv_live : ∀ k c t, dx_calls d !! k = Some c → live (ca_pc c) t →
              cm_calls (dx_callmap d) !! t = Some k ∨ ∃ r f, dx_reader d = RdSend k r f;
  iv_send : ∀ k r f, dx_reader d = RdSend k r f →
              ∃ c t, dx_calls d !! k = Some c ∧ live (ca_pc c) t ∧
                     cm_calls (dx_callmap d) !! t = None ∧ answered d t r ∧ (f = None → re_err r = None);
  iv_done : ∀ k c t r, dx_calls d !! k = Some c → ca_pc c = SrDone t r → answered d t r;
  iv_alive : reader_alive (dx_reader d) = true → ∀ t, (0 < nreq d t + nrep d t)%nat →
               is_Some (cm_calls (dx_callmap d) !! t);
  iv_reader :
    match dx_reader d with
    | RdRead | RdSend _ _ None => True
    | RdOutstanding => cm_closed (dx_callmap d) = true
    | RdSend _ _ (Some ts) | RdFail ts =>
        cm_closed (dx_callmap d) = true ∧ NoDup ts ∧
        ∀ t, t ∈ ts ↔ is_Some (cm_calls (dx_callmap d) !! t)
    | RdEnd => cm_closed (dx_callmap d) = true ∧ cm_calls (dx_callmap d) = ∅
    end
}.

Record dmx_inv d : Prop := { inv_tags : tags_ok d; inv_msgs : msgs_ok d; inv_map : map_ok d }.

Lemma live_tag pc t : live pc t → tag_of pc = Some t.
Proof. by intros [-> | ->]. Qed.

Lemma wrote_tag pc t : wrote pc t → tag_of pc = Some t.
Proof. by intros [-> |[r ->]]. Qed.

(** ** A call that moves on under its tag *)

Lemma tags_ok_set d k c pc :
  dx_calls d !! k = Some c → tag_of (ca_pc c) ≠ None → tag_of pc = tag_of (ca_pc c) →
  tags_ok d → tags_ok (set_call k c pc d).
Proof.
  intros Hk Hne Hpc [Hc Hr Hi].
  assert (∀ j cj t, <[k := {| ca_b := ca_b c; ca_pc := pc |}]> (dx_calls d) !! j = Some cj →
    tag_of (ca_pc cj) = Some t → ∃ cj', dx_calls d !! j = Some cj' ∧ tag_of (ca_pc cj') = Some t) as Hold.
  { intros j cj t Hj Ht. rewrite list_lookup_insert in Hj. case_decide as Hd; [|eauto].
    destruct Hd as [-> _]. simplify_eq/=. exists c. by rewrite <- Hpc. }
  split; cbn.
  - rewrite length_insert, list_fmap_insert, list_insert_id; [done|].
    rewrite list_lookup_fmap, Hk. cbn. f_equal. unfold untagged. cbn.
    destruct (ca_pc c), pc; cbn in *; done.
  - intros j cj t Hj Ht. destruct (Hold _ _ _ Hj Ht) as (cj' & ? & ?). eauto.
  - intros j j' cj cj' t Hj Hj' Ht Ht'. destruct (Hold _ _ _ Hj Ht) as (? & ? & ?).
    destruct (Hold _ _ _ Hj' Ht') as (? & ? & ?). eauto.
Qed.

(** Steps that leave the messages and the log alone keep [msgs_ok]. *)
Lemma msgs_ok_calls d d' :
  requests d' ≡ₚ requests d → dx_s2c d' = dx_s2c d → dx_log d' = dx_log d →
  (dx_srv d' = SvInit → dx_c2s d' ≠ []) →
  (∀ t b, tag_b (dx_calls d) t b → tag_b (dx_calls d') t b) →
  (∀ t, written (dx_calls d) t → written (dx_calls d') t) →
  msgs_ok d → msgs_ok d'.
Proof.
  intros Hq Hs Hl Hv Htb Hw [H1 H2 H3 H4 H5 H6].
  split; unfold nreq, nrep, nlog in *; rewrite ?Hs, ?Hl; try (setoid_rewrite Hq); eauto.
Qed.

Lemma tag_b_set d k c pc t b :
  dx_calls d !! k = Some c → (tag_of (ca_pc c) ≠ None → tag_of pc = tag_of (ca_pc c)) →
  tag_b (dx_calls d) t b → tag_b (dx_calls (set_call k c pc d)) t b.
Proof.
  intros Hk Hpc. apply some_call_insert with (c := c); [done|]. cbn. intros [Ht Hb].
  rewrite Hpc; [done|congruence].
Qed.

Lemma written_set d k c pc t :
  dx_calls d !! k = Some c → (∀ t, wrote (ca_pc c) t → wrote pc t) →
  written (dx_calls d) t → written (dx_calls (set_call k c pc d)) t.
Proof. intros Hk Hpc. by apply some_call_insert with (c := c); [|apply Hpc]. Qed.

Lemma msgs_ok_set d k c pc :
  dx_calls d !! k = Some c → (tag_of (ca_pc c) ≠ None → tag_of pc = tag_of (ca_pc c)) →
  (∀ t, wrote (ca_pc c) t → wrote pc t) → msgs_ok d → msgs_ok (set_call k c pc d).
Proof.
  intros Hk Htag Hw HM. apply (msgs_ok_calls d); try done; [apply HM| |].
  - intros t b. by apply tag_b_set.
  - intros t. by apply written_set.
Qed.

(** A call that stays in the map, or stays out of it, and does not return. *)
Lemma map_ok_set d k c pc :
  dx_calls d !! k = Some c → (∀ t, live (ca_pc c) t → live pc t) → (∀ t, live pc t → live (ca_pc c) t) →
  (∀ t r, pc = SrDone t r → answered d t r) → map_ok d → map_ok (set_call k c pc d).
Proof.
  intros Hk Hl Hl' Hr [M1 M2 M3 M4 M5 M6]. split; [..|done|done]; cbn.
  - intros t j (cj & Hj & Hlive)%M1. destruct (decide (j = k)) as [->|Hne].
    + simplify_eq. eexists. split; [by eapply lookup_insert_same|]. by apply Hl.
    + exists cj. by rewrite list_lookup_insert_ne.
  - intros j cj t [[-> ->]|[Hne Hj]]%lookup_insert_cases Hlive; [eapply M2, Hl'; done|eauto].
  - intros j r f (cj & t & Hj & Hlive & Hrest)%M3. destruct (decide (j = k)) as [->|Hne].
    + simplify_eq. eexists _, t. split; [by eapply lookup_insert_same|]. split; [by apply Hl|done].
    + exists cj, t. by rewrite list_lookup_insert_ne.
  - intros j cj t r [[-> ->]|[Hne Hj]]%lookup_insert_cases Hdone; [by apply Hr|by eapply M4].
Qed.

(** ** The steps of a call *)

Lemma inv_DvCall b d :
  dmx_inv d → dmx_inv (d <| dx_calls := dx_calls d ++ [{| ca_b := b; ca_pc := SrTag |}] |>).
Proof.
  intros [[T1 T2 T3] HM [M1 M2 M3 M4 M5 M6]].
  assert (∀ k c, (dx_calls d ++ [{| ca_b := b; ca_pc := SrTag |}]) !! k = Some c →
    dx_calls d !! k = Some c ∨ ca_pc c = SrTag) as Hold.
  { intros k c [|[_ [_ <-]%list_lookup_singleton_Some]]%lookup_app_Some; [by left|by right]. }
  split.
  - split; cbn.
    + rewrite fmap_app, count_occ_app, length_app. cbn [fmap list_fmap]. rewrite count_occ_single, decide_True by done. cbn. lia.
    + intros k c t [Hk|Hp]%Hold Ht; [eauto|]. by rewrite Hp in Ht.
    + intros k k' c c' t [Hk|Hp]%Hold [Hk'|Hp']%Hold Ht Ht'; [eauto|..]; rewrite ?Hp, ?Hp' in *; done.
  - apply (msgs_ok_calls d); [done..|apply HM| | |exact HM]; intros; by apply some_call_app.
  - split; cbn.
    + intros t k (c & Hk & Hl)%M1. exists c. split; [by apply lookup_app_l_Some|done].
    + intros k c t [Hk|Hp]%Hold Hl; [eauto|]. apply live_tag in Hl. by rewrite Hp in Hl.
    + intros k r f (c & t & Hk & Hrest)%M3. exists c, t. split; [by apply lookup_app_l_Some|done].
    + intros k c t r [Hk|Hp]%Hold Hd; [by eapply M4|congruence].
    + done.
    + done.
Qed.

Lemma inv_tag k c d :
  dx_calls d !! k = Some c → ca_pc c = SrTag → Z.of_nat (length (dx_calls d)) < 2 ^ 32 - 1 →
  dmx_inv d →
  dmx_inv (set_call k c (SrPut (dx_nextTag d)) (d <| dx_nextTag := u32 (dx_nextTag d + 1) |>)).
Proof.
  intros Hk Hpc Hn [[T1 T2 T3] HM [M1 M2 M3 M4 M5 M6]].
  pose proof (count_occ_insert true (untagged <$> dx_calls d) k true false) as Hcount.
  rewrite list_lookup_fmap, Hk in Hcount. cbn [fmap option_fmap option_map] in Hcount.
  assert (untagged c = true) as Hu by (unfold untagged; by rewrite Hpc).
  rewrite Hu in Hcount. specialize (Hcount eq_refl).
  rewrite (decide_True (P := true = true)), (decide_False (P := false = true)) in Hcount by done.
  assert (1 ≤ dx_nextTag d ∧ dx_nextTag d + 1 < 2 ^ 32) as Hb.
  { pose proof (count_occ_le true (untagged <$> dx_calls d)) as Hle.
    rewrite length_fmap in Hle. lia. }
  rewrite u32_small by lia. destruct (decide (dx_nextTag d = dx_nextTag d)) as [_|]; [|done].
  split.
  - split; cbn.
    + rewrite length_insert, list_fmap_insert. change (untagged _) with false. lia.
    + intros j cj t [[-> ->]|[Hne Hj]]%lookup_insert_cases Ht.
      * cbn in Ht. injection Ht as <-. lia.
      * specialize (T2 _ _ _ Hj Ht). lia.
    + intros j j' cj cj' t [[-> ->]|[Hne Hj]]%lookup_insert_cases
        [[-> ->]|[Hne' Hj']]%lookup_insert_cases Ht Ht'; cbn in Ht, Ht'; simplify_eq.
      * done.
      * specialize (T2 _ _ _ Hj' Ht'). lia.
      * specialize (T2 _ _ _ Hj Ht). lia.
      * by eapply T3.
  - apply (msgs_ok_set (d <| dx_nextTag := dx_nextTag d + 1 |>)); [done| | |].
    + by rewrite Hpc.
    + rewrite Hpc. by intros t [|[]].
    + by apply (msgs_ok_calls d); [done..|apply HM| | |].
  - apply (map_ok_set (d <| dx_nextTag := dx_nextTag d + 1 |>)); [done| | | |by split].
    + rewrite Hpc. by intros t [|].
    + by intros t [|].
    + done.
Qed.

Lemma owner_unique d k k' c c' t :
  tags_ok d → dx_calls d !! k = Some c → tag_of (ca_pc c) = Some t →
  dx_calls d !! k' = Some c' → tag_of (ca_pc c') = Some t → k = k' ∧ c = c'.
Proof. intros [_ _ Hi] Hk Ht Hk' Ht'. assert (k = k') as -> by eauto. by simplify_eq. Qed.

(** A call that has not written yet has nothing on the wire. *)
Lemma unwritten d k c t :
  dmx_inv d → dx_calls d !! k = Some c → ca_pc c = SrWrite t → nreq d t = 0%nat ∧ nlog d t = 0%nat.
Proof.
  intros [HT HM _] Hk Hpc. destruct (decide (0 < nreq d t + nlog d t)%nat) as [Hpos|]; [|lia].
  apply (iv_written d HM) in Hpos as (k' & c' & Hk' & Hw). exfalso.
  destruct (owner_unique d k k' c c' t HT Hk) as [-> <-]; [by rewrite Hpc|done|by apply wrote_tag|].
  rewrite Hpc in Hw. destruct Hw as [|[]]; done.
Qed.

Lemma log_pos d t x : (t, x) ∈ dx_log d → (0 < nlog d t)%nat.
Proof. intros Hin. apply count_occ_elem, list_elem_of_fmap. by exists (t, x). Qed.

Lemma nreq_more d d' l t : requests d' ≡ₚ requests d ++ l → nreq d' t = (nreq d t + count_occ t l.*1)%nat.
Proof. intros Hr. unfold nreq. by rewrite Hr, fmap_app, count_occ_app. Qed.

Lemma inv_put k c t d :
  dx_calls d !! k = Some c → ca_pc c = SrPut t → dmx_inv d →
  dmx_inv (match callMap_put t k (dx_callmap d) with
           | None => set_call k c (SrDone t closed_reply) d
           | Some cm => set_call k c (SrWrite t) (d <| dx_callmap := cm |>)
           end).
Proof.
  intros Hk Hpc [HT HM HP]. unfold callMap_put. destruct (cm_closed (dx_callmap d)) eqn:Hcl.
  - split.
    + apply tags_ok_set; by rewrite ?Hpc.
    + apply msgs_ok_set; rewrite ?Hpc; try done. by intros t' [|[]].
    + apply map_ok_set; rewrite ?Hpc; try done; try by intros t' [|].
      intros t' r [= <- <-]. by intros ?.
  - set (d' := d <| dx_callmap := _ |>).
    assert (tags_ok d') as HT' by (by destruct HT).
    assert (msgs_ok d') as HM' by (by destruct HM).
    split.
    + apply (tags_ok_set d'); by rewrite ?Hpc.
    + apply (msgs_ok_set d'); rewrite ?Hpc; try done. by intros t' [|[]].
    + destruct HP as [M1 M2 M3 M4 M5 M6]. split; cbn.
      * intros t' j. rewrite lookup_insert. case_decide as Ht'; [intros [= <-]; subst t'|].
        { eexists. split; [by eapply lookup_insert_same|by left]. }
        intros (cj & Hj & Hl)%M1. destruct (decide (j = k)) as [->|Hne].
        { simplify_eq. apply live_tag in Hl. rewrite Hpc in Hl. by simplify_eq/=. }
        exists cj. by rewrite list_lookup_insert_ne.
      * intros j cj t' [[-> ->]|[Hne Hj]]%lookup_insert_cases Hl.
        { apply live_tag in Hl. cbn in Hl. injection Hl as ->. left. by rewrite lookup_insert_eq. }
        destruct (M2 _ _ _ Hj Hl) as [Hm|]; [left|by right]. rewrite lookup_insert_ne; [done|].
        intros <-. apply Hne. eapply (iv_inj d HT); [done..|by apply live_tag|by rewrite Hpc].
      * intros j r f (cj & t' & Hj & Hl & Hn & Ha)%M3.
        assert (j ≠ k) as Hne by (intros ->; simplify_eq; rewrite Hpc in Hl; by destruct Hl).
        exists cj, t'. rewrite list_lookup_insert_ne by done. split_and!; [done..| |apply Ha|apply Ha].
        rewrite lookup_insert_ne; [done|]. intros <-. apply Hne.
        eapply (iv_inj d HT); [done..|by apply live_tag|by rewrite Hpc].
      * intros j cj t' r [[-> ->]|[Hne Hj]]%lookup_insert_cases Hd; [done|by eapply M4].
      * intros Hal t' Hpos. rewrite lookup_insert. case_decide; [done|]. by apply M5.
      * rewrite Hcl in M6. destruct (dx_reader d) as [|? ? [ts|]| | |]; try done; by destruct M6.
Qed.

Lemma inv_write k c t (lost : bool) d :
  dx_calls d !! k = Some c → ca_pc c = SrWrite t → dmx_inv d →
  dmx_inv (set_call k c (SrWait t)
    (d <| dx_c2s := if lost then dx_c2s d
                    else dx_c2s d ++ [{| Tag := t; Data := ca_b c; Ok := true |}] |>)).
Proof.
  intros Hk Hpc Hinv. destruct (unwritten d k c t Hinv Hk Hpc) as [Hnq Hnl].
  destruct Hinv as [HT HM HP]. set (d' := d <| dx_c2s := _ |>).
  assert (∃ l, (l = [] ∨ l = [(t, ca_b c)]) ∧ requests (set_call k c (SrWait t) d') ≡ₚ requests d ++ l ∧
    (dx_srv d = SvInit → dx_c2s d' ≠ [])) as (l & Hl & Hreq & Hsrv).
  { pose proof (iv_srv d HM) as Hne. unfold requests. subst d'. cbn. destruct lost.
    - exists []. split_and!; [by left|by rewrite app_nil_r|done].
    - exists [(t, ca_b c)]. split_and!; [by right| |by destruct (dx_c2s d)].
      transitivity (((λ m, (Tag m, Data m)) <$>
        match dx_srv d with SvInit => tail (dx_c2s d) | _ => dx_c2s d end) ++ [(t, ca_b c)] ++ dx_pending d);
        [|by rewrite <- app_assoc, (Permutation_app_comm [(t, ca_b c)])].
      rewrite app_assoc. apply Permutation_app_tail. destruct (dx_srv d).
      + destruct (dx_c2s d); [by destruct Hne|]. cbn. by rewrite fmap_app.
      + by rewrite fmap_app. }
  assert (∀ t', count_occ t' l.*1 ≤ 1 ∧ (0 < count_occ t' l.*1 → t' = t))%nat as Hcl.
  { intros t'. destruct Hl as [-> | ->]; [by cbn; unfold count_occ; cbn; lia|].
    change ([(t, ca_b c)].*1) with [t]. rewrite count_occ_single. case_decide; split; [lia|done|lia|lia]. }
  split.
  - apply (tags_ok_set d'); [done|by rewrite Hpc|by rewrite Hpc|by destruct HT].
  - destruct HM as [H1 H2 H3 H4 H5 H6].
    split; unfold nlog, nrep; cbn [dx_log dx_s2c dx_calls update set_call].
    + intros t'. rewrite (nreq_more d _ l) by done. destruct (Hcl t') as [Hc1 Hc2].
      destruct (decide (0 < count_occ t' l.*1)%nat) as [->%Hc2|]; [unfold nlog in Hnl; specialize (H1 t)|specialize (H1 t')];
        unfold nlog, nrep in H1; cbn; lia.
    + intros t'. rewrite (nreq_more d _ l) by done. intros Hpos.
      destruct (decide (0 < nreq d t' + nlog d t')%nat) as [Hw%H2|].
      * apply some_call_insert with (c := c); [done| |done]. rewrite Hpc. by intros [|[]].
      * assert (t' = t) as -> by (apply Hcl; unfold nlog in *; cbn in *; lia).
        eexists k, _. split; [by eapply lookup_insert_same|by left].
    + intros t' b. rewrite Hreq, elem_of_app. intros [Hin%H3|Hin].
      * apply some_call_insert with (c := c); [done| |done]. by rewrite Hpc.
      * destruct Hl as [-> | ->]; [by apply elem_of_nil in Hin|]. apply list_elem_of_singleton in Hin.
        simplify_eq. eexists k, _. split; [by eapply lookup_insert_same|done].
    + intros t' b a Hin%H4. apply some_call_insert with (c := c); [done| |done]. by rewrite Hpc.
    + exact H5.
    + exact Hsrv.
  - apply (map_ok_set d'); rewrite ?Hpc; [done| | |done|].
    { intros t' [[= ->]|]; [by right|done]. }
    { intros t' [|[= ->]]; [done|by left]. }
    destruct HP as [M1 M2 M3 M4 M5 M6]. split; try done.
    intros Hal t' Hpos. destruct (decide (0 < nreq d t' + nrep d t')%nat) as [Hb|]; [by apply M5|].
    assert (requests d' ≡ₚ requests d ++ l) as Hr' by exact Hreq.
    rewrite (nreq_more d d' l) in Hpos by done.
    assert (t' = t) as -> by (apply Hcl; unfold nrep in *; cbn in *; lia).
    destruct (M2 k c t Hk) as [Hm|(r & f & Hrd)]; [rewrite Hpc; by left|by exists k|].
    exfalso. destruct (M3 k r f Hrd) as (c' & t' & Hk' & Hl' & _ & Hans & Hf). simplify_eq.
    apply live_tag in Hl'. rewrite Hpc in Hl'. injection Hl' as <-.
    cbn in Hal. rewrite Hrd in Hal. destruct f as [ts|]; [done|].
    destruct (Hans (Hf eq_refl)) as (b & Hin). apply log_pos in Hin. lia.
Qed.

(** ** The steps of the reader *)

Lemma map_ok_remove t k r f d cm :
  callMap_remove t (dx_callmap d) = Some (k, cm) → tags_ok d →
  (∀ k r f, dx_reader d ≠ RdSend k r f) → answered d t r → (f = None → re_err r = None) →
  (f = None → ∀ t', (0 < nreq d t' + nrep d t')%nat → t' ≠ t ∧ is_Some (cm_calls (dx_callmap d) !! t')) →
  (∀ ts, f = Some ts → cm_closed (dx_callmap d) = true ∧ NoDup (t :: ts) ∧
     ∀ t', t' ∈ t :: ts ↔ is_Some (cm_calls (dx_callmap d) !! t')) →
  (∀ t k, cm_calls (dx_callmap d) !! t = Some k → ∃ c, dx_calls d !! k = Some c ∧ live (ca_pc c) t) →
  (∀ k c t, dx_calls d !! k = Some c → live (ca_pc c) t →
     cm_calls (dx_callmap d) !! t = Some k ∨ ∃ r f, dx_reader d = RdSend k r f) →
  (∀ k c t r, dx_calls d !! k = Some c → ca_pc c = SrDone t r → answered d t r) →
  map_ok (d <| dx_callmap := cm |> <| dx_reader := RdSend k r f |>).
Proof.
  intros Hrem HT Hnot Hans Herr Hal Hf M1 M2 M4. unfold callMap_remove in Hrem.
  destruct (cm_calls (dx_callmap d) !! t) as [k'|] eqn:Ht; [|done]. injection Hrem as <- <-.
  split; cbn.
  - intros t' j. rewrite lookup_delete_Some. intros [_ Hj]. by apply M1.
  - intros j c t' Hj Hl. destruct (M2 _ _ _ Hj Hl) as [Hm|(? & ? & ?)]; [|by edestruct Hnot].
    destruct (decide (t' = t)) as [->|Hne]; [right|left; by rewrite lookup_delete_ne].
    simplify_eq. by eexists _, _.
  - intros j r' f' [= <- <- <-]. destruct (M1 t k' Ht) as (c & Hc & Hl). exists c, t.
    by rewrite lookup_delete_eq.
  - done.
  - destruct f; [done|]. intros _ t' Hpos. destruct (Hal eq_refl t' Hpos) as [Hne ?].
    by rewrite lookup_delete_ne.
  - destruct f as [ts|]; [|done]. destruct (Hf ts eq_refl) as (Hcl & [Hnin Hnd]%NoDup_cons & Hdom).
    split_and!; [done..|]. intros t'. destruct (decide (t' = t)) as [->|Hne].
    + rewrite lookup_delete_eq. split; [done|by intros []].
    + rewrite lookup_delete_ne by done. rewrite <- Hdom, elem_of_cons. naive_solver.
Qed.

Lemma msgs_ok_reader d cm rd : msgs_ok d → msgs_ok (d <| dx_callmap := cm |> <| dx_reader := rd |>).
Proof. by intros []. Qed.
Lemma tags_ok_reader d cm rd : tags_ok d → tags_ok (d <| dx_callmap := cm |> <| dx_reader := rd |>).
Proof. by intros []. Qed.

Lemma inv_read m s2c d :
  dx_reader d = RdRead → dx_s2c d = m :: s2c → dmx_inv d →
  ∃ d', dmx_reply (Tag m) {| re_rep := Data m; re_ok := Ok m; re_err := None |} None
          (d <| dx_s2c := s2c |>) = Ret d' ∧ dmx_inv d'.
Proof.
  intros Hrd Hs [HT HM HP]. set (d1 := d <| dx_s2c := s2c |>).
  assert (∀ t, nrep d t = nrep d1 t + if decide (Tag m = t) then 1 else 0)%nat as Hrep.
  { intros t. unfold nrep. rewrite Hs. cbn [fmap list_fmap]. rewrite count_occ_cons. unfold d1. cbn. lia. }
  assert (is_Some (cm_calls (dx_callmap d) !! Tag m)) as [k Hk].
  { apply (iv_alive d HP); [by rewrite Hrd|]. rewrite Hrep, decide_True by done. lia. }
  unfold dmx_reply. destruct (callMap_remove (Tag m) (dx_callmap d1)) as [[k' cm]|] eqn:Hrem;
    [|unfold callMap_remove in Hrem; cbn in Hrem; by rewrite Hk in Hrem].
  eexists. split; [done|].
  assert (msgs_ok d1) as HM1.
  { destruct HM as [H1 H2 H3 H4 H5 H6]. split; try done.
    - intros t. specialize (H1 t). rewrite Hrep in H1. change (nreq d1 t) with (nreq d t). change (nlog d1 t) with (nlog d t). lia.
    - intros m' Hm'. apply H5. rewrite Hs. by right. }
  split; [by apply tags_ok_reader; destruct HT|by apply msgs_ok_reader|].
  destruct HP as [M1 M2 M3 M4 M5 M6].
  eapply (map_ok_remove (Tag m)); try done; try (by destruct HT).
  - intros ???. cbn. by rewrite Hrd.
  - intros _. apply (iv_reps d HM). rewrite Hs. left.
  - intros _ t' Hpos. change (nreq d1 t') with (nreq d t') in Hpos. split.
    + intros ->. destruct (iv_life d HM (Tag m)) as [Hl1 Hl2].
      rewrite Hrep, decide_True in Hl2 by done. lia.
    + apply M5; [by rewrite Hrd|]. rewrite Hrep. lia.
Qed.

Lemma inv_fail t ts d :
  dx_reader d = RdFail (t :: ts) → dmx_inv d →
  ∃ d', dmx_reply t fail_reply (Some ts) d = Ret d' ∧ dmx_inv d'.
Proof.
  intros Hrd [HT HM HP]. destruct HP as [M1 M2 M3 M4 M5 M6]. rewrite Hrd in M6.
  destruct M6 as (Hcl & Hnd & Hdom). destruct (proj1 (Hdom t)) as [k Hk]; [left|].
  unfold dmx_reply. destruct (callMap_remove t (dx_callmap d)) as [[k' cm]|] eqn:Hrem;
    [|unfold callMap_remove in Hrem; by rewrite Hk in Hrem].
  eexists. split; [done|]. split; [by apply tags_ok_reader|by apply msgs_ok_reader|].
  eapply map_ok_remove; try done.
  - intros ???. by rewrite Hrd.
  - by intros ts' [= <-].
Qed.

Lemma inv_send_reply k r f c t d :
  dx_reader d = RdSend k r f → dx_calls d !! k = Some c → ca_pc c = SrWait t → dmx_inv d →
  dmx_inv (set_call k c (SrDone t r) d
             <| dx_reader := match f with None => RdRead | Some ts => RdFail ts end |>).
Proof.
  intros Hrd Hk Hpc [HT HM HP].
  assert (tags_ok (set_call k c (SrDone t r) d)) as HT'.
  { apply tags_ok_set; by rewrite ?Hpc. }
  assert (msgs_ok (set_call k c (SrDone t r) d)) as HM'.
  { apply msgs_ok_set; rewrite ?Hpc; try done. intros t' [[= ->]|[? ?]]; [right; by exists r|done]. }
  split; [by destruct HT'|by destruct HM'|]. destruct HP as [M1 M2 M3 M4 M5 M6].
  destruct (M3 k r f Hrd) as (c' & t' & Hk' & Hl & Hnone & Hans & _). simplify_eq.
  assert (t' = t) as -> by (apply live_tag in Hl; rewrite Hpc in Hl; by simplify_eq/=).
  split; cbn.
  - intros t' j Hj. destruct (M1 _ _ Hj) as (cj & Hcj & Hlj). destruct (decide (j = k)) as [->|Hne].
    + exfalso. simplify_eq. apply live_tag in Hlj. rewrite Hpc in Hlj. cbn in Hlj. congruence.
    + exists cj. by rewrite list_lookup_insert_ne.
  - intros j cj t' [[-> ->]|[Hne Hj]]%lookup_insert_cases Hlj; [by destruct Hlj|].
    destruct (M2 _ _ _ Hj Hlj) as [|(r' & f' & Hr')]; [by left|]. rewrite Hrd in Hr'. congruence.
  - intros j r' f' Hr'. by destruct f.
  - intros j cj t' r' [[-> ->]|[Hne Hj]]%lookup_insert_cases Hd; [cbn in Hd; by simplify_eq|by eapply M4].
  - rewrite Hrd in M5. destruct f; [done|exact M5].
  - rewrite Hrd in M6. by destruct f.
Qed.

Lemma map_ok_msgs d d' :
  dx_calls d' = dx_calls d → dx_callmap d' = dx_callmap d → dx_reader d' = dx_reader d →
  (∀ x, x ∈ dx_log d → x ∈ dx_log d') →
  (∀ t, (0 < nreq d' t + nrep d' t)%nat → (0 < nreq d t + nrep d t)%nat) →
  map_ok d → map_ok d'.
Proof.
  intros Hc Hm Hr Hlog Hpos [M1 M2 M3 M4 M5 M6].
  assert (∀ t r, answered d t r → answered d' t r) as Ha by (intros t r Ha He; destruct (Ha He); eauto).
  split; rewrite ?Hc, ?Hm, ?Hr; [done|done| | |eauto|done].
  - intros k r f (c & t & ? & ? & ? & ? & ?)%M3. exists c, t. eauto 10.
  - eauto.
Qed.

Lemma tags_ok_same d d' :
  dx_calls d' = dx_calls d → dx_nextTag d' = dx_nextTag d → tags_ok d → tags_ok d'.
Proof. intros Hc Ht [T1 T2 T3]. split; rewrite ?Hc, ?Ht; done. Qed.

Lemma inv_close d rd :
  (rd = dx_reader d ∨ dx_reader d = RdRead ∧ rd = RdOutstanding) → dmx_inv d →
  dmx_inv (d <| dx_callmap := callMap_close (dx_callmap d) |> <| dx_reader := rd |>).
Proof.
  intros Hrd [HT HM [M1 M2 M3 M4 M5 M6]]. split; [by apply tags_ok_reader|by apply msgs_ok_reader|].
  destruct Hrd as [-> |[Hr ->]]; split; cbn; try done.
  - destruct (dx_reader d) as [|? ? [ts|]| | |]; naive_solver.
  - intros k c t Hk Hl. destruct (M2 k c t Hk Hl) as [|(? & ? & ?)]; [by left|congruence].
Qed.

Lemma inv_reader_pc d rd :
  (∀ k r f, dx_reader d ≠ RdSend k r f) → (∀ k r f, rd ≠ RdSend k r f) → reader_alive rd = false →
  match rd with
  | RdFail ts => cm_closed (dx_callmap d) = true ∧ NoDup ts ∧
                 ∀ t, t ∈ ts ↔ is_Some (cm_calls (dx_callmap d) !! t)
  | RdEnd => cm_closed (dx_callmap d) = true ∧ cm_calls (dx_callmap d) = ∅
  | _ => False
  end →
  dmx_inv d → dmx_inv (d <| dx_reader := rd |>).
Proof.
  intros Hno Hno' Hal Hrd [HT HM [M1 M2 M3 M4 M5 M6]].
  split; [by destruct HT|by destruct HM|]. split; cbn; try done.
  - intros k c t Hk Hl. destruct (M2 k c t Hk Hl) as [|(? & ? & ?)]; [by left|by edestruct Hno].
  - intros k r f Hr. by edestruct Hno'.
  - by rewrite Hal.
  - destruct rd; done.
Qed.

Context (range_order : list Z → list Z) (Hro : ∀ l, range_order l ≡ₚ l).

Lemma outstanding_spec cm t : t ∈ range_order (outstanding cm) ↔ is_Some (cm_calls cm !! t).
Proof.
  rewrite Hro. unfold outstanding. rewrite list_elem_of_fmap. split.
  - intros ([t' k] & -> & Hin%elem_of_map_to_list). by exists k.
  - intros [k Hk]. exists (t, k). by rewrite elem_of_map_to_list.
Qed.

Lemma inv_reader_step broken d :
  dmx_inv d → ∃ d', reader_step range_order broken d = Ret d' ∧ dmx_inv d'.
Proof.
  intros Hinv. unfold reader_step. destruct (dx_reader d) as [|k r f| |[|t ts]|] eqn:Hrd.
  - destruct broken; [eexists; split; [done|]; apply inv_close; [by right|done]|].
    destruct (dx_s2c d) as [|m s2c] eqn:Hs; [by eexists|]. by apply inv_read.
  - destruct (dx_calls d !! k) as [c|] eqn:Hk; [|by eexists].
    destruct (ca_pc c) eqn:Hpc; try (by eexists). eexists. split; [done|]. by apply inv_send_reply.
  - eexists. split; [done|]. apply inv_reader_pc; rewrite ?Hrd; try done.
    pose proof (iv_reader d (inv_map d Hinv)) as Hr. rewrite Hrd in Hr. split_and!; [done| |].
    + rewrite Hro. apply NoDup_fst_map_to_list.
    + apply outstanding_spec.
  - eexists. split; [done|]. apply inv_reader_pc; rewrite ?Hrd; try done.
    pose proof (iv_reader d (inv_map d Hinv)) as Hr. rewrite Hrd in Hr. destruct Hr as (Hcl & _ & Hdom).
    split; [done|]. apply map_empty. intros t. apply eq_None_not_Some. rewrite <- Hdom.
    apply not_elem_of_nil.
  - by apply inv_fail.
  - by eexists.
Qed.

(** ** The steps of the server *)

Lemma inv_messages d d' :
  dx_calls d' = dx_calls d → dx_callmap d' = dx_callmap d → dx_reader d' = dx_reader d →
  dx_nextTag d' = dx_nextTag d → requests d' ≡ₚ requests d → dx_s2c d' = dx_s2c d →
  dx_log d' = dx_log d → (dx_srv d' = SvInit → dx_c2s d' ≠ []) → dmx_inv d → dmx_inv d'.
Proof.
  intros Hc Hm Hr Ht Hq Hs Hl Hv [HT HM HP]. split.
  - by apply (tags_ok_same d).
  - apply (msgs_ok_calls d); try done; by rewrite Hc.
  - apply (map_ok_msgs d); try done; [by rewrite Hl|]. intros t. unfold nreq, nrep. by rewrite Hq, Hs.
Qed.

Lemma inv_serve (Unmarshall_InitMsg : list Z → string) d :
  dmx_inv d → dmx_inv (serve_step Unmarshall_InitMsg d).
Proof.
  intros Hinv. unfold serve_step. destruct (dx_srv d) as [|clnt [|]] eqn:Hv; [|done|];
    destruct (dx_c2s d) as [|m c2s] eqn:Hs; try done.
  - apply (inv_messages d); try done. unfold requests. rewrite Hv, Hs. done.
  - apply (inv_messages d); try done; [|cbn; by rewrite Hv]. unfold requests. cbn. rewrite Hv, Hs. cbn.
    rewrite app_assoc, (Permutation_app_comm _ [_]). done.
Qed.

Lemma inv_handle j (lost : bool) d : dmx_inv d → dmx_inv (handle_step ServeRequest j lost d).
Proof.
  intros Hinv. unfold handle_step. destruct (dx_srv d) as [|clnt st'] eqn:Hv; [done|].
  destruct (dx_pending d !! j) as [[t req]|] eqn:Hj; [|done].
  destruct (ServeRequest clnt req (dx_st d)) as [st [rep ok]]. set (d' := d <| dx_st := _ |> <| dx_pending := _ |>
    <| dx_s2c := _ |> <| dx_log := _ |>).
  assert (requests d ≡ₚ requests d' ++ [(t, req)]) as Hreq.
  { unfold requests, d'. cbn. rewrite Hv, <- app_assoc. apply Permutation_app_head.
    rewrite (delete_Permutation _ _ _ Hj) at 1. apply Permutation_cons_append. }
  assert (∀ t', nreq d t' = nreq d' t' + if decide (t = t') then 1 else 0)%nat as Hnq.
  { intros t'. rewrite (nreq_more d' d [(t, req)]) by done. f_equal. apply count_occ_single. }
  assert (∀ t', nlog d' t' = nlog d t' + if decide (t = t') then 1 else 0)%nat as Hnl.
  { intros t'. unfold nlog, d'. cbn. rewrite fmap_app, count_occ_app. f_equal. apply count_occ_single. }
  assert (∀ t', nrep d t' ≤ nrep d' t' ≤ nrep d t' + if decide (t = t') then 1 else 0)%nat as Hnr.
  { intros t'. unfold nrep, d'. cbn. destruct lost; [lia|]. rewrite fmap_app, count_occ_app.
    cbn [fmap list_fmap Tag]. rewrite count_occ_single. lia. }
  destruct Hinv as [HT HM HP]. split.
  - by apply (tags_ok_same d).
  - destruct HM as [H1 H2 H3 H4 H5 H6]. split.
    + intros t'. specialize (H1 t'). specialize (Hnq t'). specialize (Hnl t'). specialize (Hnr t'). lia.
    + intros t' Hpos. apply H2. specialize (Hnq t'). specialize (Hnl t'). lia.
    + intros t' b Hin. apply H3. rewrite Hreq, elem_of_app. by left.
    + intros t' b a. unfold d'. cbn. rewrite elem_of_app, list_elem_of_singleton. intros [|[= -> -> _]]; [by eapply H4|].
      apply H3. rewrite Hreq, elem_of_app. right. apply list_elem_of_singleton. done.
    + intros m. unfold d'. cbn. destruct lost; rewrite ?elem_of_app, ?list_elem_of_singleton.
      * intros (b & Hb)%H5. exists b. rewrite elem_of_app. by left.
      * intros [(b & Hb)%H5| ->]; [exists b; rewrite elem_of_app; by left|]. exists req.
        rewrite elem_of_app, list_elem_of_singleton. by right.
    + unfold d'. cbn. by rewrite Hv.
  - apply (map_ok_msgs d); try done.
    + intros x Hx. unfold d'. cbn. rewrite elem_of_app. by left.
    + intros t' Hpos. specialize (Hnq t'). specialize (Hnr t'). lia.
Qed.

Lemma inv_section k (lost : bool) d :
  Z.of_nat (length (dx_calls d)) < 2 ^ 32 - 1 → dmx_inv d →
  dmx_inv (match dx_calls d !! k with Some c => SendReceive_section k c lost d | None => d end).
Proof.
  intros Hn Hinv. destruct (dx_calls d !! k) as [c|] eqn:Hk; [|done].
  unfold SendReceive_section. destruct (ca_pc c) eqn:Hpc; [| | |done|done].
  - by apply inv_tag.
  - by apply inv_put.
  - by apply inv_write.
Qed.

(** ** Every run *)

Context (Marshall_InitMsg : string → list Z) (Unmarshall_InitMsg : list Z → string).

Definition is_call (e : dmx_event) : bool := match e with DvCall _ => true | _ => false end.
Definition calls_in (es : list dmx_event) : nat := length (filter (λ e, is_call e = true) es).

Lemma reader_step_calls broken d d' :
  reader_step range_order broken d = Ret d' → length (dx_calls d') = length (dx_calls d).
Proof.
  unfold reader_step, dmx_reply. intros E.
  repeat case_match; simplify_eq/=; rewrite ?length_insert; done.
Qed.

Lemma dmx_step_inv e d :
  dmx_inv d → Z.of_nat (length (dx_calls d)) < 2 ^ 32 - 1 →
  ∃ d', dmx_step ServeRequest Unmarshall_InitMsg range_order e d = Ret d' ∧ dmx_inv d' ∧
    length (dx_calls d') = (length (dx_calls d) + if is_call e then 1 else 0)%nat.
Proof.
  intros Hinv Hn. destruct e as [b|k lost|broken| | |j lost|]; cbn [dmx_step is_call].
  - eexists. split; [done|]. split; [by apply inv_DvCall|]. cbn. by rewrite length_app.
  - eexists. split; [done|]. split; [by apply inv_section|]. rewrite Nat.add_0_r.
    destruct (dx_calls d !! k) as [c|]; [|done]. unfold SendReceive_section.
    destruct (ca_pc c); try case_match; cbn; by rewrite ?length_insert.
  - destruct (inv_reader_step broken d Hinv) as (d' & E & Hinv'). exists d'.
    split_and!; [done..|]. rewrite Nat.add_0_r. by eapply reader_step_calls.
  - eexists. split; [done|]. split; [by apply inv_serve|]. unfold serve_step. rewrite Nat.add_0_r.
    by repeat case_match.
  - eexists. split; [done|]. rewrite Nat.add_0_r. destruct (dx_srv d) as [|c st'] eqn:Hv; [done|].
    split; [|done]. apply (inv_messages d); try done. unfold requests. cbn. by rewrite Hv.
  - eexists. split; [done|]. split; [by apply inv_handle|]. unfold handle_step. rewrite Nat.add_0_r.
    by repeat case_match.
  - eexists. split; [done|]. rewrite Nat.add_0_r. destruct (cm_closed (dx_callmap d)); [done|].
    split; [|done]. apply (inv_close d (dx_reader d)); [by left|done].
Qed.

Lemma NewDemuxClnt_inv clnt st : dmx_inv (NewDemuxClnt Marshall_InitMsg clnt st).
Proof.
  assert (∀ t, nreq (NewDemuxClnt Marshall_InitMsg clnt st) t = 0%nat) as Hq by done.
  assert (∀ t, nrep (NewDemuxClnt Marshall_InitMsg clnt st) t = 0%nat) as Hp by done.
  assert (∀ t, nlog (NewDemuxClnt Marshall_InitMsg clnt st) t = 0%nat) as Hl by done.
  split; split; try done; try (intros; set_solver); try (intros ?; rewrite ?Hq, ?Hp, ?Hl; lia).
  intros _ t. rewrite Hq, Hp. lia.
Qed.

Lemma dmx_run_inv es d :
  dmx_inv d → Z.of_nat (length (dx_calls d) + calls_in es) < 2 ^ 32 - 1 →
  ∃ d', dmx_run ServeRequest Unmarshall_InitMsg range_order es d = Ret d' ∧ dmx_inv d'.
Proof.
  revert d. induction es as [|e es IH]; intros d Hinv Hn; cbn [dmx_run]; [by exists d|].
  unfold calls_in in Hn. rewrite filter_cons in Hn.
  destruct (dmx_step_inv e d Hinv) as (d1 & -> & Hinv1 & Hlen); [destruct (decide _) in Hn; cbn in Hn; lia|].
  rewrite bind_ret_l. apply IH; [done|]. rewrite Hlen. unfold calls_in.
  destruct (is_call e); [rewrite decide_True in Hn by done|rewrite decide_False in Hn by done]; cbn in Hn; lia.
Qed.

(** C31: on one connection with fewer than 2^32 - 1 calls, whatever is lost, however the
    server's threads interleave and whenever the connection breaks, a reply always finds its
    call, a call that returns without an error returns the service's answer to that call's own
    bytes, served exactly once, and when the reader has ended no call is left waiting. *)
Theorem demux_matches es clnt st :
  Z.of_nat (calls_in es) < 2 ^ 32 - 1 →
  ∃ d, dmx_run ServeRequest Unmarshall_InitMsg range_order es (NewDemuxClnt Marshall_InitMsg clnt st)
         = Ret d ∧
    (∀ k c t r, dx_calls d !! k = Some c → ca_pc c = SrDone t r → re_err r = None →
       filter (λ x, x.1 = t) (dx_log d) = [(t, (ca_b c, (re_rep r, re_ok r)))]) ∧
    (dx_reader d = RdEnd → ∀ k c t, dx_calls d !! k = Some c → ca_pc c ≠ SrWrite t ∧ ca_pc c ≠ SrWait t).
Proof.
  intros Hn. destruct (dmx_run_inv es _ (NewDemuxClnt_inv clnt st)) as (d & E & [HT HM HP]); [done|].
  exists d. split; [done|]. split.
  - intros k c t r Hk Hpc Herr. destruct (iv_done d HP k c t r Hk Hpc Herr) as (b & Hin).
    destruct (iv_log d HM t b _ Hin) as (k' & c' & Hk' & Ht & <-).
    destruct (owner_unique d k k' c c' t HT Hk) as [-> <-]; [by rewrite Hpc|done|done|].
    destruct (iv_life d HM t) as [Hl _].
    assert (length (filter (λ x, x.1 = t) (dx_log d)) = nlog d t) as Hlen.
    { unfold nlog, count_occ. clear. induction (dx_log d) as [|x l IH]; [done|]. cbn [fmap list_fmap].
      rewrite !filter_cons. case_decide; rewrite ?decide_True, ?decide_False by done; cbn; by rewrite IH. }
    assert ((t, (ca_b c, (re_rep r, re_ok r))) ∈ filter (λ x, x.1 = t) (dx_log d)) as Hf
      by (by apply list_elem_of_filter).
    destruct (filter _ (dx_log d)) as [|x [|y l]]; [by apply elem_of_nil in Hf| |cbn in Hlen; lia].
    apply list_elem_of_singleton in Hf. by rewrite Hf.
  - intros Hrd k c t Hk. pose proof (iv_reader d HP) as Hr. rewrite Hrd in Hr. destruct Hr as [_ Hem].
    assert (∀ pc, live pc t → ca_pc c ≠ pc) as Hnot.
    { intros pc Hl <-. destruct (iv_live d HP k c t Hk Hl) as [Hm|(? & ? & ?)]; [|congruence].
      by rewrite Hem, lookup_empty in Hm. }
    split; apply Hnot; [by left|by right].
Qed.
End dmx_inv.

(** ** Examples *)

(** A service that counts its requests and sends their bytes back, reversed. *)
Definition echo (clnt : string) (req : list Z) (n : Z) : Z * (list Z * bool) := (n + 1, (rev req, true)).

(** Two calls whose requests are served in the other order, then the connection breaks under
    a third. *)
Definition crossed_calls : list dmx_event :=
  [DvCall [1; 2]; DvCall [3; 4]; DvCall [5]; DvSection 0 false; DvSection 1 false; DvSection 1 false;
   DvSection 0 false; DvSection 1 false; DvSection 0 false; DvServe; DvServe; DvServe;
   DvHandle 1 false; DvHandle 0 false; DvReader false; DvReader false; DvReader false; DvReader false;
   DvSection 2 false; DvSection 2 false; DvSection 2 true; DvReader true; DvReader true; DvReader true;
   DvReader true; DvReader true].

Definition dmx_view (d : dmx Z) : list call * reader_pc := (dx_calls d, dx_reader d).

Lemma demux_matches_witness :
  ∃ d, dmx_run echo (λ _, "") (λ l, l) crossed_calls (NewDemuxClnt (λ _, []) "" 0) = Ret d ∧
    dx_calls d = [{| ca_b := [1; 2]; ca_pc := SrDone 1 {| re_rep := [2; 1]; re_ok := true; re_err := None |} |};
                  {| ca_b := [3; 4]; ca_pc := SrDone 2 {| re_rep := [4; 3]; re_ok := true; re_err := None |} |};
                  {| ca_b := [5]; ca_pc := SrDone 3 fail_reply |}] ∧
    filter (λ x, x.1 = 1) (dx_log d) = [(1, ([1; 2], ([2; 1], true)))].
Proof.
  destruct (demux_matches echo (λ l, l) (λ l, Permutation_refl l) (λ _, []) (λ _, "") crossed_calls "" 0)
    as (d & E & Hd & _); [reflexivity|].
  assert (dmx_view <$> dmx_run echo (λ _, "") (λ l, l) crossed_calls (NewDemuxClnt (λ _, []) "" 0) =
    Ret ([{| ca_b := [1; 2]; ca_pc := SrDone 1 {| re_rep := [2; 1]; re_ok := true; re_err := None |} |};
          {| ca_b := [3; 4]; ca_pc := SrDone 2 {| re_rep := [4; 3]; re_ok := true; re_err := None |} |};
          {| ca_b := [5]; ca_pc := SrDone 3 fail_reply |}], RdEnd)) as Hv by (vm_compute; reflexivity).
  rewrite E in Hv. injection Hv as Hc _. exists d. split; [exact E|]. split; [exact Hc|].
  apply (Hd 0%nat {| ca_b := [1; 2]; ca_pc := SrDone 1 {| re_rep := [2; 1]; re_ok := true; re_err := None |} |}
    1 {| re_rep := [2; 1]; re_ok := true; re_err := None |}); [by rewrite Hc|reflexivity..].
Defined.
