(* ===== verification/TesterNet.v ===== *)
(** * The tester's server groups and clients

    [src/src/tester1/]: the persister ([persister.go]), a server of a group and its end points
    ([srv.go]), groups with their connections and partitions ([group.go]), and the clients'
    end points ([clnts.go]), all on the simulated network of [LabRpc.v].

    A daemon process is known by the persister it holds, which it saves to while it runs
    ([life]); starting it and talking to it over its socket is [daemonclnt.go] and
    [daemonsrv.go], whose calls are taken to succeed here.  Fresh
    end point names ([Randstring]) are arguments.  The order in which Go ranges over a
    client's map of ends is a parameter. *)
From stdpp Require Import base tactics numbers list fin_maps gmap strings pretty.
From S2P Require Import Prelude GoLib LabRpc.

(** ** [persister.go]: [clone] keeps a caller's slice apart from the stored one *)

Record Persister := { raftstate : list Z; snapshot : list Z }.

Definition MakePersister : Persister := {| raftstate := []; snapshot := [] |}.
Definition clone (orig : list Z) : list Z := orig.
Definition Checkpoint (ps : Persister) : Persister :=
  {| raftstate := clone (raftstate ps); snapshot := clone (snapshot ps) |}.
Definition ReadRaftState (ps : Persister) : list Z := clone (raftstate ps).
Definition RaftStateSize (ps : Persister) : Z := zlen (raftstate ps).
Definition Save (rs sn : list Z) (ps : Persister) : Persister :=
  {| raftstate := clone rs; snapshot := clone sn |}.
Definition ReadSnapshot (ps : Persister) : list Z := clone (snapshot ps).
Definition Persister_SnapshotSize (ps : Persister) : Z := zlen (snapshot ps).

(** ** [srv.go] *)

Definition ServerName (gid i : Z) : string := "server-" +:+ pretty gid +:+ "-" +:+ pretty i.

(** [sv_dc] is the persister of the running daemon when an operation of the tester begins,
    what it saves meanwhile an argument of the operation; [sv_saved] is the tester's copy. *)
Record Server := { sv_endNames : list string; sv_saved : option Persister; sv_dc : option Persister }.
#[export] Instance eta_Server : Eta Server := λ s,
  {| sv_endNames := sv_endNames s; sv_saved := sv_saved s; sv_dc := sv_dc s |}.

(** The loop of [makeServer], from end [j] on. *)
Fixpoint make_ends (gid : Z) (j : nat) (names : list string) (net : Network) : outcome Network :=
  match names with
  | [] => Ret net
  | name :: names =>
      net ← MakeEnd name net;
      make_ends gid (S j) names (Connect name (ServerName gid (Z.of_nat j)) net)
  end.

Definition makeServer (gid : Z) (names : list string) (net : Network) : outcome (Server * Network) :=
  net ← make_ends gid 0 names net;
  Ret ({| sv_endNames := names; sv_saved := None; sv_dc := None |}, net).

Definition startServer (gid : Z) (names : list string) (s : Server) (net : Network)
    : outcome (Server * Network) :=
  '(srv, net) ← makeServer gid names net;
  Ret (srv <| sv_saved := Some (default MakePersister (sv_saved s)) |>, net).

(** [DaemonSrv.Init] after [DaemonClnt.init]; [DaemonSrv.CheckpointPersister] after
    [DaemonClnt.checkpointPersister]; [DaemonSrv.StateSize]. *)
Definition daemon_init (saved : Persister) : Persister :=
  Save (ReadRaftState saved) (ReadSnapshot saved) MakePersister.
Definition checkpointPersister (dc : Persister) : Persister :=
  let p := Checkpoint dc in Save (ReadRaftState p) (ReadSnapshot p) MakePersister.
Definition stateSize (dc : Persister) : Z * Z := (RaftStateSize dc, Persister_SnapshotSize dc).

(** What a daemon saves, state and snapshot, while its server is to be shut down: until the
    tester's checkpoint of it, and after that until it is killed, since the handler of the
    checkpoint does not stop it. *)
Record life := { lf_saves : list (list Z * list Z); lf_late : list (list Z * list Z) }.

Definition runs_on (saves : list (list Z * list Z)) (dc : Persister) : Persister :=
  foldl (λ p s, Save (s.1) (s.2) p) dc saves.

(** The daemon runs until the checkpoint, on after it, and is killed. *)
Definition shutdownServer (l : life) (s : Server) : Server :=
  match sv_dc s with
  | Some dc =>
      let dc := runs_on (lf_saves l) dc in
      let s := s <| sv_saved := Some (checkpointPersister dc) |> in
      let s := s <| sv_dc := Some (runs_on (lf_late l) dc) |> in
      s <| sv_dc := None |>
  | None => s
  end.

Definition raftSize (s : Server) : outcome Z :=
  match sv_dc s, sv_saved s with
  | Some dc, _ => Ret (stateSize dc).1
  | None, Some p => Ret (RaftStateSize p)
  | None, None => Panic "nil pointer dereference"
  end.

Definition snapshotSize (s : Server) : outcome Z :=
  match sv_dc s, sv_saved s with
  | Some dc, _ => Ret (stateSize dc).2
  | None, Some p => Ret (Persister_SnapshotSize p)
  | None, None => Panic "nil pointer dereference"
  end.

(** ** [group.go] *)

Record ServerGrp := {
  sg_srvs : list Server; sg_servernames : list string; sg_gid : Z; sg_connected : list bool
}.
#[export] Instance eta_ServerGrp : Eta ServerGrp := λ g,
  {| sg_srvs := sg_srvs g; sg_servernames := sg_servernames g; sg_gid := sg_gid g;
     sg_connected := sg_connected g |}.

Definition world : Type := ServerGrp * Network.

(** [names] has the fresh names of each server's ends. *)
Definition makeSrvGrp (gid : Z) (names : list (list string)) (net : Network) : outcome world :=
  '(srvs, net) ← go_for (λ ns '(srvs, net), '(s, net) ← makeServer gid ns net; Ret (srvs ++ [s], net))
                   names ([], net);
  Ret ({| sg_srvs := srvs; sg_gid := gid; sg_connected := replicate (length names) false;
          sg_servernames := (λ i, ServerName gid (Z.of_nat i)) <$> seq 0 (length names) |}, net).

Definition N (sg : ServerGrp) : Z := zlen (sg_srvs sg).
Definition SrvNames (sg : ServerGrp) : list string := sg_servernames sg.
Definition SrvName (sg : ServerGrp) (i : Z) : outcome string := go_index (sg_servernames sg) i.
Definition SrvNamesTo (sg : ServerGrp) (to : list Z) : outcome (list string) :=
  go_for (λ i ns, n ← go_index (sg_servernames sg) i; Ret (ns ++ [n])) to [].
Definition all (sg : ServerGrp) : list Z := Z.of_nat <$> seq 0 (length (sg_srvs sg)).
Definition IsConnected (sg : ServerGrp) (i : Z) : outcome bool := go_index (sg_connected sg) i.
Definition GetConnected (sg : ServerGrp) : list bool := sg_connected sg.

(** The name of server [i]'s end to server [j]. *)
Definition endName (sg : ServerGrp) (i j : Z) : outcome string :=
  s ← go_index (sg_srvs sg) i; go_index (sv_endNames s) j.

Definition set_connected (i : Z) (b : bool) (sg : ServerGrp) : outcome ServerGrp :=
  c ← go_update (sg_connected sg) i b; Ret (sg <| sg_connected := c |>).

(** [Server.connect] and [Server.disconnect]: the outgoing ends. *)
Definition Server_connect (sg : ServerGrp) (i : Z) (to : list Z) (net : Network) : outcome Network :=
  go_for (λ j net,
    c ← IsConnected sg j;
    if (c : bool) then e ← endName sg i j; Ret (Enable e true net) else Ret net) to net.

Definition Server_disconnect (sg : ServerGrp) (i : Z) (from : list Z) (net : Network) : outcome Network :=
  go_for (λ j net, e ← endName sg i j; Ret (Enable e false net)) from net.

Definition connect (i : Z) (to : list Z) (w : world) : outcome world :=
  let '(sg, net) := w in
  sg ← set_connected i true sg;
  net ← Server_connect sg i to net;
  net ← go_for (λ j net,
    c ← IsConnected sg j;
    if (c : bool) then e ← endName sg j i; Ret (Enable e true net) else Ret net) to net;
  Ret (sg, net).

(** A server that was made has end names, so the test for nil is left out. *)
Definition disconnect (i : Z) (from : list Z) (w : world) : outcome world :=
  let '(sg, net) := w in
  sg ← set_connected i false sg;
  net ← Server_disconnect sg i from net;
  net ← go_for (λ j net, e ← endName sg j i; Ret (Enable e false net)) from net;
  Ret (sg, net).

Definition ConnectOne (i : Z) (w : world) : outcome world := connect i (all w.1) w.
Definition ConnectAll (w : world) : outcome world := go_for ConnectOne (all w.1) w.
Definition DisconnectAll (i : Z) (w : world) : outcome world := disconnect i (all w.1) w.

(** [lives] are the lives of the group's daemons. *)
Definition Group_ShutdownServer (lives : Z → life) (i : Z) (w : world) : outcome world :=
  '(sg, net) ← disconnect i (all w.1) w;
  let net := DeleteServer (ServerName (sg_gid sg) i) net in
  s ← go_index (sg_srvs sg) i;
  srvs ← go_update (sg_srvs sg) i (shutdownServer (lives i) s);
  Ret (sg <| sg_srvs := srvs |>, net).

Definition Kill (lives : Z → life) (srvs : list Z) (w : world) : outcome world :=
  go_for (Group_ShutdownServer lives) srvs w.
Definition Shutdown (lives : Z → life) (w : world) : outcome world := Kill lives (all w.1) w.
Definition Servers (sg : ServerGrp) : list Z := all sg.

(** [StartServer]: [names] are the new server's ends, [labsrv] the number of the network
    server that forwards to the daemon, and the daemon starts on the saved state. *)
Definition StartServer (i : Z) (names : list string) (labsrv : nat) (w : world) : outcome world :=
  let '(sg, net) := w in
  s ← go_index (sg_srvs sg) i;
  '(srv, net) ← startServer (sg_gid sg) names s net;
  let srv := srv <| sv_dc := daemon_init <$> sv_saved srv |> in
  srvs ← go_update (sg_srvs sg) i srv;
  Ret (sg <| sg_srvs := srvs |>, AddServer (ServerName (sg_gid sg) i) labsrv net).

Definition StartSrvs (srvs : list (Z * (list string * nat))) (w : world) : outcome world :=
  go_for (λ '(i, (names, labsrv)), StartServer i names labsrv) srvs w.

Definition StartServers (fresh : list (list string * nat)) (w : world) : outcome world :=
  w ← StartSrvs (zip (all w.1) fresh) w; ConnectAll w.

Definition max_size (size : Server → outcome Z) (sg : ServerGrp) : outcome Z :=
  go_for (λ s m, n ← size s; Ret (if decide (n > m) then n else m)) (sg_srvs sg) 0.
Definition RaftSize (sg : ServerGrp) : outcome Z := max_size raftSize sg.
Definition Group_SnapshotSize (sg : ServerGrp) : outcome Z := max_size snapshotSize sg.

Definition RpcCount {St} (server : Z) (srvs : gmap nat (LabRpc.Server St)) (w : world) : outcome Z :=
  GetCount (ServerName (sg_gid w.1) server) srvs w.2.

(** [MakePartition]: the others fill [p1] and then [p2], the leader goes last in [p2]. *)
Definition MakePartition (l : Z) (sg : ServerGrp) : outcome (list Z * list Z) :=
  let n := zlen (sg_srvs sg) in
  '(p1, p2, _) ← go_for (λ i '(p1, p2, j),
      if decide (i ≠ l) then
        if decide (j < zlen p1) then p1 ← go_update p1 j i; Ret (p1, p2, j + 1)
        else p2 ← go_update p2 (j - zlen p1) i; Ret (p1, p2, j + 1)
      else Ret (p1, p2, j))
    (all sg) (replicate (Z.to_nat (n `quot` 2 + 1)) 0, replicate (Z.to_nat (n `quot` 2)) 0, 0);
  p2 ← go_update p2 (zlen p2 - 1) l;
  Ret (p1, p2).

Definition Partition (p1 p2 : list Z) (w : world) : outcome world :=
  w ← go_for (λ i w, w ← disconnect i p2 w; connect i p1 w) p1 w;
  go_for (λ i w, w ← disconnect i p1 w; connect i p2 w) p2 w.

(** [Groups]: the groups by number, over one network. *)
Definition Groups : Type := gmap Z ServerGrp.

Definition MakeGroup (gid : Z) (names : list (list string)) (w : Groups * Network)
    : outcome (Groups * Network) :=
  '(sg, net) ← makeSrvGrp gid names w.2; Ret (<[gid := sg]> w.1, net).
Definition lookupGroup (gid : Z) (gs : Groups) : option ServerGrp := gs !! gid.
Definition Groups_delete (gid : Z) (gs : Groups) : Groups := delete gid gs.

(** [cleanup] shuts every group down; [gids] lists the groups in the order Go ranges over them. *)
Definition Groups_cleanup (lives : Z → Z → life) (gids : list Z) (w : Groups * Network) : outcome (Groups * Network) :=
  go_for (λ gid '(gs, net),
    match gs !! gid with
    | Some sg => '(sg, net) ← Shutdown (lives gid) (sg, net); Ret (<[gid := sg]> gs, net)
    | None => Ret (gs, net)
    end) gids w.

(** ** [clnts.go] *)

(** [cl_ends]: the end made for each server; [cl_srvs]: nil, or the servers allowed. *)
Record Clnt := { cl_ends : gmap string string; cl_srvs : option (list string) }.
#[export] Instance eta_Clnt : Eta Clnt := λ c, {| cl_ends := cl_ends c; cl_srvs := cl_srvs c |}.

Section clnts.
Context (range_order : list (string * string) → list (string * string)).

Definition makeClntTo (srvs : option (list string)) : Clnt := {| cl_ends := ∅; cl_srvs := srvs |}.

Definition allowedL (clnt : Clnt) (server : string) : bool :=
  match cl_srvs clnt with None => true | Some srvs => bool_decide (server ∈ srvs) end.

Definition makeEnd (server name : string) (w : Clnt * Network) : outcome (string * (Clnt * Network)) :=
  let '(clnt, net) := w in
  match cl_ends clnt !! server with
  | Some e => Ret (e, w)
  | None =>
      net ← MakeEnd name net;
      let net := Enable name (allowedL clnt server) (Connect name server net) in
      Ret (name, (clnt <| cl_ends := <[server := name]> (cl_ends clnt) |>, net))
  end.

(** A loop over the ends that enables or disables the ones it selects. *)
Definition enable_ends (sel : string → bool) (yes : bool) (clnt : Clnt) (net : Network) : Network :=
  foldl (λ net '(srv, name), if sel srv then Enable name yes net else net) net
    (range_order (map_to_list (cl_ends clnt))).

Definition Clnt_ConnectAll (w : Clnt * Network) : Clnt * Network :=
  let '(clnt, net) := w in
  (clnt <| cl_srvs := None |>, enable_ends (λ _, true) true clnt net).

Definition ConnectTo (srvs : list string) (w : Clnt * Network) : Clnt * Network :=
  let '(clnt, net) := w in
  let clnt := clnt <| cl_srvs := Some srvs |> in
  (clnt, enable_ends (allowedL clnt) true clnt net).

Definition Disconnect (srv : string) (w : Clnt * Network) : Clnt * Network :=
  let '(clnt, net) := w in (clnt, enable_ends (λ s, bool_decide (s = srv)) false clnt net).

Definition Clnt_DisconnectAll (w : Clnt * Network) : Clnt * Network :=
  let '(clnt, net) := w in
  (clnt <| cl_srvs := Some [] |>, enable_ends (λ _, true) false clnt net).

Definition remove (clnt : Clnt) (net : Network) : outcome Network :=
  go_for (λ '(_, name) net, DeleteEnd name net) (range_order (map_to_list (cl_ends clnt))) net.

(** [Clnts]: the clients by number, standing for their addresses. *)
Definition Clnts : Type := gmap nat Clnt.
Definition makeClnts : Clnts := ∅.

Definition Clnts_makeEnd (name servername : string) (net : Network) : outcome Network :=
  net ← MakeEnd name net; Ret (Enable name true (Connect name servername net)).

Definition MakeClientTo (id : nat) (srvs : option (list string)) (clnts : Clnts) : Clnts :=
  <[id := makeClntTo srvs]> clnts.
Definition MakeClient (id : nat) (clnts : Clnts) : Clnts := MakeClientTo id None clnts.

Definition DeleteClient (id : nat) (w : Clnts * Network) : outcome (Clnts * Network) :=
  match w.1 !! id with
  | Some clnt => net ← remove clnt w.2; Ret (delete id w.1, net)
  | None => Ret w
  end.

Definition Clnts_cleanup (ids : list nat) (w : Clnts * Network) : outcome (Clnts * Network) :=
  net ← go_for (λ id net, match w.1 !! id with Some clnt => remove clnt net | None => Ret net end)
          ids w.2;
  Ret (∅, net).
End clnts.
