(* ===== verification/TesterGroups.v ===== *)
(** * What the tester's groups guarantee

    Links between the servers of a group under [connect], [disconnect] and [Partition]; the
    sides [MakePartition] chooses; a server's persisted state across a restart; and what a
    client's [ConnectTo] leaves enabled ([TesterNet.v]). *)
From stdpp Require Import base tactics numbers list fin_maps gmap strings pretty.
From S2P Require Import Prelude GoLib LabRpc TesterNet.

(** ** Links between the servers of a group *)

Definition end_at (sg : ServerGrp) (i j : nat) : option string :=
  s ← sg_srvs sg !! i; sv_endNames s !! j.

(** Server [i] can send to server [j]. *)
Definition link (w : world) (i j : nat) : bool :=
  match end_at w.1 i j with Some e => enabled_of w.2 e | None => false end.

(** A group of [n] servers, each with an end to each, all with different names. *)
Record grp_ok (n : nat) (sg : ServerGrp) : Prop := {
  gk_srvs : length (sg_srvs sg) = n;
  gk_connected : length (sg_connected sg) = n;
  gk_ends : ∀ i j, (i < n)%nat → (j < n)%nat → is_Some (end_at sg i j);
  gk_names : ∀ i j i' j' e, end_at sg i j = Some e → end_at sg i' j' = Some e → i = i' ∧ j = j'
}.

Lemma endName_nat n sg i j :
  grp_ok n sg → (i < n)%nat → (j < n)%nat →
  ∃ e, end_at sg i j = Some e ∧ endName sg (Z.of_nat i) (Z.of_nat j) = Ret e.
Proof.
  intros Hok Hi Hj. destruct (gk_ends n sg Hok i j Hi Hj) as [e He]. exists e. split; [done|].
  unfold end_at in He. destruct (sg_srvs sg !! i) as [s|] eqn:Hs; [|done]. cbn in He.
  unfold endName. by rewrite (go_index_nat _ _ _ Hs), bind_ret_l, (go_index_nat _ _ _ He).
Qed.

Lemma enabled_Enable e e' b net :
  enabled_of (Enable e b net) e' = if decide (e = e') then b else enabled_of net e'.
Proof. unfold enabled_of. cbn. rewrite lookup_insert. by case_decide. Qed.

(** The links at [ps] are set to [b], the others stay; [W] is the group whose links they are. *)
Definition relinked (sg : ServerGrp) (net net' : Network) (ps : list (nat * nat)) (b : bool) : Prop :=
  ∀ x y, link (sg, net') x y = if decide ((x, y) ∈ ps) then b else link (sg, net) x y.

Lemma relinked_nil sg net b : relinked sg net net [] b.
Proof. intros x y. rewrite decide_False by apply not_elem_of_nil. done. Qed.

Lemma relinked_cons n sg net net' x y e ps b :
  grp_ok n sg → end_at sg x y = Some e → relinked sg (Enable e b net) net' ps b →
  relinked sg net net' ((x, y) :: ps) b.
Proof.
  intros Hok He Hre x' y'. rewrite (Hre x' y'). destruct (decide ((x', y') ∈ ps)) as [Hin|Hnin].
  { rewrite decide_True by (by right). done. }
  unfold link. cbn. destruct (end_at sg x' y') as [e'|] eqn:He'.
  - rewrite enabled_Enable. destruct (decide (e = e')) as [<-|Hne].
    + destruct (gk_names n sg Hok _ _ _ _ _ He He') as [<- <-]. rewrite decide_True by left. done.
    + rewrite decide_False; [done|]. intros [[= -> ->]|]%elem_of_cons; [congruence|done].
  - rewrite decide_False; [done|]. intros [[= -> ->]|]%elem_of_cons; [congruence|done].
Qed.

Lemma relinked_app sg net net1 net2 ps1 ps2 b :
  relinked sg net net1 ps1 b → relinked sg net1 net2 ps2 b → relinked sg net net2 (ps1 ++ ps2) b.
Proof.
  intros H1 H2 x y. rewrite (H2 x y), (H1 x y).
  repeat case_decide; try done; rewrite elem_of_app in *; naive_solver.
Qed.

(** A loop that, for each [j], sets the link at [pos j] when [c j]. *)
Lemma enable_loop n sg (pos : nat → nat * nat) (c : nat → bool) b js net body :
  grp_ok n sg →
  (∀ j, j ∈ js → ∃ e, end_at sg (pos j).1 (pos j).2 = Some e ∧
     ∀ net, body (Z.of_nat j) net = Ret (if c j then Enable e b net else net)) →
  ∃ net', go_for body (Z.of_nat <$> js) net = Ret net' ∧
    relinked sg net net' (pos <$> filter (λ j, c j = true) js) b.
Proof.
  intros Hok. revert net. induction js as [|j js IH]; intros net Hbody; cbn [fmap list_fmap go_for].
  { exists net. split; [done|]. apply relinked_nil. }
  destruct (Hbody j) as (e & He & Hj); [left|]. rewrite Hj, bind_ret_l.
  destruct (IH (if c j then Enable e b net else net)) as (net' & -> & Hre).
  { intros j' Hj'. apply Hbody. by right. }
  exists net'. split; [done|]. rewrite filter_cons. destruct (c j).
  - rewrite decide_True by done. cbn. destruct (pos j) as [x y]. by eapply relinked_cons.
  - rewrite decide_False by done. done.
Qed.

(** The pairs [i] forms with the members of [to], in both directions. *)
Definition star (i : nat) (to : list nat) : list (nat * nat) :=
  ((λ j, (i, j)) <$> to) ++ ((λ j, (j, i)) <$> to).

Lemma elem_of_star i to x y : (x, y) ∈ star i to ↔ (x = i ∧ y ∈ to) ∨ (y = i ∧ x ∈ to).
Proof. unfold star. rewrite elem_of_app, !list_elem_of_fmap. naive_solver. Qed.

Lemma grp_ok_set n sg i b :
  grp_ok n sg → grp_ok n (sg <| sg_connected := <[i := b]> (sg_connected sg) |>).
Proof. intros [H1 H2 H3 H4]. split; [done| |done|done]. cbn. by rewrite length_insert. Qed.

Lemma set_connected_nat n sg i b :
  grp_ok n sg → (i < n)%nat →
  set_connected (Z.of_nat i) b sg = Ret (sg <| sg_connected := <[i := b]> (sg_connected sg) |>).
Proof.
  intros Hok Hi. unfold set_connected. rewrite go_update_nat; [done|]. by rewrite (gk_connected n sg Hok).
Qed.

Definition conn (sg : ServerGrp) (j : nat) : bool := default false (sg_connected sg !! j).

Lemma IsConnected_nat n sg j : grp_ok n sg → (j < n)%nat → IsConnected sg (Z.of_nat j) = Ret (conn sg j).
Proof.
  intros Hok Hj. destruct (lookup_lt_is_Some_2 (sg_connected sg) j) as [b Hb];
    [by rewrite (gk_connected n sg Hok)|]. unfold IsConnected, conn. by rewrite (go_index_nat _ _ _ Hb), Hb.
Qed.

Lemma connect_spec n i to sg net :
  grp_ok n sg → (i < n)%nat → Forall (λ j, (j < n)%nat) to →
  let sg' := sg <| sg_connected := <[i := true]> (sg_connected sg) |> in
  ∃ net', connect (Z.of_nat i) (Z.of_nat <$> to) (sg, net) = Ret (sg', net') ∧
    relinked sg' net net' (star i (filter (λ j, conn sg' j = true) to)) true.
Proof.
  intros Hok Hi Hto sg'. assert (grp_ok n sg') as Hok' by by apply grp_ok_set.
  rewrite Forall_forall in Hto. unfold connect. rewrite (set_connected_nat n) by done. rewrite bind_ret_l.
  fold sg'. unfold Server_connect.
  destruct (enable_loop n sg' (λ j, (i, j)) (conn sg') true to net (λ j net,
    c ← IsConnected sg' j; if (c : bool) then e ← endName sg' (Z.of_nat i) j; Ret (Enable e true net)
                           else Ret net) Hok') as (net1 & -> & H1).
  { intros j Hj. destruct (endName_nat n sg' i j Hok' Hi (Hto j Hj)) as (e & He & Hen).
    exists e. split; [done|]. intros net0. rewrite (IsConnected_nat n), bind_ret_l by auto.
    rewrite Hen. by destruct (conn sg' j). }
  rewrite bind_ret_l.
  destruct (enable_loop n sg' (λ j, (j, i)) (conn sg') true to net1 (λ j net,
    c ← IsConnected sg' j; if (c : bool) then e ← endName sg' j (Z.of_nat i); Ret (Enable e true net)
                           else Ret net) Hok') as (net2 & -> & H2).
  { intros j Hj. destruct (endName_nat n sg' j i Hok' (Hto j Hj) Hi) as (e & He & Hen).
    exists e. split; [done|]. intros net0. rewrite (IsConnected_nat n), bind_ret_l by auto.
    rewrite Hen. by destruct (conn sg' j). }
  exists net2. split; [done|]. by eapply relinked_app.
Qed.

Lemma disconnect_spec n i from sg net :
  grp_ok n sg → (i < n)%nat → Forall (λ j, (j < n)%nat) from →
  let sg' := sg <| sg_connected := <[i := false]> (sg_connected sg) |> in
  ∃ net', disconnect (Z.of_nat i) (Z.of_nat <$> from) (sg, net) = Ret (sg', net') ∧
    relinked sg' net net' (star i from) false.
Proof.
  intros Hok Hi Hto sg'. assert (grp_ok n sg') as Hok' by by apply grp_ok_set.
  rewrite Forall_forall in Hto. unfold disconnect. rewrite (set_connected_nat n) by done. rewrite bind_ret_l.
  fold sg'. unfold Server_disconnect.
  assert (∀ pos : nat → nat * nat, pos <$> filter (λ j, true = true) from = pos <$> from) as Hall.
  { intros pos. f_equal. by apply filter_all. }
  destruct (enable_loop n sg' (λ j, (i, j)) (λ _, true) false from net (λ j net,
    e ← endName sg' (Z.of_nat i) j; Ret (Enable e false net)) Hok') as (net1 & -> & H1).
  { intros j Hj. destruct (endName_nat n sg' i j Hok' Hi (Hto j Hj)) as (e & He & Hen).
    exists e. split; [done|]. intros net0. by rewrite Hen. }
  rewrite bind_ret_l.
  destruct (enable_loop n sg' (λ j, (j, i)) (λ _, true) false from net1 (λ j net,
    e ← endName sg' j (Z.of_nat i); Ret (Enable e false net)) Hok') as (net2 & -> & H2).
  { intros j Hj. destruct (endName_nat n sg' j i Hok' (Hto j Hj) Hi) as (e & He & Hen).
    exists e. split; [done|]. intros net0. by rewrite Hen. }
  rewrite !Hall in *. exists net2. split; [done|]. by eapply relinked_app.
Qed.

(** ** Partitions *)

(** One side's loop of [Partition]: cut from [q], joined among [p]. *)
Definition side_done (p q done : list nat) (w0 w : world) : Prop :=
  (∀ i, i ∈ done → conn w.1 i = true) ∧
  (∀ i j, i ∈ done → j ∈ done → link w i j = true) ∧
  (∀ i j, i ∈ done → j ∈ q → link w i j = false ∧ link w j i = false) ∧
  (∀ i j, ¬ (i ∈ p ∧ j ∈ p) → ¬ (i ∈ p ∧ j ∈ q) → ¬ (i ∈ q ∧ j ∈ p) → link w i j = link w0 i j) ∧
  (∀ i j, i ∈ p → j ∈ q → link w0 i j = false → link w i j = false) ∧
  (∀ i j, i ∈ p → j ∈ q → link w0 j i = false → link w j i = false).

Lemma link_srvs sg sg' net i j : sg_srvs sg' = sg_srvs sg → link (sg', net) i j = link (sg, net) i j.
Proof. intros E. unfold link, end_at. cbn. by rewrite E. Qed.

Lemma conn_set n sg i b j :
  grp_ok n sg → (i < n)%nat →
  conn (sg <| sg_connected := <[i := b]> (sg_connected sg) |>) j = if decide (j = i) then b else conn sg j.
Proof.
  intros Hok Hi. unfold conn. cbn. rewrite list_lookup_insert. pose proof (gk_connected n sg Hok).
  repeat case_decide; naive_solver lia.
Qed.

Lemma partition_turn n i p q dn w0 sg net :
  grp_ok n sg → i ∈ p → p ## q → Forall (λ j, (j < n)%nat) (p ++ q) → dn ⊆ p →
  side_done p q dn w0 (sg, net) →
  ∃ w', (w ← disconnect (Z.of_nat i) (Z.of_nat <$> q) (sg, net);
         connect (Z.of_nat i) (Z.of_nat <$> p) w) = Ret w' ∧
    grp_ok n w'.1 ∧ side_done p q (dn ++ [i]) w0 w'.
Proof.
  intros Hok Hip Hpq [Hp Hq]%Forall_app Hdn (S1 & S2 & S3 & S4 & S5 & S6).
  assert (i < n)%nat as Hi by (by eapply Forall_forall in Hp).
  destruct (disconnect_spec n i q sg net Hok Hi Hq) as (net1 & -> & R1).
  set (sg1 := sg <| sg_connected := <[i := false]> (sg_connected sg) |>) in *.
  assert (grp_ok n sg1) as Hok1 by by apply grp_ok_set.
  rewrite bind_ret_l. destruct (connect_spec n i p sg1 net1 Hok1 Hi Hp) as (net2 & -> & R2).
  set (sg2 := sg1 <| sg_connected := <[i := true]> (sg_connected sg1) |>) in *.
  exists (sg2, net2). split; [done|]. split; [by apply grp_ok_set|].
  assert (∀ j, conn sg2 j = if decide (j = i) then true else conn sg j) as Hconn.
  { intros j. unfold sg2, sg1. rewrite !(conn_set n) by (done || by apply grp_ok_set). by case_decide. }
  assert (∀ x y, link (sg2, net2) x y =
    if decide ((x, y) ∈ star i (filter (λ j, conn sg2 j = true) p)) then true
    else if decide ((x, y) ∈ star i q) then false else link (sg, net) x y) as Hlink.
  { intros x y. rewrite (R2 x y), (link_srvs sg1 sg2 net1) by done. by rewrite (R1 x y), (link_srvs sg sg1). }
  assert (∀ j, j ∈ filter (λ j, conn sg2 j = true) p ↔ j ∈ p ∧ (j = i ∨ conn sg j = true)) as Hfil.
  { intros j. rewrite list_elem_of_filter, Hconn. case_decide; naive_solver. }
  assert (∀ j, j ∈ p → j ∈ q → False) as Hdis by (intros j; apply Hpq).
  assert (∀ j, j ∈ dn ++ [i] ↔ j ∈ dn ∨ j = i) as Hsnoc.
  { intros j. rewrite elem_of_app, list_elem_of_singleton. done. }
  assert (∀ j, j ∈ dn → j ∈ p) as Hdnp by (intros j; apply Hdn).
  split_and!; cbn [fst snd].
  - intros j Hj%Hsnoc. rewrite Hconn. case_decide; [done|]. apply S1. naive_solver.
  - intros x y Hx%Hsnoc Hy%Hsnoc. rewrite Hlink. case_decide as Hs; [done|].
    rewrite decide_False by (rewrite elem_of_star; naive_solver).
    rewrite elem_of_star, !Hfil in Hs. apply S2; [destruct Hx as [| ->]|destruct Hy as [| ->]]; try done;
      exfalso; naive_solver.
  - intros x y Hx%Hsnoc Hy. rewrite !Hlink.
    rewrite !(decide_False (P := _ ∈ star i (filter _ p))) by (rewrite elem_of_star, !Hfil; naive_solver).
    destruct Hx as [Hx| ->].
    + destruct (S3 x y Hx Hy). by repeat case_decide.
    + rewrite !decide_True by (rewrite elem_of_star; naive_solver). done.
  - intros x y H1 H2 H3. rewrite Hlink, !decide_False by (rewrite elem_of_star, ?Hfil; naive_solver).
    by apply S4.
  - intros x y Hx Hy H0. rewrite Hlink, decide_False by (rewrite elem_of_star, ?Hfil; naive_solver).
    case_decide; [done|]. by apply S5.
  - intros x y Hx Hy H0. rewrite Hlink, decide_False by (rewrite elem_of_star, ?Hfil; naive_solver).
    case_decide; [done|]. by apply S6.
Qed.

Lemma partition_side n p q w0 :
  grp_ok n w0.1 → p ## q → Forall (λ j, (j < n)%nat) (p ++ q) →
  ∃ w', go_for (λ i w, w ← disconnect i (Z.of_nat <$> q) w; connect i (Z.of_nat <$> p) w)
          (Z.of_nat <$> p) w0 = Ret w' ∧ grp_ok n w'.1 ∧ side_done p q p w0 w'.
Proof.
  intros Hok Hpq Hr.
  destruct (go_for_ind (λ i w, w ← disconnect i (Z.of_nat <$> q) w; connect i (Z.of_nat <$> p) w)
    (λ dn w, ∃ dn', dn = Z.of_nat <$> dn' ∧ dn' ⊆ p ∧ grp_ok n w.1 ∧ side_done p q dn' w0 w)
    (Z.of_nat <$> p) [] w0) as (w' & E & dn' & Hdn & _ & Hok' & Hside).
  - exists []. split_and!; [done|set_solver|done|]. split_and!; try done; by intros ? ? ?%elem_of_nil || intros ? ?%elem_of_nil.
  - intros x dn [sg net] (i & -> & Hi)%list_elem_of_fmap (dn' & -> & Hsub & Hok1 & Hside).
    destruct (partition_turn n i p q dn' w0 sg net) as (w' & E & Hok2 & Hside'); try done.
    exists w'. split; [exact E|]. exists (dn' ++ [i]). rewrite fmap_app. split_and!; [done|set_solver|done|done].
  - cbn in Hdn. assert (dn' = p) as ->.
    { eapply (inj (fmap Z.of_nat)). done. }
    by exists w'.
Qed.

(** After [Partition], whatever the connections were, each server reaches exactly the servers
    of its own side. *)
Lemma Partition_links n p1 p2 w :
  grp_ok n w.1 → p1 ++ p2 ≡ₚ seq 0 n →
  ∃ w', Partition (Z.of_nat <$> p1) (Z.of_nat <$> p2) w = Ret w' ∧
    ∀ i j, (i < n)%nat → (j < n)%nat → link w' i j = bool_decide (i ∈ p1 ↔ j ∈ p1).
Proof.
  intros Hok Hperm.
  assert (∀ i, (i < n)%nat ↔ i ∈ p1 ∨ i ∈ p2) as Hin.
  { intros i. rewrite <- elem_of_app, Hperm, elem_of_seq. lia. }
  assert (p1 ## p2) as Hdis.
  { assert (NoDup (p1 ++ p2)) as Hnd by (rewrite Hperm; apply NoDup_seq).
    apply NoDup_app in Hnd as (_ & Hd & _). intros x. apply Hd. }
  assert (Forall (λ j, (j < n)%nat) (p1 ++ p2)) as Hr.
  { rewrite Hperm. apply Forall_forall. intros x. rewrite elem_of_seq. lia. }
  unfold Partition. destruct (partition_side n p1 p2 w) as (w1 & -> & Hok1 & S1); [done..|].
  rewrite bind_ret_l. destruct (partition_side n p2 p1 w1) as (w2 & -> & Hok2 & S2);
    [done|intros x H2 H1; by apply (Hdis x)|by rewrite Permutation_app_comm|].
  exists w2. split; [done|]. destruct S1 as (_ & A1 & A2 & _). destruct S2 as (_ & B1 & B2 & B3 & _).
  intros i j Hi%Hin Hj%Hin.
  assert (∀ x, x ∈ p1 → x ∈ p2 → False) as Hx by (intros x; apply Hdis).
  destruct Hi as [Hi|Hi], Hj as [Hj|Hj].
  - rewrite bool_decide_true by done. rewrite (B3 i j); [by apply A1|intros []; eauto..].
  - rewrite bool_decide_false by (intros [H _]; eauto). by apply (B2 j i).
  - rewrite bool_decide_false by (intros [_ H]; eauto). by apply (B2 i j).
  - rewrite bool_decide_true by (split; intros H; exfalso; eauto). by apply B1.
Qed.

(** ** [MakePartition] *)

(** The two slices after [vs] of the other servers have been placed. *)
Definition placed (h : nat) (vs : list Z) : list Z * list Z * Z :=
  (take (h + 1) vs ++ replicate (h + 1 - length vs) 0,
   drop (h + 1) vs ++ replicate (h - length (drop (h + 1) vs)) 0, zlen vs).

Lemma fill_next (l : list Z) k x :
  go_update (l ++ replicate (S k) 0) (zlen l) x = Ret ((l ++ [x]) ++ replicate k 0).
Proof.
  unfold zlen. rewrite go_update_nat by (rewrite length_app, length_replicate; lia).
  rewrite insert_app_r_alt, Nat.sub_diag by done. by rewrite <- app_assoc.
Qed.

Lemma MakePartition_turn h l vs x :
  (length vs < 2 * h)%nat → x ≠ l →
  (let '(p1, p2, j) := placed h vs in
   if decide (x ≠ l) then
     if decide (j < zlen p1) then p1 ← go_update p1 j x; Ret (p1, p2, j + 1)
     else p2 ← go_update p2 (j - zlen p1) x; Ret (p1, p2, j + 1)
   else Ret (p1, p2, j)) = Ret (placed h (vs ++ [x])).
Proof.
  intros Hlen Hx. unfold placed. rewrite decide_True by done.
  assert (zlen (take (h + 1) vs ++ replicate (h + 1 - length vs) 0) = Z.of_nat (h + 1)) as Hz.
  { unfold zlen. rewrite length_app, length_take, length_replicate. lia. }
  rewrite Hz, zlen_app. change (zlen [x]) with 1. destruct (decide (length vs < h + 1)%nat) as [Hlt|Hge].
  - rewrite decide_True by (unfold zlen; lia). rewrite take_ge by lia.
    replace (h + 1 - length vs)%nat with (S (h - length vs)) by lia. rewrite fill_next, bind_ret_l.
    rewrite take_ge, !drop_ge by (rewrite ?length_app; cbn; lia). rewrite length_app. cbn [length].
    do 5 f_equal. lia.
  - rewrite decide_False by (unfold zlen; lia).
    replace (zlen vs - Z.of_nat (h + 1)) with (zlen (drop (h + 1) vs)) by (unfold zlen; rewrite length_drop; lia).
    rewrite length_drop. replace (h - (length vs - (h + 1)))%nat with (S (h - (length vs - (h + 1)) - 1)) by lia.
    rewrite fill_next, bind_ret_l. rewrite take_app_le, drop_app_le, !length_app by lia.
    rewrite length_drop. cbn [length].
    replace (h + 1 - length vs)%nat with 0%nat by lia. replace (h + 1 - (length vs + 1))%nat with 0%nat by lia.
    do 4 f_equal. f_equal. lia.
Qed.

Lemma MakePartition_loop h l ids vs body :
  (∀ x '(p1, p2, j), body x (p1, p2, j) =
     if decide (x ≠ l) then
       if decide (j < zlen p1) then p1 ← go_update p1 j x; Ret (p1, p2, j + 1)
       else p2 ← go_update p2 (j - zlen p1) x; Ret (p1, p2, j + 1)
     else Ret (p1, p2, j)) →
  (length vs + length (filter (λ x, x ≠ l) ids) ≤ 2 * h)%nat →
  go_for body ids (placed h vs) = Ret (placed h (vs ++ filter (λ x, x ≠ l) ids)).
Proof.
  intros Hbody. revert vs. induction ids as [|x ids IH]; intros vs Hlen; cbn [go_for].
  { by rewrite app_nil_r. }
  rewrite filter_cons in Hlen |- *. specialize (Hbody x (placed h vs)). unfold placed at 1 in Hbody.
  unfold placed at 1. rewrite Hbody. case_decide as Hx.
  - pose proof (MakePartition_turn h l vs x) as Ht. unfold placed at 1 in Ht.
    rewrite decide_True in Ht by done. cbn in Hlen. rewrite Ht, bind_ret_l by (done || lia).
    rewrite IH by (rewrite length_app; cbn; lia). by rewrite <- app_assoc.
  - rewrite bind_ret_l. apply IH. done.
Qed.

Lemma MakePartition_odd h l sg :
  length (sg_srvs sg) = (2 * h + 1)%nat → (1 ≤ h)%nat → l ∈ all sg →
  let vs := filter (λ x, x ≠ l) (all sg) in
  MakePartition l sg = Ret (take (h + 1) vs, drop (h + 1) vs ++ [l]) ∧ length vs = (2 * h)%nat ∧
  vs ++ [l] ≡ₚ all sg.
Proof.
  intros Hlen Hh Hl vs.
  assert (vs ++ [l] ≡ₚ all sg) as Hperm.
  { apply filter_ne_Permutation; [|done]. apply NoDup_fmap_2; [apply _|apply NoDup_seq]. }
  assert (length vs = (2 * h)%nat) as Hvs.
  { apply Permutation_length in Hperm. rewrite length_app in Hperm. cbn in Hperm.
    unfold all in Hperm. rewrite length_fmap, length_seq in Hperm. lia. }
  split_and!; [|done|done]. unfold MakePartition.
  assert (zlen (sg_srvs sg) = 2 * Z.of_nat h + 1) as -> by (unfold zlen; lia).
  replace ((2 * Z.of_nat h + 1) `quot` 2) with (Z.of_nat h) by (apply Z.quot_unique with 1; lia).
  replace (Z.to_nat (Z.of_nat h + 1)) with (h + 1)%nat by lia. rewrite Nat2Z.id.
  pose proof (MakePartition_loop h l (all sg) [] (λ i '(p1, p2, j),
      if decide (i ≠ l) then
        if decide (j < zlen p1) then p1 ← go_update p1 j i; Ret (p1, p2, j + 1)
        else p2 ← go_update p2 (j - zlen p1) i; Ret (p1, p2, j + 1)
      else Ret (p1, p2, j))) as Hloop.
  unfold placed at 1 in Hloop. cbn [app take drop length zlen] in Hloop. rewrite take_nil, drop_nil in Hloop.
  cbn [app length] in Hloop. rewrite !Nat.sub_0_r in Hloop. change (zlen (A := Z) []) with 0 in Hloop.
  rewrite Hloop; [|by intros x [[p1 p2] j]|cbn; fold vs; lia]. rewrite bind_ret_l. fold vs. unfold placed.
  rewrite length_drop, Hvs. replace (h + 1 - 2 * h)%nat with 0%nat by lia.
  replace (h - (2 * h - (h + 1)))%nat with 1%nat by lia. cbn [replicate]. rewrite app_nil_r.
  rewrite zlen_app. change (zlen [0]) with 1. rewrite Z.add_simpl_r.
  pose proof (fill_next (drop (h + 1) vs) 0 l) as Hf. cbn [replicate] in Hf.
  rewrite Hf, bind_ret_l. by rewrite app_nil_r.
Qed.

(** In a group of an odd number of at least three servers, the two sides [MakePartition]
    chooses for leader [l] split the group with [l] in the smaller one, and after [Partition]
    by them each server reaches exactly its own side: the leader is cut off from a majority. *)
Theorem leader_cut_off h l w :
  grp_ok (2 * h + 1) w.1 → (1 ≤ h)%nat → (l < 2 * h + 1)%nat →
  ∃ p1 p2 w', MakePartition (Z.of_nat l) w.1 = Ret (Z.of_nat <$> p1, Z.of_nat <$> p2) ∧
    p1 ++ p2 ≡ₚ seq 0 (2 * h + 1) ∧ l ∈ p2 ∧ length p2 = h ∧
    Partition (Z.of_nat <$> p1) (Z.of_nat <$> p2) w = Ret w' ∧
    ∀ i j, (i < 2 * h + 1)%nat → (j < 2 * h + 1)%nat → link w' i j = bool_decide (i ∈ p1 ↔ j ∈ p1).
Proof.
  intros Hok Hh Hl. set (vs := filter (λ x, x ≠ l) (seq 0 (2 * h + 1))).
  assert (filter (λ x, x ≠ Z.of_nat l) (all w.1) = Z.of_nat <$> vs) as Hvs.
  { unfold all, vs. rewrite (gk_srvs _ _ Hok). generalize (seq 0 (2 * h + 1)). intros s.
    induction s as [|x s IH]; [done|]. cbn [fmap list_fmap]. rewrite !filter_cons.
    destruct (decide (x = l)) as [->|Hne].
    - rewrite !decide_False by naive_solver. exact IH.
    - rewrite !decide_True by (done || intros ?%Nat2Z.inj; done). cbn. by rewrite IH. }
  destruct (MakePartition_odd h (Z.of_nat l) w.1) as (Hmp & Hlen & Hperm); [apply (gk_srvs _ _ Hok)|done| |].
  { unfold all. apply list_elem_of_fmap. exists l. rewrite (gk_srvs _ _ Hok), elem_of_seq. split; [done|lia]. }
  rewrite Hvs in Hmp, Hlen, Hperm. rewrite length_fmap in Hlen.
  rewrite <- fmap_take, <- fmap_drop in Hmp. change [Z.of_nat l] with (Z.of_nat <$> [l]) in Hmp.
  rewrite <- fmap_app in Hmp.
  assert (take (h + 1) vs ++ drop (h + 1) vs ++ [l] ≡ₚ seq 0 (2 * h + 1)) as Hperm'.
  { rewrite app_assoc, take_drop. apply filter_ne_Permutation; [apply NoDup_seq|].
    rewrite elem_of_seq. lia. }
  destruct (Partition_links (2 * h + 1) (take (h + 1) vs) (drop (h + 1) vs ++ [l]) w Hok Hperm') as (w' & Hw & Hlinks).
  exists (take (h + 1) vs), (drop (h + 1) vs ++ [l]), w'.
  split_and!; [done|done| | |done|done].
  - rewrite elem_of_app, list_elem_of_singleton. by right.
  - rewrite length_app, length_drop, Hlen. cbn. lia.
Qed.

(** ** Restarting a server *)

Lemma MakeEnd_fresh name net :
  name ∉ nw_ends net →
  MakeEnd name net = Ret (net <| nw_ends := {[name]} ∪ nw_ends net |>
                              <| nw_enabled := <[name := false]> (nw_enabled net) |>
                              <| nw_connections := <[name := None]> (nw_connections net) |>).
Proof. intros Hn. unfold MakeEnd. by rewrite decide_False. Qed.

Lemma make_ends_fresh gid j names net :
  NoDup names → (∀ e, e ∈ names → e ∉ nw_ends net) →
  ∃ net', make_ends gid j names net = Ret net' ∧ nw_servers net' = nw_servers net ∧
    (∀ e, e ∈ names → enabled_of net' e = false) ∧
    (∀ k e, names !! k = Some e → connection_of net' e = Some (ServerName gid (Z.of_nat (j + k)))) ∧
    (∀ e, e ∉ names → enabled_of net' e = enabled_of net e ∧ connection_of net' e = connection_of net e) ∧
    (∀ e, e ∈ nw_ends net' ↔ e ∈ names ∨ e ∈ nw_ends net).
Proof.
  intros Hnd. revert j net. induction Hnd as [|name names Hnin Hnd IH]; intros j net Hfresh; cbn.
  { exists net. split_and!; try done; [by intros e ?%elem_of_nil|]. intros e. rewrite elem_of_nil. naive_solver. }
  rewrite MakeEnd_fresh by (apply Hfresh; left). rewrite bind_ret_l.
  destruct (IH (S j) (Connect name (ServerName gid (Z.of_nat j)) (net <| nw_ends := {[name]} ∪ nw_ends net |>
      <| nw_enabled := <[name := false]> (nw_enabled net) |>
      <| nw_connections := <[name := None]> (nw_connections net) |>))) as (net' & -> & Hs & He & Hc & Ho & Hx).
  { intros e Hin. cbn. rewrite not_elem_of_union, not_elem_of_singleton. split; [by intros ->|].
    apply Hfresh. by right. }
  destruct (Ho name Hnin) as [Ho1 Ho2]. exists net'. split_and!; [done|done| | | |].
  - intros e [->|Hin]%elem_of_cons; [|by apply He]. rewrite Ho1. unfold enabled_of. cbn.
    by rewrite lookup_insert_eq.
  - intros [|k] e Hk; cbn in Hk.
    + simplify_eq. rewrite Ho2, Nat.add_0_r. unfold connection_of. cbn. by rewrite lookup_insert_eq.
    + rewrite (Hc k e Hk). do 3 f_equal. lia.
  - intros e [Hne Hnin']%not_elem_of_cons. destruct (Ho e Hnin') as [-> ->].
    unfold enabled_of, connection_of. cbn. by rewrite !lookup_insert_ne.
  - intros e. rewrite Hx, elem_of_cons. cbn. rewrite elem_of_union, elem_of_singleton. naive_solver.
Qed.

(** A fresh group is well formed. *)
Lemma makeSrvGrp_loop gid names srvs net :
  NoDup (concat names) → (∀ e, e ∈ concat names → e ∉ nw_ends net) →
  ∃ net', go_for (λ ns '(srvs, net), '(s, net) ← makeServer gid ns net; Ret (srvs ++ [s], net))
            names (srvs, net) =
          Ret (srvs ++ ((λ ns, {| sv_endNames := ns; sv_saved := None; sv_dc := None |}) <$> names), net') ∧
    ∀ e, e ∈ nw_ends net' ↔ e ∈ concat names ∨ e ∈ nw_ends net.
Proof.
  revert srvs net. induction names as [|ns names IH]; intros srvs net Hnd Hfresh; cbn [go_for].
  { exists net. rewrite app_nil_r. split; [done|]. intros e. cbn. rewrite elem_of_nil. naive_solver. }
  cbn [concat] in Hnd, Hfresh. apply NoDup_app in Hnd as (Hn1 & Hn2 & Hn3).
  destruct (make_ends_fresh gid 0 ns net Hn1) as (net1 & E & _ & _ & _ & _ & Hx).
  { intros e He. apply Hfresh. rewrite elem_of_app. by left. }
  unfold makeServer. rewrite E, !bind_ret_l.
  destruct (IH (srvs ++ [{| sv_endNames := ns; sv_saved := None; sv_dc := None |}]) net1 Hn3) as (net2 & E2 & Hx2).
  { intros e He [Hns|Hin]%Hx; [by apply (Hn2 e)|]. apply (Hfresh e); [rewrite elem_of_app; by right|done]. }
  exists net2. unfold makeServer in E2. rewrite E2. split; [cbn; by rewrite <- app_assoc|].
  intros e. cbn [concat]. rewrite Hx2, Hx, elem_of_app. naive_solver.
Qed.

Lemma NoDup_concat_lookup {A} (ls : list (list A)) i i' j j' l l' x :
  NoDup (concat ls) → ls !! i = Some l → l !! j = Some x → ls !! i' = Some l' → l' !! j' = Some x →
  i = i' ∧ j = j'.
Proof.
  revert i i'. induction ls as [|l0 ls IH]; intros i i' Hnd Hi Hj Hi' Hj'; [done|].
  cbn in Hnd. apply NoDup_app in Hnd as (Hn1 & Hn2 & Hn3).
  assert (∀ k m, ls !! k = Some m → x ∈ m → x ∈ l0 → False) as Hd.
  { intros k m Hk Hm Hx0. apply (Hn2 x Hx0). apply list_elem_of_In, in_concat. exists m.
    split; apply list_elem_of_In; [by eapply list_elem_of_lookup_2|done]. }
  destruct i as [|i], i' as [|i']; cbn in Hi, Hi'; simplify_eq.
  - split; [done|]. by eapply (NoDup_lookup _ j j' x Hn1).
  - exfalso. eapply Hd; [exact Hi'|by eapply list_elem_of_lookup_2..].
  - exfalso. eapply Hd; [exact Hi|by eapply list_elem_of_lookup_2..].
  - destruct (IH i i') as [-> ->]; done.
Qed.

Lemma makeSrvGrp_ok gid names net :
  NoDup (concat names) → (∀ e, e ∈ concat names → e ∉ nw_ends net) →
  Forall (λ ns, length ns = length names) names →
  ∃ w, makeSrvGrp gid names net = Ret w ∧ grp_ok (length names) w.1 ∧ sg_gid w.1 = gid ∧
    sg_srvs w.1 = (λ ns, {| sv_endNames := ns; sv_saved := None; sv_dc := None |}) <$> names ∧
    ∀ e, e ∈ nw_ends w.2 ↔ e ∈ concat names ∨ e ∈ nw_ends net.
Proof.
  intros Hnd Hfresh Hlen. unfold makeSrvGrp.
  destruct (makeSrvGrp_loop gid names [] net Hnd Hfresh) as (net' & E & Hx). rewrite E, bind_ret_l.
  eexists. split; [done|]. split; [|done]. split; cbn.
  - by rewrite length_fmap.
  - by rewrite length_replicate.
  - intros i j Hi Hj. unfold end_at. cbn. rewrite list_lookup_fmap.
    destruct (lookup_lt_is_Some_2 names i Hi) as [ns Hns]. rewrite Hns. cbn.
    apply lookup_lt_is_Some_2. eapply Forall_lookup in Hlen as ->; done.
  - intros i j i' j' e. unfold end_at. cbn. rewrite !list_lookup_fmap.
    destruct (names !! i) as [ns|] eqn:Hi; [|done]. destruct (names !! i') as [ns'|] eqn:Hi'; [|done].
    cbn. intros Hj Hj'. by eapply (NoDup_concat_lookup names i i' j j' ns ns').
Qed.

Lemma persister_roundtrip p : daemon_init (checkpointPersister p) = p.
Proof. by destruct p. Qed.

(** Connecting and disconnecting makes no end and removes none. *)
Definition same_ends (net net' : Network) : Prop := nw_ends net' = nw_ends net.
#[local] Instance same_ends_preorder : PreOrder same_ends.
Proof. split; [by intros ?|intros ???; unfold same_ends; congruence]. Qed.

Lemma disconnect_ends i from sg net sg' net' :
  disconnect i from (sg, net) = Ret (sg', net') → nw_ends net' = nw_ends net.
Proof.
  unfold disconnect, Server_disconnect. intros (sg1 & _ & E)%bind_ret_inv.
  apply bind_ret_inv in E as (net1 & E1 & E). apply bind_ret_inv in E as (net2 & E2 & [= <- <-]).
  change (same_ends net net2). transitivity net1; [eapply go_for_rel; [apply _| |exact E1]|
    eapply go_for_rel; [apply _| |exact E2]]; intros j n n' (e & _ & [= <-])%bind_ret_inv; done.
Qed.

(** A running server that is shut down and started again, with fresh end names, is started on
    exactly the Raft state and snapshot it last saved before the tester's checkpoint, whatever
    it saved between that and its end; in between the network has no
    server under its name, and afterwards its new ends lead to the right servers and are
    disabled until it is connected. *)
Theorem restart_keeps_state n sg net lives i s p names labsrv :
  grp_ok n sg → (i < n)%nat → sg_srvs sg !! i = Some s → sv_dc s = Some p →
  NoDup names → (∀ e, e ∈ names → e ∉ nw_ends net) →
  ∃ w1 w2 s', Group_ShutdownServer lives (Z.of_nat i) (sg, net) = Ret w1 ∧
    server_of w1.2 (ServerName (sg_gid sg) (Z.of_nat i)) = None ∧
    StartServer (Z.of_nat i) names labsrv w1 = Ret w2 ∧ sg_srvs w2.1 !! i = Some s' ∧
    sv_dc s' = Some (runs_on (lf_saves (lives (Z.of_nat i))) p) ∧ sv_endNames s' = names ∧
    server_of w2.2 (ServerName (sg_gid sg) (Z.of_nat i)) = Some labsrv ∧
    ∀ k e, names !! k = Some e → enabled_of w2.2 e = false ∧
      connection_of w2.2 e = Some (ServerName (sg_gid sg) (Z.of_nat k)).
Proof.
  intros Hok Hi Hs Hdc Hnd Hfresh. unfold Group_ShutdownServer, all. cbn [fst snd].
  rewrite (gk_srvs n sg Hok).
  destruct (disconnect_spec n i (seq 0 n) sg net Hok Hi) as (net1 & E1 & _).
  { apply Forall_forall. intros x. rewrite elem_of_seq. lia. }
  rewrite E1, bind_ret_l. cbn [sg_srvs update]. erewrite go_index_nat by exact Hs. rewrite bind_ret_l.
  rewrite go_update_nat, bind_ret_l by (rewrite (gk_srvs n sg Hok); done).
  unfold shutdownServer. rewrite Hdc. eexists. cbn [sg_gid update].
  destruct (make_ends_fresh (sg_gid sg) 0 names
    (DeleteServer (ServerName (sg_gid sg) (Z.of_nat i)) net1) Hnd) as (net' & Em & Hsv & He & Hc & _ & _).
  { intros e Hin. cbn. rewrite (disconnect_ends _ _ _ _ _ _ E1). by apply Hfresh. }
  eexists _, _. split; [done|]. cbn [snd]. split.
  { unfold server_of. cbn. by rewrite lookup_insert_eq. }
  split.
  { unfold StartServer. cbn [sg_srvs update].
    rewrite (go_index_nat _ _ _ (lookup_insert_same _ _ _ _ Hs)), bind_ret_l.
    unfold startServer, makeServer. cbn [sg_gid update]. rewrite Em, !bind_ret_l.
    rewrite go_update_nat, bind_ret_l by (rewrite length_insert, (gk_srvs n sg Hok); done). done. }
  cbn. split.
  { apply list_lookup_insert_eq. by rewrite length_insert, (gk_srvs n sg Hok). }
  cbn. rewrite persister_roundtrip. split_and!; [done|done| |].
  - unfold server_of. cbn. by rewrite lookup_insert_eq.
  - intros k e Hk. split; [|by apply Hc]. apply He. by eapply list_elem_of_lookup_2.
Qed.

(** ** Clients *)

Lemma enable_ends_other ro sel yes clnt net e :
  (∀ l, ro l ≡ₚ l) → (∀ srv, cl_ends clnt !! srv = Some e → sel srv = false) →
  enabled_of (enable_ends ro sel yes clnt net) e = enabled_of net e.
Proof.
  intros Hro Hsel. unfold enable_ends.
  assert (∀ x, x ∈ ro (map_to_list (cl_ends clnt)) → x.2 = e → sel x.1 = false) as Hall.
  { intros [srv name] Hx <-. apply Hsel. rewrite Hro in Hx. by apply elem_of_map_to_list in Hx. }
  revert net Hall. generalize (ro (map_to_list (cl_ends clnt))). intros l.
  induction l as [|[srv name] l IH]; intros net Hall; [done|]. cbn. rewrite IH.
  - destruct (sel srv) eqn:Hs; [|done]. rewrite enabled_Enable, decide_False; [done|].
    intros ->. specialize (Hall (srv, e) ltac:(left) eq_refl). cbn in Hall. congruence.
  - intros x Hx. apply Hall. by right.
Qed.

(** [ConnectTo] never disables an end: a server that is not in the new list stays reachable
    over an end made before. *)
Lemma ConnectTo_keeps_others ro srvs clnt net srv e :
  (∀ l, ro l ≡ₚ l) → cl_ends clnt !! srv = Some e → srv ∉ srvs →
  (∀ srv', cl_ends clnt !! srv' = Some e → srv' = srv) →
  enabled_of (ConnectTo ro srvs (clnt, net)).2 e = enabled_of net e.
Proof.
  intros Hro He Hn Hinj. cbn. apply enable_ends_other; [done|]. intros srv' ->%Hinj.
  unfold allowedL. cbn. by rewrite bool_decide_false.
Qed.

(** ** Examples: a group of three *)

Definition names3 : list (list string) := [["a0"; "a1"; "a2"]; ["b0"; "b1"; "b2"]; ["c0"; "c1"; "c2"]].

Lemma names3_fresh e : e ∈ concat names3 → e ∉ nw_ends MakeNetwork.
Proof. intros _. apply not_elem_of_empty. Qed.

Lemma names3_NoDup : NoDup (concat names3).
Proof. apply (bool_decide_unpack _). vm_compute. exact I. Qed.

Lemma leader_cut_off_witness :
  ∃ w w' p1 p2, makeSrvGrp 0 names3 MakeNetwork = Ret w ∧ MakePartition 0 w.1 = Ret (p1, p2) ∧
    Partition p1 p2 w = Ret w' ∧ link w' 1 2 = true ∧ link w' 0 1 = false ∧ link w' 2 0 = false.
Proof.
  destruct (makeSrvGrp_ok 0 names3 MakeNetwork names3_NoDup names3_fresh) as (w & E & Hok & _);
    [repeat constructor|].
  destruct (leader_cut_off 1 0 w Hok) as (p1 & p2 & w' & Hmp & Hperm & Hl & Hlen & Hpart & Hlinks); [lia..|].
  exists w, w', (Z.of_nat <$> p1), (Z.of_nat <$> p2). split; [exact E|]. split; [exact Hmp|].
  split; [exact Hpart|].
  assert (∀ i, (i < 3)%nat → i ≠ 0%nat → i ∈ p1) as H1.
  { intros i Hi Hne. assert (i ∈ p1 ++ p2) as [|H2]%elem_of_app; [|done|].
    - rewrite Hperm, elem_of_seq. lia.
    - destruct p2 as [|x [|]]; [done| |cbn in Hlen; lia]. apply list_elem_of_singleton in Hl, H2. congruence. }
  assert (0%nat ∉ p1) as H0.
  { intros Hin. assert (NoDup (p1 ++ p2)) as Hnd by (rewrite Hperm; apply NoDup_seq).
    apply NoDup_app in Hnd as (_ & Hd & _). by apply (Hd 0%nat). }
  rewrite !Hlinks by lia. split_and!.
  - apply bool_decide_true. split; intros _; apply H1; lia.
  - apply bool_decide_false. intros [_ H]. apply H0, H, H1; lia.
  - apply bool_decide_false. intros [H _]. apply H0, H, H1; lia.
Defined.

Definition server0 : Server :=
  {| sv_endNames := ["a0"]; sv_saved := None;
     sv_dc := Some {| raftstate := [1; 2]; snapshot := [3] |} |}.
Definition group1 : ServerGrp :=
  {| sg_srvs := [server0]; sg_servernames := ["server-0-0"]; sg_gid := 0; sg_connected := [true] |}.

Lemma group1_ok : grp_ok 1 group1.
Proof.
  split; [done|done| |].
  - intros [|i] [|j] Hi Hj; try lia. by eexists.
  - intros [|i] [|j] [|i'] [|j'] e; cbn; try done.
Qed.

Lemma restart_keeps_state_witness :
  ∃ w1 w2 s', Group_ShutdownServer (λ _, {| lf_saves := [([1; 2; 4], [3])]; lf_late := [([9], [])] |})
      0 (group1, MakeNetwork) = Ret w1 ∧
    StartServer 0 ["b0"] 7 w1 = Ret w2 ∧ sg_srvs w2.1 !! 0%nat = Some s' ∧
    sv_dc s' = Some {| raftstate := [1; 2; 4]; snapshot := [3] |}.
Proof.
  destruct (restart_keeps_state 1 group1 MakeNetwork (λ _, {| lf_saves := [([1; 2; 4], [3])]; lf_late := [([9], [])] |})
    0 server0 _ ["b0"] 7 group1_ok ltac:(lia) eq_refl eq_refl)
    as (w1 & w2 & s' & H1 & _ & H2 & H3 & H4 & _).
  - apply NoDup_singleton.
  - intros e _. apply not_elem_of_empty.
  - exists w1, w2, s'. split; [exact H1|]. split; [exact H2|]. split; [exact H3|exact H4].
Defined.
