(* ===== verification/TesterConfig.v ===== *)
(** * The configuration of a test

    [src/src/tester1/config.go]: a test's network, server groups and clients under one
    record, with the statistics that [Begin] and [End] print, the limit on a test's time,
    [Cleanup], and the two uses of randomness, [Randstring] and [random_handles].

    Time is in nanoseconds and comes in as an argument; so do the random names, the numbers
    of the network servers and the orders in which Go ranges over its maps.  The tester's own
    socket server is known by the services added to it and whether it is open
    ([Sockrpc.v] models what it does).  The pretty-printing of [Fatalf] and of [End]'s line
    is left out; the numbers of the line are kept. *)
From Stdlib Require Import Ascii.
From stdpp Require Import base tactics numbers list list_numbers fin_maps gmap strings pretty.
From S2P Require Import Prelude GoLib GoStrconv LabRpc TesterNet TesterGroups Annotation.

Definition GRP0 : Z := 0.

(** What a test prints: the line of [Begin] and the numbers in the line of [End]. *)
Inductive test_line :=
  | Begun (description : string) (reliable : bool)
  | Passed (time npeers nrpc ops : Z).

Record Config := {
  cf_groups : Groups; cf_clnts : Clnts; cf_net : Network;
  cf_failed : bool;
  cf_start : Z; cf_t0 : Z; cf_rpcs0 : Z; cf_ops : Z;
  cf_trpc : option (list string * bool);
  cf_out : list test_line
}.
#[export] Instance eta_Config : Eta Config := λ c,
  {| cf_groups := cf_groups c; cf_clnts := cf_clnts c; cf_net := cf_net c; cf_failed := cf_failed c;
     cf_start := cf_start c; cf_t0 := cf_t0 c; cf_rpcs0 := cf_rpcs0 c; cf_ops := cf_ops c;
     cf_trpc := cf_trpc c; cf_out := cf_out c |}.

(** ** Groups, clients and the network *)

Definition Group (gid : Z) (cfg : Config) : option ServerGrp := lookupGroup gid (cf_groups cfg).

(** A method of [cfg.Group(gid)]; on a group that does not exist it reads through nil. *)
Definition on_group (gid : Z) (f : world → outcome world) (cfg : Config) : outcome Config :=
  match Group gid cfg with
  | None => Panic "nil pointer dereference"
  | Some sg =>
      '(sg, net) ← f (sg, cf_net cfg);
      Ret (cfg <| cf_groups := <[gid := sg]> (cf_groups cfg) |> <| cf_net := net |>)
  end.

Definition MakeGroupStart (gid : Z) (names : list (list string)) (fresh : list (list string * nat))
    (cfg : Config) : outcome Config :=
  '(gs, net) ← MakeGroup gid names (cf_groups cfg, cf_net cfg);
  on_group gid (StartServers fresh) (cfg <| cf_groups := gs |> <| cf_net := net |>).

Definition ExitGroup (lives : Z → life) (gid : Z) (cfg : Config) : outcome Config :=
  cfg ← on_group gid (Shutdown lives) cfg;
  Ret (cfg <| cf_groups := Groups_delete gid (cf_groups cfg) |>).

(** [n] is the length of [names]; [now] is [cfg.start]. *)
Definition MakeConfig (names : list (list string)) (reliable : bool)
    (fresh : list (list string * nat)) (now : Z) : outcome Config :=
  let cfg := {| cf_groups := ∅; cf_clnts := ∅; cf_net := MakeNetwork; cf_failed := false;
                cf_start := 0; cf_t0 := 0; cf_rpcs0 := 0; cf_ops := 0;
                cf_trpc := Some (["TesterRPC"], true); cf_out := [] |} in
  cfg ← MakeGroupStart GRP0 names fresh cfg;
  Ret (cfg <| cf_clnts := makeClnts |> <| cf_start := now |>
           <| cf_net := Reliable reliable (cf_net cfg) |>).

Definition SetReliable (reliable : bool) (cfg : Config) : Config :=
  cfg <| cf_net := Reliable reliable (cf_net cfg) |>.
Definition Config_IsReliable (cfg : Config) : bool := IsReliable (cf_net cfg).
Definition SetLongReordering (longrel : bool) (cfg : Config) : Config :=
  cfg <| cf_net := LongReordering longrel (cf_net cfg) |>.
Definition SetLongDelays (longdel : bool) (cfg : Config) : Config :=
  cfg <| cf_net := LongDelays longdel (cf_net cfg) |>.

Definition Config_AddService (svc : string) (cfg : Config) : Config :=
  match cf_trpc cfg with
  | Some (svcs, open) => cfg <| cf_trpc := Some (svcs ++ [svc], open) |>
  | None => cfg
  end.

(** [ids] and [gids] list the clients and the groups in the order Go ranges over them, [ro]
    orders the ends of one client and [co] the annotations that go on.  The annotations'
    [cleanup] has the value of [VIS_ENABLE], whether the file could be opened and two
    timestamps, and returns what it writes. *)
Definition Cleanup (ro : list (string * string) → list (string * string)) (ids : list nat)
    (lives : Z → Z → life) (gids : list Z) (co : list (string * Continuous) → list (string * Continuous))
    (enabled : string) (opened : bool) (t1 t2 : Z) (an : Annotation) (cfg : Config)
    : outcome (Config * (option (list PAnnotation) * Annotation)) :=
  '(clnts, net) ← Clnts_cleanup ro ids (cf_clnts cfg, cf_net cfg);
  '(gs, net) ← Groups_cleanup lives gids (cf_groups cfg, net);
  let cfg := cfg <| cf_clnts := clnts |> <| cf_groups := gs |> <| cf_net := Network_Cleanup net |>
                 <| cf_trpc := (λ t, (t.1, false)) <$> cf_trpc cfg |> in
  Ret (cfg, if cf_failed cfg then cleanup co enabled opened true "test failed" t1 t2 an
            else cleanup co enabled opened false "test passed" t1 t2 an).

(** ** Statistics and the limit on time *)

Definition RpcTotal (cfg : Config) : Z := GetTotalCount (cf_net cfg).
Definition BytesTotal (cfg : Config) : Z := GetTotalBytes (cf_net cfg).

Definition Begin (description : string) (now : Z) (cfg : Config) : Config :=
  cfg <| cf_out := cf_out cfg ++ [Begun description (IsReliable (cf_net cfg))] |>
      <| cf_t0 := now |> <| cf_rpcs0 := RpcTotal cfg |> <| cf_ops := 0 |>.

(** [atomic.AddInt32] *)
Definition OpInc (cfg : Config) : Config := cfg <| cf_ops := i32 (cf_ops cfg + 1) |>.

Definition time_limit : Z := 120 * 10 ^ 9.

Definition CheckTimeout (now : Z) (cfg : Config) : outcome Config :=
  if decide (cf_failed cfg = false ∧ now - cf_start cfg > time_limit)
  then Fatal "test took longer than 120 seconds" else Ret cfg.

(** The two reads of the clock, in [CheckTimeout] and after it. *)
Definition End_ (now1 now2 : Z) (cfg : Config) : outcome Config :=
  cfg ← CheckTimeout now1 cfg;
  if cf_failed cfg then Ret cfg
  else
    match Group GRP0 cfg with
    | None => Panic "nil pointer dereference"
    | Some sg =>
        Ret (cfg <| cf_out := cf_out cfg ++
               [Passed (now2 - cf_t0 cfg) (N sg) (RpcTotal cfg - cf_rpcs0 cfg) (cf_ops cfg)] |>)
    end.

(** ** Randomness *)

(** [rand] is what [crand.Read] puts into a buffer of that length. *)
Definition Randstring (rand : nat → list Z) (n : Z) : outcome string :=
  if decide (n < 0) then Panic "makeslice: len out of range"
  else
    let s := EncodeToString (rand (Z.to_nat (2 * n))) in
    if decide (n ≤ Z.of_nat (String.length s)) then Ret (String.substring 0 (Z.to_nat n) s)
    else Panic "slice bounds out of range".

(** [draw i] is [rand.Intn(i+1)] of round [i]; [copy] makes [sa] a slice of its own. *)
Definition swap {A} (i j : Z) (sa : list A) : outcome (list A) :=
  x ← go_index sa j; y ← go_index sa i;
  sa ← go_update sa i x; go_update sa j y.

Definition random_handles {A} (draw : nat → Z) (kvh : list A) : outcome (list A) :=
  go_for (λ i sa, swap (Z.of_nat i) (draw i) sa) (seq 0 (length kvh)) kvh.

(** ** A group that starts *)

(** What enabling ends leaves alone. *)
Definition same_wiring (net net' : Network) : Prop :=
  nw_ends net' = nw_ends net ∧ nw_servers net' = nw_servers net ∧
  nw_connections net' = nw_connections net.
#[local] Instance same_wiring_preorder : PreOrder same_wiring.
Proof. split; [by intros ?|intros ??? (?&?&?) (?&?&?); split_and!; congruence]. Qed.

Lemma connect_wiring i to sg net sg' net' :
  connect i to (sg, net) = Ret (sg', net') → same_wiring net net'.
Proof.
  unfold connect, Server_connect. intros (sg1 & _ & E)%bind_ret_inv.
  apply bind_ret_inv in E as (net1 & E1 & E). apply bind_ret_inv in E as (net2 & E2 & [= <- <-]).
  transitivity net1; [eapply go_for_rel; [apply _| |exact E1]|eapply go_for_rel; [apply _| |exact E2]];
    intros j m m' ([] & _ & E)%bind_ret_inv.
  1,3: by apply bind_ret_inv in E as (e & _ & [= <-]).
  all: by injection E as <-.
Qed.

Lemma disconnect_wiring i from sg net sg' net' :
  disconnect i from (sg, net) = Ret (sg', net') → same_wiring net net'.
Proof.
  unfold disconnect, Server_disconnect. intros (sg1 & _ & E)%bind_ret_inv.
  apply bind_ret_inv in E as (net1 & E1 & E). apply bind_ret_inv in E as (net2 & E2 & [= <- <-]).
  transitivity net1; [eapply go_for_rel; [apply _| |exact E1]|eapply go_for_rel; [apply _| |exact E2]];
    by intros j m m' (e & _ & [= <-])%bind_ret_inv.
Qed.

(** Every end of the group is on the network, so fresh names are new to the group too. *)
Definition ends_in (sg : ServerGrp) (net : Network) : Prop :=
  ∀ i j e, end_at sg i j = Some e → e ∈ nw_ends net.

(** Server [i]'s ends lead to the servers of their positions. *)
Definition routed (sg : ServerGrp) (net : Network) (i : nat) : Prop :=
  ∀ j e, end_at sg i j = Some e → connection_of net e = Some (ServerName (sg_gid sg) (Z.of_nat j)).

Definition restarted (names : list string) (s : Server) : Server :=
  let p := default MakePersister (sv_saved s) in
  {| sv_endNames := names; sv_saved := Some p; sv_dc := Some (daemon_init p) |}.

Lemma end_at_set sg i s i' j :
  (i < length (sg_srvs sg))%nat →
  end_at (sg <| sg_srvs := <[i := s]> (sg_srvs sg) |>) i' j =
    if decide (i' = i) then sv_endNames s !! j else end_at sg i' j.
Proof.
  intros Hi. unfold end_at. cbn. rewrite list_lookup_insert. repeat case_decide; naive_solver.
Qed.

Lemma grp_ok_restart n sg net i names s :
  grp_ok n sg → ends_in sg net → (i < n)%nat → length names = n → NoDup names →
  (∀ e, e ∈ names → e ∉ nw_ends net) → sv_endNames s = names →
  grp_ok n (sg <| sg_srvs := <[i := s]> (sg_srvs sg) |>).
Proof.
  intros [H1 H2 H3 H4] Hin Hi Hlen Hnd Hfresh <-.
  assert (i < length (sg_srvs sg))%nat as Hi' by (by rewrite H1).
  split; [cbn; by rewrite length_insert|done| |].
  - intros i' j Hi0 Hj. rewrite end_at_set by done. case_decide; [|auto].
    apply lookup_lt_is_Some. by rewrite Hlen.
  - intros i1 j1 i2 j2 e. rewrite !end_at_set by done. repeat case_decide; subst.
    + intros Ha Hb. split; [done|]. by eapply NoDup_lookup.
    + intros Ha Hb. exfalso. eapply Hfresh; [by eapply list_elem_of_lookup_2|by eapply Hin].
    + intros Hb Ha. exfalso. eapply Hfresh; [by eapply list_elem_of_lookup_2|by eapply Hin].
    + apply H4.
Qed.

Lemma StartServer_spec n sg net i s names labsrv :
  grp_ok n sg → ends_in sg net → sg_srvs sg !! i = Some s → length names = n → NoDup names →
  (∀ e, e ∈ names → e ∉ nw_ends net) →
  let sg' := sg <| sg_srvs := <[i := restarted names s]> (sg_srvs sg) |> in
  ∃ net', StartServer (Z.of_nat i) names labsrv (sg, net) = Ret (sg', net') ∧
    grp_ok n sg' ∧ ends_in sg' net' ∧ routed sg' net' i ∧
    (∀ i', i' ≠ i → routed sg net i' → routed sg' net' i') ∧
    nw_servers net' = <[ServerName (sg_gid sg) (Z.of_nat i) := Some labsrv]> (nw_servers net) ∧
    ∀ e, e ∈ nw_ends net' ↔ e ∈ names ∨ e ∈ nw_ends net.
Proof.
  intros Hok Hin Hs Hlen Hnd Hfresh sg'.
  assert (i < length (sg_srvs sg))%nat as Hi by by eapply lookup_lt_Some.
  destruct (make_ends_fresh (sg_gid sg) 0 names net Hnd Hfresh) as (net1 & Em & Hsv & _ & Hc & Ho & Hx).
  exists (AddServer (ServerName (sg_gid sg) (Z.of_nat i)) labsrv net1). split_and!.
  - unfold StartServer. rewrite (go_index_nat _ _ _ Hs), bind_ret_l. unfold startServer, makeServer.
    rewrite Em, !bind_ret_l. by rewrite go_update_nat, bind_ret_l.
  - eapply grp_ok_restart; try done. by rewrite <- (gk_srvs n sg Hok).
  - intros i' j e. unfold sg'. rewrite end_at_set by done. cbn [AddServer nw_ends update]. rewrite Hx.
    case_decide; [left; by eapply list_elem_of_lookup_2|right; by eapply Hin].
  - intros j e. unfold sg'. rewrite end_at_set, decide_True by done. apply Hc.
  - intros i' Hne Hr j e. unfold sg'. rewrite end_at_set, decide_False by done. intros He.
    etrans; [apply Ho|by apply Hr]. intros ?. eapply Hfresh; [done|by eapply Hin].
  - cbn. by rewrite Hsv.
  - intros e. apply Hx.
Qed.

Lemma ServerName_same gid i j : ServerName gid i = ServerName gid j → i = j.
Proof. unfold ServerName. intros H. by do 4 apply (inj _) in H. Qed.

(** [StartSrvs] over the servers from [k] on. *)
Lemma StartSrvs_spec n k fresh sg net :
  grp_ok n sg → ends_in sg net → (k + length fresh)%nat = n →
  Forall (λ f, length f.1 = n) fresh → NoDup (concat (fresh.*1)) →
  (∀ e, e ∈ concat (fresh.*1) → e ∉ nw_ends net) → (∀ i, (i < k)%nat → routed sg net i) →
  ∃ sg' net', StartSrvs (zip (Z.of_nat <$> seq k (length fresh)) fresh) (sg, net) = Ret (sg', net') ∧
    grp_ok n sg' ∧ sg_gid sg' = sg_gid sg ∧ sg_connected sg' = sg_connected sg ∧
    (∀ i, (i < n)%nat → routed sg' net' i) ∧
    (∀ i, (i < k)%nat → sg_srvs sg' !! i = sg_srvs sg !! i ∧
       server_of net' (ServerName (sg_gid sg) (Z.of_nat i)) =
       server_of net (ServerName (sg_gid sg) (Z.of_nat i))) ∧
    (∀ j f s, fresh !! j = Some f → sg_srvs sg !! (k + j)%nat = Some s →
       sg_srvs sg' !! (k + j)%nat = Some (restarted f.1 s) ∧
       server_of net' (ServerName (sg_gid sg) (Z.of_nat (k + j))) = Some f.2).
Proof.
  revert k sg net. induction fresh as [|[ns labsrv] fresh IH]; intros k sg net Hok Hin Hk Hlen Hnd Hfr Hr.
  { exists sg, net. cbn in Hk. split_and!; try done. intros i Hi. apply Hr. lia. }
  cbn [length] in Hk. apply Forall_cons in Hlen as [Hl Hlen]. cbn in Hnd, Hfr.
  apply NoDup_app in Hnd as (Hn1 & Hn2 & Hn3).
  destruct (lookup_lt_is_Some_2 (sg_srvs sg) k) as [s Hs]; [rewrite (gk_srvs n sg Hok); lia|].
  destruct (StartServer_spec n sg net k s ns labsrv Hok Hin Hs Hl Hn1) as
    (net1 & E1 & Hok1 & Hin1 & Hrk & Hro & Hsv & Hx).
  { intros e He. apply Hfr. apply elem_of_app. by left. }
  set (sg1 := sg <| sg_srvs := <[k := restarted ns s]> (sg_srvs sg) |>) in *.
  destruct (IH (S k) sg1 net1 Hok1 Hin1) as (sg' & net' & E' & Hok' & Hgid & Hcn & Hr' & Hlow & Hhigh);
    [lia|done|done| | |].
  { intros e He [Hns|Hold]%Hx; [by eapply Hn2|]. eapply Hfr; [|exact Hold]. apply elem_of_app. by right. }
  { intros i Hi. destruct (decide (i = k)) as [->|]; [done|]. apply Hro; [done|]. apply Hr. lia. }
  exists sg', net'. split.
  { change (StartSrvs _ _) with (StartServer (Z.of_nat k) ns labsrv (sg, net) ≫=
      StartSrvs (zip (Z.of_nat <$> seq (S k) (length fresh)) fresh)). by rewrite E1, bind_ret_l. }
  change (sg_gid sg1) with (sg_gid sg) in *. split_and!; try done.
  - intros i Hi. destruct (Hlow i) as [-> ->]; [lia|]. cbn. rewrite list_lookup_insert_ne by lia.
    split; [done|]. unfold server_of. rewrite Hsv, lookup_insert_ne; [done|].
    intros ?%ServerName_same. lia.
  - intros [|j] f s0 Hf Hs0; cbn in Hf.
    + injection Hf as <-. rewrite Nat.add_0_r in *. simplify_eq. destruct (Hlow k) as [-> ->]; [lia|].
      cbn. rewrite list_lookup_insert_eq by by eapply lookup_lt_Some.
      split; [done|]. unfold server_of. by rewrite Hsv, lookup_insert_eq.
    + rewrite <- Nat.add_succ_comm in *. apply (Hhigh j f s0 Hf). cbn.
      rewrite list_lookup_insert_ne by lia. done.
Qed.

(** [ConnectAll], over any list of servers. *)
Lemma connect_many n l sg net :
  grp_ok n sg → Forall (λ i, (i < n)%nat) l →
  ∃ sg' net', go_for ConnectOne (Z.of_nat <$> l) (sg, net) = Ret (sg', net') ∧
    grp_ok n sg' ∧ sg_srvs sg' = sg_srvs sg ∧ sg_gid sg' = sg_gid sg ∧ same_wiring net net' ∧
    (∀ i, i ∈ l ∨ conn sg i = true → conn sg' i = true) ∧
    (∀ i j, link (sg, net) i j = true → link (sg', net') i j = true) ∧
    (∀ i j, i ∈ l → (j < n)%nat → j ∈ l ∨ conn sg j = true →
       (i < n)%nat → link (sg', net') i j = true ∧ link (sg', net') j i = true).
Proof.
  revert sg net. induction l as [|i0 l IH]; intros sg net Hok Hlt.
  { exists sg, net. split_and!; try done; [intros i [Hi%elem_of_nil|]; done|intros i j Hi%elem_of_nil; done]. }
  apply Forall_cons in Hlt as [Hi0 Hlt].
  destruct (connect_spec n i0 (seq 0 n) sg net Hok Hi0) as (net1 & E1 & R1).
  { apply Forall_forall. intros x. rewrite elem_of_seq. lia. }
  set (sg1 := sg <| sg_connected := <[i0 := true]> (sg_connected sg) |>) in *.
  destruct (IH sg1 net1) as (sg' & net' & E' & Hok' & Hs & Hg & Hw & Hc & Hm & Hl); [by apply grp_ok_set|done|].
  assert (conn sg1 i0 = true) as Hc0 by (unfold sg1; rewrite (conn_set n) by done; by case_decide).
  assert (∀ j, conn sg j = true → conn sg1 j = true) as Hcm.
  { intros j Hj. unfold sg1. rewrite (conn_set n) by done. by case_decide. }
  assert (∀ i j, link (sg, net) i j = true → link (sg1, net1) i j = true) as Hlm.
  { intros i j Hij. rewrite R1. case_decide; [done|]. by rewrite (link_srvs sg). }
  assert (∀ j, (j < n)%nat → conn sg1 j = true → link (sg1, net1) i0 j = true ∧ link (sg1, net1) j i0 = true) as Hstar.
  { intros j Hj Hcj. rewrite !R1. rewrite !decide_True; [done|apply elem_of_star; right|apply elem_of_star; left];
      (split; [done|]); apply list_elem_of_filter; rewrite elem_of_seq; split; [done|lia|done|lia]. }
  exists sg', net'. split.
  { cbn [fmap list_fmap go_for]. change (ConnectOne (Z.of_nat i0) (sg, net)) with
      (connect (Z.of_nat i0) (Z.of_nat <$> seq 0 (length (sg_srvs sg))) (sg, net)).
    rewrite (gk_srvs n sg Hok), E1, bind_ret_l.
    exact E'. }
  split_and!; [done|done|done| | | |].
  - transitivity net1; [by eapply connect_wiring|done].
  - intros i [[->|Hi]%elem_of_cons|Hi]; auto.
  - auto.
  - intros i j Hi Hj Hij Hin. apply elem_of_cons in Hi as [->|Hi].
    + destruct Hij as [[->|Hj']%elem_of_cons|Hj']; [destruct (Hstar i0); auto| |destruct (Hstar j); auto].
      destruct (Hl j i0 Hj' Hi0 (or_intror Hc0) Hj). done.
    + destruct Hij as [[->|Hj']%elem_of_cons|Hj']; apply Hl; auto.
Qed.

(** A started group: every server runs on its saved state under its own name, and every end
    is enabled and leads where it should. *)
Definition server_ready (sg : ServerGrp) (net : Network) (saved : option Persister) (labsrv : option nat)
    (n i : nat) : Prop :=
  (∃ s, sg_srvs sg !! i = Some s ∧ sv_dc s = Some (daemon_init (default MakePersister saved))) ∧
  server_of net (ServerName (sg_gid sg) (Z.of_nat i)) = labsrv ∧ conn sg i = true ∧
  ∀ j, (j < n)%nat → link (sg, net) i j = true ∧
    (end_at sg i j ≫= connection_of net) = Some (ServerName (sg_gid sg) (Z.of_nat j)).

Lemma StartServers_ready n fresh sg net :
  grp_ok n sg → ends_in sg net → length fresh = n → Forall (λ f, length f.1 = n) fresh →
  NoDup (concat (fresh.*1)) → (∀ e, e ∈ concat (fresh.*1) → e ∉ nw_ends net) →
  ∃ sg' net', StartServers fresh (sg, net) = Ret (sg', net') ∧ grp_ok n sg' ∧ sg_gid sg' = sg_gid sg ∧
    ∀ i s f, sg_srvs sg !! i = Some s → fresh !! i = Some f →
      server_ready sg' net' (sv_saved s) (Some f.2) n i.
Proof.
  intros Hok Hin Hlf Hlf' Hnd Hfr.
  destruct (StartSrvs_spec n 0 fresh sg net Hok Hin) as (sg1 & net1 & E1 & Hok1 & Hg1 & _ & Hr1 & _ & Hs1);
    [done..|lia|].
  destruct (connect_many n (seq 0 n) sg1 net1 Hok1) as (sg' & net' & E & Hok' & Hs & Hg & Hw & Hc & _ & Hl).
  { apply Forall_forall. intros x. rewrite elem_of_seq. lia. }
  destruct Hw as (_ & Hw1 & Hw2). exists sg', net'. split_and!; [|done|congruence|].
  { unfold StartServers, TesterNet.all. cbn [fst]. rewrite (gk_srvs n sg Hok), <- Hlf, E1, bind_ret_l.
    unfold ConnectAll, TesterNet.all. cbn [fst]. by rewrite (gk_srvs n sg1 Hok1). }
  intros i s f Hi Hf. destruct (Hs1 i f s Hf Hi) as [Hi1 Hsv].
  assert (i < n)%nat as Hlt by (rewrite <- Hlf; by eapply lookup_lt_Some).
  assert (∀ x, (x < n)%nat → x ∈ seq 0 n) as Hseq by (intros x; rewrite elem_of_seq; lia).
  split_and!.
  - exists (restarted f.1 s). by rewrite Hs.
  - unfold server_of in *. by rewrite Hw1, Hg, Hg1.
  - auto.
  - intros j Hj. split; [apply Hl; auto|]. destruct (gk_ends n sg' Hok' i j Hlt Hj) as [e He].
    rewrite He. cbn. unfold connection_of. rewrite Hw2, Hg. apply (Hr1 i Hlt j e).
    revert He. unfold end_at. by rewrite Hs.
Qed.

(** C37: a new configuration is ready for its test. Given fresh random names, [MakeConfig]
    returns: group 0 has as many servers as asked for, each running on an empty persister and
    known to the network under its own name; every server is connected, every end of every
    server is enabled and leads to the server it is meant for; and the network is reliable
    exactly when it was asked to be. *)
Theorem MakeConfig_ready names fresh reliable now :
  let n := length names in
  length fresh = n → Forall (λ ns, length ns = n) names → Forall (λ f, length f.1 = n) fresh →
  NoDup (concat names ++ concat (fresh.*1)) →
  ∃ cfg sg, MakeConfig names reliable fresh now = Ret cfg ∧ Group GRP0 cfg = Some sg ∧
    sg_gid sg = GRP0 ∧ grp_ok n sg ∧ Config_IsReliable cfg = reliable ∧
    ∀ i, (i < n)%nat → server_ready sg (cf_net cfg) None (snd <$> (fresh !! i)) n i.
Proof.
  intros n Hlf Hln Hlf' (Hn1 & Hn2 & Hn3)%NoDup_app.
  destruct (makeSrvGrp_ok GRP0 names MakeNetwork Hn1) as ([sg0 net0] & E0 & Hok0 & Hg0 & Hs0 & Hx0);
    [intros e _; apply not_elem_of_empty|done|]. cbn [fst snd] in *.
  assert (∀ e, e ∈ nw_ends net0 ↔ e ∈ concat names) as Hx.
  { intros e. rewrite Hx0. cbn. rewrite elem_of_empty. naive_solver. }
  destruct (StartServers_ready n fresh sg0 net0 Hok0) as (sg & net & E & Hok & Hg & Hr); [|done..| |].
  { intros i j e. unfold end_at. rewrite Hs0, list_lookup_fmap, Hx. destruct (names !! i) eqn:Hi; [|done].
    cbn. intros He. apply list_elem_of_In, in_concat. eexists. rewrite <- !list_elem_of_In.
    split; by eapply list_elem_of_lookup_2. }
  { intros e He. rewrite Hx. intros ?. by eapply Hn2. }
  eexists _, sg. split.
  { unfold MakeConfig, MakeGroupStart, MakeGroup. cbn [snd cf_net]. rewrite E0, !bind_ret_l.
    unfold on_group, Group, lookupGroup. cbn [cf_groups update cf_net fst].
    assert ((<[GRP0 := sg0]> (∅ : Groups)) !! GRP0 = Some sg0) as -> by reflexivity. by rewrite E. }
  split_and!; [cbn; apply lookup_insert_eq|congruence|done|done|].
  intros i Hi. destruct (lookup_lt_is_Some_2 fresh i) as [f Hf]; [by rewrite Hlf|].
  destruct (lookup_lt_is_Some_2 (sg_srvs sg0) i) as [s Hs]; [by rewrite (gk_srvs n sg0 Hok0)|].
  rewrite Hf. pose proof (Hr i s f Hs Hf) as Hi'. rewrite Hs0, list_lookup_fmap in Hs.
  destruct (names !! i) as [ns|]; [|done]. by injection Hs as <-.
Qed.

(** ** A group that exits *)

Lemma Kill_spec n lives l sg net :
  grp_ok n sg → Forall (λ i, (i < n)%nat) l →
  ∃ sg' net', Kill lives (Z.of_nat <$> l) (sg, net) = Ret (sg', net') ∧ grp_ok n sg' ∧ sg_gid sg' = sg_gid sg ∧
    (∀ i j, end_at sg' i j = end_at sg i j) ∧
    (∀ i, i ∈ l ∨ server_of net (ServerName (sg_gid sg) (Z.of_nat i)) = None →
       server_of net' (ServerName (sg_gid sg) (Z.of_nat i)) = None) ∧
    (∀ i j, link (sg, net) i j = false → link (sg', net') i j = false) ∧
    (∀ i j, i ∈ l → (j < n)%nat → link (sg', net') i j = false ∧ link (sg', net') j i = false).
Proof.
  revert sg net. induction l as [|i0 l IH]; intros sg net Hok Hlt.
  { exists sg, net. split_and!; try done; [by intros i [Hi%elem_of_nil|]|by intros i j Hi%elem_of_nil]. }
  apply Forall_cons in Hlt as [Hi0 Hlt].
  destruct (disconnect_spec n i0 (seq 0 n) sg net Hok Hi0) as (net1 & E1 & R1).
  { apply Forall_forall. intros x. rewrite elem_of_seq. lia. }
  destruct (lookup_lt_is_Some_2 (sg_srvs sg) i0) as [s Hs]; [by rewrite (gk_srvs n sg Hok)|].
  set (net2 := DeleteServer (ServerName (sg_gid sg) (Z.of_nat i0)) net1).
  set (sg1 := (sg <| sg_connected := <[i0 := false]> (sg_connected sg) |>)
                <| sg_srvs := <[i0 := shutdownServer (lives (Z.of_nat i0)) s]> (sg_srvs sg) |>).
  assert (∀ i j, end_at sg1 i j = end_at sg i j) as Hend.
  { intros i j. unfold end_at, sg1. cbn. rewrite list_lookup_insert. case_decide as Hd; [|done].
    destruct Hd as [<- _]. rewrite Hs. cbn. unfold shutdownServer. by destruct (sv_dc s). }
  assert (grp_ok n sg1) as Hok1.
  { destruct Hok as [H1 H2 H3 H4]. split; [cbn; by rewrite length_insert|cbn; by rewrite length_insert| |].
    - intros i j. rewrite Hend. apply H3.
    - intros i j i' j' e. rewrite !Hend. apply H4. }
  assert (∀ i j, link (sg1, net2) i j = if decide ((i, j) ∈ star i0 (seq 0 n)) then false
                                       else link (sg, net) i j) as Hlink.
  { intros i j. rewrite <- (link_srvs sg (sg <| sg_connected := <[i0 := false]> (sg_connected sg) |>) net) by done.
    rewrite <- (R1 i j). unfold link. cbn [fst]. rewrite Hend. done. }
  destruct (IH sg1 net2 Hok1 Hlt) as (sg' & net' & E' & Hok' & Hg & He & Hd & Hm & Hl).
  exists sg', net'. split.
  { change (Kill lives (Z.of_nat <$> i0 :: l) (sg, net)) with
      (Group_ShutdownServer lives (Z.of_nat i0) (sg, net) ≫= Kill lives (Z.of_nat <$> l)).
    unfold Group_ShutdownServer, TesterNet.all. cbn [fst]. rewrite (gk_srvs n sg Hok), E1, bind_ret_l.
    cbn [sg_srvs update]. rewrite (go_index_nat _ _ _ Hs), bind_ret_l.
    rewrite go_update_nat, !bind_ret_l by (by eapply lookup_lt_Some). exact E'. }
  change (sg_gid sg1) with (sg_gid sg) in *. split_and!; [done|done|intros; by rewrite He| | |].
  - intros i Hi. apply Hd. unfold server_of, net2 in *. cbn. rewrite lookup_insert.
    destruct (disconnect_wiring _ _ _ _ _ _ E1) as (_ & -> & _).
    case_decide as Hn; [by right|]. destruct Hi as [[->|]%elem_of_cons|Hi]; [done|by left|by right].
  - intros i j Hij. apply Hm. rewrite Hlink. by case_decide.
  - intros i j [->|Hi]%elem_of_cons Hj; [|by apply Hl].
    split; apply Hm; rewrite Hlink, decide_True; try done; apply elem_of_star;
      [left|right]; (split; [done|]); rewrite elem_of_seq; lia.
Qed.

(** A group that exits is gone. Its servers are no longer on the network, all of its
    ends are disabled, [Group] no longer finds it and every other group is as it was. *)
Theorem ExitGroup_gone n lives gid cfg sg :
  Group gid cfg = Some sg → grp_ok n sg →
  ∃ cfg', ExitGroup lives gid cfg = Ret cfg' ∧ Group gid cfg' = None ∧
    (∀ gid', gid' ≠ gid → Group gid' cfg' = Group gid' cfg) ∧
    ∀ i, (i < n)%nat → server_of (cf_net cfg') (ServerName (sg_gid sg) (Z.of_nat i)) = None ∧
      ∀ j, (j < n)%nat → link (sg, cf_net cfg') i j = false.
Proof.
  intros Hg Hok.
  destruct (Kill_spec n lives (seq 0 n) sg (cf_net cfg) Hok) as (sg' & net' & E & Hok' & _ & He & Hd & _ & Hl).
  { apply Forall_forall. intros x. rewrite elem_of_seq. lia. }
  eexists. split.
  { unfold ExitGroup, on_group. rewrite Hg. unfold Shutdown, TesterNet.all. cbn [fst].
    rewrite (gk_srvs n sg Hok), E, !bind_ret_l. done. }
  assert (∀ x, (x < n)%nat → x ∈ seq 0 n) as Hseq by (intros x; rewrite elem_of_seq; lia).
  unfold Group, lookupGroup, Groups_delete. cbn. split_and!.
  - by apply (lookup_delete_eq (M := gmap Z)).
  - intros g Hne. etrans; [by apply (lookup_delete_ne (M := gmap Z))|by apply (lookup_insert_ne (M := gmap Z))].
  - intros i Hi. split; [apply Hd; auto|]. intros j Hj. destruct (Hl i j (Hseq i Hi) Hj) as [Hl' _].
    revert Hl'. unfold link. cbn [fst]. by rewrite He.
Qed.

Lemma ExitGroup_unknown lives gid cfg : Group gid cfg = None → ExitGroup lives gid cfg = Panic "nil pointer dereference".
Proof. intros Hg. unfold ExitGroup, on_group. by rewrite Hg. Qed.

(** ** Statistics *)

(** What happens between [Begin] and [End]: a clerk counts an operation, or the network moves. *)
Definition test_act (o : option Network) (cfg : Config) : Config :=
  match o with None => OpInc cfg | Some net => cfg <| cf_net := net |> end.

Lemma i32_add a b : i32 (i32 a + b) = i32 (a + b).
Proof.
  unfold i32. f_equal. replace ((a + 2 ^ 31) `mod` 2 ^ 32 - 2 ^ 31 + b + 2 ^ 31)
    with ((a + 2 ^ 31) `mod` 2 ^ 32 + b) by lia.
  rewrite Zplus_mod_idemp_l. f_equal. lia.
Qed.

Definition test_acts (acts : list (option Network)) (cfg : Config) : Config :=
  foldl (λ c o, test_act o c) cfg acts.

Definition ops_of (acts : list (option Network)) : Z := zlen (filter (λ o, o = None) acts).

(** The fields that [Begin] sets stay, but for the count of operations. *)
Lemma test_acts_spec acts cfg c0 :
  cf_ops cfg = i32 c0 →
  ∃ net, test_acts acts cfg =
    cfg <| cf_net := net |> <| cf_ops := i32 (c0 + ops_of acts) |>.
Proof.
  unfold test_acts, ops_of. revert cfg c0. induction acts as [|o acts IH]; intros cfg c0 Hc; cbn [foldl].
  { exists (cf_net cfg). change (zlen _) with 0. rewrite Z.add_0_r, <- Hc. by destruct cfg. }
  rewrite filter_cons. destruct o as [net|]; cbn [test_act].
  - rewrite decide_False by done. destruct (IH (test_act (Some net) cfg) c0 Hc) as [net' E]. exists net'. etrans; [exact E|done].
  - rewrite decide_True by done. destruct (IH (OpInc cfg) (c0 + 1)) as [net' ->].
    { cbn. by rewrite Hc, i32_add. }
    exists net'. rewrite zlen_cons, <- Z.add_assoc, (Z.add_comm 1). done.
Qed.

(** The statistics of a test. Whatever operations and network traffic come between
    [Begin] and [End], a test that has neither failed nor run out of time prints as its time,
    its peers, its RPCs and its operations those since [Begin], the operations as a 32-bit
    counter; after the time limit [End] ends the test instead. *)
Theorem End_reports description t0 now1 now2 acts cfg sg :
  let cfg' := test_acts acts (Begin description t0 cfg) in
  cf_failed cfg = false → Group GRP0 cfg = Some sg →
  (now1 - cf_start cfg ≤ time_limit →
   ∃ end_cfg, End_ now1 now2 cfg' = Ret end_cfg ∧
     cf_out end_cfg = cf_out cfg ++ [Begun description (Config_IsReliable cfg);
       Passed (now2 - t0) (N sg) (RpcTotal cfg' - RpcTotal cfg) (i32 (ops_of acts))]) ∧
  (now1 - cf_start cfg > time_limit → End_ now1 now2 cfg' = Fatal "test took longer than 120 seconds").
Proof.
  intros cfg' Hf Hg. unfold cfg'.
  destruct (test_acts_spec acts (Begin description t0 cfg) 0 eq_refl) as [net ->].
  unfold End_, CheckTimeout. cbn [cf_failed cf_start update Begin]. split; intros Ht.
  - rewrite decide_False by lia. rewrite bind_ret_l. cbn [cf_failed update].
    assert (cf_failed (Begin description t0 cfg) = false) as -> by exact Hf.
    change (Group GRP0 _) with (Group GRP0 cfg). rewrite Hg. eexists. split; [done|].
    cbn. by rewrite <- app_assoc.
  - by rewrite decide_True.
Qed.

(** ** Random names and orders *)

Section handles.
Context {A : Type}.
Implicit Types (l : list A).

Lemma swap_spec i j l x y :
  l !! i = Some x → l !! j = Some y →
  swap (Z.of_nat i) (Z.of_nat j) l = Ret (<[j := x]> (<[i := y]> l)).
Proof.
  intros Hx Hy. unfold swap. rewrite (go_index_nat _ _ _ Hx), (go_index_nat _ _ _ Hy), !bind_ret_l.
  rewrite go_update_nat, bind_ret_l, go_update_nat; [done|rewrite length_insert|];
    by eapply lookup_lt_Some.
Qed.

Lemma random_handles_loop (draw : nat → Z) (n : nat) l :
  (∀ i, (i < n)%nat → 0 ≤ draw i ≤ Z.of_nat i) → (n ≤ length l)%nat →
  ∃ l', go_for (λ i sa, swap (Z.of_nat i) (draw i) sa) (seq 0 n) l = Ret l' ∧ l' ≡ₚ l ∧
    drop n l' = drop n l.
Proof.
  induction n as [|n IH]; intros Hd Hn; [by exists l|].
  destruct IH as (l1 & E & Hp & Hdr); [intros i Hi; apply Hd; lia|lia|].
  pose proof (Permutation_length Hp) as Hlen. specialize (Hd n ltac:(lia)).
  destruct (lookup_lt_is_Some_2 l1 n) as [x Hx]; [lia|].
  destruct (lookup_lt_is_Some_2 l1 (Z.to_nat (draw n))) as [y Hy]; [lia|].
  rewrite seq_S, go_for_app, E, bind_ret_l. cbn [go_for Nat.add].
  rewrite <- (Z2Nat.id (draw n)) by lia. rewrite (swap_spec _ _ _ _ _ Hx Hy), bind_ret_l.
  eexists. split; [done|]. split.
  - etrans; [by apply Permutation_insert_swap|done].
  - apply list_eq. intros k. rewrite !lookup_drop, !list_lookup_insert_ne by lia.
    pose proof (f_equal (.!! (S k)) Hdr) as Hk. cbn in Hk. rewrite !lookup_drop in Hk.
    by replace (S n + k)%nat with (n + S k)%nat by lia.
Qed.

Lemma swap_app i j l l' r : swap i j l = Ret l' → swap i j (l ++ r) = Ret (l' ++ r) ∧ length l' = length l.
Proof.
  unfold swap. intros (x & [? Hx]%go_index_Ret & E)%bind_ret_inv.
  apply bind_ret_inv in E as (y & [? Hy]%go_index_Ret & E).
  apply bind_ret_inv in E as (l1 & [? ->]%go_update_Ret & [? ->]%go_update_Ret).
  pose proof (lookup_lt_Some _ _ _ Hx). pose proof (lookup_lt_Some _ _ _ Hy).
  rewrite <- (Z2Nat.id i), <- (Z2Nat.id j) by done. rewrite !Nat2Z.id, !length_insert. split; [|done].
  fold (swap (Z.of_nat (Z.to_nat i)) (Z.of_nat (Z.to_nat j)) (l ++ r)).
  rewrite (swap_spec _ _ _ y x) by (by rewrite lookup_app_l).
  by rewrite !insert_app_l by (rewrite ?length_insert; done).
Qed.

Lemma swap_loop_app (draw : nat → Z) ns l l' r :
  go_for (λ i sa, swap (Z.of_nat i) (draw i) sa) ns l = Ret l' →
  go_for (λ i sa, swap (Z.of_nat i) (draw i) sa) ns (l ++ r) = Ret (l' ++ r).
Proof.
  revert l. induction ns as [|n ns IH]; intros l; cbn; [by intros [= <-]|].
  intros (l1 & E1 & E)%bind_ret_inv. destruct (swap_app _ _ _ _ r E1) as [-> _]. by apply IH.
Qed.

(** Every order can come out: undo the last turn, which moves the last element. *)
Lemma random_handles_reaches l l' :
  l' ≡ₚ l → ∃ draw, (∀ i, (i < length l)%nat → 0 ≤ draw i ≤ Z.of_nat i) ∧ random_handles draw l = Ret l'.
Proof.
  revert l'. induction l as [|x l IH] using rev_ind; intros l' Hp.
  { apply Permutation_nil_r in Hp as ->. exists (λ _, 0). split; [cbn; lia|done]. }
  assert (x ∈ l') as (j & Hj)%list_elem_of_lookup_1 by (rewrite Hp; apply elem_of_app; right; by left).
  pose proof (Permutation_length Hp) as Hlen. rewrite length_app in Hlen. cbn in Hlen.
  pose proof (lookup_lt_Some _ _ _ Hj) as Hjl. set (n := length l) in *.
  destruct (lookup_lt_is_Some_2 l' n) as [y Hy]; [lia|].
  set (p := <[n := x]> (<[j := y]> l')).
  assert (p = take n p ++ [x]) as Hpx.
  { rewrite <- (take_drop n p) at 1. f_equal. unfold p.
    erewrite drop_S by (apply list_lookup_insert_eq; rewrite length_insert; lia).
    f_equal. apply nil_length_inv. rewrite length_drop, !length_insert. lia. }
  assert (take n p ≡ₚ l) as Hpl.
  { apply (Permutation_app_inv_r [x]). rewrite <- Hpx, <- Hp. by apply Permutation_insert_swap. }
  destruct (IH _ Hpl) as (draw & Hd & E).
  exists (λ i, if decide (i = n) then Z.of_nat j else draw i). split.
  { intros i Hi. rewrite length_app in Hi. cbn in Hi. case_decide; [lia|]. apply Hd. lia. }
  unfold random_handles in *. rewrite length_app. cbn [length]. rewrite Nat.add_1_r, seq_S, go_for_app.
  rewrite (go_for_ext _ (λ i sa, swap (Z.of_nat i) (draw i) sa)).
  2:{ intros i sa [_ Hi]%elem_of_seq. rewrite decide_False by lia. done. }
  rewrite (swap_loop_app _ _ _ _ _ E), bind_ret_l, <- Hpx. cbn [go_for Nat.add].
  rewrite decide_True by done.
  fold n. assert (swap (Z.of_nat n) (Z.of_nat j) p = Ret l') as ->; [|done].
  unfold p. destruct (decide (j = n)) as [->|Hne].
  - simplify_eq. rewrite (swap_spec _ _ _ x x) by (apply list_lookup_insert_eq; rewrite length_insert; lia).
    f_equal. rewrite !list_insert_insert_eq. by apply list_insert_id.
  - rewrite (swap_spec _ _ _ x y); [|apply list_lookup_insert_eq; rewrite length_insert; lia|
      rewrite list_lookup_insert_ne by done; apply list_lookup_insert_eq; lia].
    f_equal. apply list_eq. intros k. rewrite !list_lookup_insert, !length_insert.
    repeat case_decide; naive_solver lia.
Qed.
End handles.

(** [random_handles] shuffles: with draws in their ranges it returns a permutation of the
    handles it was given, and every permutation comes out for some draws. *)
Theorem random_handles_shuffles {A} (l : list A) :
  (∀ draw, (∀ i, (i < length l)%nat → 0 ≤ draw i ≤ Z.of_nat i) →
     ∃ l', random_handles draw l = Ret l' ∧ l' ≡ₚ l) ∧
  (∀ l', l' ≡ₚ l → ∃ draw, (∀ i, (i < length l)%nat → 0 ≤ draw i ≤ Z.of_nat i) ∧
     random_handles draw l = Ret l').
Proof.
  split; [|apply random_handles_reaches]. intros draw Hd.
  destruct (random_handles_loop draw (length l) l Hd (Nat.le_refl _)) as (l' & E & Hp & _). by exists l'.
Qed.

(** [Randstring] never runs out of characters. *)
Lemma Randstring_length rand n :
  0 ≤ n → (∀ k, length (rand k) = k) → ∃ s, Randstring rand n = Ret s ∧ Z.of_nat (String.length s) = n.
Proof.
  intros Hn Hr. unfold Randstring. rewrite decide_False by lia.
  pose proof (EncodeToString_length (rand (Z.to_nat (2 * n)))) as Hl. rewrite Hr in Hl.
  rewrite decide_True by lia. eexists. split; [done|]. rewrite substring_length by lia. lia.
Qed.

(** ** Instances *)

Definition names2 : list (list string) := [["a0"; "a1"]; ["b0"; "b1"]].
Definition fresh2 : list (list string * nat) := [(["c0"; "c1"], 5%nat); (["d0"; "d1"], 6%nat)].

Lemma names2_NoDup : NoDup (concat names2 ++ concat (fresh2.*1)).
Proof. apply (bool_decide_unpack _). vm_compute. exact I. Qed.

Lemma MakeConfig_ready_witness :
  ∃ cfg sg, MakeConfig names2 false fresh2 0 = Ret cfg ∧ Group GRP0 cfg = Some sg ∧
    Config_IsReliable cfg = false ∧ link (sg, cf_net cfg) 1 0 = true ∧
    server_of (cf_net cfg) "server-0-1" = Some 6%nat.
Proof.
  destruct (MakeConfig_ready names2 fresh2 false 0 eq_refl) as (cfg & sg & E & Hg & Hgid & _ & Hrel & Hr).
  - repeat constructor.
  - repeat constructor.
  - exact names2_NoDup.
  - exists cfg, sg. destruct (Hr 1%nat) as (_ & Hsv & _ & Hl); [cbn; lia|].
    rewrite Hgid in Hsv. split; [exact E|]. split; [exact Hg|]. split; [exact Hrel|].
    split; [apply (Hl 0%nat); cbn; lia|exact Hsv].
Defined.

Example two_calls_counted :
  (cfg ← MakeConfig names2 true fresh2 0;
   cfg ← End_ 30 40 (test_acts [None; None] (Begin "basic" 10 cfg));
   cfg ← ExitGroup (λ _, {| lf_saves := []; lf_late := [] |}) GRP0 cfg;
   Ret (cf_out cfg, Group GRP0 cfg, server_of (cf_net cfg) "server-0-0")) =
  Ret ([Begun "basic" true; Passed 30 2 0 2], None, None).
Proof. vm_compute. reflexivity. Qed.

Example name_of_five :
  Randstring (λ k, Z.of_nat <$> seq 0 k) 5 = Ret "AAECA".
Proof. vm_compute. reflexivity. Qed.
