(* ===== verification/KVGroupTest.v ===== *)
(** * Tests of a group of servers

    The tests' harness around a group: [MakeTest], [Cleanup], [ConnectClnts], [TestClerk] and
    [Partitioner] of src/src/kvtest1/kvtest.go, the key/value-over-Raft test of
    src/src/kvraft1/test.go with its [Clerk] (src/src/kvraft1/client.go), and the parts of
    src/src/kvraft1/rsm/test.go and src/src/kvsrv1/test.go that act on the group. All of it is
    one [Config] of [TesterConfig] with the annotations of [Annotation]. *)
From Stdlib Require Import Ascii.
From stdpp Require Import base tactics numbers list list_numbers fin_maps gmap strings pretty.
From S2P Require Import Prelude GoLib LabRpc TesterNet TesterGroups Annotation AnnotationSafety TesterConfig.

(** ** Clerks *)

(** [Clerk] of kvraft1; [ck_clnt] is the number of its client. *)
Record Clerk := { ck_clnt : nat; ck_servers : list string; ck_leader : Z }.
Definition MakeClerk (clnt : nat) (servers : list string) : Clerk :=
  {| ck_clnt := clnt; ck_servers := servers; ck_leader := 0 |}.
Definition Leader (ck : Clerk) : Z := ck_leader ck.

Record TestClerk := { tc_clerk : Clerk; tc_Clnt : nat }.

(** [Put] and [Get] of a [TestClerk] count the operation and leave the rest to the clerk. *)
Definition TestClerk_Put {A} (put : A) (cfg : Config) : Config * A := (OpInc cfg, put).
Definition TestClerk_Get {A} (get : A) (cfg : Config) : Config * A := (OpInc cfg, get).

(** ** The test *)

Record Test := {
  gt_cfg : Config; gt_an : globals;
  gt_part : string; gt_nclients : Z; gt_nservers : Z; gt_crash : bool; gt_partitions : bool;
  gt_maxraftstate : Z; gt_randomkeys : bool
}.
#[export] Instance eta_Test : Eta Test := λ t,
  {| gt_cfg := gt_cfg t; gt_an := gt_an t; gt_part := gt_part t; gt_nclients := gt_nclients t;
     gt_nservers := gt_nservers t; gt_crash := gt_crash t; gt_partitions := gt_partitions t;
     gt_maxraftstate := gt_maxraftstate t; gt_randomkeys := gt_randomkeys t |}.

Definition Gid : Z := GRP0.

Definition makeTitle (ts : Test) : string :=
  let title := "Test: " in
  let title := if gt_crash ts then title +:+ "restarts, " else title in
  let title := if gt_partitions ts then title +:+ "partitions, " else title in
  let title := if decide (gt_maxraftstate ts ≠ -1) then title +:+ "snapshots, " else title in
  let title := if gt_randomkeys ts then title +:+ "random keys, " else title in
  let title := if decide (gt_nclients ts > 1) then title +:+ "many clients" else title +:+ "one client" in
  title +:+ " (" +:+ gt_part ts +:+ ")".

(** [nservers] is the length of [names]; [now] and [now'] are the start of the configuration
    and of the test. *)
Definition MakeTest (part : string) (nclients : Z) (names : list (list string)) (reliable crash partitions : bool)
    (maxraftstate : Z) (randomkeys : bool) (fresh : list (list string * nat)) (now now' : Z) (an : globals)
    : outcome Test :=
  cfg ← MakeConfig names reliable fresh now;
  let ts := {| gt_cfg := cfg; gt_an := an; gt_part := part; gt_nclients := nclients; gt_nservers := zlen names;
               gt_crash := crash; gt_partitions := partitions; gt_maxraftstate := maxraftstate;
               gt_randomkeys := randomkeys |} in
  Ret (ts <| gt_cfg := Begin (makeTitle ts) now' cfg |>).

(** An annotation at time [t]. *)
Definition annotate (f : globals → outcome globals) (ts : Test) : outcome Test :=
  an ← f (gt_an ts); Ret (ts <| gt_an := an |>).

Definition on_gid (f : world → outcome world) (ts : Test) : outcome Test :=
  cfg ← on_group Gid f (gt_cfg ts); Ret (ts <| gt_cfg := cfg |>).

Definition killall (lives : Z → life) (t : Z) (ts : Test) : outcome Test :=
  ts ← on_gid (Shutdown lives) ts; annotate (AnnotateShutdownAll t) ts.

Definition restartall (fresh : list (list string * nat)) (t : Z) (ts : Test) : outcome Test :=
  ts ← on_gid (StartServers fresh) ts; annotate (AnnotateRestartAll t) ts.

(** [id] is the number of the new client. *)
Definition Test_MakeClerk (id : nat) (ts : Test) : outcome (Test * TestClerk) :=
  let cfg := gt_cfg ts in
  match Group Gid cfg with
  | None => Panic "nil pointer dereference"
  | Some sg =>
      Ret (ts <| gt_cfg := cfg <| cf_clnts := MakeClient id (cf_clnts cfg) |> |>,
           {| tc_clerk := MakeClerk id (SrvNames sg); tc_Clnt := id |})
  end.

Definition MakeClerkTo (id : nat) (to : list Z) (ts : Test) : outcome (Test * TestClerk) :=
  let cfg := gt_cfg ts in
  match Group Gid cfg with
  | None => Panic "nil pointer dereference"
  | Some sg =>
      ns ← SrvNamesTo sg to;
      Ret (ts <| gt_cfg := cfg <| cf_clnts := MakeClientTo id (Some ns) (cf_clnts cfg) |> |>,
           {| tc_clerk := MakeClerk id (SrvNames sg); tc_Clnt := id |})
  end.

Section ordered.
Context (range_order : list (string * string) → list (string * string)).

Definition DeleteClerk (tck : TestClerk) (ts : Test) : outcome Test :=
  '(clnts, net) ← DeleteClient range_order (tc_Clnt tck) (cf_clnts (gt_cfg ts), cf_net (gt_cfg ts));
  Ret (ts <| gt_cfg := (gt_cfg ts) <| cf_clnts := clnts |> <| cf_net := net |> |>).

Definition ConnectClnts (ids : list nat) (ts : Test) : Test :=
  foldl (λ ts id,
    let cfg := gt_cfg ts in
    match cf_clnts cfg !! id with
    | None => ts
    | Some clnt =>
        let '(clnt, net) := Clnt_ConnectAll range_order (clnt, cf_net cfg) in
        ts <| gt_cfg := cfg <| cf_clnts := <[id := clnt]> (cf_clnts cfg) |> <| cf_net := net |> |>
    end) ts ids.

(** [Cleanup] of kvtest.go, and, but for [CheckTimeout] at its end, of the other tests. *)
Definition Test_Cleanup (ids : list nat) (lives : Z → Z → life) (gids : list Z) (co : list (string * Continuous) → list (string * Continuous))
    (enabled : string) (opened : bool) (now1 now2 t1 t2 : Z) (ts : Test)
    : outcome (Config * (option (list PAnnotation) * Annotation)) :=
  cfg ← End_ now1 now2 (gt_cfg ts);
  Cleanup range_order ids lives gids co enabled opened t1 t2 (g_annotation (gt_an ts)) cfg.
End ordered.

(** *** [kvsrv1/test.go]

    The clerk of kvsrv1 knows its client and its server. *)
Record kvsrv_clerk := { kc_clnt : nat; kc_server : string }.
Definition kvsrv_MakeClerk (clnt : nat) (server : string) : kvsrv_clerk := {| kc_clnt := clnt; kc_server := server |}.

Record TestKV := { tk_cfg : Config; tk_reliable : bool }.

(** [names] has one element. *)
Definition MakeTestKV (names : list (list string)) (reliable : bool) (fresh : list (list string * nat)) (now : Z)
    : outcome TestKV :=
  cfg ← MakeConfig names reliable fresh now; Ret {| tk_cfg := cfg; tk_reliable := reliable |}.

Definition TestKV_MakeClerk (id : nat) (ts : TestKV) : TestKV * (kvsrv_clerk * nat) :=
  ({| tk_cfg := (tk_cfg ts) <| cf_clnts := MakeClient id (cf_clnts (tk_cfg ts)) |>; tk_reliable := tk_reliable ts |},
   (kvsrv_MakeClerk id (ServerName GRP0 0), id)).

Definition TestKV_DeleteClerk (range_order : list (string * string) → list (string * string)) (tck : kvsrv_clerk * nat)
    (ts : TestKV) : outcome TestKV :=
  '(clnts, net) ← DeleteClient range_order (tck.2) (cf_clnts (tk_cfg ts), cf_net (tk_cfg ts));
  Ret {| tk_cfg := (tk_cfg ts) <| cf_clnts := clnts |> <| cf_net := net |>; tk_reliable := tk_reliable ts |}.

(** A clerk that never called leaves nothing behind. *)
Lemma TestKV_clerk_roundtrip ro id ts :
  ro [] = [] → cf_clnts (tk_cfg ts) !! id = None →
  let '(ts', ck) := TestKV_MakeClerk id ts in TestKV_DeleteClerk ro ck ts' = Ret ts.
Proof.
  intros Hro Hid. unfold TestKV_MakeClerk, TestKV_DeleteClerk, DeleteClient, MakeClient, MakeClientTo. cbn.
  assert ((<[id:=makeClntTo None]> (cf_clnts (tk_cfg ts)) : Clnts) !! id = Some (makeClntTo None)) as -> by apply lookup_insert_eq.
  unfold remove, makeClntTo. cbn. rewrite map_to_list_empty, Hro. cbn.
  assert (delete id (<[id:={| cl_ends := ∅; cl_srvs := None |}]> (cf_clnts (tk_cfg ts))) = cf_clnts (tk_cfg ts)) as ->
    by by apply delete_insert_id.
  by destruct ts as [[] ?].
Qed.

(** *** The partitioner

    One turn of its loop; [rands] is what [rand.Int] returns for each server. *)
Definition random_sides (rands : list Z) : list Z * list Z :=
  let a := (λ r, Z.rem r 2) <$> rands in
  let side i := Z.of_nat <$> filter (λ j, a !! j = Some i) (seq 0 (length a)) in
  (side 0, side 1).

Definition Partitioner_turn (gid : Z) (rands : list Z) (t : Z) (ts : Test) : outcome Test :=
  let '(pa0, pa1) := random_sides rands in
  cfg ← on_group gid (Partition pa0 pa1) (gt_cfg ts);
  Ret (ts <| gt_cfg := cfg |> <| gt_an := AnnotateTwoPartitions pa0 pa1 t (gt_an ts) |>).

(** *** [rsm/test.go] *)

Definition rsm_kill (lives : Z → life) (srvs : list Z) (t : Z) (ts : Test) : outcome Test :=
  ts ← on_gid (Kill lives srvs) ts; annotate (AnnotateShutdown srvs t) ts.

(** [fresh] goes with [srvs]; the stubs made afterwards are [mksrv] of [Rsm.v]. *)
Definition rsm_restart (srvs : list Z) (fresh : list (list string * nat)) (t : Z) (ts : Test) : outcome Test :=
  ts ← on_gid (StartSrvs (zip srvs fresh)) ts;
  ts ← on_gid ConnectAll ts;
  annotate (AnnotateRestart srvs t) ts.

Definition disconnectLeader (leader : Z) (ts : Test) : outcome (Test * Z) :=
  ts ← on_gid (DisconnectAll leader) ts; Ret (ts, leader).

Definition rsm_connect (i : Z) (ts : Test) : outcome Test := on_gid (ConnectOne i) ts.

(** ** The partitioner splits the group *)

Lemma random_sides_split rands :
  Forall (λ r, 0 ≤ r) rands →
  ∃ p0 p1, random_sides rands = (Z.of_nat <$> p0, Z.of_nat <$> p1) ∧ p0 ++ p1 ≡ₚ seq 0 (length rands).
Proof.
  intros Hr. eexists _, _. split; [reflexivity|]. rewrite length_fmap.
  apply NoDup_Permutation.
  - apply NoDup_app. split_and!; [apply NoDup_filter, NoDup_seq| |apply NoDup_filter, NoDup_seq].
    intros x [Hx _]%list_elem_of_filter [Hy _]%list_elem_of_filter. congruence.
  - apply NoDup_seq.
  - intros x. rewrite elem_of_app, !list_elem_of_filter, elem_of_seq. split; [by intros [[_ ?]|[_ ?]]|].
    intros Hx. destruct (lookup_lt_is_Some_2 rands x) as [r Er]; [lia|]. rewrite list_lookup_fmap, Er. cbn.
    rewrite Forall_forall in Hr. assert (0 ≤ r) by (apply Hr; by eapply list_elem_of_lookup_2).
    pose proof (Z.rem_bound_pos r 2). assert (Z.rem r 2 = 0 ∨ Z.rem r 2 = 1) as [-> | ->] by lia; [left|right]; by split.
Qed.

Lemma on_group_some gid cfg sg f w :
  Group gid cfg = Some sg → f (sg, cf_net cfg) = Ret w →
  on_group gid f cfg = Ret (cfg <| cf_groups := <[gid := w.1]> (cf_groups cfg) |> <| cf_net := w.2 |>).
Proof. intros Hg E. unfold on_group. rewrite Hg, E, bind_ret_l. by destruct w. Qed.

Lemma Partitioner_turn_splits n gid rands t ts sg :
  Group gid (gt_cfg ts) = Some sg → grp_ok n sg → length rands = n → Forall (λ r, 0 ≤ r) rands →
  ∃ p0 p1 w, random_sides rands = (Z.of_nat <$> p0, Z.of_nat <$> p1) ∧ p0 ++ p1 ≡ₚ seq 0 n ∧
    (∃ ts', Partitioner_turn gid rands t ts = Ret ts' ∧ Group gid (gt_cfg ts') = Some w.1 ∧ cf_net (gt_cfg ts') = w.2 ∧
       ongoing_failure (gt_an ts') = Some ("partition = " +:+ show_ints (Z.of_nat <$> p0) +:+ " " +:+ show_ints (Z.of_nat <$> p1),
         "partition = " +:+ show_ints (Z.of_nat <$> p0) +:+ " " +:+ show_ints (Z.of_nat <$> p1), COLOR_FAULT)) ∧
    ∀ i j, (i < n)%nat → (j < n)%nat → link w i j = bool_decide (i ∈ p0 ↔ j ∈ p0).
Proof.
  intros Hg Hok <- Hr. destruct (random_sides_split rands Hr) as (p0 & p1 & E & Hp).
  destruct (Partition_links (length rands) p0 p1 (sg, cf_net (gt_cfg ts)) Hok Hp) as (w & Ew & Hl).
  exists p0, p1, w. split_and!; [done|done| |done]. unfold Partitioner_turn. rewrite E.
  rewrite (on_group_some gid _ sg _ w Hg Ew), bind_ret_l. eexists. split; [done|]. split; [|split; [done|]].
  - apply (lookup_insert_eq (M := gmap Z)).
  - unfold AnnotateTwoPartitions. cbn [gt_an update]. by rewrite ongoing_Continuous, decide_True.
Qed.

(** ** All servers down and up again *)

Lemma go_for_inv {A S} (f : A → S → outcome S) x l s s' :
  go_for f (x :: l) s = Ret s' → ∃ s1, f x s = Ret s1 ∧ go_for f l s1 = Ret s'.
Proof. cbn. apply bind_ret_inv. Qed.

(** Killing keeps the ends and saves what each server has persisted. *)
Lemma Kill_saves n lives l sg net sg' net' :
  grp_ok n sg → NoDup l → Forall (λ i, (i < n)%nat) l → Kill lives (Z.of_nat <$> l) (sg, net) = Ret (sg', net') →
  nw_ends net' = nw_ends net ∧
  ∀ i, sg_srvs sg' !! i = (λ s, if decide (i ∈ l) then shutdownServer (lives (Z.of_nat i)) s else s) <$> sg_srvs sg !! i.
Proof.
  intros Hok Hnd Hlt. revert sg net Hok. induction Hlt as [|i0 l Hi0 Hlt IH]; intros sg net Hok.
  { intros [= <- <-]. split; [done|]. intros i. destruct (sg_srvs sg !! i) as [s|]; [|done]. cbn.
    by rewrite decide_False by apply not_elem_of_nil. }
  apply NoDup_cons in Hnd as [Hnew Hnd]. change (Z.of_nat <$> i0 :: l) with (Z.of_nat i0 :: (Z.of_nat <$> l)).
  intros ([sg1 net1] & E1 & E)%go_for_inv.
  destruct (lookup_lt_is_Some_2 (sg_srvs sg) i0) as [s Hs]; [by rewrite (gk_srvs n sg Hok)|].
  unfold Group_ShutdownServer, TesterNet.all in E1. cbn [fst] in E1. rewrite (gk_srvs n sg Hok) in E1.
  destruct (disconnect_spec n i0 (seq 0 n) sg net Hok Hi0) as (net2 & Ed & _).
  { apply Forall_forall. intros x. rewrite elem_of_seq. lia. }
  rewrite Ed, bind_ret_l in E1. cbn [sg_srvs update] in E1.
  rewrite (go_index_nat _ _ _ Hs), bind_ret_l, go_update_nat, bind_ret_l in E1 by (by eapply lookup_lt_Some).
  injection E1 as <- <-. apply disconnect_ends in Ed.
  assert (∀ i, sg_srvs sg' !! i = (λ s', if decide (i ∈ l) then shutdownServer (lives (Z.of_nat i)) s' else s') <$>
            (<[i0 := shutdownServer (lives (Z.of_nat i0)) s]> (sg_srvs sg) !! i) ∧ nw_ends net' = nw_ends net) as Hend.
  { destruct (IH Hnd ((sg <| sg_connected := <[i0 := false]> (sg_connected sg) |>)
                <| sg_srvs := <[i0 := shutdownServer (lives (Z.of_nat i0)) s]> (sg_srvs sg) |>)
      (DeleteServer (ServerName (sg_gid sg) (Z.of_nat i0)) net2)) as [He Hsv]; [|exact E|].
    - destruct Hok as [H1 H2 H3 H4].
      assert (∀ i j, end_at ((sg <| sg_connected := <[i0 := false]> (sg_connected sg) |>)
                <| sg_srvs := <[i0 := shutdownServer (lives (Z.of_nat i0)) s]> (sg_srvs sg) |>) i j = end_at sg i j) as Hea.
      { intros i j. unfold end_at. cbn. rewrite list_lookup_insert. case_decide as Hd; [|done].
        destruct Hd as [<- _]. rewrite Hs. cbn. unfold shutdownServer. by destruct (sv_dc s). }
      split; [cbn; by rewrite length_insert|cbn; by rewrite length_insert|intros i j; rewrite Hea; apply H3|].
      intros i j i' j' e. rewrite !Hea. apply H4.
    - intros i. split; [apply Hsv|]. by rewrite He. }
  split; [by apply (Hend 0%nat)|]. intros i. destruct (Hend i) as [-> _]. rewrite list_lookup_insert.
  destruct (decide (i0 = i)) as [->|Hne].
  - rewrite decide_True by (split; [done|by eapply lookup_lt_Some]). rewrite Hs. cbn.
    rewrite decide_False by done. by rewrite decide_True by left.
  - rewrite decide_False by naive_solver. destruct (sg_srvs sg !! i); [|done]. cbn.
    destruct (decide (i ∈ l)); [by rewrite decide_True by by right|]. rewrite decide_False; [done|].
    intros [?|?]%elem_of_cons; congruence.
Qed.

Lemma annotate_all n e t co cr ts :
  tracks n co cr (gt_an ts) → valid_event n e → override_step e (co, cr) None = None →
  ∃ ts', annotate (ann_step e t) ts = Ret ts' ∧ gt_cfg ts' = gt_cfg ts ∧
    tracks n (flags_step e (co, cr)).1 (flags_step e (co, cr)).2 (gt_an ts').
Proof.
  intros Ht Hv Ho. destruct (ann_step_tracks n e t (gt_an ts) co cr Ht Hv Ho) as (g' & E & H).
  unfold annotate. rewrite E, bind_ret_l. by eexists.
Qed.

Lemma on_gid_some sg f w ts :
  Group Gid (gt_cfg ts) = Some sg → f (sg, cf_net (gt_cfg ts)) = Ret w →
  ∃ ts', on_gid f ts = Ret ts' ∧ Group Gid (gt_cfg ts') = Some w.1 ∧ cf_net (gt_cfg ts') = w.2 ∧ gt_an ts' = gt_an ts.
Proof.
  intros Hg E. unfold on_gid. rewrite (on_group_some Gid _ sg f w Hg E), bind_ret_l. eexists. split; [done|].
  split_and!; [apply (lookup_insert_eq (M := gmap Z))|done..].
Qed.

Lemma killall_spec n lives ts sg co cr t :
  Group Gid (gt_cfg ts) = Some sg → grp_ok n sg → tracks n co cr (gt_an ts) →
  ∃ ts1 sg1, killall lives t ts = Ret ts1 ∧ Group Gid (gt_cfg ts1) = Some sg1 ∧ grp_ok n sg1 ∧ sg_gid sg1 = sg_gid sg ∧
    (∀ i j, end_at sg1 i j = end_at sg i j) ∧ nw_ends (cf_net (gt_cfg ts1)) = nw_ends (cf_net (gt_cfg ts)) ∧
    (∀ i s, sg_srvs sg !! i = Some s → sg_srvs sg1 !! i = Some (shutdownServer (lives (Z.of_nat i)) s)) ∧
    (∀ i, (i < n)%nat → server_of (cf_net (gt_cfg ts1)) (ServerName (sg_gid sg) (Z.of_nat i)) = None ∧
       ∀ j, (j < n)%nat → link (sg1, cf_net (gt_cfg ts1)) i j = false) ∧
    tracks n co (replicate n true) (gt_an ts1).
Proof.
  intros Hg Hok Ht.
  assert (Forall (λ i, (i < n)%nat) (seq 0 n)) as Hlt by (apply Forall_forall; intros x; rewrite elem_of_seq; lia).
  destruct (Kill_spec n lives (seq 0 n) sg (cf_net (gt_cfg ts)) Hok Hlt) as (sg1 & net1 & E & Hok1 & Hgid & He & Hd & _ & Hl).
  destruct (Kill_saves n lives (seq 0 n) sg (cf_net (gt_cfg ts)) sg1 net1 Hok (NoDup_seq _ _) Hlt E) as [Hends Hsv].
  destruct (on_gid_some sg (Shutdown lives) (sg1, net1) ts Hg) as (ts' & Eg & Hg' & Hn' & Ha').
  { unfold Shutdown, TesterNet.all. cbn [fst]. by rewrite (gk_srvs n sg Hok). }
  rewrite <- Ha' in Ht. destruct (annotate_all n EvShutdownAll t co cr ts' Ht I ltac:(cbn; by case_decide)) as (ts1 & Ea & Hc & Ht1).
  assert (length cr = n) as Hcr by (by destruct Ht as [(fi & _ & (_ & _ & _ & _ & Hcr)) _]).
  cbn in Hg', Hn', Ht1. rewrite Hcr in Ht1. exists ts1, sg1. rewrite Hc, Hn'.
  assert (∀ x, (x < n)%nat → x ∈ seq 0 n) as Hseq by (intros x; rewrite elem_of_seq; lia).
  split_and!; try done.
  - unfold killall. by rewrite Eg, bind_ret_l.
  - intros i s Hi. rewrite Hsv, Hi. cbn. rewrite decide_True; [done|]. apply Hseq.
    rewrite <- (gk_srvs n sg Hok). by eapply lookup_lt_Some.
  - intros i Hi. split; [apply Hd; auto|]. intros j Hj. by apply Hl; auto.
Qed.

(** C33: when all servers of the key/value-over-Raft test are killed, none is on the network,
    none reaches another and the annotation calls each crashed; when all are restarted, with
    fresh end names, each is started on exactly the state it had saved last before the tester's
    checkpoint of it (a daemon runs on after its checkpoint until it is killed, and what it
    saves then is lost), under its own name, and reaches every other, and the annotation has no
    crashed server. *)
Theorem restartall_keeps_state n lives ts sg co cr fresh t1 t2 :
  Group Gid (gt_cfg ts) = Some sg → grp_ok n sg → ends_in sg (cf_net (gt_cfg ts)) → tracks n co cr (gt_an ts) →
  length fresh = n → Forall (λ f, length f.1 = n) fresh → NoDup (concat (fresh.*1)) →
  (∀ e, e ∈ concat (fresh.*1) → e ∉ nw_ends (cf_net (gt_cfg ts))) →
  ∃ ts1 sg1 ts2 sg2, killall lives t1 ts = Ret ts1 ∧ Group Gid (gt_cfg ts1) = Some sg1 ∧
    (∀ i, (i < n)%nat → server_of (cf_net (gt_cfg ts1)) (ServerName (sg_gid sg) (Z.of_nat i)) = None ∧
       ∀ j, (j < n)%nat → link (sg1, cf_net (gt_cfg ts1)) i j = false) ∧
    ongoing_failure (gt_an ts1) = expected_failure co (replicate n true) ∧
    restartall fresh t2 ts1 = Ret ts2 ∧ Group Gid (gt_cfg ts2) = Some sg2 ∧
    (∀ i s p f, sg_srvs sg !! i = Some s → sv_dc s = Some p → fresh !! i = Some f →
       (∃ s', sg_srvs sg2 !! i = Some s' ∧ sv_dc s' = Some (runs_on (lf_saves (lives (Z.of_nat i))) p)) ∧
       server_of (cf_net (gt_cfg ts2)) (ServerName (sg_gid sg) (Z.of_nat i)) = Some f.2 ∧
       ∀ j, (j < n)%nat → link (sg2, cf_net (gt_cfg ts2)) i j = true) ∧
    ongoing_failure (gt_an ts2) = expected_failure co (replicate n false).
Proof.
  intros Hg Hok Hin Ht Hlf Hlf' Hnd Hfr.
  destruct (killall_spec n lives ts sg co cr t1 Hg Hok Ht) as (ts1 & sg1 & E1 & Hg1 & Hok1 & Hgid & He & Hends & Hsv & Hdown & Ht1).
  destruct (StartServers_ready n fresh sg1 (cf_net (gt_cfg ts1)) Hok1) as (sg2 & net2 & E2 & Hok2 & Hgid2 & Hr);
    [|done..|by rewrite Hends|].
  { intros i j e. rewrite He, Hends. apply Hin. }
  destruct (on_gid_some sg1 (StartServers fresh) (sg2, net2) ts1 Hg1 E2) as (ts' & Eg & Hg' & Hn' & Ha').
  rewrite <- Ha' in Ht1.
  destruct (annotate_all n EvRestartAll t2 co (replicate n true) ts' Ht1 I ltac:(cbn; by case_decide)) as (ts2 & Ea & Hc & Ht2).
  cbn in Hg', Hn', Ht2. rewrite length_replicate in Ht2.
  exists ts1, sg1, ts2, sg2. rewrite Hc, Hn'. rewrite Ha' in Ht1. split_and!; try done; [apply Ht1| | |apply Ht2].
  - unfold restartall. by rewrite Eg, bind_ret_l.
  - intros i s p f Hi Hp Hf. destruct (Hr i _ f (Hsv i s Hi) Hf) as ((s' & Hs' & Hdc) & Hsrv & _ & Hlink).
    rewrite Hgid2, Hgid in Hsrv. split_and!; [|done|by intros j Hj; apply Hlink].
    exists s'. split; [done|]. rewrite Hdc. unfold shutdownServer. rewrite Hp. cbn. by rewrite persister_roundtrip.
Qed.

(** ** An instance: two servers with different states, the second disconnected *)

Definition two_servers : ServerGrp :=
  {| sg_srvs := [ {| sv_endNames := ["a0"; "a1"]; sv_saved := None; sv_dc := Some {| raftstate := [1; 2]; snapshot := [3] |} |};
                  {| sv_endNames := ["b0"; "b1"]; sv_saved := None; sv_dc := Some {| raftstate := [7]; snapshot := [] |} |} ];
     sg_servernames := ["server-0-0"; "server-0-1"]; sg_gid := 0; sg_connected := [true; false] |}.

Lemma two_servers_ok : grp_ok 2 two_servers.
Proof.
  split; [done|done| |].
  - intros [|[|i]] [|[|j]] Hi Hj; try lia; by eexists.
  - intros [|[|i]] [|[|j]] [|[|i']] [|[|j']] e; cbn; try done; congruence.
Qed.

Definition two_net : Network := MakeNetwork <| nw_ends := {["a0"; "a1"; "b0"; "b1"]} |>.

Definition two_test : Test :=
  {| gt_cfg := {| cf_groups := {[ Gid := two_servers ]}; cf_clnts := makeClnts; cf_net := two_net; cf_failed := false;
                  cf_start := 0; cf_t0 := 0; cf_rpcs0 := 0; cf_ops := 0; cf_trpc := None; cf_out := [] |};
     gt_an := AnnotateTest "restarts" 2 0 globals_init; gt_part := "4B"; gt_nclients := 2; gt_nservers := 2;
     gt_crash := true; gt_partitions := false; gt_maxraftstate := 1000; gt_randomkeys := false |}.

Example two_title : makeTitle two_test = "Test: restarts, snapshots, many clients (4B)".
Proof. reflexivity. Qed.

Lemma two_tracks : tracks 2 [true; true] [false; false] (gt_an two_test).
Proof. split; [|reflexivity]. eexists. split; [reflexivity|]. by split_and!. Qed.

Definition two_fresh : list (list string * nat) := [(["c0"; "c1"], 5%nat); (["d0"; "d1"], 6%nat)].

(** Server 1 saves before its checkpoint and after it. *)
Definition two_lives (i : Z) : life :=
  if decide (i = 1) then {| lf_saves := [([7; 8], []); ([7; 8; 9], [1])]; lf_late := [([6], [])] |}
  else {| lf_saves := []; lf_late := [] |}.

Lemma restartall_keeps_state_witness :
  ∃ ts1 ts2 sg2, killall two_lives 5 two_test = Ret ts1 ∧
    ongoing_failure (gt_an ts1) = expected_failure [true; true] [true; true] ∧
    restartall two_fresh 9 ts1 = Ret ts2 ∧ Group Gid (gt_cfg ts2) = Some sg2 ∧
    (∃ s, sg_srvs sg2 !! 1%nat = Some s ∧ sv_dc s = Some {| raftstate := [7; 8; 9]; snapshot := [1] |}) ∧
    link (sg2, cf_net (gt_cfg ts2)) 1 0 = true ∧ ongoing_failure (gt_an ts2) = None.
Proof.
  destruct (restartall_keeps_state 2 two_lives two_test two_servers [true; true] [false; false] two_fresh 5 9)
    as (ts1 & sg1 & ts2 & sg2 & E1 & _ & _ & Ha1 & E2 & Hg2 & Hup & Ha2).
  - reflexivity.
  - exact two_servers_ok.
  - intros [|[|i]] [|[|j]] e; cbn; intros [= <-]; cbn; set_solver.
  - exact two_tracks.
  - reflexivity.
  - by repeat constructor.
  - apply (bool_decide_unpack _). vm_compute. exact I.
  - intros e He. change (nw_ends (cf_net (gt_cfg two_test))) with ({["a0"; "a1"; "b0"; "b1"]} : gset string). cbn in He. set_solver.
  - exists ts1, ts2, sg2. split; [exact E1|]. split; [exact Ha1|]. split; [exact E2|]. split; [exact Hg2|].
    destruct (Hup 1%nat _ _ _ eq_refl eq_refl eq_refl) as (Hs & _ & Hl).
    split; [exact Hs|]. split; [apply Hl; lia|exact Ha2].
Defined.
