(* ===== verification/Daemon.v ===== *)
(** * Server processes

    [src/src/tester1/daemonclnt.go] and [daemonsrv.go]: the tester starts a server as a process
    of its own, which it gives its place in the group by the command line ([runDaemon],
    [InitDaemon]) and its saved state by a call.  [start_step] is the start of one daemon: the
    tester's [StartServer], the daemon's main thread, its two listeners and the handlers of
    [Init] and [InitWait], which meet the main thread on one unbuffered channel.

    A process that is started runs; a connection that is up delivers a call once and its reply
    ([Demux.v]).  The ten minute limit, which ends the process, is left out, and so is
    [flag.Parse], which leaves the arguments in place. *)
From Stdlib Require Import Ascii.
From stdpp Require Import base tactics numbers list strings pretty.
From S2P Require Import Prelude GoLib GoStrings GoStrconv TesterNet.

(** ** Names *)

Definition SockName (endName : string) : string := "/tmp/6.5840-" +:+ endName.
Definition sockctl (sock : string) : string := sock +:+ "-ctl".

(** ** The command line *)

Definition options (UseRaftStateMachine : bool) : list string :=
  if UseRaftStateMachine then ["--raft-state-machine"] else [].

Definition runDaemon_args (UseRaftStateMachine : bool) (pargs : list string) (endName : string)
    (gid srv : Z) (endNames : list string) : list string :=
  pargs ++ options UseRaftStateMachine ++
  [strconv_Itoa gid; strconv_Itoa srv; strconv_Itoa (zlen endNames); endName] ++ endNames.

(** [skip optional arguments]: [i] is the argument's index. *)
Fixpoint skip_options (i s : Z) (args : list string) : outcome Z :=
  match args with
  | [] => Ret s
  | EmptyString :: _ => Panic "index out of range"
  | String c _ :: args => if decide (c = "-"%char) then skip_options (i + 1) (i + 1) args else Ret s
  end.

(** A slice expression [args[lo:hi]]; [os.Args[1:]] has no spare capacity. *)
Definition go_slice {A} (l : list A) (lo hi : Z) : outcome (list A) :=
  if decide (0 ≤ lo ≤ hi ∧ hi ≤ zlen l) then Ret (take (Z.to_nat (hi - lo)) (drop (Z.to_nat lo) l))
  else Panic "slice bounds out of range".

Record daemon_args := {
  da_gid : Z; da_sid : Z; da_tester : string; da_endNames : list string; da_endName : string
}.

(** What [InitDaemon] reads off its arguments, [None] being the error it returns.  Every
    program passes it [os.Args[1:]]. *)
Definition InitDaemon_args (args : list string) : outcome (option daemon_args) :=
  s ← skip_options 0 0 args;
  a0 ← go_index args s;
  match strconv_Atoi a0 with
  | None => Ret None
  | Some gid =>
      a1 ← go_index args (s + 1);
      match strconv_Atoi a1 with
      | None => Ret None
      | Some sid =>
          a2 ← go_index args (s + 2);
          match strconv_Atoi a2 with
          | None => Ret None
          | Some nsrv =>
              testerEndName ← go_index args (s + 3);
              endNames ← go_slice args (s + 4) (i64 (s + 4 + nsrv));
              endName ← go_index endNames sid;
              Ret (Some {| da_gid := gid; da_sid := sid; da_tester := testerEndName;
                           da_endNames := endNames; da_endName := endName |})
          end
      end
  end.

Definition is_option (s : string) : bool :=
  match s with String c _ => bool_decide (c = "-"%char) | EmptyString => false end.

Lemma skip_options_all opts c s i k rest :
  forallb is_option opts = true → c ≠ "-"%char →
  skip_options i k (opts ++ String c s :: rest) = Ret (if opts is [] then k else i + zlen opts).
Proof.
  intros Ho Hc. revert i k Ho. induction opts as [|[|a o] opts IH]; intros i k Ho; cbn in Ho; try done.
  - cbn. by rewrite decide_False.
  - apply andb_prop in Ho as [->%bool_decide_eq_true Ho]. cbn. rewrite IH by done.
    rewrite zlen_cons. destruct opts; [rewrite zlen_nil|]; f_equal; lia.
Qed.

Lemma go_index_after {A} (l1 l2 : list A) (k : nat) i x :
  i = zlen l1 + Z.of_nat k → l2 !! k = Some x → go_index (l1 ++ l2) i = Ret x.
Proof.
  intros -> Hk. unfold zlen. rewrite <- Nat2Z.inj_add. apply go_index_nat.
  rewrite lookup_app_r by lia. rewrite <- Hk. f_equal. lia.
Qed.

Lemma go_slice_after {A} (l1 l2 l3 : list A) lo hi :
  lo = zlen l1 → hi = zlen l1 + zlen l2 → go_slice (l1 ++ l2 ++ l3) lo hi = Ret l2.
Proof.
  intros -> ->. pose proof (zlen_nonneg l1). pose proof (zlen_nonneg l2). pose proof (zlen_nonneg l3).
  unfold go_slice. rewrite decide_True by (rewrite !zlen_app; lia). f_equal.
  replace (Z.to_nat (zlen l1)) with (length l1) by (unfold zlen; lia). rewrite drop_app_length.
  replace (Z.to_nat (zlen l1 + zlen l2 - zlen l1)) with (length l2) by (unfold zlen; lia).
  apply take_app_length.
Qed.

Lemma Itoa_first (z : Z) : 0 ≤ z → ∃ c s, strconv_Itoa z = String c s ∧ c ≠ "-"%char.
Proof.
  intros Hz. unfold strconv_Itoa. rewrite pretty_Z_cases, decide_False by lia.
  pose proof (pretty_digit (Z.to_N z) "") as Hd. rewrite append_nil_r in Hd.
  destruct (pretty (Z.to_N z)) as [|c s]; [done|]. exists c, s. split; [done|].
  by apply digit_not_sign in Hd as [? _].
Qed.

(** A daemon reads off its command line exactly what the tester put on it, whatever
    the optional arguments in front and the names behind: its group and server number, the
    tester's socket, every end point name and its own. *)
Theorem daemon_args_roundtrip raft pargs endName gid srv endNames own :
  forallb is_option pargs = true → 0 ≤ gid < 2 ^ 63 → 0 ≤ srv →
  endNames !! Z.to_nat srv = Some own →
  zlen (runDaemon_args raft pargs endName gid srv endNames) < 2 ^ 63 →
  InitDaemon_args (runDaemon_args raft pargs endName gid srv endNames) =
    Ret (Some {| da_gid := gid; da_sid := srv; da_tester := endName;
                 da_endNames := endNames; da_endName := own |}).
Proof.
  intros Hp Hg Hs Ho Hlen. unfold runDaemon_args in *. rewrite app_assoc in *.
  set (opts := pargs ++ options raft) in *.
  assert (forallb is_option opts = true) as Hopts.
  { unfold opts. rewrite forallb_app, Hp. by destruct raft. }
  assert (srv < zlen endNames) by (apply lookup_lt_Some in Ho; unfold zlen; lia).
  rewrite !zlen_app in Hlen. change (zlen [_; _; _; _]) with 4 in Hlen. pose proof (zlen_nonneg opts).
  pose proof (zlen_nonneg endNames). unfold InitDaemon_args.
  assert (skip_options 0 0 (opts ++ [strconv_Itoa gid; strconv_Itoa srv; strconv_Itoa (zlen endNames); endName]
    ++ endNames) = Ret (zlen opts)) as ->.
  { destruct (Itoa_first gid) as (c & s & -> & Hc); [lia|]. cbn [app].
    rewrite skip_options_all by done. by destruct opts. }
  rewrite bind_ret_l, (go_index_after opts _ 0 (zlen opts) (strconv_Itoa gid)) by (done || lia).
  rewrite bind_ret_l, Atoi_Itoa by lia.
  rewrite (go_index_after opts _ 1 (zlen opts + 1) (strconv_Itoa srv)) by (done || lia).
  rewrite bind_ret_l, Atoi_Itoa by lia.
  rewrite (go_index_after opts _ 2 (zlen opts + 2) (strconv_Itoa (zlen endNames))) by (done || lia).
  rewrite bind_ret_l, Atoi_Itoa by lia.
  rewrite (go_index_after opts _ 3 (zlen opts + 3) endName) by (done || lia).
  rewrite bind_ret_l. rewrite i64_small by lia.
  replace (opts ++ [strconv_Itoa gid; strconv_Itoa srv; strconv_Itoa (zlen endNames); endName] ++ endNames)
    with ((opts ++ [strconv_Itoa gid; strconv_Itoa srv; strconv_Itoa (zlen endNames); endName]) ++ endNames ++ [])
    by (rewrite app_nil_r, <- app_assoc; done).
  rewrite go_slice_after by (rewrite zlen_app; change (zlen [_; _; _; _]) with 4; lia).
  rewrite bind_ret_l. rewrite <- (Z2Nat.id srv) by done. rewrite (go_index_nat _ _ own) by done.
  done.
Qed.

Lemma daemon_args_roundtrip_witness :
  InitDaemon_args ["--max-raft-state=1000"; "0"; "1"; "2"; "tester"; "-end0"; "end1"] =
    Ret (Some {| da_gid := 0; da_sid := 1; da_tester := "tester";
                 da_endNames := ["-end0"; "end1"]; da_endName := "end1" |}).
Proof.
  apply (daemon_args_roundtrip false ["--max-raft-state=1000"] "tester" 0 1 ["-end0"; "end1"] "end1");
    [reflexivity|lia|lia|reflexivity|vm_compute; reflexivity].
Defined.

(** ** Starting a daemon *)

Record InitArgs := { ia_Raftstate : list Z; ia_Snapshot : list Z }.

(** [InitDaemon] before it makes the control listener, before it adds the control service, at
    the first receive, before it makes the server's listener, adding services, at the send
    that signals the start, at the last receive, and returned. *)
Inductive main_pc := MStart | MCtl | MRecv | MServe | MAdd (todo : list string) | MSignal | MSleep | MExit.

Inductive ctl_call := CInit (args : InitArgs) | CInitWait.

(** The tester's call to the control socket, of which it makes one at a time: none, sent, its
    handler at the channel, answered. *)
Inductive call_pc := CNone | CSent (c : ctl_call) | CBlocked (c : ctl_call) | CDone.

(** [StartServer] dialling the control socket ([NewRPCClnt] in [runDaemon]), calling [Init],
    dialling the server's socket, calling [InitWait], and adding the server to the network. *)
Inductive tester_pc := TDialCtl (tries : nat) | TInit | TDial (tries : nat) | TWait | TAdd | TAdded.

Record startup := {
  su_main : main_pc; su_call : call_pc; su_tester : tester_pc;
  su_listen : bool * bool;            (* the control socket's listener is up; the server's *)
  su_persister : option Persister;    (* [ds.persister] *)
  su_services : list string           (* added to [ds.rpcs] *)
}.
#[export] Instance eta_startup : Eta startup := λ s,
  {| su_main := su_main s; su_call := su_call s; su_tester := su_tester s; su_listen := su_listen s;
     su_persister := su_persister s; su_services := su_services s |}.

Definition start_init : startup :=
  {| su_main := MStart; su_call := CNone; su_tester := TDialCtl 0; su_listen := (false, false);
     su_persister := None; su_services := [] |}.

Definition Init (args : InitArgs) : Persister := Save (ia_Raftstate args) (ia_Snapshot args) MakePersister.

Section startup.
Variable svcs : list string.      (* what [mks] returns *)
Variable saved : Persister.       (* [srv.saved] *)

Definition init_args : InitArgs :=
  {| ia_Raftstate := ReadRaftState saved; ia_Snapshot := ReadSnapshot saved |}.

(** One step of the daemon's main thread; where it waits for a handler that is not there, it
    stays. *)
Definition main_step (s : startup) : startup :=
  match su_main s, su_call s with
  | MStart, _ => s <| su_main := MCtl |>
  | MCtl, _ => s <| su_main := MRecv |>
  | MRecv, CBlocked (CInit args) =>
      s <| su_persister := Some (Init args) |> <| su_call := CDone |> <| su_main := MServe |>
  | MServe, _ => s <| su_main := MAdd svcs |>
  | MAdd (svc :: todo), _ => s <| su_services := su_services s ++ [svc] |> <| su_main := MAdd todo |>
  | MAdd [], _ => s <| su_main := MSignal |>
  | MSignal, CBlocked CInitWait => s <| su_call := CDone |> <| su_main := MSleep |>
  | MSleep, CBlocked (CInit _) => s <| su_call := CDone |> <| su_main := MExit |>
  | _, _ => s
  end.

(** The listeners, threads of their own once [NewRPCSrv] has made them. *)
Definition ctl_made (m : main_pc) : bool := match m with MStart => false | _ => true end.
Definition ctl_added (m : main_pc) : bool := match m with MStart | MCtl => false | _ => true end.
Definition srv_made (m : main_pc) : bool :=
  match m with MStart | MCtl | MRecv | MServe => false | _ => true end.

Definition listen_step (ctl : bool) (s : startup) : startup :=
  if ctl then s <| su_listen := (ctl_made (su_main s), (su_listen s).2) |>
  else s <| su_listen := ((su_listen s).1, srv_made (su_main s)) |>.

(** [ServeRequest] of the control socket: the handler runs up to the channel. *)
Definition dispatch_step (s : startup) : outcome startup :=
  match su_call s with
  | CSent c =>
      if ctl_added (su_main s) then Ret (s <| su_call := CBlocked c |>)
      else Fatal "labrpc.Server.dispatch(): unknown service DaemonSrv"
  | _ => Ret s
  end.

Definition MAXRETRY : nat := 100.

(** [dial]: one more attempt. *)
Definition dial (up : bool) (tries : nat) (again : nat → tester_pc) (connected : tester_pc) : outcome tester_pc :=
  if up then Ret connected
  else if decide (S tries < MAXRETRY)%nat then Ret (again (S tries)) else Fatal "Dial".

Definition tester_step (s : startup) : outcome startup :=
  match su_tester s, su_call s with
  | TDialCtl n, _ => t ← dial (su_listen s).1 n TDialCtl TInit; Ret (s <| su_tester := t |>)
  | TInit, CNone => Ret (s <| su_call := CSent (CInit init_args) |>)
  | TInit, CDone => Ret (s <| su_call := CNone |> <| su_tester := TDial 0 |>)
  | TDial n, _ => t ← dial (su_listen s).2 n TDial TWait; Ret (s <| su_tester := t |>)
  | TWait, CNone => Ret (s <| su_call := CSent CInitWait |>)
  | TWait, CDone => Ret (s <| su_call := CNone |> <| su_tester := TAdd |>)
  | TAdd, _ => Ret (s <| su_tester := TAdded |>)
  | _, _ => Ret s
  end.

Inductive start_event := SMain | SListen (ctl : bool) | SDispatch | STester.

Definition start_step (e : start_event) (s : startup) : outcome startup :=
  match e with
  | SMain => Ret (main_step s)
  | SListen ctl => Ret (listen_step ctl s)
  | SDispatch => dispatch_step s
  | STester => tester_step s
  end.

Definition start_run : list start_event → startup → outcome startup := go_for start_step.

(** *** Where the threads can be at the same time *)

Definition early (m : main_pc) : bool := match m with MStart | MCtl | MRecv => true | _ => false end.
Definition late (m : main_pc) : bool := match m with MServe | MAdd _ | MSignal => true | _ => false end.
Definition asleep (m : main_pc) : bool := match m with MSleep => true | _ => false end.

Definition together (t : tester_pc) (c : call_pc) (m : main_pc) : Prop :=
  match t, c with
  | TDialCtl _, CNone => early m = true
  | TInit, (CNone | CSent (CInit _) | CBlocked (CInit _)) => early m = true
  | TInit, CDone => late m = true
  | TDial _, CNone => late m = true
  | TWait, (CNone | CSent CInitWait | CBlocked CInitWait) => late m = true
  | TWait, CDone => asleep m = true
  | (TAdd | TAdded), CNone => asleep m = true
  | _, _ => False
  end.

Record start_inv (s : startup) : Prop := {
  si_together : together (su_tester s) (su_call s) (su_main s);
  si_args : match su_call s with CSent (CInit args) | CBlocked (CInit args) => args = init_args | _ => True end;
  si_up : (su_listen s).2 = true → srv_made (su_main s) = true;
  si_srv : match su_tester s with TWait | TAdd | TAdded => (su_listen s).2 = true | _ => True end;
  si_blocked : match su_call s with CBlocked _ => ctl_added (su_main s) = true | _ => True end;
  si_persister : su_persister s = if early (su_main s) then None else Some (daemon_init saved);
  si_services : match su_main s with
                | MStart | MCtl | MRecv | MServe => su_services s = []
                | MAdd todo => su_services s ++ todo = svcs
                | MSignal | MSleep | MExit => su_services s = svcs
                end
}.

Lemma start_init_inv : start_inv start_init.
Proof. split; cbn; done. Qed.

Lemma main_step_inv s : start_inv s → start_inv (main_step s).
Proof.
  destruct s as [m c t [l1 l2] p sv]. intros [T A U S B P V]. cbn in *.
  destruct m as [| | | |[|svc todo]| | |], c as [|[args|]|[args|]|], t; cbn in *; try done.
  all: split; cbn in *; try done; try (by intros Hl%U); try (by rewrite A).
  all: subst; first [done|by rewrite app_nil_r|by rewrite <- app_assoc].
Qed.

Lemma listen_step_inv ctl s : start_inv s → start_inv (listen_step ctl s).
Proof.
  intros [T A U S B P V]. destruct ctl; split; cbn in *; try done.
  destruct (su_tester s); auto.
Qed.

Lemma dispatch_step_inv s s' : start_inv s → dispatch_step s = Ret s' → start_inv s'.
Proof.
  intros [T A U S B P V]. unfold dispatch_step. destruct (su_call s) as [|c| |] eqn:Ec;
    [by intros [= <-]; split; rewrite ?Ec..| |by intros [= <-]; split; rewrite ?Ec|by intros [= <-]; split; rewrite ?Ec].
  destruct (ctl_added _) eqn:E; [|done]. intros [= <-]. split; cbn in *; try done.
Qed.

Lemma dial_inv up n again conn t : dial up n again conn = Ret t → t = conn ∧ up = true ∨ ∃ n, t = again n.
Proof. unfold dial. destruct up; [naive_solver|]. case_decide; naive_solver. Qed.

Lemma tester_step_inv s s' : start_inv s → tester_step s = Ret s' → start_inv s'.
Proof.
  destruct s as [m c t [l1 l2] p sv]. intros [T A U S B P V] E. unfold tester_step in E. cbn in *.
  destruct t as [n| |n| | |], c as [|[args|]|[args|]|]; cbn in *; try done; simplify_eq; try by split.
  - apply bind_ret_inv in E as (t & Ht & [= <-]). apply dial_inv in Ht as [[-> ->]|[k ->]]; by split.
  - apply bind_ret_inv in E as (t & Ht & [= <-]). apply dial_inv in Ht as [[-> ->]|[k ->]]; by split.
Qed.

Lemma start_run_inv es s s' : start_inv s → start_run es s = Ret s' → start_inv s'.
Proof.
  revert s. induction es as [|e es IH]; intros s Hs E; [by injection E as <-|].
  apply bind_ret_inv in E as (s1 & E1 & E). apply (IH s1); [|done].
  destruct e; cbn in E1; simplify_eq; eauto using main_step_inv, listen_step_inv, dispatch_step_inv, tester_step_inv.
Qed.

(** C34: when [StartServer] adds a daemon to the network, whatever the order of the
    daemon's threads, the daemon has the saved state, all its services and its socket, and its
    main thread does nothing any more: the first call another server makes finds it ready. *)
Theorem started_daemon_ready es s :
  start_run es start_init = Ret s → su_tester s = TAdd ∨ su_tester s = TAdded →
  su_persister s = Some (daemon_init saved) ∧ su_services s = svcs ∧ (su_listen s).2 = true ∧
  su_main s = MSleep ∧ su_call s = CNone.
Proof.
  intros E Ht. destruct (start_run_inv es _ _ start_init_inv E) as [T _ _ S _ P V].
  destruct Ht as [Ht|Ht]; rewrite Ht in *; destruct (su_call s), (su_main s); done.
Qed.

(** *** No thread waits for ever *)

Definition left (s : startup) : nat :=
  match su_tester s with TDialCtl _ => 20 | TInit => 16 | TDial _ => 12 | TWait => 8 | TAdd => 4 | TAdded => 0 end +
  match su_call s with CNone => 3 | CSent _ => 2 | CBlocked _ => 1 | CDone => 0 end +
  (if (su_listen s).1 then 0 else 1) + (if (su_listen s).2 then 0 else 1) +
  match su_main s with
  | MStart => 7 + length svcs | MCtl => 6 + length svcs | MRecv => 5 + length svcs
  | MServe => 4 + length svcs | MAdd todo => 3 + length todo | MSignal => 2 | MSleep => 1 | MExit => 0
  end.

(** A thread that can move without a failed attempt. *)
Definition next_event (s : startup) : start_event :=
  match su_tester s, su_call s with
  | TDialCtl _, _ => if (su_listen s).1 then STester else if ctl_made (su_main s) then SListen true else SMain
  | TDial _, _ => if (su_listen s).2 then STester else if srv_made (su_main s) then SListen false else SMain
  | _, CSent _ => if ctl_added (su_main s) then SDispatch else SMain
  | _, CBlocked _ => SMain
  | _, _ => STester
  end.

Lemma next_event_moves s :
  start_inv s → su_tester s ≠ TAdded →
  ∃ s', start_step (next_event s) s = Ret s' ∧ (left s' < left s)%nat.
Proof.
  destruct s as [m c t [[] []] p sv]; intros [T A U S B P V] Hne; cbn in *;
  destruct m as [| | | |[|svc todo]| | |], c as [|[args|]|[args|]|], t; cbn in *; try done;
    eexists; (split; [reflexivity|]); unfold left; cbn; lia.
Qed.

(** C35: however far a start has come, short of a crash, it can be completed: no order of
    the threads leaves the tester and the daemon waiting for each other. *)
Theorem start_completes es s :
  start_run es start_init = Ret s → ∃ es' s', start_run es' s = Ret s' ∧ su_tester s' = TAdded.
Proof.
  intros E. pose proof (start_run_inv es _ _ start_init_inv E) as Hinv. clear E es.
  remember (left s) as n eqn:Hn. revert s Hn Hinv.
  induction (lt_wf n) as [n _ IH]. intros s -> Hinv.
  assert (su_tester s = TAdded ∨ su_tester s ≠ TAdded) as [Ht|Ht] by (destruct (su_tester s); naive_solver).
  { by exists [], s. }
  destruct (next_event_moves s Hinv Ht) as (s1 & E1 & Hlt).
  assert (start_inv s1) as Hinv1.
  { apply (start_run_inv [next_event s] s); [done|]. cbn. by rewrite E1. }
  destruct (IH _ Hlt s1 eq_refl Hinv1) as (es' & s' & E' & Ht'). exists (next_event s :: es'), s'.
  split; [|done]. cbn. by rewrite E1.
Qed.
End startup.

Definition saved77 : Persister := {| raftstate := [7; 7]; snapshot := [] |}.
Definition start_events : list start_event :=
  [SMain; STester; SMain; SListen true; STester; STester; SDispatch; SMain; STester; STester; SMain;
   SMain; SListen false; STester; STester; SDispatch; SMain; SMain; SMain; SMain; STester; STester].

Lemma started_daemon_ready_witness :
  ∃ s, start_run ["Raft"; "KVServer"] saved77 start_events start_init = Ret s ∧ su_tester s = TAdded ∧
  su_persister s = Some (daemon_init saved77) ∧ su_services s = ["Raft"; "KVServer"] ∧
  (su_listen s).2 = true ∧ su_main s = MSleep ∧ su_call s = CNone.
Proof.
  eexists. split; [vm_compute; reflexivity|]. split; [reflexivity|].
  eapply (started_daemon_ready ["Raft"; "KVServer"] saved77 start_events);
    [vm_compute; reflexivity|right; reflexivity].
Defined.

(** The listener of the control socket is up before the control service is added: a first call
    in between kills the daemon. *)
Lemma early_Init_kills_daemon svcs saved :
  start_run svcs saved [SMain; SListen true; STester; STester; SDispatch] start_init =
    Fatal "labrpc.Server.dispatch(): unknown service DaemonSrv".
Proof. done. Qed.

Lemma start_completes_witness :
  ∃ s, start_run ["Raft"] saved77 [SMain; SListen true; STester; STester] start_init = Ret s ∧
  su_call s = CSent (CInit (init_args saved77)) ∧
  ∃ es' s', start_run ["Raft"] saved77 es' s = Ret s' ∧ su_tester s' = TAdded.
Proof.
  eexists. split; [reflexivity|]. split; [reflexivity|].
  apply (start_completes ["Raft"] saved77 [SMain; SListen true; STester; STester]). reflexivity.
Defined.
