(* ===== verification/DaemonFlags.v ===== *)
(** * Server processes: flags, path and end

    What is left of src/src/tester1/daemonclnt.go: the two flags every server program has, which
    [init] registers and [InitDaemon] has parsed (flag.Parse), the path of a program's binary,
    and [kill].  The tester passes --max-raft-state and --raft-state-machine in front of the
    positional arguments of [Daemon.runDaemon_args]. *)
From Stdlib Require Import Ascii.
From stdpp Require Import base tactics numbers list gmap strings pretty.
From S2P Require Import Prelude GoLib GoStrings GoStrconv TesterNet Daemon.

(** ** The flags *)

Record flags := { UseRaftStateMachine : bool; MaxRaftState : Z }.
#[export] Instance eta_flags : Eta flags := λ f,
  {| UseRaftStateMachine := UseRaftStateMachine f; MaxRaftState := MaxRaftState f |}.

(** The defaults [init] registers them with. *)
Definition flags_init : flags := {| UseRaftStateMachine := false; MaxRaftState := -1 |}.

(** *** flag.Parse *)

Inductive flag_arg := Positional | Terminator | Flag (name : string).

Definition classify (a : string) : flag_arg :=
  match a with
  | String "-" (String "-" EmptyString) => Terminator
  | String "-" (String "-" name) => Flag name
  | String "-" EmptyString => Positional
  | String "-" name => Flag name
  | _ => Positional
  end.

(** A name up to its first =, and the value after it. *)
Fixpoint cut_value (s : string) : string * option string :=
  match s with
  | EmptyString => (EmptyString, None)
  | String c s => if decide (c = "="%char) then (EmptyString, Some s)
                  else let '(n, v) := cut_value s in (String c n, v)
  end.

Definition strconv_ParseBool (s : string) : option bool :=
  if decide (s ∈ ["1"; "t"; "T"; "TRUE"; "true"; "True"]) then Some true
  else if decide (s ∈ ["0"; "f"; "F"; "FALSE"; "false"; "False"]) then Some false else None.

Definition set_bool (v : string) (f : flags) : outcome flags :=
  match strconv_ParseBool v with
  | Some b => Ret (f <| UseRaftStateMachine := b |>)
  | None => Fatal ("invalid boolean value " +:+ v)
  end.

(** Decimal numbers, the only ones the tester writes. *)
Definition set_int (v : string) (f : flags) : outcome flags :=
  match strconv_Atoi v with
  | Some n => Ret (f <| MaxRaftState := n |>)
  | None => Fatal ("invalid value " +:+ v)
  end.

(** The flags and what is left of the arguments; an error ends the process. *)
Fixpoint flag_Parse (args : list string) (f : flags) : outcome (flags * list string) :=
  match args with
  | [] => Ret (f, [])
  | a :: rest =>
      match classify a with
      | Positional => Ret (f, args)
      | Terminator => Ret (f, rest)
      | Flag name =>
          match cut_value name with
          | (EmptyString, _) | (String "-" _, _) => Fatal ("bad flag syntax: " +:+ a)
          | (n, v) =>
              if decide (n = "raft-state-machine") then
                f ← (match v with Some v => set_bool v f | None => Ret (f <| UseRaftStateMachine := true |>) end);
                flag_Parse rest f
              else if decide (n = "max-raft-state") then
                match v, rest with
                | Some v, _ => f ← set_int v f; flag_Parse rest f
                | None, v :: rest => f ← set_int v f; flag_Parse rest f
                | None, [] => Fatal ("flag needs an argument: -" +:+ n)
                end
              else Fatal ("flag provided but not defined: -" +:+ n)
          end
      end
  end.

(** [fmt.Sprintf("--max-raft-state=%d", n)], which the tests pass for their servers. *)
Definition max_raft_state (n : Z) : string := "--max-raft-state=" +:+ strconv_Itoa n.

Lemma flag_Parse_max n args f :
  - 2 ^ 63 ≤ n < 2 ^ 63 → flag_Parse (max_raft_state n :: args) f = flag_Parse args (f <| MaxRaftState := n |>).
Proof.
  intros Hn. unfold max_raft_state.
  change (flag_Parse (("--max-raft-state=" +:+ strconv_Itoa n) :: args) f) with
    (f ← set_int (strconv_Itoa n) f; flag_Parse args f).
  unfold set_int. by rewrite Atoi_Itoa.
Qed.

Lemma flag_Parse_options raft args f :
  UseRaftStateMachine f = false →
  flag_Parse (options raft ++ args) f = flag_Parse args (f <| UseRaftStateMachine := raft |>).
Proof. destruct f as [b m]. cbn. intros ->. by destruct raft. Qed.

(** A number stops the parsing. *)
Lemma flag_Parse_number z args f : 0 ≤ z → flag_Parse (strconv_Itoa z :: args) f = Ret (f, strconv_Itoa z :: args).
Proof.
  intros Hz. destruct (Itoa_first z Hz) as (c & s & -> & Hc). cbn [flag_Parse].
  assert (classify (String c s) = Positional) as ->; [|done].
  unfold classify. by destruct c as [[] [] [] [] [] [] [] []].
Qed.

(** ** The path of a program *)

(** [strings.LastIndex] *)
Fixpoint strings_LastIndex (s sub : string) : Z :=
  match s with
  | EmptyString => if decide (sub = "") then 0 else -1
  | String c s' =>
      let i := strings_LastIndex s' sub in
      if decide (0 ≤ i) then i + 1 else if String.prefix sub s then 0 else -1
  end.

(** [s[:i]] *)
Definition string_take (i : Z) (s : string) : outcome string :=
  if decide (0 ≤ i ≤ Z.of_nat (String.length s)) then Ret (String.substring 0 (Z.to_nat i) s)
  else Panic "slice bounds out of range".

(** [filepath.Join(dir, "src/main")], where [dir] is the beginning of a clean path: it may be
    empty or end in one slash. *)
Definition join_src (dir : string) : string :=
  if decide (dir = "") then "src/main" else strings_TrimSuffix dir slash +:+ "/src/main".

(** The program's binary, for the working directory [cwd], a clean path. *)
Definition path (prog cwd : string) : outcome string :=
  dir ← string_take (strings_LastIndex cwd "src") cwd;
  Ret (path_Join (join_src dir) prog).

Lemma LastIndex_app s sub t :
  strings_LastIndex t sub = 0 → strings_LastIndex (s +:+ t) sub = Z.of_nat (String.length s).
Proof.
  intros Ht. induction s as [|c s IH]; [done|].
  change (strings_LastIndex (String c (s +:+ t)) sub = Z.of_nat (S (String.length s))).
  cbn [strings_LastIndex]. rewrite IH. rewrite decide_True by lia. lia.
Qed.

Lemma string_take_app s t : string_take (Z.of_nat (String.length s)) (s +:+ t) = Ret s.
Proof.
  assert (String.length s ≤ String.length (s +:+ t))%nat.
  { induction s as [|c s IH]; [cbn; lia|].
    change (S (String.length s) ≤ S (String.length (s +:+ t)))%nat. lia. }
  unfold string_take. rewrite decide_True by lia.
  rewrite Nat2Z.id. f_equal. clear. induction s as [|c s IH]; [by destruct t|].
  change (String c (String.substring 0 (String.length s) (s +:+ t)) = String c s). by rewrite IH.
Qed.

(** Below the last src of the working directory the program is found in its main directory; a
    working directory without one panics. *)
Lemma path_spec root t prog : strings_LastIndex t "src" = 0 → path prog (root +:+ t) = Ret (path_Join (join_src root) prog).
Proof. intros Ht. unfold path. by rewrite (LastIndex_app _ _ _ Ht), string_take_app. Qed.

Lemma path_outside prog cwd : strings_LastIndex cwd "src" = -1 → path prog cwd = Panic "slice bounds out of range".
Proof. intros Ht. unfold path. by rewrite Ht. Qed.

Example path_from_package : path "kvraft1d" "/repo/src/kvraft1" = Ret "/repo/src/main/kvraft1d".
Proof. reflexivity. Qed.

(** ** [kill]

    [err] is what killing the process answers; that the process was reaped is not looked at.
    [files] are the sockets in the file system; removing one that is not there is no error. *)
Definition kill (err : option string) (endName : string) (files : gset string) : outcome (gset string) :=
  match err with
  | Some e => Fatal ("Kill err " +:+ e)
  | None => Ret (files ∖ {[SockName (sockctl endName)]} ∖ {[SockName endName]})
  end.

(** ** What the two sides agree on *)

(** The flags of a server process are what the tester means them to be, in whatever order they
    are read: with an optional limit for Raft's state in front, parsing leaves exactly the
    positional arguments, and so does the count of the arguments that begin with a dash. *)
Theorem daemon_flags_roundtrip raft limit endName gid srv endNames :
  0 ≤ gid → (∀ n, limit = Some n → - 2 ^ 63 ≤ n < 2 ^ 63) →
  let pargs := match limit with Some n => [max_raft_state n] | None => [] end in
  let args := runDaemon_args raft pargs endName gid srv endNames in
  let positional := [strconv_Itoa gid; strconv_Itoa srv; strconv_Itoa (zlen endNames); endName] ++ endNames in
  flag_Parse args flags_init =
    Ret ({| UseRaftStateMachine := raft; MaxRaftState := default (-1) limit |}, positional) ∧
  ∃ s, skip_options 0 0 args = Ret s ∧ go_slice args s (zlen args) = Ret positional.
Proof.
  intros Hg Hn pargs args positional.
  assert (forallb is_option (pargs ++ options raft) = true) as Ho.
  { rewrite forallb_app. unfold pargs. by destruct limit, raft. }
  assert (args = (pargs ++ options raft) ++ positional) as Ha by (unfold args, runDaemon_args; by rewrite app_assoc).
  destruct (Itoa_first gid Hg) as (c & s & Hc & Hne). split.
  - unfold args, runDaemon_args, pargs. destruct limit as [n|]; cbn [app].
    + rewrite flag_Parse_max by auto. rewrite flag_Parse_options by done. by rewrite flag_Parse_number.
    + rewrite flag_Parse_options by done. by rewrite flag_Parse_number.
  - exists (zlen (pargs ++ options raft)). rewrite Ha. split.
    + unfold positional. cbn [app]. rewrite Hc, skip_options_all by done.
      by destruct (pargs ++ options raft).
    + rewrite <- (app_nil_r (_ ++ positional)) at 1. rewrite <- app_assoc.
      apply go_slice_after; [done|by rewrite zlen_app].
Qed.

Lemma kill_removes endName files files' :
  kill None endName files = Ret files' →
  SockName endName ∉ files' ∧ SockName (sockctl endName) ∉ files' ∧
  ∀ f, f ∈ files → f ≠ SockName endName → f ≠ SockName (sockctl endName) → f ∈ files'.
Proof. intros [= <-]. set_solver. Qed.
