(* ===== verification/Sockrpc.v ===== *)
(** * Calls between processes

    [src/src/tester1/sockrpc/], [testclnt.go], [testsrv.go] and the forwarding parts of
    [daemonsrv.go] and [daemonclnt.go].  Servers run in processes of their own and reach each
    other through the tester: a server's end hands a call to [DaemonSrv.forward], which calls
    [TesterRPC.Forward] over the tester's socket; the tester puts it into the simulated network
    ([LabRpc.v]), whose server for the callee hands it to [DaemonClnt.forward], which calls the
    callee's process over its socket.

    The encoding of gob is an interface, [Gob], with its law; a call over a socket meets one of
    the fates of [GoLib.v] ([Demux.v] shows that no other is possible); what the network does
    with a request is a parameter, [lab]. *)
From stdpp Require Import base tactics numbers list fin_sets gmap strings.
From S2P Require Import Prelude GoLib GoStrings LabRpc Demux.

(** ** gob *)

Class Gob (A : Type) := { Marshall : A → bytes; Unmarshall : bytes → outcome A }.
Class GobLaw (A : Type) `{Gob A} := Unmarshall_Marshall (a : A) : Unmarshall (Marshall a) = Ret a.

Record RPCArgs := { ra_Method : string; ra_Args : bytes }.
Record ForwardArgs := { fa_Method : string; fa_End : string; fa_Args : bytes; fa_Id : Z }.
Record ForwardReply := { fr_Rep : bytes; fr_Ok : bool }.

Section sockrpc.
Context {St : Type}.

(** ** [rpcclnt.go] and [rpcsrv.go] *)

(** [SendReceive] to a process that serves with [serve]. *)
Definition socket (f : call_fate) (serve : bytes → St → outcome (St * (bytes * bool))) (b : bytes) (st : St)
    : outcome (St * reply) :=
  match f with
  | RequestLost => Ret (st, fail_reply)
  | ReplyLost => '(st, _) ← serve b st; Ret (st, fail_reply)
  | Delivered => '(st, (rep, ok)) ← serve b st; Ret (st, {| re_rep := rep; re_ok := ok; re_err := None |})
  end.

Definition RPC `{Gob RPCArgs} (f : call_fate) serve (method : string) (args : bytes) (st : St)
    : outcome (St * (bytes * bool)) :=
  '(st, rep) ← socket f serve (Marshall {| ra_Method := method; ra_Args := args |}) st;
  Ret (st, match re_err rep with Some _ => ([], false) | None => (re_rep rep, re_ok rep) end).

(** The reply variable is the caller's zero value until it is decoded into: [None]. *)
Definition RPCMarshall `{Gob RPCArgs} {A B} `{Gob A} `{Gob B} (f : call_fate) serve (method : string) (args : A)
    (st : St) : outcome (St * option B) :=
  '(st, (rep, ok)) ← RPC f serve method (Marshall args) st;
  if (ok : bool) then v ← Unmarshall rep; Ret (st, Some v) else Ret (st, None).
End sockrpc.

Definition ServeRequest {St} `{Gob RPCArgs} (clntEnd : string) (b : bytes) (s : Server St * St)
    : outcome (Server St * St * (bytes * bool)) :=
  req ← Unmarshall b; Server_Dispatch (ra_Method req) clntEnd (ra_Args req) s.1 s.2.

(** ** [testsrv.go]: the tester's end *)

Section forward.
Context {St : Type} `{Gob RPCArgs, Gob ForwardArgs, Gob ForwardReply}.

(** What the network makes of a request that is sent to it. *)
Variable lab : reqMsg → St → outcome (St * replyMsg).

Definition Forward (net : Network) (args : ForwardArgs) (st : St) : outcome (St * ForwardReply) :=
  endname ← LookupEnd (fa_End args) net;
  '(st, rep) ← lab {| rq_endname := endname; rq_svcMeth := fa_Method args; rq_args := fa_Args args |} st;
  let '(rep, ok) := Forward_finish rep in Ret (st, {| fr_Rep := rep; fr_Ok := ok |}).

(** [TesterRPC] as a service, whose one method of use here is [Forward]. *)
Definition Forward_method (net : Network) : Method St :=
  {| me_Name := "Forward"; me_PkgPath := ""; me_NumIn := 3; me_ReplyIsPtr := true; me_NumOut := 0;
     me_Func := λ b st, args ← Unmarshall b; '(st, rep) ← Forward net args st; Ret (st, Marshall rep) |}.

Definition newTesterRPCSrv (net : Network) : Server St :=
  AddService (MakeService "TesterRPC" [Forward_method net]) MakeServer.

(** ** [daemonsrv.go]: a call that leaves a process *)

(** [DaemonSrv.forward] of a process whose calls the tester serves. *)
Definition ds_forward (f : call_fate) (own : string) (id : Z) (endname method : string) (b : bytes)
    (s : Server St * St) : outcome (Server St * St * (bytes * bool)) :=
  '(s, rep) ← RPCMarshall f (ServeRequest own) "TesterRPC.Forward"
                {| fa_Method := method; fa_End := endname; fa_Args := b; fa_Id := i64 (id + 1) |} s;
  Ret (s, match rep with Some rep => (fr_Rep rep, fr_Ok rep) | None => ([], false) end).

(** [ClientEnd.Call] of an end with [SetCall]. *)
Definition Call_callf {A B} `{Gob A, Gob B} (f : call_fate) (own : string) (id : Z) (endname method : string)
    (args : A) (s : Server St * St) : outcome (Server St * St * option B) :=
  '(s, (rep, ok)) ← ds_forward f own id endname method (Marshall args) s;
  if (ok : bool) then v ← Unmarshall rep; Ret (s, Some v) else Ret (s, None).

(** [ClientEnd.Call] of an end of the network, for comparison. *)
Definition Call_direct {A B} `{Gob A, Gob B} (endname method : string) (args : A) (st : St)
    : outcome (St * option B) :=
  '(st, rep) ← lab {| rq_endname := endname; rq_svcMeth := method; rq_args := Marshall args |} st;
  r ← Call_finish Unmarshall rep; Ret (st, r).
End forward.

(** ** [daemonclnt.go]: a call that enters a process *)

(** [DaemonClnt.forward], the dispatch function of the network's server for a daemon; the
    daemon is its server and the state of its services. *)
Definition dc_forward {St} `{Gob RPCArgs} (f : call_fate) (method : string) (args : bytes) (s : Server St * St)
    : outcome (Server St * St * (bytes * bool)) :=
  RPC f (ServeRequest "tester") method args s.

Definition labsrv {St} `{Gob RPCArgs} (f : call_fate) : Server (Server St * St) :=
  SetDispatch (dc_forward f) MakeServer.

(** ** Going through the tester changes nothing *)

Section transparent.
Context {St : Type} `{Gob RPCArgs, Gob ForwardArgs, Gob ForwardReply}.
Context `{!GobLaw RPCArgs, !GobLaw ForwardArgs, !GobLaw ForwardReply}.

Definition counted (rs : Server St) : Server St := rs <| se_count := i64 (se_count rs + 1) |>.

Definition is_tester (lab : reqMsg → St → outcome (St * replyMsg)) (net : Network) (rs : Server St) : Prop :=
  se_dispatchf rs = None ∧
  se_services rs !! "TesterRPC" = Some (MakeService "TesterRPC" [Forward_method lab net]).

Lemma tester_serves lab net own args (rs : Server St) st :
  is_tester lab net rs →
  ServeRequest own (Marshall {| ra_Method := "TesterRPC.Forward"; ra_Args := Marshall args |}) (rs, st) =
    '(st, rep) ← Forward lab net args st; Ret (counted rs, st, (Marshall rep, true)).
Proof.
  intros [Hd Hs]. unfold ServeRequest. rewrite Unmarshall_Marshall, bind_ret_l. unfold Server_Dispatch, Server_dispatch.
  change (split_method _) with (Ret ("TesterRPC", "Forward")). rewrite bind_ret_l. cbn. rewrite Hd, Hs. cbn.
  unfold Service_dispatch. change (sv_methods _ !! "Forward") with (Some (me_Func (Forward_method lab net))).
  cbn. rewrite Unmarshall_Marshall. cbn. by destruct (Forward lab net args st) as [[? ?]| |].
Qed.

(** A call that leaves a process through the tester, by the fate of its trip to the tester. *)
Lemma ds_forward_spec lab net f own id endname method b (rs : Server St) st :
  is_tester lab net rs → endname ∈ nw_ends net →
  ds_forward f own id endname method b (rs, st) =
    match f with
    | RequestLost => Ret (rs, st, ([], false))
    | ReplyLost =>
        '(st, rep) ← lab {| rq_endname := endname; rq_svcMeth := method; rq_args := b |} st;
        Ret (counted rs, st, ([], false))
    | Delivered =>
        '(st, rep) ← lab {| rq_endname := endname; rq_svcMeth := method; rq_args := b |} st;
        Ret (counted rs, st, Forward_finish rep)
    end.
Proof.
  intros Ht He. unfold ds_forward, RPCMarshall, RPC, socket.
  assert (∀ args, fa_End args = endname → Forward lab net args st =
    '(st, rep) ← lab {| rq_endname := endname; rq_svcMeth := fa_Method args; rq_args := fa_Args args |} st;
    Ret (st, {| fr_Rep := rp_reply rep; fr_Ok := rp_ok rep |})) as HF.
  { intros args <-. unfold Forward, LookupEnd. by rewrite decide_True. }
  destruct f; [done| |]; rewrite (tester_serves lab net) by done; rewrite HF by done; cbn;
    destruct (lab _ st) as [[st' rep]| |]; cbn; try done.
  by rewrite Unmarshall_Marshall.
Qed.

(** A request that enters a process, by the fate of the trip from the tester. *)
Lemma labsrv_spec f req (ls : Server (Server St * St)) (rs : Server St) st rs' st' rep :
  se_dispatchf ls = Some (dc_forward f) →
  Server_dispatch {| rq_endname := "tester"; rq_svcMeth := rq_svcMeth req; rq_args := rq_args req |} rs st =
    Ret (rs', st', rep) →
  Server_dispatch req ls (rs, st) =
    Ret (ls <| se_count := i64 (se_count ls + 1) |>,
         match f with RequestLost => (rs, st) | _ => (rs', st') end,
         match f with Delivered => rep | _ => no_reply end).
Proof.
  intros Hf Hd. unfold Server_dispatch at 1. cbn.
  assert (∃ p, split_method (rq_svcMeth req) = Ret p) as [[svc mth] Hs].
  { unfold Server_dispatch in Hd. cbn in Hd. destruct (split_method _) as [p| |]; [by exists p|done|done]. }
  rewrite Hs. cbn. rewrite Hf. unfold dc_forward, RPC, socket, ServeRequest.
  rewrite Unmarshall_Marshall. cbn. unfold Server_Dispatch. rewrite Hd.
  destruct f, rep; done.
Qed.
End transparent.

(** ** A call from one process to another *)

(** The trip through the network to the callee's server there: a request may be dropped before
    or its reply after. *)
Definition lab_trip {St} (f : call_fate) (req : reqMsg) (s : Server St * St)
    : outcome (Server St * St * replyMsg) :=
  match f with
  | RequestLost => Ret (s, no_reply)
  | ReplyLost => '(ls, st, _) ← Server_dispatch req s.1 s.2; Ret (ls, st, no_reply)
  | Delivered => Server_dispatch req s.1 s.2
  end.

Definition arrives (f : call_fate) : bool := match f with RequestLost => false | _ => true end.
Definition returns (f : call_fate) : bool := match f with Delivered => true | _ => false end.

Section remote.
Context {St A B : Type} `{Gob RPCArgs, Gob ForwardArgs, Gob ForwardReply, Gob A, Gob B}.
Context `{!GobLaw RPCArgs, !GobLaw ForwardArgs, !GobLaw ForwardReply}.

(** C16: a call of one server process to another makes three trips, caller to tester,
    through the network, tester to callee.  Whatever is lost on the way, the callee's handler
    runs once, as if called directly, when the request survives all three and not at all
    otherwise; and the caller gets the handler's reply when everything arrives and false
    otherwise, never another reply. *)
Theorem remote_call f1 f0 f2 net own id endname method (args : A) (v : B)
    (rs : Server (Server (Server St * St) * (Server St * St))) ls rsB stB rsB' stB' rep :
  is_tester (lab_trip f0) net rs → endname ∈ nw_ends net → se_dispatchf ls = Some (dc_forward f2) →
  Server_dispatch {| rq_endname := "tester"; rq_svcMeth := method; rq_args := Marshall args |} rsB stB =
    Ret (rsB', stB', rep) →
  (rp_ok rep = true → Unmarshall (rp_reply rep) = Ret v) →
  ∃ rs' ls', Call_callf f1 own id endname method args (rs, (ls, (rsB, stB))) =
    Ret (rs', (ls', if arrives f1 && arrives f0 && arrives f2 then (rsB', stB') else (rsB, stB)),
         if returns f1 && returns f0 && returns f2 && rp_ok rep then Some v else None).
Proof.
  intros Ht He Hls Hd Hv. unfold Call_callf. rewrite (ds_forward_spec _ net) by done.
  pose proof (labsrv_spec f2 {| rq_endname := endname; rq_svcMeth := method; rq_args := Marshall args |}
    ls rsB stB rsB' stB' rep Hls Hd) as Hl.
  destruct f1; [by do 2 eexists| |]; destruct f0; cbn; try rewrite Hl; cbn.
  all: destruct f2; cbn; try by do 2 eexists.
  destruct (rp_ok rep) eqn:Ho; [rewrite Hv by done|]; by do 2 eexists.
Qed.
End remote.

(** *** An encoding the law holds of *)

Definition count_gob (A : Type) `{Countable A} : Gob A := {|
  Marshall a := [Zpos (encode a)];
  Unmarshall b := match b with
                  | [Zpos p] => from_option Ret (Fatal "Unmarshall fatal") (decode p)
                  | _ => Fatal "Unmarshall fatal"
                  end
|}.

Lemma count_gob_law A `{Countable A} : @GobLaw A (count_gob A).
Proof. intros a. cbn. by rewrite decode_encode. Qed.

#[local] Instance RPCArgs_eq_dec : EqDecision RPCArgs.
Proof. solve_decision. Defined.
#[local] Instance ForwardArgs_eq_dec : EqDecision ForwardArgs.
Proof. solve_decision. Defined.
#[local] Instance ForwardReply_eq_dec : EqDecision ForwardReply.
Proof. solve_decision. Defined.
#[local] Instance RPCArgs_countable : Countable RPCArgs.
Proof.
  by refine (inj_countable' (λ a, (ra_Method a, ra_Args a)) (λ '(m, a), {| ra_Method := m; ra_Args := a |}) _); intros [].
Defined.
#[local] Instance ForwardArgs_countable : Countable ForwardArgs.
Proof.
  by refine (inj_countable' (λ a, (fa_Method a, fa_End a, fa_Args a, fa_Id a))
    (λ '(m, e, a, i), {| fa_Method := m; fa_End := e; fa_Args := a; fa_Id := i |}) _); intros [].
Defined.
#[local] Instance ForwardReply_countable : Countable ForwardReply.
Proof.
  by refine (inj_countable' (λ a, (fr_Rep a, fr_Ok a)) (λ '(r, o), {| fr_Rep := r; fr_Ok := o |}) _); intros [].
Defined.

#[local] Instance RPCArgs_gob : Gob RPCArgs := count_gob _.
#[local] Instance ForwardArgs_gob : Gob ForwardArgs := count_gob _.
#[local] Instance ForwardReply_gob : Gob ForwardReply := count_gob _.
#[local] Instance RPCArgs_gob_law : GobLaw RPCArgs := count_gob_law _.
#[local] Instance ForwardArgs_gob_law : GobLaw ForwardArgs := count_gob_law _.
#[local] Instance ForwardReply_gob_law : GobLaw ForwardReply := count_gob_law _.
#[local] Instance unit_gob : Gob unit := {| Marshall _ := []; Unmarshall _ := Ret tt |}.
#[local] Instance Z_gob : Gob Z :=
  {| Marshall z := [z]; Unmarshall b := match b with [z] => Ret z | _ => Fatal "Unmarshall fatal" end |}.

Definition one_end : Network := MakeNetwork <| nw_ends := {["end"]} |>.

Lemma remote_call_witness :
  ∃ rs' ls', Call_callf (B := Z) Delivered "server-0-0" 0 "end" "C.Inc" tt
      (newTesterRPCSrv (lab_trip Delivered) one_end, (labsrv Delivered, (counter_server, 41))) =
    Ret (rs', (ls', (counted counter_server, 42)), Some 42).
Proof.
  apply (remote_call (A := unit) Delivered Delivered Delivered one_end "server-0-0" 0 "end" "C.Inc" tt 42
    (newTesterRPCSrv (lab_trip Delivered) one_end) (labsrv Delivered) counter_server 41
    (counted counter_server) 42 {| rp_ok := true; rp_reply := [42] |}).
  - split; reflexivity.
  - change ("end" ∈ ({["end"]} : gset string)). by apply elem_of_singleton_2.
  - reflexivity.
  - reflexivity.
  - reflexivity.
Defined.
