(* ===== verification/Rsm.v ===== *)
(** * The replicated counter and its tester

    [src/src/kvraft1/rsm/]: the counter that a replicated state machine replicates
    ([server.go]), the tester's stub of a server process ([proxy.go]) and the tester
    ([test.go]): finding a server that takes a request, and waiting for the counters to agree.
    [rsm.go] is a skeleton, whose [Submit] refuses every request.

    A request crosses to a server process by [call_fate].  Everything outside the tester, the
    servers, their connections and what happens while the tester sleeps, is a world the tester
    calls on; how many rounds fit in the ten seconds of [onePartition] is an argument. *)
From stdpp Require Import base tactics numbers list fin_maps gmap strings pretty.
From S2P Require Import Prelude GoLib.

(** ** [server.go] *)

(** What a request or a reply of type [any] holds. *)
Inductive req := Inc | Null | Dec.
Inductive rep := IncRep (n : Z) | NullRep.

#[export] Instance rep_eq_dec : EqDecision rep.
Proof. solve_decision. Defined.

(** [rs.counter]. *)
Definition rsmSrv : Type := Z.

(** [DoOp]: the section under the lock, and the reading of the reply after it. *)
Definition DoOp_locked (r : req) (counter : rsmSrv) : outcome rsmSrv :=
  match r with
  | Inc => Ret (i64 (counter + 1))
  | Null => Ret counter
  | Dec => Fatal "DoOp should execute only Inc"
  end.
Definition DoOp_reply (r : req) (counter : rsmSrv) : rep :=
  match r with Inc => IncRep counter | _ => NullRep end.

Definition DoOp (r : req) (counter : rsmSrv) : outcome (rsmSrv * rep) :=
  counter ← DoOp_locked r counter; Ret (counter, DoOp_reply r counter).

Definition GetCounter (counter : rsmSrv) : Z := counter.

Section snapshot.
Context (encode : Z → list Z) (decode : list Z → option Z).
Definition Snapshot (counter : rsmSrv) : list Z := encode counter.
Definition Restore (data : list Z) (counter : rsmSrv) : outcome rsmSrv :=
  match decode data with Some c => Ret c | None => Fatal "couldn't decode counter" end.
End snapshot.

(** ** [rsm.go] and [proxy.go] *)

Definition OK : string := "OK".
Definition rsm_Submit (r : req) : string * option rep := ("ErrWrongLeader", None).

Definition RSMproxy_Submit (f : call_fate) (reply : string * option rep) : string * option rep :=
  match f with Delivered => reply | _ => ("", None) end.
Definition RSMproxy_GetCounter (f : call_fate) (counter : rsmSrv) : Z :=
  match f with Delivered => GetCounter counter | _ => 0 end.

(** ** [test.go] *)

Definition NSRV : Z := 3.

(** [ts_srvs]: for each server, whether [rsm] is set. *)
Record Test := { ts_srvs : list bool; ts_leader : Z; ts_ops : Z }.
#[export] Instance eta_Test : Eta Test := λ t,
  {| ts_srvs := ts_srvs t; ts_leader := ts_leader t; ts_ops := ts_ops t |}.

Definition mksrv (srv : Z) (ts : Test) : outcome Test :=
  l ← go_update (ts_srvs ts) srv true; Ret (ts <| ts_srvs := l |>).

(** A nil slice is no partition. *)
Definition inPartition (s : Z) (p : option (list Z)) : bool :=
  match p with None => true | Some p => bool_decide (s ∈ p) end.

Section onePartition.
Context {W : Type}.
(** [IsConnected], a server's answer, and what happens during the 50 ms between two rounds. *)
Variable IsConnected : Z → W → bool.
Variable Submit : Z → req → W → W * (string * option rep).
Variable sleep : W → W.

(** One turn of the inner loop; [Some] is the return of the whole function. *)
Definition try_server (p : option (list Z)) (r : req) (index : Z) (ts : Test) (w : W)
    : outcome (Test * W * option (option rep)) :=
  if decide (NSRV ≤ index) then Fatal ("index " +:+ pretty index)
  else if decide (index ≠ -1 ∧ IsConnected index w = true) then
    present ← go_index (ts_srvs ts) index;
    if (present : bool) && inPartition index p then
      let '(w, (err, rp)) := Submit index r w in
      if decide (err = OK) then
        Ret (ts <| ts_ops := i32 (ts_ops ts + 1) |> <| ts_leader := index |>, w, Some rp)
      else Ret (ts, w, None)
    else Ret (ts, w, None)
  else Ret (ts, w, None).

Fixpoint try_servers (n : nat) (p : option (list Z)) (r : req) (index : Z) (ts : Test) (w : W)
    : outcome (Test * W * option (option rep)) :=
  match n with
  | O => Ret (ts, w, None)
  | S n =>
      '(ts, w, res) ← try_server p r index ts w;
      match res with
      | Some rp => Ret (ts, w, Some rp)
      | None => try_servers n p r (Z.rem (index + 1) (zlen (ts_srvs ts))) ts w
      end
  end.

(** [rounds] start within the ten seconds. *)
Fixpoint onePartition (rounds : nat) (p : option (list Z)) (r : req) (ts : Test) (w : W)
    : outcome (Test * W * option rep) :=
  match rounds with
  | O => Ret (ts, w, None)
  | S rounds =>
      '(ts, w, res) ← try_servers (length (ts_srvs ts)) p r (ts_leader ts) ts w;
      match res with
      | Some rp => Ret (ts, w, rp)
      | None => onePartition rounds p r ts (sleep w)
      end
  end.

(** The type assertion on the reply panics for a reply of another type. *)
Definition oneInc (rounds : nat) (ts : Test) (w : W) : outcome (Test * W * Z) :=
  '(ts, w, rp) ← onePartition rounds None Inc ts w;
  match rp with
  | None => Ret (ts, w, 0)
  | Some (IncRep n) => Ret (ts, w, n)
  | Some NullRep => Panic "interface conversion"
  end.
Definition oneNull (rounds : nat) (ts : Test) (w : W) : outcome (Test * W) :=
  '(ts, w, rp) ← onePartition rounds None Null ts w;
  match rp with
  | None | Some NullRep => Ret (ts, w)
  | Some (IncRep _) => Panic "interface conversion"
  end.

(** ** [checkCounter] *)

(** What the calls of [GetCounter] answer. *)
Variable Counter : Z → W → Z.

Definition countValue (v : Z) (ts : Test) (w : W) : Z :=
  zlen (filter (λ i, Counter i w = v) (Z.of_nat <$> seq 0 (length (ts_srvs ts)))).

Variable nap : Z → W → W.   (* what happens during so many ms *)

(** Returns how long it slept, in ms. *)
Fixpoint checkCounter_loop (iters : nat) (to : Z) (n : Z) (v nsrv : Z) (ts : Test) (w : W) (slept : Z)
    : outcome (W * Z) :=
  match iters with
  | O => Fatal ("checkCounter: only " +:+ pretty n +:+ " srvs have " +:+ pretty v +:+ " instead of " +:+ pretty nsrv)
  | S iters =>
      let n := countValue v ts w in
      if decide (nsrv ≤ n) then Ret (w, slept)
      else checkCounter_loop iters (if decide (to < 1000) then to * 2 else to) n v nsrv ts (nap to w) (slept + to)
  end.

Definition checkCounter (v nsrv : Z) (ts : Test) (w : W) : outcome (W * Z) :=
  checkCounter_loop 30 10 0 v nsrv ts w 0.
End onePartition.

(** ** [DoOp] by several threads *)

(** A thread of [DoOp Inc]: before the lock, between unlocking and reading, returned. *)
Inductive doop_pc := DStart | DRead | DDone (n : Z).

Definition doop_step (k : nat) (s : rsmSrv * list doop_pc) : outcome (rsmSrv * list doop_pc) :=
  match s.2 !! k with
  | Some DStart => c ← DoOp_locked Inc s.1; Ret (c, <[k := DRead]> s.2)
  | Some DRead =>
      Ret (s.1, <[k := match DoOp_reply Inc s.1 with IncRep n => DDone n | NullRep => DRead end]> s.2)
  | _ => Ret s
  end.

Definition doop_run : list nat → rsmSrv * list doop_pc → outcome (rsmSrv * list doop_pc) := go_for doop_step.

Definition begun (pc : doop_pc) : bool := match pc with DStart => false | _ => true end.
Definition nbegun (l : list doop_pc) : Z := zlen (filter (λ pc, begun pc = true) l).

Definition doop_inv (c0 : Z) (s : rsmSrv * list doop_pc) : Prop :=
  s.1 = c0 + nbegun s.2 ∧ ∀ k n, s.2 !! k = Some (DDone n) → c0 < n ≤ s.1.

Lemma nbegun_insert l k pc pc' :
  l !! k = Some pc →
  nbegun (<[k := pc']> l) = nbegun l + (if begun pc' then 1 else 0) - (if begun pc then 1 else 0).
Proof.
  intros Hk. pose proof (take_drop_middle l k pc Hk) as Hl.
  assert (<[k := pc']> l = take k l ++ pc' :: drop (S k) l) as ->.
  { rewrite <- Hl at 1. rewrite insert_app_r_alt; rewrite length_take_le by (apply lookup_lt_Some in Hk; lia); [|lia].
    by rewrite Nat.sub_diag. }
  rewrite <- Hl at 3. unfold nbegun. rewrite !filter_app, !filter_cons, !zlen_app.
  repeat case_decide; destruct (begun pc), (begun pc'); try congruence; rewrite ?zlen_cons; lia.
Qed.

Lemma nbegun_le l : 0 ≤ nbegun l ≤ zlen l.
Proof.
  unfold nbegun. split; [apply zlen_nonneg|]. unfold zlen. apply inj_le, length_filter.
Qed.

Lemma doop_step_inv c0 k s s' :
  - 2 ^ 63 ≤ c0 → c0 + zlen s.2 < 2 ^ 63 → doop_inv c0 s → doop_step k s = Ret s' →
  doop_inv c0 s' ∧ length s'.2 = length s.2.
Proof.
  destruct s as [c l]. intros Hlo Hhi [Hc Hd] E. cbn in *. unfold doop_step in E. cbn in E.
  destruct (l !! k) as [[| |n]|] eqn:Hk; [| |by injection E as <-..].
  - injection E as <-. pose proof (nbegun_insert l k _ DRead Hk) as Hn. cbn in Hn.
    pose proof (nbegun_le (<[k := DRead]> l)) as Hle. rewrite zlen_insert in Hle.
    rewrite i64_small by lia. split; [|apply length_insert]. split; cbn; [lia|].
    intros j n [[-> ?]|[_ Hj]]%lookup_insert_cases; [done|]. specialize (Hd j n Hj). lia.
  - injection E as <-. pose proof (nbegun_insert l k _ (DDone c) Hk) as Hn. cbn in Hn.
    assert (0 < nbegun l).
    { unfold nbegun. assert (DRead ∈ filter (λ pc, begun pc = true) l) as Hin.
      { apply list_elem_of_filter. split; [done|]. by eapply list_elem_of_lookup_2. }
      destruct (filter _ l) as [|x f]; [by apply elem_of_nil in Hin|]. rewrite zlen_cons.
      pose proof (zlen_nonneg f). lia. }
    split; [|apply length_insert]. split; cbn; [lia|].
    intros j n [[-> [= <-]]|[_ Hj]]%lookup_insert_cases; [lia|]. by apply (Hd j).
Qed.

Lemma doop_run_inv c0 ks s :
  - 2 ^ 63 ≤ c0 → c0 + zlen s.2 < 2 ^ 63 → doop_inv c0 s →
  ∃ s', doop_run ks s = Ret s' ∧ doop_inv c0 s' ∧ length s'.2 = length s.2.
Proof.
  revert s. induction ks as [|k ks IH]; intros s Hlo Hhi Hs; [by exists s|]. cbn.
  assert (∃ s1, doop_step k s = Ret s1) as [s1 E1].
  { unfold doop_step. destruct (s.2 !! k) as [[| |]|]; cbn; by eexists. }
  destruct (doop_step_inv c0 k s s1 Hlo Hhi Hs E1) as [H1 L1]. rewrite E1. cbn.
  destruct (IH s1 Hlo) as (s' & E & H' & L'); [unfold zlen in *; lia|done|].
  exists s'. split; [done|]. split; [done|lia].
Qed.

(** C40: however [n] calls of [DoOp Inc] interleave, no increment is lost and no reply is
    out of bounds: the counter has grown by the calls that are past the lock, all [n] in the
    end, and every reply lies above the counter's first value and not above its last. *)
Theorem doop_interleaved ks c0 (n : nat) :
  - 2 ^ 63 ≤ c0 → c0 + Z.of_nat n < 2 ^ 63 →
  ∃ c l, doop_run ks (c0, replicate n DStart) = Ret (c, l) ∧
    c = c0 + nbegun l ∧ (∀ k m, l !! k = Some (DDone m) → c0 < m ≤ c) ∧
    ((∀ pc, pc ∈ l → pc ≠ DStart) → c = c0 + Z.of_nat n).
Proof.
  intros Hlo Hhi. destruct (doop_run_inv c0 ks (c0, replicate n DStart)) as ([c l] & E & [Hc Hd] & L).
  - done.
  - cbn. unfold zlen. rewrite length_replicate. lia.
  - split; cbn.
    + unfold nbegun. rewrite filter_none; [rewrite zlen_nil; lia|]. by intros pc [-> _]%elem_of_replicate.
    + by intros k m [? _]%lookup_replicate.
  - exists c, l. split; [done|]. split; [done|]. split; [done|]. intros Hall. cbn in Hc, L.
    rewrite length_replicate in L. rewrite Hc. unfold nbegun.
    rewrite filter_all; [unfold zlen; lia|]. intros pc Hpc. specialize (Hall pc Hpc). by destruct pc.
Qed.

Lemma doop_interleaved_witness :
  ∃ c l, doop_run [0; 1; 1; 0]%nat (0, replicate 2 DStart) = Ret (c, l) ∧
    c = 0 + nbegun l ∧ (∀ k m, l !! k = Some (DDone m) → 0 < m ≤ c) ∧
    ((∀ pc, pc ∈ l → pc ≠ DStart) → c = 0 + Z.of_nat 2).
Proof. apply (doop_interleaved [0; 1; 1; 0]%nat 0 2); lia. Defined.

(** The reply is read after the lock is given up: two calls may both answer 2. *)
Lemma DoOp_same_reply :
  doop_run [0; 1; 1; 0]%nat (0, [DStart; DStart]) = Ret (2, [DDone 2; DDone 2]).
Proof. done. Qed.

(** One after the other, the calls answer 1, 2, ... *)
Lemma DoOp_sequential c : - 2 ^ 63 ≤ c < 2 ^ 63 - 1 → DoOp Inc c = Ret (c + 1, IncRep (c + 1)).
Proof. intros. unfold DoOp, DoOp_locked. cbn. by rewrite i64_small by lia. Qed.

(** ** The search of [onePartition] *)

(** The servers from [leader] on, once around. *)
Definition cyclic (leader : Z) : list Z := (λ k, (leader + k) `mod` NSRV) <$> [0; 1; 2].

Lemma cyclic_Permutation leader : 0 ≤ leader < NSRV → cyclic leader ≡ₚ [0; 1; 2].
Proof.
  unfold NSRV. intros H. assert (leader = 0 ∨ leader = 1 ∨ leader = 2) as [->|[->| ->]] by lia; cbn; [done|..].
  all: solve_Permutation.
Qed.

Definition taken (ts : Test) (i : Z) : Test :=
  ts <| ts_ops := i32 (ts_ops ts + 1) |> <| ts_leader := i |>.

Section search.
Context {W : Type} (IsConnected : Z → W → bool) (Submit : Z → req → W → W * (string * option rep)).
Context (sleep : W → W) (p : option (list Z)) (r : req) (srvs : list bool).

Definition eligible (i : Z) (w : W) : bool :=
  IsConnected i w && default false (srvs !! Z.to_nat i) && inPartition i p.

(** The first of the servers that takes the request. *)
Fixpoint first_OK (order : list Z) (w : W) : W * option (Z * option rep) :=
  match order with
  | [] => (w, None)
  | i :: order =>
      if eligible i w then
        let '(w, (err, rp)) := Submit i r w in
        if decide (err = OK) then (w, Some (i, rp)) else first_OK order w
      else first_OK order w
  end.

Fixpoint search (rounds : nat) (order : list Z) (w : W) : W * option (Z * option rep) :=
  match rounds with
  | O => (w, None)
  | S rounds =>
      match first_OK order w with
      | (w, Some x) => (w, Some x)
      | (w, None) => search rounds order (sleep w)
      end
  end.

Lemma try_server_spec i ts w :
  0 ≤ i < NSRV → ts_srvs ts = srvs → zlen srvs = NSRV →
  try_server IsConnected Submit p r i ts w =
    match first_OK [i] w with
    | (w, Some (_, rp)) => Ret (taken ts i, w, Some rp)
    | (w, None) => Ret (ts, w, None)
    end.
Proof.
  intros Hi Hs Hl. unfold try_server. rewrite decide_False by lia. rewrite Hs. cbn [first_OK].
  unfold eligible. destruct (IsConnected i w) eqn:Ec; cbn.
  - rewrite decide_True by (split; [lia|done]).
    destruct (go_index_in_range srvs i) as (b & -> & ->); [lia|]. cbn.
    destruct (b && inPartition i p); [|done]. destruct (Submit i r w) as [w' [err rp]]. by case_decide.
  - by rewrite decide_False by naive_solver.
Qed.

Lemma first_OK_cons i order w :
  first_OK (i :: order) w =
    match first_OK [i] w with (w, Some x) => (w, Some x) | (w, None) => first_OK order w end.
Proof. cbn. destruct (eligible i w); [|done]. destruct (Submit i r w) as [w' [err rp]]. by case_decide. Qed.

Lemma first_OK_in order w w' i rp : first_OK order w = (w', Some (i, rp)) → i ∈ order.
Proof.
  revert w. induction order as [|j order IH]; intros w E; [done|]. rewrite first_OK_cons in E.
  destruct (first_OK [j] w) as [w1 [[k x]|]] eqn:E1.
  - injection E as -> -> ->. cbn in E1. destruct (eligible j w); [|done].
    destruct (Submit j r w) as [w2 [err y]]. case_decide; [|done]. injection E1 as <- <- <-. left.
  - right. by eapply IH.
Qed.

Lemma try_servers_spec (n : nat) i ts w :
  0 ≤ i < NSRV → ts_srvs ts = srvs → zlen srvs = NSRV →
  try_servers IsConnected Submit n p r i ts w =
    match first_OK ((λ k, (i + Z.of_nat k) `mod` NSRV) <$> seq 0 n) w with
    | (w, Some (j, rp)) => Ret (taken ts j, w, Some rp)
    | (w, None) => Ret (ts, w, None)
    end.
Proof.
  intros Hi Hs Hl. revert i w Hi. induction n as [|n IH]; intros i w Hi; [done|].
  cbn [try_servers seq fmap list_fmap]. rewrite (try_server_spec i ts w) by done.
  rewrite Z.add_0_r, Z.mod_small by done. rewrite (first_OK_cons i (_ <$> seq 1 n)).
  assert (∀ w1 j x, first_OK [i] w = (w1, Some (j, x)) → j = i) as Hji.
  { intros w1 j x E. apply first_OK_in in E. by apply list_elem_of_singleton in E. }
  destruct (first_OK [i] w) as [w1 [[j x]|]]; rewrite bind_ret_l; [by rewrite (Hji _ _ _ eq_refl)|].
  rewrite Hs, Hl. rewrite Z.rem_mod_nonneg by (unfold NSRV in *; lia).
  rewrite IH by (apply Z.mod_pos_bound; unfold NSRV; lia). rewrite <- fmap_S_seq, <- list_fmap_compose.
  assert (∀ l : list nat, (λ k, ((i + 1) `mod` NSRV + Z.of_nat k) `mod` NSRV) <$> l =
    (λ k, (i + Z.of_nat k) `mod` NSRV) ∘ S <$> l) as ->; [|done].
  intros l. apply list_fmap_ext. intros ? k _. cbn. rewrite Zplus_mod_idemp_l. f_equal. lia.
Qed.

(** [onePartition] never indexes out of range or stops the test.  Round by round it
    asks the connected servers of the partition that are running, each once, from the last known
    leader on; it returns the reply of the first that takes the request, counts one operation
    and remembers that server; when none does in all rounds, it returns nil and nothing is
    counted. *)
Theorem onePartition_search rounds ts w :
  ts_srvs ts = srvs → zlen srvs = NSRV → 0 ≤ ts_leader ts < NSRV →
  onePartition IsConnected Submit sleep rounds p r ts w =
    match search rounds (cyclic (ts_leader ts)) w with
    | (w, Some (i, rp)) => Ret (taken ts i, w, rp)
    | (w, None) => Ret (ts, w, None)
    end ∧
  cyclic (ts_leader ts) ≡ₚ [0; 1; 2].
Proof.
  intros Hs Hl Hi. split; [|by apply cyclic_Permutation].
  revert w. induction rounds as [|rounds IH]; intros w; [done|]. cbn [onePartition search].
  assert (length (ts_srvs ts) = 3%nat) as -> by (rewrite Hs; unfold zlen, NSRV in Hl; lia).
  rewrite try_servers_spec by done. change (_ <$> seq 0 3) with (cyclic (ts_leader ts)).
  destruct (first_OK (cyclic (ts_leader ts)) w) as [w1 [[i rp]|]]; [done|]. by apply IH.
Qed.
End search.

(** Server 2 leads the other two, and the tester's last leader has been cut off. *)
Definition cut_off (i : Z) (w : Z) : bool := bool_decide (i ≠ 0).
Definition server2 (i : Z) (r : req) (w : Z) : Z * (string * option rep) :=
  (w + 1, if decide (i = 2) then (OK, Some (IncRep 5)) else rsm_Submit r).
Definition ts7 : Test := {| ts_srvs := [true; true; true]; ts_leader := 0; ts_ops := 7 |}.

Lemma onePartition_search_witness :
  search cut_off server2 id None Inc [true; true; true] 3 [0; 1; 2] 0 = (2, Some (2, Some (IncRep 5))) ∧
  onePartition cut_off server2 id 3 None Inc ts7 0 =
    match search cut_off server2 id None Inc [true; true; true] 3 (cyclic 0) 0 with
    | (w, Some (i, rp)) => Ret (taken ts7 i, w, rp)
    | (w, None) => Ret (ts7, w, None)
    end ∧ cyclic 0 ≡ₚ [0; 1; 2].
Proof.
  split; [reflexivity|].
  apply (onePartition_search cut_off server2 id None Inc [true; true; true] 3 ts7 0);
    [reflexivity|reflexivity|split; [discriminate|reflexivity]].
Defined.

(** ** What [checkCounter] waits for *)

Section checkCounter.
Context {W : Type} (Counter : Z → W → Z) (nap : Z → W → W).

(** The world at each poll, and the pause after it. *)
Fixpoint polls (iters : nat) (to : Z) (w : W) : list W :=
  match iters with
  | O => []
  | S iters => w :: polls iters (if decide (to < 1000) then to * 2 else to) (nap to w)
  end.

Lemma checkCounter_loop_spec iters to n v nsrv ts w slept :
  (∃ w', w' ∈ polls iters to w ∧ nsrv ≤ countValue Counter v ts w' ∧ ∃ t,
     checkCounter_loop Counter nap iters to n v nsrv ts w slept = Ret (w', t)) ∨
  (∀ w', w' ∈ polls iters to w → countValue Counter v ts w' < nsrv) ∧ ∃ m,
     checkCounter_loop Counter nap iters to n v nsrv ts w slept = Fatal m.
Proof.
  revert to n w slept. induction iters as [|iters IH]; intros to n w slept; cbn [checkCounter_loop polls].
  { right. split; [by intros w' Hw%elem_of_nil|by eexists]. }
  destruct (decide (nsrv ≤ countValue Counter v ts w)) as [Hn|Hn].
  - left. exists w. split; [left|]. split; [exact Hn|by eexists].
  - destruct (IH (if decide (to < 1000) then to * 2 else to) (countValue Counter v ts w) (nap to w) (slept + to))
      as [(w' & Hin & Hc & t & E)|[Hall [m E]]]; rewrite E.
    + left. exists w'. split; [by right|]. split; [done|by eexists].
    + right. split; [|by eexists]. intros w' [->|Hin]%elem_of_cons; [lia|by apply Hall].
Qed.

(** [checkCounter] passes exactly when one of its thirty polls sees enough servers. *)
Lemma checkCounter_spec v nsrv ts w :
  (∃ w', w' ∈ polls 30 10 w ∧ nsrv ≤ countValue Counter v ts w') ↔
  ∃ w' t, checkCounter Counter nap v nsrv ts w = Ret (w', t).
Proof.
  unfold checkCounter. destruct (checkCounter_loop_spec 30 10 0 v nsrv ts w 0)
    as [(w' & Hin & Hc & t & E)|[Hall [m E]]]; split.
  - intros _. by exists w', t.
  - intros _. by exists w'.
  - intros (w' & Hin & Hc). specialize (Hall w' Hin). lia.
  - intros (w' & t & E'). congruence.
Qed.
End checkCounter.
