(* ===== verification/Stubs.v ===== *)
(** * Stubs and the services they call

    The calls between the tester and a server process, by name and with their arguments and
    replies, over the sockets of [Sockrpc.v]: the tester's Raft stub and the servers' tester
    stub (src/src/raft1/proxy.go, test.go, server.go), the stub of the replicated state
    machine (src/src/kvraft1/rsm/proxy.go, server.go) and the tester's calls to a daemon
    (src/src/tester1/daemonclnt.go, daemonsrv.go). [RaftTester], [Rsm] and [TesterNet] have
    the stubs with a fate instead of a socket; the theorem is that they come to the same.

    Also what a server process is made of: [MakeRSM] and the services of each program. *)
From stdpp Require Import base tactics numbers list fin_maps gmap strings pretty.
From S2P Require Import Prelude GoLib GoStrings RaftNode RaftTester TesterNet TesterConfig Rsm LabRpc Demux Sockrpc.

(** ** A method behind a socket *)

Section call.
Context {St : Type} `{Gob RPCArgs}.

(** An exported method with arguments, a pointer to a reply and no results. *)
Definition method {A B} `{Gob A, Gob B} (name : string) (f : A → St → outcome (St * B)) : Method St :=
  {| me_Name := name; me_PkgPath := ""; me_NumIn := 3; me_ReplyIsPtr := true; me_NumOut := 0;
     me_Func := λ b st, args ← Unmarshall b; '(st, rep) ← f args st; Ret (st, Marshall rep) |}.

(** [DaemonClnt.Call] and [TesterClnt.Call]: [who] is the caller's end. *)
Definition Call {A} (B : Type) `{Gob A, Gob B} (f : call_fate) (who meth : string) (args : A) (s : Server St * St)
    : outcome (Server St * St * option B) :=
  RPCMarshall f (ServeRequest who) meth args s.

(** What a request leaves at the server. *)
Definition served (f : call_fate) (rs : Server St) : Server St :=
  match f with RequestLost => rs | _ => counted rs end.

Definition has_method (rs : Server St) (svc : string) (m : Method St) : Prop :=
  se_dispatchf rs = None ∧ ∃ s, se_services rs !! svc = Some s ∧ sv_methods s !! me_Name m = Some (me_Func m).

Lemma dispatch_method {A B} `{Gob A, Gob B} `{!GobLaw A} svc name (body : A → St → outcome (St * B)) args e rs st :
  has_method rs svc (method name body) → split_method (svc +:+ "." +:+ name) = Ret (svc, name) →
  Server_dispatch {| rq_endname := e; rq_svcMeth := svc +:+ "." +:+ name; rq_args := Marshall args |} rs st =
    '(st, rep) ← body args st; Ret (counted rs, st, {| rp_ok := true; rp_reply := Marshall rep |}).
Proof.
  intros (Hd & s & Hs & Hm) Hsp. unfold Server_dispatch. cbn [rq_svcMeth rq_args].
  rewrite Hsp, bind_ret_l. cbn. rewrite Hd, Hs. cbn. unfold Service_dispatch. cbn [me_Name method] in Hm.
  setoid_rewrite Hm. cbn. rewrite Unmarshall_Marshall, bind_ret_l. by destruct (body args st) as [[? ?]| |].
Qed.

Lemma call_method `{!GobLaw RPCArgs} {A B} `{Gob A, Gob B} `{!GobLaw A, !GobLaw B} (f : call_fate) who svc name
    (body : A → St → outcome (St * B)) args rs st :
  has_method rs svc (method name body) → split_method (svc +:+ "." +:+ name) = Ret (svc, name) →
  Call B f who (svc +:+ "." +:+ name) args (rs, st) =
    match f with
    | RequestLost => Ret (rs, st, None)
    | ReplyLost => '(st, _) ← body args st; Ret (counted rs, st, None)
    | Delivered => '(st, rep) ← body args st; Ret (counted rs, st, Some rep)
    end.
Proof.
  intros Hm Hsp. unfold Call, RPCMarshall, RPC, socket.
  assert (ServeRequest who (Marshall {| ra_Method := svc +:+ "." +:+ name; ra_Args := Marshall args |}) (rs, st) =
    '(st, rep) ← body args st; Ret (counted rs, st, (Marshall rep, true))) as HS.
  { unfold ServeRequest. rewrite Unmarshall_Marshall, bind_ret_l. unfold Server_Dispatch. cbn [ra_Method ra_Args fst snd].
    rewrite (dispatch_method svc name body) by done. by destruct (body args st) as [[? ?]| |]. }
  destruct f; [done| |]; rewrite HS; destruct (body args st) as [[st' rep]| |]; cbn; try done.
  by rewrite Unmarshall_Marshall.
Qed.
End call.

(** ** The tester as seen from a server process *)

Section tester.
Context {Cmd : Type} `{EqDecision Cmd} (show : option Cmd → string).
Implicit Types (ts : RaftTester.Test Cmd) (m : ApplyMsg Cmd).

Record CheckLogsArgs := { cla_Index : Z; cla_Msg : ApplyMsg Cmd }.
Record CheckLogsReply := { clr_Err : string; clr_Prevok : bool }.
Record IngestLogArgs := { ila_Index : Z; ila_Log : gmap Z (option Cmd) }.
Record ApplyErrArgs := { aea_Index : Z; aea_Err : string }.

Definition CheckLogsRPC (args : CheckLogsArgs) ts : outcome (RaftTester.Test Cmd * CheckLogsReply) :=
  '(ts, (err, prevok)) ← CheckLogs show (cla_Index args) (cla_Msg args) ts;
  Ret (ts, {| clr_Err := err; clr_Prevok := prevok |}).
Definition IngestLogRPC (args : IngestLogArgs) ts : outcome (RaftTester.Test Cmd * unit) :=
  ts ← IngestLog (ila_Index args) (ila_Log args) ts; Ret (ts, tt).
Definition ApplyErrRPC (args : ApplyErrArgs) ts : outcome (RaftTester.Test Cmd * unit) :=
  ts ← ApplyErr (aea_Index args) (aea_Err args) ts; Ret (ts, tt).

Context `{Gob RPCArgs, Gob CheckLogsArgs, Gob CheckLogsReply, Gob IngestLogArgs, Gob ApplyErrArgs, Gob unit}.

(** [Test] as a service; its other methods are not of the shape. *)
Definition Test_service : Service (RaftTester.Test Cmd) :=
  MakeService "Test" [method "CheckLogsRPC" CheckLogsRPC; method "IngestLogRPC" IngestLogRPC; method "ApplyErrRPC" ApplyErrRPC].

Abbreviation tester := (Server (RaftTester.Test Cmd) * RaftTester.Test Cmd)%type.

Definition stub_CheckLogs (f : call_fate) (own : string) (index : Z) m (s : tester) : outcome (tester * (string * bool)) :=
  '(s, rep) ← Call CheckLogsReply f own "Test.CheckLogsRPC" {| cla_Index := index; cla_Msg := m |} s;
  Ret (s, match rep with None => ("ErrRPC", false) | Some rep => (clr_Err rep, clr_Prevok rep) end).
Definition stub_IngestLog (f : call_fate) (own : string) (index : Z) (xlog : gmap Z (option Cmd)) (s : tester) : outcome tester :=
  '(s, _) ← Call unit f own "Test.IngestLogRPC" {| ila_Index := index; ila_Log := xlog |} s; Ret s.
Definition stub_ApplyErr (f : call_fate) (own : string) (index : Z) (err : string) (s : tester) : outcome tester :=
  '(s, _) ← Call unit f own "Test.ApplyErrRPC" {| aea_Index := index; aea_Err := err |} s; Ret s.
(** [TesterProxy] on the end [own]: the tester reached over its socket. *)
Definition sockets (own : string) : Itester Cmd tester :=
  {| it_CheckLogs f := stub_CheckLogs f own; it_IngestLog f := stub_IngestLog f own; it_ApplyErr f := stub_ApplyErr f own |}.
End tester.

(** ** A server process as seen from the tester *)

Section raft.
Context {Cmd : Type}.

Record StartArgs := { sta_Command : Cmd }.

(** The server and its Raft peer. *)
Abbreviation proc := (rfsrv Cmd * Raft Cmd)%type.

Definition rfsrv_GetStateRPC (args : unit) (p : proc) : outcome (proc * GetStateReply) :=
  rep ← GetStateRPC p.1 p.2; Ret (p, rep).
(** [grow] is the room [append] makes. *)
Definition rfsrv_StartRPC (grow : nat) (args : StartArgs) (p : proc) : outcome (proc * StartReply) :=
  let '(rf, rep) := StartRPC p.1 grow (sta_Command args) p.2 in Ret (p.1, rf, rep).

Context `{Gob RPCArgs, Gob StartArgs, Gob StartReply, Gob GetStateReply, Gob unit}.

Definition rfsrv_service (grow : nat) : Service proc :=
  MakeService "rfsrv" [method "GetStateRPC" rfsrv_GetStateRPC; method "StartRPC" (rfsrv_StartRPC grow)].

(** A call that fails leaves the reply at zero. *)
Definition stub_GetState (f : call_fate) (s : Server proc * proc) : outcome (Server proc * proc * (Z * bool)) :=
  '(s, rep) ← Call GetStateReply f "tester" "rfsrv.GetStateRPC" tt s;
  Ret (s, match rep with None => (0, false) | Some rep => (gs_Term rep, gs_Leader rep) end).
Definition stub_Start (f : call_fate) (command : Cmd) (s : Server proc * proc) : outcome (Server proc * proc * (Z * Z * bool)) :=
  '(s, rep) ← Call StartReply f "tester" "rfsrv.StartRPC" {| sta_Command := command |} s;
  Ret (s, match rep with None => (0, 0, false) | Some rep => (st_Index rep, st_Term rep, st_Leader rep) end).
End raft.
Arguments StartArgs : clear implicits.

(** ** A replicated state machine as seen from the tester *)

Record SubmitArgs := { sba_Req : req }.
Record SubmitReply := { sbr_Err : string; sbr_Rep : option rep }.

Definition SubmitRPC (args : SubmitArgs) (rs : rsmSrv) : outcome (rsmSrv * SubmitReply) :=
  let '(err, rep) := rsm_Submit (sba_Req args) in Ret (rs, {| sbr_Err := err; sbr_Rep := rep |}).
Definition GetCounterRPC (args : unit) (rs : rsmSrv) : outcome (rsmSrv * Z) := Ret (rs, GetCounter rs).

Section rsm.
Context `{Gob RPCArgs, Gob SubmitArgs, Gob SubmitReply, Gob Z, Gob unit}.

Definition rsmSrv_service : Service rsmSrv :=
  MakeService "rsmSrv" [method "SubmitRPC" SubmitRPC; method "GetCounterRPC" GetCounterRPC].

Definition stub_Submit (f : call_fate) (r : req) (s : Server rsmSrv * rsmSrv)
    : outcome (Server rsmSrv * rsmSrv * (string * option rep)) :=
  '(s, rep) ← Call SubmitReply f "tester" "rsmSrv.SubmitRPC" {| sba_Req := r |} s;
  Ret (s, match rep with None => ("", None) | Some rep => (sbr_Err rep, sbr_Rep rep) end).
Definition stub_GetCounter (f : call_fate) (s : Server rsmSrv * rsmSrv) : outcome (Server rsmSrv * rsmSrv * Z) :=
  '(s, rep) ← Call Z f "tester" "rsmSrv.GetCounterRPC" tt s; Ret (s, default 0 rep).
End rsm.

(** ** A daemon as seen from the tester *)

(** [ds_forwarding], [ds_listening]: [rpcc] and [rpcs] are not closed; [ds_HeapAlloc] is what
    the runtime tells. *)
Record DaemonSrv := { ds_persister : Persister; ds_forwarding : bool; ds_listening : bool; ds_HeapAlloc : Z }.

Record CheckpointPersisterReply := { cpr_Raftstate : list Z; cpr_Snapshot : list Z }.
Record StateSizeReply := { ssr_RaftSize : Z; ssr_SnapSize : Z }.

Definition CheckpointPersister (args : unit) (ds : DaemonSrv) : outcome (DaemonSrv * CheckpointPersisterReply) :=
  let ds := {| ds_persister := ds_persister ds; ds_forwarding := false; ds_listening := false; ds_HeapAlloc := ds_HeapAlloc ds |} in
  let p := Checkpoint (ds_persister ds) in
  Ret (ds, {| cpr_Raftstate := ReadRaftState p; cpr_Snapshot := ReadSnapshot p |}).
Definition StateSize (args : unit) (ds : DaemonSrv) : outcome (DaemonSrv * StateSizeReply) :=
  Ret (ds, {| ssr_RaftSize := RaftStateSize (ds_persister ds); ssr_SnapSize := Persister_SnapshotSize (ds_persister ds) |}).
Definition DaemonSrv_MemSize (args : unit) (ds : DaemonSrv) : outcome (DaemonSrv * Z) := Ret (ds, ds_HeapAlloc ds).

Section daemon.
Context `{Gob RPCArgs, Gob CheckpointPersisterReply, Gob StateSizeReply, Gob Z, Gob unit}.
Abbreviation control := (Server DaemonSrv * DaemonSrv)%type.

(** What of the control service is of use once the daemon runs. *)
Definition DaemonSrv_service : Service DaemonSrv :=
  MakeService "DaemonSrv" [method "CheckpointPersister" CheckpointPersister; method "StateSize" StateSize;
                           method "MemSize" DaemonSrv_MemSize].

Definition dc_checkpointPersister (f : call_fate) (s : control) : outcome (control * Persister) :=
  '(s, rep) ← Call CheckpointPersisterReply f "tester" "DaemonSrv.CheckpointPersister" tt s;
  match rep with
  | None => Fatal "checkpointPersister: no return"
  | Some rep => Ret (s, Save (cpr_Raftstate rep) (cpr_Snapshot rep) MakePersister)
  end.
Definition dc_stateSize (f : call_fate) (s : control) : outcome (control * (Z * Z)) :=
  '(s, rep) ← Call StateSizeReply f "tester" "DaemonSrv.StateSize" tt s;
  match rep with None => Fatal "StateSize: no return" | Some rep => Ret (s, (ssr_RaftSize rep, ssr_SnapSize rep)) end.
Definition dc_memSize (f : call_fate) (s : control) : outcome (control * Z) :=
  '(s, rep) ← Call Z f "tester" "DaemonSrv.MemSize" tt s;
  match rep with None => Fatal "MemSize: no return" | Some n => Ret (s, n) end.

(** [ServerGrp.MemSize], the calls one after another. *)
Definition Group_MemSize (srvs : list (call_fate * control)) : outcome Z :=
  go_for (λ '(f, s) memsize, '(_, n) ← dc_memSize f s; Ret (if decide (n > memsize) then n else memsize)) srvs 0.
End daemon.

(** ** What a server process serves

    [Make] is [raft.Make] for the process's ends. *)
Section processes.
Context {R : Type} (Make : Z → Persister → R).

Record RSM := { rsm_me : Z; rsm_maxraftstate : Z; rsm_rf : option R }.

Definition MakeRSM (UseRaftStateMachine : bool) (me : Z) (persister : Persister) (maxraftstate : Z) : RSM :=
  {| rsm_me := me; rsm_maxraftstate := maxraftstate;
     rsm_rf := if UseRaftStateMachine then None else Some (Make me persister) |}.

(** [AddService] of each value that [mks] returns, by the name of its type; a nil value has none. *)
Definition add_services (svcs : list (option string)) : outcome (list string) :=
  go_for (λ svc names, match svc with Some n => Ret (names ++ [n]) | None => Panic "call of Value.Type on zero Value" end) svcs [].

Definition raft_name (rsm : RSM) : option string := (λ _, "Raft") <$> rsm_rf rsm.

(** kvsrv1, raft1, rsm, kvraft1 and shardgrp. *)
Definition kvsrv_services : list (option string) := [Some "KVServer"].
Definition NewRfsrv_services (UseRaftStateMachine : bool) : list (option string) :=
  [if UseRaftStateMachine then None else Some "Raft"; Some "rfsrv"].
Definition NewRSMSrv (UseRaftStateMachine : bool) (srv : Z) (persister : Persister) (MaxRaftState : Z) : rsmSrv * list (option string) :=
  let rsm := MakeRSM UseRaftStateMachine srv persister MaxRaftState in (0, [raft_name rsm; Some "rsmSrv"]).
Definition StartKVServer (UseRaftStateMachine : bool) (me : Z) (persister : Persister) (maxraftstate : Z) : list (option string) :=
  let rsm := MakeRSM UseRaftStateMachine me persister maxraftstate in [Some "KVServer"; raft_name rsm].
Definition StartServerShardGrp (UseRaftStateMachine : bool) (gid me : Z) (persister : Persister) (maxraftstate : Z)
    : list (option string) :=
  let rsm := MakeRSM UseRaftStateMachine me persister maxraftstate in [Some "KVServer"; raft_name rsm].
End processes.
Arguments RSM : clear implicits.

(** ** The stubs and their fates *)

Definition serves {St} (rs : Server St) (svc : Service St) : Prop :=
  se_dispatchf rs = None ∧ se_services rs !! sv_name svc = Some svc.

Lemma served_serves {St} f (rs : Server St) svc : serves rs svc → serves (served f rs) svc.
Proof. by destruct f. Qed.

(** A method of a service, by name: what a call over a socket comes to. *)
Ltac stub_call svc name f who body args rs st Hs :=
  let E := fresh "E" in
  pose proof (call_method f who svc name body args rs st) as E;
  let s := eval vm_compute in (svc +:+ "." +:+ name) in
  change (svc +:+ "." +:+ name) with s in E;
  rewrite E; [clear E | destruct Hs as [? Hs]; split; [done|eexists; split; [exact Hs|reflexivity]] | reflexivity].

Section refine.
Context `{Gob RPCArgs, Gob unit, Gob Z} `{!GobLaw RPCArgs, !GobLaw unit, !GobLaw Z}.

Section tester_stubs.
Context {Cmd : Type} `{EqDecision Cmd} (show : option Cmd → string).
Context `{Gob (CheckLogsArgs (Cmd := Cmd)), Gob CheckLogsReply, Gob (IngestLogArgs (Cmd := Cmd)), Gob ApplyErrArgs}.
Context `{!GobLaw (CheckLogsArgs (Cmd := Cmd)), !GobLaw CheckLogsReply, !GobLaw (IngestLogArgs (Cmd := Cmd)), !GobLaw ApplyErrArgs}.

Lemma stub_CheckLogs_fate f own i m (rs : Server (RaftTester.Test Cmd)) ts :
  serves rs (Test_service show) →
  stub_CheckLogs f own i m (rs, ts) = '(ts', r) ← TesterProxy_CheckLogs show f i m ts; Ret (served f rs, ts', r).
Proof.
  intros Hs. unfold stub_CheckLogs.
  stub_call "Test" "CheckLogsRPC" f own (CheckLogsRPC show) {| cla_Index := i; cla_Msg := m |} rs ts Hs.
  unfold CheckLogsRPC. cbn. by destruct f; cbn; [done|destruct (CheckLogs show i m ts) as [[? [? ?]]| |]..].
Qed.

Lemma stub_IngestLog_fate f own i xlog (rs : Server (RaftTester.Test Cmd)) ts :
  serves rs (Test_service show) →
  stub_IngestLog f own i xlog (rs, ts) = ts' ← TesterProxy_IngestLog f i xlog ts; Ret (served f rs, ts').
Proof.
  intros Hs. unfold stub_IngestLog.
  stub_call "Test" "IngestLogRPC" f own (IngestLogRPC (Cmd := Cmd)) {| ila_Index := i; ila_Log := xlog |} rs ts Hs.
  unfold IngestLogRPC. cbn. by destruct f; cbn; [done|destruct (IngestLog i xlog ts)..].
Qed.

Lemma stub_ApplyErr_fate f own i err (rs : Server (RaftTester.Test Cmd)) ts :
  serves rs (Test_service show) →
  stub_ApplyErr f own i err (rs, ts) = ts' ← TesterProxy_ApplyErr f i err ts; Ret (served f rs, ts').
Proof.
  intros Hs. unfold stub_ApplyErr.
  stub_call "Test" "ApplyErrRPC" f own (ApplyErrRPC (Cmd := Cmd)) {| aea_Index := i; aea_Err := err |} rs ts Hs.
  unfold ApplyErrRPC. cbn. by destruct f; cbn; [done|destruct (ApplyErr i err ts)..].
Qed.

#[local] Instance by_fates : Itester Cmd (RaftTester.Test Cmd) := fates show.
#[local] Instance by_sockets own : Itester Cmd (Server (RaftTester.Test Cmd) * RaftTester.Test Cmd) := sockets own.

(** A server process that delivers to the tester over sockets changes the tester's record,
    itself and its snapshots just as one whose calls meet the same fates. *)
Lemma applier_stubs own f1 f2 me m (rs : Server (RaftTester.Test Cmd)) ts :
  serves rs (Test_service show) →
  ∃ rs', serves rs' (Test_service show) ∧
    applier_step (Itester0 := sockets own) f1 f2 me m (rs, ts) =
      ts' ← applier_step (Itester0 := fates show) f1 f2 me m ts; Ret (rs', ts').
Proof.
  intros Hs. unfold applier_step. destruct (am_CommandValid m); cbn [negb]; [|by exists rs]. cbn [it_CheckLogs it_ApplyErr sockets fates].
  rewrite stub_CheckLogs_fate by done. apply (served_serves f1) in Hs.
  destruct (TesterProxy_CheckLogs show f1 me m ts) as [[ts1 [err ok]]| |]; cbn; [|by eexists..].
  case_decide; [|by eexists]. rewrite stub_ApplyErr_fate by done. eexists. split; [by apply served_serves|done].
Qed.

Context (Encode : Z * list (option Cmd) → list Z) (Decode : list Z → option (Z * list (option Cmd))).

Lemma applierSnap_command_stubs own f m p (rs : Server (RaftTester.Test Cmd)) ts :
  serves rs (Test_service show) →
  ∃ rs', serves rs' (Test_service show) ∧
    applierSnap_command (Itester0 := sockets own) Encode f m p (rs, ts) =
      '(p', ts', snap, err) ← applierSnap_command (Itester0 := fates show) Encode f m p ts; Ret (p', (rs', ts'), snap, err).
Proof.
  intros Hs. unfold applierSnap_command. cbn [it_CheckLogs sockets fates].
  match goal with |- context [decide (?e = "")] => destruct (decide (e = "")) end; [|by exists rs].
  rewrite stub_CheckLogs_fate by done. apply (served_serves f) in Hs. exists (served f rs). split; [done|].
  by destruct (TesterProxy_CheckLogs show f (s_me p) m ts) as [[ts1 [err ok]]| |].
Qed.

Lemma applierSnap_stubs own f1 f2 f3 m p (rs : Server (RaftTester.Test Cmd)) ts :
  serves rs (Test_service show) →
  ∃ rs', serves rs' (Test_service show) ∧
    applierSnap_step (Itester0 := sockets own) Encode Decode f1 f2 f3 m p (rs, ts) =
      '(p', ts', snap) ← applierSnap_step (Itester0 := fates show) Encode Decode f1 f2 f3 m p ts; Ret (p', (rs', ts'), snap).
Proof.
  intros Hs. unfold applierSnap_step. destruct (s_raft p); cbn [negb]; [|by exists rs].
  assert (∀ (o : outcome (rfsrv Cmd * RaftTester.Test Cmd * option (Z * list Z) * string)) rs1, serves rs1 (Test_service show) →
    ∃ rs', serves rs' (Test_service show) ∧
      ('(p, t, snap, err_msg) ← ('(p', ts', snap, err) ← o; Ret (p', (rs1, ts'), snap, err));
       t ← (if decide (err_msg ≠ "") then it_ApplyErr (Itester := sockets own) f3 (s_me p) err_msg t else Ret t);
       Ret (p, t, snap)) =
      ('(p', ts', snap) ← ('(p, t, snap, err_msg) ← o;
         t ← (if decide (err_msg ≠ "") then it_ApplyErr (Itester := fates show) f3 (s_me p) err_msg t else Ret t);
         Ret (p, t, snap)); Ret (p', (rs', ts'), snap))) as Hend.
  { intros o rs1 Hv. destruct o as [[[[p' ts1] snap] err]| |]; cbn; [|by eexists..]. case_decide; [|by eexists].
    rewrite stub_ApplyErr_fate by done. apply (served_serves f3) in Hv. exists (served f3 rs1). split; [done|].
    by destruct (TesterProxy_ApplyErr f3 (s_me p') err ts1). }
  destruct (am_SnapshotValid m).
  - destruct (ingestSnap Decode (am_Snapshot m) (am_SnapshotIndex m) p) as [p' err]. cbn [it_IngestLog sockets fates].
    rewrite stub_IngestLog_fate by done. apply (served_serves f2) in Hs.
    destruct (Hend (t ← TesterProxy_IngestLog f2 (s_me p') (s_log p') ts; Ret (p', t, None, err)) _ Hs) as (rs' & Hrs' & E).
    exists rs'. split; [done|]. rewrite <- E. by destruct (TesterProxy_IngestLog f2 (s_me p') (s_log p') ts).
  - destruct (am_CommandValid m).
    + destruct (applierSnap_command_stubs own f1 m p rs ts Hs) as (rs1 & Hv & ->). by apply Hend.
    + destruct (Hend (Ret (p, ts, None, "")) rs Hs) as (rs' & Hrs' & E). by exists rs'.
Qed.

Lemma newRfsrv_stubs own raft snap f srv sn (rs : Server (RaftTester.Test Cmd)) ts :
  serves rs (Test_service show) →
  ∃ rs', serves rs' (Test_service show) ∧
    newRfsrv (Itester0 := sockets own) Decode raft snap f srv sn (rs, ts) =
      '(p, ts') ← newRfsrv (Itester0 := fates show) Decode raft snap f srv sn ts; Ret (p, (rs', ts')).
Proof.
  intros Hs. unfold newRfsrv. destruct snap; [|by exists rs]. destruct sn as [[|b l]|]; [by exists rs| |by exists rs].
  destruct (ingestSnap Decode _ _ _) as [p err]. case_decide; [by exists rs|]. cbn [it_IngestLog sockets fates].
  rewrite stub_IngestLog_fate by done. exists (served f rs). split; [by apply served_serves|].
  by destruct (TesterProxy_IngestLog f (s_me p) (s_log p) ts).
Qed.
End tester_stubs.

Section raft_stubs.
Context {Cmd : Type} `{Gob (StartArgs Cmd), Gob StartReply, Gob GetStateReply}.
Context `{!GobLaw (StartArgs Cmd), !GobLaw StartReply, !GobLaw GetStateReply}.
Implicit Types p : rfsrv Cmd * Raft Cmd.

Lemma stub_GetState_fate grow f (rs : Server (rfsrv Cmd * Raft Cmd)) p :
  serves rs (rfsrv_service grow) → s_raft p.1 = true →
  stub_GetState f (rs, p) = rep ← GetStateRPC p.1 p.2; Ret (served f rs, p, Rfproxy_GetState f rep).
Proof.
  intros Hs Hr. unfold stub_GetState.
  stub_call "rfsrv" "GetStateRPC" f "tester" (rfsrv_GetStateRPC (Cmd := Cmd)) tt rs p Hs.
  unfold rfsrv_GetStateRPC, GetStateRPC, rfsrv_GetState. rewrite Hr. by destruct f, (GetState p.2).
Qed.

Lemma stub_Start_fate grow f command (rs : Server (rfsrv Cmd * Raft Cmd)) p :
  serves rs (rfsrv_service grow) →
  stub_Start f command (rs, p) =
    let '(rf, rep) := StartRPC p.1 grow command p.2 in
    Ret (served f rs, (p.1, match f with RequestLost => p.2 | _ => rf end), Rfproxy_Start f rep).
Proof.
  intros Hs. unfold stub_Start.
  stub_call "rfsrv" "StartRPC" f "tester" (rfsrv_StartRPC (Cmd := Cmd) grow) {| sta_Command := command |} rs p Hs.
  unfold rfsrv_StartRPC. cbn. destruct p as [s rf], (StartRPC _ grow command _) as [rf' rep]. by destruct f.
Qed.
End raft_stubs.

Section rsm_stubs.
Context `{Gob SubmitArgs, Gob SubmitReply} `{!GobLaw SubmitArgs, !GobLaw SubmitReply}.

Lemma stub_Submit_fate f r (rs : Server rsmSrv) c :
  serves rs rsmSrv_service → stub_Submit f r (rs, c) = Ret (served f rs, c, RSMproxy_Submit f (rsm_Submit r)).
Proof.
  intros Hs. unfold stub_Submit. stub_call "rsmSrv" "SubmitRPC" f "tester" SubmitRPC {| sba_Req := r |} rs c Hs.
  by destruct f.
Qed.

Lemma stub_GetCounter_fate f (rs : Server rsmSrv) c :
  serves rs rsmSrv_service → stub_GetCounter f (rs, c) = Ret (served f rs, c, RSMproxy_GetCounter f c).
Proof.
  intros Hs. unfold stub_GetCounter. stub_call "rsmSrv" "GetCounterRPC" f "tester" GetCounterRPC tt rs c Hs.
  by destruct f.
Qed.
End rsm_stubs.

Section daemon_stubs.
Context `{Gob CheckpointPersisterReply, Gob StateSizeReply} `{!GobLaw CheckpointPersisterReply, !GobLaw StateSizeReply}.

(** Only a call whose reply comes back does not end the tester; the daemon has then closed its
    connection to the tester and its socket. *)
Lemma dc_checkpointPersister_fate f (rs : Server DaemonSrv) ds :
  serves rs DaemonSrv_service →
  dc_checkpointPersister f (rs, ds) =
    match f with
    | Delivered => Ret (counted rs, {| ds_persister := ds_persister ds; ds_forwarding := false; ds_listening := false;
                                       ds_HeapAlloc := ds_HeapAlloc ds |}, checkpointPersister (ds_persister ds))
    | _ => Fatal "checkpointPersister: no return"
    end.
Proof.
  intros Hs. unfold dc_checkpointPersister.
  stub_call "DaemonSrv" "CheckpointPersister" f "tester" CheckpointPersister tt rs ds Hs. by destruct f.
Qed.

Lemma dc_stateSize_fate f (rs : Server DaemonSrv) ds :
  serves rs DaemonSrv_service →
  dc_stateSize f (rs, ds) =
    match f with
    | Delivered => Ret (counted rs, ds, stateSize (ds_persister ds))
    | _ => Fatal "StateSize: no return"
    end.
Proof.
  intros Hs. unfold dc_stateSize. stub_call "DaemonSrv" "StateSize" f "tester" StateSize tt rs ds Hs. by destruct f.
Qed.

Lemma dc_memSize_fate f (rs : Server DaemonSrv) ds :
  serves rs DaemonSrv_service →
  dc_memSize f (rs, ds) =
    match f with Delivered => Ret (counted rs, ds, ds_HeapAlloc ds) | _ => Fatal "MemSize: no return" end.
Proof.
  intros Hs. unfold dc_memSize. stub_call "DaemonSrv" "MemSize" f "tester" DaemonSrv_MemSize tt rs ds Hs. by destruct f.
Qed.

(** The largest heap of the group. *)
Lemma Group_MemSize_max (srvs : list (Server DaemonSrv * DaemonSrv)) :
  Forall (λ s, serves (s.1) DaemonSrv_service) srvs →
  Group_MemSize ((λ s, (Delivered, s)) <$> srvs) = Ret (foldl (λ m s, Z.max m (ds_HeapAlloc (s.2))) 0 srvs).
Proof.
  intros Hs. unfold Group_MemSize. generalize 0. induction Hs as [|[rs ds] l Hs _ IH]; intros m; [done|].
  cbn [fmap list_fmap go_for foldl fst snd] in *. rewrite dc_memSize_fate, !bind_ret_l by done. rewrite IH. do 2 f_equal. case_decide; lia.
Qed.
End daemon_stubs.
End refine.

(** C17: a server process that reaches the tester over sockets, through the encoding, the
    dispatch of the tester's service and calls that may be lost either way, does to the
    tester's record and to itself exactly what it does when each call merely has its fate: when
    it starts with a snapshot, for every message of its apply loop, and with snapshots on. What
    it leaves behind still serves the next call. *)
Theorem stubs_refine {Cmd} `{EqDecision Cmd} (show : option Cmd → string) `{Gob RPCArgs, Gob unit}
    `{Gob (CheckLogsArgs (Cmd := Cmd)), Gob CheckLogsReply, Gob (IngestLogArgs (Cmd := Cmd)), Gob ApplyErrArgs}
    `{!GobLaw RPCArgs, !GobLaw unit, !GobLaw (CheckLogsArgs (Cmd := Cmd)), !GobLaw CheckLogsReply,
      !GobLaw (IngestLogArgs (Cmd := Cmd)), !GobLaw ApplyErrArgs} Encode Decode own (rs : Server (RaftTester.Test Cmd)) ts :
  serves rs (Test_service show) →
  (∀ raft snapshot f srv sn, ∃ rs', serves rs' (Test_service show) ∧
     newRfsrv (Itester0 := sockets own) Decode raft snapshot f srv sn (rs, ts) =
       '(p, ts') ← newRfsrv (Itester0 := fates show) Decode raft snapshot f srv sn ts; Ret (p, (rs', ts'))) ∧
  (∀ f1 f2 me m, ∃ rs', serves rs' (Test_service show) ∧
     applier_step (Itester0 := sockets own) f1 f2 me m (rs, ts) =
       ts' ← applier_step (Itester0 := fates show) f1 f2 me m ts; Ret (rs', ts')) ∧
  (∀ f1 f2 f3 m p, ∃ rs', serves rs' (Test_service show) ∧
     applierSnap_step (Itester0 := sockets own) Encode Decode f1 f2 f3 m p (rs, ts) =
       '(p', ts', snap) ← applierSnap_step (Itester0 := fates show) Encode Decode f1 f2 f3 m p ts; Ret (p', (rs', ts'), snap)).
Proof.
  intros Hs. split_and!.
  - intros. by apply newRfsrv_stubs.
  - intros f1 f2 me m. by apply applier_stubs.
  - intros f1 f2 f3 m p. by apply applierSnap_stubs.
Qed.

(** ** Processes and their services *)

(** With its Raft in place every program starts; asked to use another, which is not there, the
    programs over Raft end as their services are added. *)
Lemma services_start {R} (Make : Z → Persister → R) gid me p max :
  add_services kvsrv_services = Ret ["KVServer"] ∧
  add_services (NewRfsrv_services false) = Ret ["Raft"; "rfsrv"] ∧
  add_services (NewRSMSrv Make false me p max).2 = Ret ["Raft"; "rsmSrv"] ∧
  add_services (StartKVServer Make false me p max) = Ret ["KVServer"; "Raft"] ∧
  add_services (StartServerShardGrp Make false gid me p max) = Ret ["KVServer"; "Raft"] ∧
  ∃ e, add_services (NewRfsrv_services true) = Panic e ∧ add_services (NewRSMSrv Make true me p max).2 = Panic e ∧
       add_services (StartKVServer Make true me p max) = Panic e ∧
       add_services (StartServerShardGrp Make true gid me p max) = Panic e.
Proof. split_and!; [done..|]. by eexists. Qed.

(** ** The tests' own servers

    What [makeTest] of raft1 and of rsm put around a configuration. *)

(** The tester's record of a server of rsm: whether its stub is set. *)
Definition newRSMServer : bool := true.
Definition getRSM (s : bool) : bool := s.
Definition rsmServer_Kill (s : bool) : bool := false.
Definition getLeader (ts : Rsm.Test) : Z := ts_leader ts.

Definition raft_makeTest {Cmd} (names : list (list string)) (reliable snapshot : bool) (fresh : list (list string * nat))
    (now : Z) : outcome (Config * RaftTester.Test Cmd) :=
  cfg ← MakeConfig names reliable fresh now;
  Ret (Config_AddService "Test" (SetLongDelays true cfg), RaftTester.makeTest (length names) snapshot).

(** [names] has [NSRV] elements. *)
Definition rsm_makeTest (names : list (list string)) (fresh : list (list string * nat)) (now : Z) : outcome (Config * Rsm.Test) :=
  cfg ← MakeConfig names true fresh now;
  sg ← (match Group GRP0 cfg with Some sg => Ret sg | None => Panic "nil pointer dereference" end);
  ts ← go_for (λ i ts, _ ← go_index (sg_srvs sg) i; Rsm.mksrv i ts) (seqZ 0 NSRV)
    {| ts_srvs := replicate (Z.to_nat NSRV) false; ts_leader := 0; ts_ops := 0 |};
  Ret (cfg, ts).

Lemma rsm_makeTest_stubs names fresh now cfg ts :
  rsm_makeTest names fresh now = Ret (cfg, ts) →
  ts = {| ts_srvs := [newRSMServer; newRSMServer; newRSMServer]; ts_leader := 0; ts_ops := 0 |}.
Proof.
  unfold rsm_makeTest. intros (cfg' & _ & E)%bind_ret_inv. apply bind_ret_inv in E as (sg & _ & E).
  change (seqZ 0 NSRV) with [0; 1; 2] in E. cbn [go_for] in E.
  apply bind_ret_inv in E as (ts' & E & [= _ <-]).
  do 3 (apply bind_ret_inv in E as (? & E1 & E); apply bind_ret_inv in E1 as (? & _ & [= <-])). by injection E as <-.
Qed.

(** Calls of the servers find the tester's service once the test is made. *)
Lemma raft_makeTest_service {Cmd} names reliable snapshot fresh now cfg (ts : RaftTester.Test Cmd) :
  raft_makeTest names reliable snapshot fresh now = Ret (cfg, ts) → cf_trpc cfg = Some (["TesterRPC"; "Test"], true).
Proof.
  unfold raft_makeTest, MakeConfig, MakeGroupStart, on_group. intros (cfg' & E & [= <- _])%bind_ret_inv.
  apply bind_ret_inv in E as (cfg1 & E & [= <-]). apply bind_ret_inv in E as ([gs net] & _ & E).
  destruct (Group _ _); [|done]. apply bind_ret_inv in E as ([? ?] & _ & [= <-]). done.
Qed.

(** ** An instance: numbers as commands, encoded through a countable type *)

Definition iso_gob {A B} `{Countable B} (f : A → B) (g : B → A) : Gob A := {|
  Marshall a := [Zpos (encode (f a))];
  Unmarshall b := match b with
                  | [Zpos p] => from_option (λ x, Ret (g x)) (Fatal "Unmarshall fatal") (decode p)
                  | _ => Fatal "Unmarshall fatal"
                  end
|}.

Lemma iso_gob_law {A B} `{Countable B} (f : A → B) (g : B → A) : (∀ a, g (f a) = a) → @GobLaw A (iso_gob f g).
Proof. intros Hg a. cbn. rewrite decode_encode. cbn. by rewrite Hg. Qed.

Definition msg_of (m : ApplyMsg Z) :=
  (am_CommandValid m, am_Command m, am_CommandIndex m, am_SnapshotValid m, am_Snapshot m, am_SnapshotTerm m, am_SnapshotIndex m).
Definition of_msg x : ApplyMsg Z :=
  let '(cv, c, ci, sv, s, st, si) := x in
  {| am_CommandValid := cv; am_Command := c; am_CommandIndex := ci; am_SnapshotValid := sv; am_Snapshot := s;
     am_SnapshotTerm := st; am_SnapshotIndex := si |}.

#[local] Instance gob_RPCArgs : Gob RPCArgs := iso_gob (λ a, (ra_Method a, ra_Args a)) (λ x, {| ra_Method := x.1; ra_Args := x.2 |}).
#[local] Instance gob_unit : Gob unit := iso_gob id id.
#[local] Instance gob_CheckLogsArgs : Gob (CheckLogsArgs (Cmd := Z)) :=
  iso_gob (λ a, (cla_Index a, msg_of (cla_Msg a))) (λ x, {| cla_Index := x.1; cla_Msg := of_msg x.2 |}).
#[local] Instance gob_CheckLogsReply : Gob CheckLogsReply :=
  iso_gob (λ a, (clr_Err a, clr_Prevok a)) (λ x, {| clr_Err := x.1; clr_Prevok := x.2 |}).
#[local] Instance gob_IngestLogArgs : Gob (IngestLogArgs (Cmd := Z)) :=
  iso_gob (λ a, (ila_Index a, ila_Log a)) (λ x, {| ila_Index := x.1; ila_Log := x.2 |}).
#[local] Instance gob_ApplyErrArgs : Gob ApplyErrArgs :=
  iso_gob (λ a, (aea_Index a, aea_Err a)) (λ x, {| aea_Index := x.1; aea_Err := x.2 |}).

#[local] Instance law_RPCArgs : GobLaw RPCArgs.
Proof. apply iso_gob_law. by intros []. Defined.
#[local] Instance law_unit : GobLaw unit.
Proof. by apply iso_gob_law. Defined.
#[local] Instance law_CheckLogsArgs : GobLaw (CheckLogsArgs (Cmd := Z)).
Proof. apply iso_gob_law. by intros [? []]. Defined.
#[local] Instance law_CheckLogsReply : GobLaw CheckLogsReply.
Proof. apply iso_gob_law. by intros []. Defined.
#[local] Instance law_IngestLogArgs : GobLaw (IngestLogArgs (Cmd := Z)).
Proof. apply iso_gob_law. by intros []. Defined.
#[local] Instance law_ApplyErrArgs : GobLaw ApplyErrArgs.
Proof. apply iso_gob_law. by intros []. Defined.

Definition show_none (v : option Z) : string := "v".
Definition tester_server : Server (RaftTester.Test Z) := AddService (Test_service show_none) MakeServer.

(** The second server delivers another command than the first at index 1: the tester records
    both, and the error that comes back over the socket goes out again. *)
Definition after (me command : Z) (ts : RaftTester.Test Z) : RaftTester.Test Z :=
  match applier_step (Itester0 := fates show_none) Delivered Delivered me (CommandMsg 1 (Some command)) ts with
  | Ret ts => ts
  | _ => ts
  end.
Definition after_first : RaftTester.Test Z := after 0 5 (RaftTester.makeTest 3 false).

Lemma stubs_refine_witness :
  (∃ rs', serves rs' (Test_service show_none) ∧
    applier_step (Itester0 := sockets "server-0-1") Delivered Delivered 1 (CommandMsg 1 (Some 6)) (tester_server, after_first) =
      Ret (rs', after 1 6 after_first)) ∧
  rs_applyErr <$> RaftTester.ts_srvs (after 1 6 after_first) = [""; "commit index=1 server=1 v != server=0 v"; ""].
Proof.
  assert (serves tester_server (Test_service show_none)) as Hs by (split; reflexivity).
  destruct (stubs_refine show_none
    toy_Encode toy_Decode "server-0-1" tester_server after_first Hs) as (_ & H & _).
  destruct (H Delivered Delivered 1 (CommandMsg 1 (Some 6))) as (rs' & Hs' & E).
  split; [|vm_compute; reflexivity]. exists rs'. split; [exact Hs'|]. rewrite E. vm_compute. reflexivity.
Defined.
