(* ===== verification/Programs.v ===== *)
(** * The programs

    The programs of src/src/main that run a server process for the tester: kvsrv1d, raft1d,
    rsm1d, kvraft1d and shardgrp1d.  Each hands its arguments and the function that makes its
    services to InitDaemon.  The theorem follows a command line from the test that writes it to
    the services the process adds.  Also the start of mrworker and mrsequential, up to the call
    of [mr.Worker] and the reading of the files: their arguments and the application they load.
    Opening a plugin is an argument. *)
From stdpp Require Import base tactics numbers list gmap strings pretty.
From S2P Require Import Prelude GoLib GoStrings GoStrconv TesterNet Daemon DaemonFlags Stubs.

(** The optional arguments of src/src/raft1/test.go, and of the other tests with a limit for
    Raft's state ([DaemonFlags.max_raft_state]). *)
Definition raft1_args (snapshot : bool) : list string := if snapshot then ["--max-raft-state=1"] else [].

(** The third argument [NewRfsrv] has for newRfsrv. *)
Definition NewRfsrv_snapshot (f : flags) : bool := bool_decide (MaxRaftState f > 0).

Section programs.
Context {R : Type} (Make : Z → Persister → R).

(** What the function a program passes to InitDaemon returns; [None]: there is no such program. *)
Definition mks (prog : string) (f : flags) (grp srv : Z) (persister : Persister) : option (list (option string)) :=
  let raft := UseRaftStateMachine f in
  let max := MaxRaftState f in
  if decide (prog = "kvsrv1d") then Some kvsrv_services
  else if decide (prog = "raft1d") then Some (NewRfsrv_services raft)
  else if decide (prog = "rsm1d") then Some (NewRSMSrv Make raft srv persister max).2
  else if decide (prog = "kvraft1d") then Some (StartKVServer Make raft srv persister max)
  else if decide (prog = "shardgrp1d") then Some (StartServerShardGrp Make raft grp srv persister max)
  else None.

(** A process that has come as far as adding its services. *)
Record process := { ps_args : daemon_args; ps_flags : flags; ps_services : list string }.

(** [main] with the arguments [args] behind its name: InitDaemon up to the signal, when the tester
    initialises it with [persister]. *)
Definition main (prog : string) (args : list string) (persister : Persister) : outcome process :=
  '(f, _) ← flag_Parse args flags_init;
  a ← InitDaemon_args args;
  match a with
  | None => Fatal (prog +:+ ": InitDaemon err")
  | Some a =>
      match mks prog f (da_gid a) (da_sid a) persister with
      | None => Fatal "no such program"
      | Some svcs => names ← add_services svcs; Ret {| ps_args := a; ps_flags := f; ps_services := names |}
      end
  end.

(** The services the tester and the other servers call on each program. *)
Definition called (prog : string) : list string :=
  if decide (prog = "kvsrv1d") then ["KVServer"]
  else if decide (prog = "raft1d") then ["Raft"; "rfsrv"]
  else if decide (prog = "rsm1d") then ["Raft"; "rsmSrv"]
  else ["KVServer"; "Raft"].

Definition programs : list string := ["kvsrv1d"; "raft1d"; "rsm1d"; "kvraft1d"; "shardgrp1d"].

Lemma mks_false prog f grp srv p :
  prog ∈ programs → UseRaftStateMachine f = false →
  ∃ svcs, mks prog f grp srv p = Some svcs ∧ add_services svcs = Ret (called prog).
Proof.
  intros Hp Hf. unfold mks. rewrite Hf.
  repeat (apply elem_of_cons in Hp as [->|Hp]; [by eexists|]). by apply elem_of_nil in Hp.
Qed.

Lemma mks_true prog f grp srv p :
  prog ∈ programs → prog ≠ "kvsrv1d" → UseRaftStateMachine f = true →
  ∃ svcs e, mks prog f grp srv p = Some svcs ∧ add_services svcs = Panic e.
Proof.
  intros Hp Hne Hf. unfold mks. rewrite Hf. apply elem_of_cons in Hp as [->|Hp]; [done|].
  repeat (apply elem_of_cons in Hp as [->|Hp]; [by eexists _, _|]). by apply elem_of_nil in Hp.
Qed.

Lemma limit_options (limit : option Z) :
  forallb is_option (match limit with Some n => [max_raft_state n] | None => [] end) = true.
Proof. by destruct limit. Qed.

(** C36: from the command line to the services: whatever group, number, names and limit the tester
    starts a program with, the process knows them, and serves what is called on it; with the
    flag for another Raft than this repository's it panics, but for the one program without
    Raft, since a Raft it does not make has no service. *)
Theorem program_serves prog raft limit endName gid srv endNames own persister :
  prog ∈ programs → 0 ≤ gid < 2 ^ 63 → 0 ≤ srv → endNames !! Z.to_nat srv = Some own →
  (∀ n, limit = Some n → - 2 ^ 63 ≤ n < 2 ^ 63) →
  let pargs := match limit with Some n => [max_raft_state n] | None => [] end in
  let args := runDaemon_args raft pargs endName gid srv endNames in
  zlen args < 2 ^ 63 →
  if raft && negb (bool_decide (prog = "kvsrv1d")) then ∃ e, main prog args persister = Panic e
  else main prog args persister =
    Ret {| ps_args := {| da_gid := gid; da_sid := srv; da_tester := endName; da_endNames := endNames; da_endName := own |};
           ps_flags := {| UseRaftStateMachine := raft; MaxRaftState := default (-1) limit |};
           ps_services := called prog |}.
Proof.
  intros Hp Hg Hs Hown Hlim pargs args Hlen.
  destruct (daemon_flags_roundtrip raft limit endName gid srv endNames) as [Hflags _]; [lia|done|].
  pose proof (daemon_args_roundtrip raft pargs endName gid srv endNames own (limit_options limit) Hg Hs Hown Hlen) as Hargs.
  unfold main. fold pargs in Hflags. fold args in Hflags, Hargs. rewrite Hflags, bind_ret_l, Hargs, bind_ret_l.
  cbn [da_gid da_sid]. destruct raft; cbn [andb].
  - case_bool_decide as Hk; cbn [negb]; [subst prog; done|].
    destruct (mks_true prog {| UseRaftStateMachine := true; MaxRaftState := default (-1) limit |} gid srv persister)
      as (svcs & e & -> & ->); [done..|]. by eexists.
  - destruct (mks_false prog {| UseRaftStateMachine := false; MaxRaftState := default (-1) limit |} gid srv persister)
      as (svcs & -> & ->); done.
Qed.
End programs.

(** ** The MapReduce programs *)

Section mr.
Context {KV : Type}.

(** What a symbol of a plugin is: a function of the type of Map, of Reduce, or something else. *)
Inductive symbol :=
  | MapSymbol (f : string → string → list KV)
  | ReduceSymbol (f : string → list string → string)
  | OtherSymbol.

(** [plugin.Open] and its [Lookup]. *)
Context (plugin_Open : string → option (string → option symbol)).

Definition loadPlugin (filename : string) : outcome ((string → string → list KV) * (string → list string → string)) :=
  match plugin_Open filename with
  | None => Fatal ("cannot load plugin " +:+ filename)
  | Some lookup =>
      match lookup "Map" with
      | None => Fatal ("cannot find Map in " +:+ filename)
      | Some (MapSymbol mapf) =>
          match lookup "Reduce" with
          | None => Fatal ("cannot find Reduce in " +:+ filename)
          | Some (ReduceSymbol reducef) => Ret (mapf, reducef)
          | Some _ => Panic "interface conversion"
          end
      | Some _ => Panic "interface conversion"
      end
  end.

(** [os_Args] with the program's name in front. *)
Definition mrworker_main (os_Args : list string) : outcome (string * ((string → string → list KV) * (string → list string → string))) :=
  if decide (zlen os_Args ≠ 3) then Fatal "Usage: mrworker xxx.so sockname"
  else
    a1 ← go_index os_Args 1; fs ← loadPlugin a1;
    sockname ← go_index os_Args 2; Ret (sockname, fs).

Definition mrsequential_main (os_Args : list string) : outcome (list string * ((string → string → list KV) * (string → list string → string))) :=
  if decide (zlen os_Args < 3) then Fatal "Usage: mrsequential xxx.so inputfiles..."
  else
    a1 ← go_index os_Args 1; fs ← loadPlugin a1;
    files ← go_slice os_Args 2 (zlen os_Args); Ret (files, fs).

(** Neither program panics on its arguments: it ends with a message, or runs the plugin it was
    given on the socket or the files it was given. *)
Lemma mrworker_args prog so sock :
  mrworker_main [prog; so; sock] = fs ← loadPlugin so; Ret (sock, fs).
Proof. done. Qed.

Lemma mrworker_usage os_Args :
  zlen os_Args ≠ 3 → mrworker_main os_Args = Fatal "Usage: mrworker xxx.so sockname".
Proof. intros Hn. unfold mrworker_main. by rewrite decide_True. Qed.

Lemma mrsequential_args prog so f files :
  mrsequential_main (prog :: so :: f :: files) = fs ← loadPlugin so; Ret (f :: files, fs).
Proof.
  unfold mrsequential_main. pose proof (zlen_nonneg files).
  rewrite decide_False by (rewrite !zlen_cons; lia). change (go_index (prog :: so :: f :: files) 1) with (Ret so).
  rewrite bind_ret_l. destruct (loadPlugin so) as [fs| |]; [|done..]. rewrite !bind_ret_l.
  change (prog :: so :: f :: files) with ([prog; so] ++ f :: files).
  rewrite <- (app_nil_r (f :: files)) at 1. rewrite (go_slice_after [prog; so] (f :: files) []); [done|done|].
  by rewrite zlen_app.
Qed.

Lemma loadPlugin_Ret filename mapf reducef :
  loadPlugin filename = Ret (mapf, reducef) ↔
  ∃ lookup, plugin_Open filename = Some lookup ∧ lookup "Map" = Some (MapSymbol mapf) ∧
            lookup "Reduce" = Some (ReduceSymbol reducef).
Proof.
  unfold loadPlugin. split.
  - destruct (plugin_Open filename) as [lookup|]; [|done].
    destruct (lookup "Map") as [[f| |]|] eqn:Em; try done. destruct (lookup "Reduce") as [[|g|]|] eqn:Er; try done.
    intros [= -> ->]. by exists lookup.
  - by intros (lookup & -> & -> & ->).
Qed.
End mr.

(** The Raft test that wants snapshots gets servers that make them, and no other does. *)
Lemma snapshot_reaches_server snapshot :
  ∃ f, NewRfsrv_snapshot f = snapshot ∧
       ∀ rest, flag_Parse (raft1_args snapshot ++ rest) flags_init = flag_Parse rest f.
Proof.
  exists (if snapshot then {| UseRaftStateMachine := false; MaxRaftState := 1 |} else flags_init).
  by destruct snapshot.
Qed.

Lemma program_serves_witness :
  main (λ me (_ : Persister), me) "kvraft1d" ["--max-raft-state=1000"; "0"; "1"; "2"; "tester"; "end0"; "end1"] MakePersister =
    Ret {| ps_args := {| da_gid := 0; da_sid := 1; da_tester := "tester"; da_endNames := ["end0"; "end1"]; da_endName := "end1" |};
           ps_flags := {| UseRaftStateMachine := false; MaxRaftState := 1000 |}; ps_services := ["KVServer"; "Raft"] |}.
Proof.
  apply (program_serves (λ me (_ : Persister), me) "kvraft1d" false (Some 1000) "tester" 0 1 ["end0"; "end1"] "end1" MakePersister);
    [by do 3 right; left|lia|lia|reflexivity|by intros ? [= <-]|vm_compute; reflexivity].
Defined.
