(* ===== verification/Skeletons.v ===== *)
(** * The servers with empty bodies

    src/src/kvraft1/server.go and src/src/shardkv1/shardgrp/server.go with shardrpc/shardrpc.go:
    the key/value servers above Raft, as far as they are there.  Their state machine keeps
    nothing, and their methods leave the reply as it comes; what a caller then sees is worked
    out over the sockets of [Stubs.v].  Also what the persistence of src/src/raft1/raft.go does,
    whose functions are empty as well. *)
From stdpp Require Import base tactics numbers list fin_maps gmap strings pretty.
From S2P Require Import Prelude GoLib GoStrings RaftNode RaftTester TesterNet KVServer ShardCfg Rsm LabRpc Demux Sockrpc Stubs.

(** ** The state machine below a replicated server *)

(** [rsm.StateMachine]: what [DoOp] answers and leaves, a snapshot, and what one restores. *)
Class StateMachine (M Op Rep : Type) := {
  sm_DoOp : Op → M → M * option Rep;
  sm_Snapshot : M → option (list Z);
  sm_Restore : option (list Z) → M → M
}.

(** What a replicated server has to keep: restoring a snapshot of one machine gives another its
    answers. *)
Definition snapshot_faithful {M Op Rep} `{StateMachine M Op Rep} : Prop :=
  ∀ (m m' : M) (op : Op), (sm_DoOp op (sm_Restore (sm_Snapshot m) m')).2 = (sm_DoOp op m).2.

(** [kvraft.KVServer] and [shardgrp.KVServer], with the replicated state machine that
    [StartKVServer] and [StartServerShardGrp] put into them. *)
Record kvraft_KVServer {R : Type} := { kr_me : Z; kr_rsm : RSM R }.
Arguments kvraft_KVServer : clear implicits.
Record grp_KVServer {R : Type} := { sg_me : Z; sg_gid : Tgid; sg_rsm : RSM R }.
Arguments grp_KVServer : clear implicits.

#[export] Instance kvraft_machine {R Op Rep} : StateMachine (kvraft_KVServer R) Op Rep :=
  {| sm_DoOp _ kv := (kv, None); sm_Snapshot _ := None; sm_Restore _ kv := kv |}.
#[export] Instance grp_machine {R Op Rep} : StateMachine (grp_KVServer R) Op Rep :=
  {| sm_DoOp _ kv := (kv, None); sm_Snapshot _ := None; sm_Restore _ kv := kv |}.

(** ** The methods *)

(** shardrpc.go. *)
Record FreezeShardArgs := { fsa_Shard : Z; fsa_Num : Z }.
Record FreezeShardReply := { fsr_State : list Z; fsr_Num : Z; fsr_Err : string }.
Record InstallShardArgs := { isa_Shard : Z; isa_State : list Z; isa_Num : Z }.
Record InstallShardReply := { isr_Err : string }.
Record DeleteShardArgs := { dsa_Shard : Z; dsa_Num : Z }.
Record DeleteShardReply := { dsr_Err : string }.
Definition FreezeShardReply_zero : FreezeShardReply := {| fsr_State := []; fsr_Num := 0; fsr_Err := "" |}.
Definition InstallShardReply_zero : InstallShardReply := {| isr_Err := "" |}.
Definition DeleteShardReply_zero : DeleteShardReply := {| dsr_Err := "" |}.

Section methods.
Context {R : Type}.

Definition kvraft_Get (args : GetArgs) (reply : GetReply) (kv : kvraft_KVServer R) : kvraft_KVServer R * GetReply := (kv, reply).
Definition kvraft_Put (args : PutArgs) (reply : PutReply) (kv : kvraft_KVServer R) : kvraft_KVServer R * PutReply := (kv, reply).
Definition grp_Get (args : GetArgs) (reply : GetReply) (kv : grp_KVServer R) : grp_KVServer R * GetReply := (kv, reply).
Definition grp_Put (args : PutArgs) (reply : PutReply) (kv : grp_KVServer R) : grp_KVServer R * PutReply := (kv, reply).
Definition FreezeShard (args : FreezeShardArgs) (reply : FreezeShardReply) (kv : grp_KVServer R)
    : grp_KVServer R * FreezeShardReply := (kv, reply).
Definition InstallShard (args : InstallShardArgs) (reply : InstallShardReply) (kv : grp_KVServer R)
    : grp_KVServer R * InstallShardReply := (kv, reply).
Definition DeleteShard (args : DeleteShardArgs) (reply : DeleteShardReply) (kv : grp_KVServer R)
    : grp_KVServer R * DeleteShardReply := (kv, reply).

Context `{Gob RPCArgs, Gob PutArgs, Gob PutReply, Gob GetArgs, Gob GetReply, Gob FreezeShardArgs,
  Gob FreezeShardReply, Gob InstallShardArgs, Gob InstallShardReply, Gob DeleteShardArgs, Gob DeleteShardReply}.

(** A handler whose reply starts at zero. *)
Definition from_zero {A B St} (zero : B) (f : A → B → St → St * B) (args : A) (st : St) : outcome (St * B) :=
  Ret (f args zero st).

Definition kvraft_service : Service (kvraft_KVServer R) :=
  MakeService "KVServer" [method "Get" (from_zero GetReply_zero kvraft_Get); method "Put" (from_zero PutReply_zero kvraft_Put)].
Definition grp_service : Service (grp_KVServer R) :=
  MakeService "KVServer" [method "Get" (from_zero GetReply_zero grp_Get); method "Put" (from_zero PutReply_zero grp_Put);
    method "FreezeShard" (from_zero FreezeShardReply_zero FreezeShard);
    method "InstallShard" (from_zero InstallShardReply_zero InstallShard);
    method "DeleteShard" (from_zero DeleteShardReply_zero DeleteShard)].
End methods.

(** *** The clerks of kvraft1 and shardgrp

    They answer without a call. *)
Definition kvraft_Clerk_Get (key : string) : string * Z * string := ("", 0, "").
Definition kvraft_Clerk_Put (key value : string) (version : Z) : string := "".
Definition grp_Clerk_Get (key : string) : string * Z * string := ("", 0, "").
Definition grp_Clerk_Put (key value : string) (version : Z) : string := "".
Definition grp_Clerk_FreezeShard (s num : Z) : option (list Z) * string := (None, "").
Definition grp_Clerk_InstallShard (s : Z) (state : list Z) (num : Z) : string := "".
Definition grp_Clerk_DeleteShard (s num : Z) : string := "".

(** ** What a caller sees *)

Section calls.
Context {R : Type}.
Context `{Gob RPCArgs, Gob PutArgs, Gob PutReply, Gob GetArgs, Gob GetReply, Gob FreezeShardArgs,
  Gob FreezeShardReply, Gob InstallShardArgs, Gob InstallShardReply, Gob DeleteShardArgs, Gob DeleteShardReply}.
Context `{!GobLaw RPCArgs, !GobLaw PutArgs, !GobLaw PutReply, !GobLaw GetArgs, !GobLaw GetReply, !GobLaw FreezeShardArgs,
  !GobLaw FreezeShardReply, !GobLaw InstallShardArgs, !GobLaw InstallShardReply, !GobLaw DeleteShardArgs, !GobLaw DeleteShardReply}.

(** The answer of a call whose method leaves its reply at [zero]. *)
Definition zero_or_lost {B} (f : call_fate) (zero : B) : option B :=
  match f with Delivered => Some zero | _ => None end.

(** Whatever is put or asked for, a call of either server that is delivered answers with a reply
    of zeros, whose error is neither OK nor any other of rpc.go, and changes nothing but the count
    of the calls. *)
Lemma kvraft_calls_zero f who rs kv (pa : PutArgs) (ga : GetArgs) :
  serves rs (kvraft_service (R := R)) →
  Call PutReply f who "KVServer.Put" pa (rs, kv) = Ret (served f rs, kv, zero_or_lost f PutReply_zero) ∧
  Call GetReply f who "KVServer.Get" ga (rs, kv) = Ret (served f rs, kv, zero_or_lost f GetReply_zero).
Proof.
  intros Hs. split.
  - stub_call "KVServer" "Put" f who (from_zero PutReply_zero (kvraft_Put (R := R))) pa rs kv Hs. by destruct f.
  - stub_call "KVServer" "Get" f who (from_zero GetReply_zero (kvraft_Get (R := R))) ga rs kv Hs. by destruct f.
Qed.

Lemma grp_calls_zero f who rs kv (pa : PutArgs) (ga : GetArgs) (fa : FreezeShardArgs) (ia : InstallShardArgs) (da : DeleteShardArgs) :
  serves rs (grp_service (R := R)) →
  Call PutReply f who "KVServer.Put" pa (rs, kv) = Ret (served f rs, kv, zero_or_lost f PutReply_zero) ∧
  Call GetReply f who "KVServer.Get" ga (rs, kv) = Ret (served f rs, kv, zero_or_lost f GetReply_zero) ∧
  Call FreezeShardReply f who "KVServer.FreezeShard" fa (rs, kv) = Ret (served f rs, kv, zero_or_lost f FreezeShardReply_zero) ∧
  Call InstallShardReply f who "KVServer.InstallShard" ia (rs, kv) = Ret (served f rs, kv, zero_or_lost f InstallShardReply_zero) ∧
  Call DeleteShardReply f who "KVServer.DeleteShard" da (rs, kv) = Ret (served f rs, kv, zero_or_lost f DeleteShardReply_zero).
Proof.
  intros Hs. split_and!.
  - stub_call "KVServer" "Put" f who (from_zero PutReply_zero (grp_Put (R := R))) pa rs kv Hs. by destruct f.
  - stub_call "KVServer" "Get" f who (from_zero GetReply_zero (grp_Get (R := R))) ga rs kv Hs. by destruct f.
  - stub_call "KVServer" "FreezeShard" f who (from_zero FreezeShardReply_zero (FreezeShard (R := R))) fa rs kv Hs. by destruct f.
  - stub_call "KVServer" "InstallShard" f who (from_zero InstallShardReply_zero (InstallShard (R := R))) ia rs kv Hs. by destruct f.
  - stub_call "KVServer" "DeleteShard" f who (from_zero DeleteShardReply_zero (DeleteShard (R := R))) da rs kv Hs. by destruct f.
Qed.
End calls.

Lemma zero_reply_no_error : pr_Err PutReply_zero ∉ [OK; ErrNoKey; ErrVersion; ErrMaybe; ErrWrongLeader; ErrWrongGroup].
Proof. rewrite !not_elem_of_cons. split_and!; [done..|apply not_elem_of_nil]. Qed.

(** A machine that answers nothing is restored faithfully; and one that does not, such as the
    plain key/value server behind an operation that reads a key, cannot do with no snapshot. *)
Lemma skeleton_faithful {R} : snapshot_faithful (M := kvraft_KVServer R) (Op := GetArgs) (Rep := GetReply).
Proof. done. Qed.

Lemma no_snapshot_unfaithful {M Op Rep} `{StateMachine M Op Rep} (m1 m2 : M) (op : Op) :
  sm_Snapshot m1 = sm_Snapshot m2 → (sm_DoOp op m1).2 ≠ (sm_DoOp op m2).2 → ¬ snapshot_faithful (M := M) (Op := Op) (Rep := Rep).
Proof. intros Hs Hne Hf. apply Hne. by rewrite <- (Hf m1 m1), <- (Hf m2 m1), Hs. Qed.

(** ** Persistence in raft.go

    [persist] and [Snapshot] have no statement left, and [readPersist] returns in every case. *)
Section raft.
Context {Cmd : Type}.
Implicit Types rf : Raft Cmd.

Definition persist rf (p : Persister) : Raft Cmd * Persister := (rf, p).
Definition readPersist (data : list Z) rf : Raft Cmd := if decide (zlen data < 1) then rf else rf.
Definition Raft_Snapshot (index : Z) (snapshot : list Z) rf : Raft Cmd := rf.
(** The size of what the persister holds, not of anything the peer saved. *)
Definition PersistBytes rf (p : Persister) : Z := RaftStateSize p.

(** A restarted peer knows nothing of its former self: reading back what a peer persisted gives
    the peer as it was made, whatever the term, vote and log were. *)
Lemma restart_forgets rf p et grow n me :
  readPersist (ReadRaftState (persist rf p).2) (Make et grow n me) = Make (Cmd := Cmd) et grow n me.
Proof. unfold readPersist. by case_decide. Qed.
End raft.
