(* ===== verification/KVNet.v ===== *)
(** * The key/value server on the simulated network

    The server of kvsrv1 (src/src/kvsrv1/server.go) as a service of the network of
    src/src/labrpc/labrpc.go, with all that the network does to its clients' calls: dropping
    requests and replies, delaying them, and handlers that run only when the caller has long
    been told of a failure and has gone on. [KVClerk] gives an attempt one of three fates; here
    nothing is assumed, and still what the server answers over a whole run is one sequential
    history, in an order that respects real time. *)
From stdpp Require Import base tactics numbers list fin_maps gmap strings pretty.
From S2P Require Import Prelude GoLib KVServer KVModel LabRpc Demux Sockrpc Stubs.

Section kvnet.
Context `{Gob PutArgs, Gob PutReply, Gob GetArgs, Gob GetReply}.
Context `{!GobLaw PutArgs, !GobLaw PutReply, !GobLaw GetArgs, !GobLaw GetReply}.

(** ** The service *)

Definition KVServer_Put_method (args : PutArgs) (kv : KVServer) : outcome (KVServer * PutReply) :=
  Ret (KVServer_Put kv args PutReply_zero).
Definition KVServer_Get_method (args : GetArgs) (kv : KVServer) : outcome (KVServer * GetReply) :=
  Ret (kv, KVServer_Get kv args GetReply_zero).

Definition KVServer_service : Service KVServer :=
  MakeService "KVServer" [method "Put" KVServer_Put_method; method "Get" KVServer_Get_method].

(** What a clerk sends, from the end [e]. *)
Inductive kv_call := CPut (args : PutArgs) | CGet (args : GetArgs).

Definition call_msg (e : string) (c : kv_call) : reqMsg :=
  match c with
  | CPut args => {| rq_endname := e; rq_svcMeth := "KVServer.Put"; rq_args := Marshall args |}
  | CGet args => {| rq_endname := e; rq_svcMeth := "KVServer.Get"; rq_args := Marshall args |}
  end.

(** ** What is on the wire, as the model's inputs and outputs *)

Definition msg_input (m : reqMsg) : option KvInput :=
  if decide (rq_svcMeth m = "KVServer.Put") then
    match Unmarshall (rq_args m) with
    | Ret a => Some {| ki_Op := 1; ki_Key := pa_Key a; ki_Value := pa_Value a; ki_Version := pa_Version a |}
    | _ => None
    end
  else
    match Unmarshall (rq_args m) with
    | Ret a => Some {| ki_Op := 0; ki_Key := ga_Key a; ki_Value := ""; ki_Version := 0 |}
    | _ => None
    end.

Definition msg_output (i : KvInput) (r : replyMsg) : option KvOutput :=
  if decide (ki_Op i = 1) then
    match Unmarshall (rp_reply r) with Ret p => Some {| ko_Value := ""; ko_Version := 0; ko_Err := pr_Err p |} | _ => None end
  else
    match Unmarshall (rp_reply r) with
    | Ret g => Some {| ko_Value := gr_Value g; ko_Version := gr_Version g; ko_Err := gr_Err g |}
    | _ => None
    end.

Definition call_input (c : kv_call) : KvInput :=
  match c with
  | CPut a => {| ki_Op := 1; ki_Key := pa_Key a; ki_Value := pa_Value a; ki_Version := pa_Version a |}
  | CGet a => {| ki_Op := 0; ki_Key := ga_Key a; ki_Value := ""; ki_Version := 0 |}
  end.

Lemma call_msg_input e c : msg_input (call_msg e c) = Some (call_input c).
Proof. destruct c; unfold msg_input; cbn [call_msg rq_svcMeth rq_args]; [rewrite decide_True by done|rewrite decide_False by done]; by rewrite Unmarshall_Marshall. Qed.

(** The handler that runs in the log: its request and its answer. *)
Definition msgs (s : net KVServer) : list reqMsg := rs_msg <$> nt_reqs s.
Definition log_entry (ms : list reqMsg) (e : nat * replyMsg) : option (KvInput * KvOutput) :=
  m ← ms !! e.1; i ← msg_input m; o ← msg_output i (e.2); Some (i, o).
Definition history (s : net KVServer) : option (list (KvInput * KvOutput)) := mapM (log_entry (msgs s)) (nt_log s).

(** A request dispatched at the server is one request served. *)
Lemma dispatch_serves srv kv e c :
  serves srv KVServer_service →
  ∃ r, Server_dispatch (call_msg e c) srv kv = Ret (counted srv, (serve kv (call_input c)).1, r) ∧
    msg_output (call_input c) r = Some (serve kv (call_input c)).2.
Proof.
  intros [Hd Hs]. destruct c as [a|a]; cbn [call_msg call_input].
  - change "KVServer.Put" with ("KVServer" +:+ "." +:+ "Put").
    rewrite (dispatch_method "KVServer" "Put" KVServer_Put_method); [|split; [done|eexists; split; [exact Hs|reflexivity]]|reflexivity].
    unfold KVServer_Put_method, serve. cbn [ki_Op ki_Key ki_Value ki_Version]. rewrite decide_False by done.
    assert ({| pa_Key := pa_Key a; pa_Value := pa_Value a; pa_Version := pa_Version a |} = a) as -> by by destruct a.
    destruct (KVServer_Put kv a PutReply_zero) as [kv' p]. rewrite bind_ret_l. eexists. split; [done|].
    unfold msg_output. cbn. by rewrite Unmarshall_Marshall.
  - change "KVServer.Get" with ("KVServer" +:+ "." +:+ "Get").
    rewrite (dispatch_method "KVServer" "Get" KVServer_Get_method); [|split; [done|eexists; split; [exact Hs|reflexivity]]|reflexivity].
    unfold KVServer_Get_method, serve. cbn [ki_Op ki_Key ki_Value ki_Version]. rewrite decide_True by done.
    assert ({| ga_Key := ga_Key a |} = a) as -> by by destruct a.
    rewrite bind_ret_l. eexists. split; [done|]. unfold msg_output. cbn. by rewrite Unmarshall_Marshall.
Qed.

(** ** A run serves its requests one by one *)

Lemma serve_all_snoc kv reqs i :
  serve_all kv (reqs ++ [i]) =
    let '(kv1, h) := serve_all kv reqs in let '(kv2, o) := serve kv1 i in (kv2, h ++ [(i, o)]).
Proof.
  revert kv. induction reqs as [|j reqs IH]; intros kv; cbn; [by destruct (serve kv i)|].
  destruct (serve kv j) as [kv1 o]. rewrite IH. destruct (serve_all kv1 reqs) as [kv2 h]. by destruct (serve kv2 i).
Qed.

Record kvnet_inv (s : net KVServer) : Prop := {
  kn_srv : ∀ sid srv, nt_srv s !! sid = Some srv → serves srv KVServer_service;
  kn_msgs : ∀ k q, nt_reqs s !! k = Some q → ∃ e c, rs_msg q = call_msg e c;
  kn_hist : ∃ h, history s = Some h ∧ serve_all MakeKVServer (h.*1) = (nt_st s, h) ∧ Forall in_model (h.*1)
}.

Lemma history_ext (s s' : net KVServer) :
  net_inv s → nt_log s' = nt_log s → (∀ k m, msgs s !! k = Some m → msgs s' !! k = Some m) → ∀ h, history s = Some h → history s' = Some h.
Proof.
  intros Hinv Hl Hm h. unfold history. rewrite Hl, !mapM_Some. intros HF. eapply Forall2_impl; [exact HF|]. intros [k r] io. unfold log_entry. cbn.
  intros (m & Hk & Hr)%bind_Some. by rewrite (Hm _ _ Hk).
Qed.

Lemma msgs_insert (s : net KVServer) k q q' :
  nt_reqs s !! k = Some q → rs_msg q' = rs_msg q → rs_msg <$> <[k := q']> (nt_reqs s) = msgs s.
Proof.
  intros Hk Hm. rewrite list_fmap_insert, Hm. apply list_insert_id. unfold msgs. by rewrite list_lookup_fmap, Hk.
Qed.

Lemma kvnet_step e s s' :
  (∀ m t, e = NvSend m t → ∃ x c, m = call_msg x c) →
  net_step e s = Ret s' → net_inv s → kvnet_inv s → kvnet_inv s'.
Proof.
  intros Hsend E Hinv [Hsrv Hmsg (h & Hh & Hall & Hin)]. destruct e as [op|m taken| |k r1 r2 timer|k]; cbn in E.
  - apply bind_ret_inv in E as (rn & _ & [= <-]). by split; [..|by exists h].
  - destruct (Hsend m taken eq_refl) as (x & c & ->). case_match; injection E as <-; [by split; [..|by exists h]|].
    split; [done| |].
    + intros k q [Hq|[_ Hq]]%lookup_app_Some; [by eapply Hmsg|]. apply list_lookup_singleton_Some in Hq as [_ <-]. by do 2 eexists.
    + exists h. split; [|done]. eapply (history_ext s); [done|done| |done]. intros k m Hk. unfold msgs in *. cbn.
      rewrite fmap_app. by apply lookup_app_l_Some.
  - injection E as <-. destruct (nw_done (nt_rn s)); by split; [..|by exists h].
  - destruct (nt_reqs s !! k) as [q|] eqn:Hq; [|injection E as <-; by split; [..|by exists h]].
    destruct (processReq_section _ _ _ _ _) as [rn q'] eqn:Ep. injection E as <-.
    destruct (processReq_section_inv _ _ _ _ _ _ _ k _ Ep (proj1 Hinv k q Hq)) as [_ Hm].
    split; [done| |exists h; split; [|done]].
    + intros k' q''. cbn. rewrite list_lookup_insert. case_decide as Hc; [|by apply Hmsg]. intros [= <-]. rewrite Hm. by eapply Hmsg.
    + eapply (history_ext s); [done|done| |done]. intros k' m. unfold msgs at 2. cbn. by rewrite (msgs_insert s k q q').
  - destruct (nt_reqs s !! k) as [q|] eqn:Hq; [|injection E as <-; by split; [..|by exists h]].
    destruct (rs_handler q) as [|sid|]; [injection E as <-; by split; [..|by exists h]| |injection E as <-; by split; [..|by exists h]].
    destruct (nt_srv s !! sid) as [srv|] eqn:Hs; [|injection E as <-; by split; [..|by exists h]].
    destruct (Hmsg k q Hq) as (x & c & Hc). rewrite Hc in E.
    destruct (dispatch_serves srv (nt_st s) x c (Hsrv _ _ Hs)) as (r & Ed & Ho). rewrite Ed, bind_ret_l in E. injection E as <-.
    split; cbn [nt_srv nt_reqs nt_st nt_log update].
    + intros sid' srv'. rewrite lookup_insert. case_decide; [|by apply Hsrv]. intros [= <-]. apply (served_serves Delivered). by apply (Hsrv sid).
    + intros k' q''. rewrite list_lookup_insert. case_decide as Hd; [|by apply Hmsg]. intros [= <-]. by do 2 eexists.
    + exists (h ++ [(call_input c, (serve (nt_st s) (call_input c)).2)]). split_and!.
      * unfold history, msgs. cbn [nt_reqs nt_log update]. rewrite (msgs_insert s k q) by done. apply mapM_Some, Forall2_app.
        { by apply mapM_Some. }
        constructor; [|done]. unfold log_entry, msgs. cbn [fst snd]. rewrite list_lookup_fmap, Hq. cbn. rewrite Hc, call_msg_input. cbn. by rewrite Ho.
      * rewrite fmap_app. cbn [fmap list_fmap fst]. rewrite serve_all_snoc, Hall. by destruct (serve (nt_st s) (call_input c)).
      * rewrite fmap_app. apply Forall_app. split; [done|]. constructor; [|done]. destruct c; [by right|by left].
Qed.

Definition clerks_only (es : list net_event) : Prop := ∀ m t, NvSend m t ∈ es → ∃ x c, m = call_msg x c.

Lemma kvnet_run es s s' :
  clerks_only es → net_run es s = Ret s' → net_inv s → kvnet_inv s → net_inv s' ∧ kvnet_inv s'.
Proof.
  revert s. induction es as [|e es IH]; intros s Hc E Hinv Hk; cbn in E; [by injection E as <-|].
  apply bind_ret_inv in E as (s1 & E1 & E).
  apply (IH s1); [intros m t Hm; apply (Hc m t); by right|done|by eapply net_step_inv|].
  eapply kvnet_step; [|done..]. intros m t ->. apply (Hc m t). by left.
Qed.

Lemma kvnet_init rn srv :
  (∀ sid r, srv !! sid = Some r → serves r KVServer_service) → kvnet_inv (net_init rn srv MakeKVServer).
Proof. intros Hs. split; [done|intros k q; cbn; by rewrite lookup_nil|]. by exists []. Qed.

(** Nothing that was logged is changed, and later calls come later. *)
Lemma net_log_grows es (s s' : net KVServer) : net_run es s = Ret s' → nt_log s `prefix_of` nt_log s'.
Proof.
  revert s. induction es as [|e es IH]; intros s E; cbn in E; [by injection E as <-|].
  apply bind_ret_inv in E as (s1 & E1 & E). transitivity (nt_log s1); [|by apply IH]. clear E IH.
  destruct e as [op|m taken| |k r1 r2 timer|k]; cbn in E1.
  - by apply bind_ret_inv in E1 as (rn & _ & [= <-]).
  - case_match; by injection E1 as <-.
  - injection E1 as <-. by destruct (nw_done (nt_rn s)).
  - destruct (nt_reqs s !! k); [|by injection E1 as <-]. destruct (processReq_section _ _ _ _ _). by injection E1 as <-.
  - destruct (nt_reqs s !! k) as [q|]; [|by injection E1 as <-]. destruct (rs_handler q); [by injection E1 as <-| |by injection E1 as <-].
    destruct (nt_srv s !! _); [|by injection E1 as <-]. apply bind_ret_inv in E1 as ([[? ?] ?] & _ & [= <-]). cbn. by apply prefix_app_r.
Qed.
End kvnet.

(** ** A version is used once *)

(** The Puts of a key and version that the server accepted. *)
Definition accepted_at (key : string) (ver : Z) (h : list (KvInput * KvOutput)) : list (KvInput * KvOutput) :=
  filter (λ io, ki_Op (io.1) = 1 ∧ ki_Key (io.1) = key ∧ ki_Version (io.1) = ver ∧ ko_Err (io.2) = OK) h.

Lemma serve_accepts kv i :
  ki_Op i = 1 → ko_Err (serve kv i).2 = OK → version_of kv (ki_Key i) = ki_Version i.
Proof.
  intros Hi. unfold serve. rewrite decide_False by lia.
  pose proof (Put_accepted_iff kv {| pa_Key := ki_Key i; pa_Value := ki_Value i; pa_Version := ki_Version i |} PutReply_zero) as Hok.
  destruct (KVServer_Put kv _ _) as [kv' r]. cbn in *. apply Hok.
Qed.

Lemma one_accept kv reqs key ver :
  kv_wf kv → Forall in_model reqs → version_of kv key + zlen reqs ≤ max_u64 →
  (length (accepted_at key ver (serve_all kv reqs).2) ≤ if decide (version_of kv key ≤ ver)%Z then 1 else 0)%nat.
Proof.
  revert kv. induction reqs as [|i reqs IH]; intros kv Hwf Hin Hb; [cbn; lia|]. rewrite zlen_cons in Hb.
  apply Forall_cons in Hin as [Hi Hin]. pose proof (serve_version kv i key Hi) as Hv. pose proof (serve_accepts kv i) as Ha.
  pose proof (serve_wf kv i Hwf) as Hwf1. pose proof (version_of_range kv key Hwf). pose proof (zlen_nonneg reqs).
  cbn [serve_all]. destruct (serve kv i) as [kv1 o]; cbn [fst snd] in *.
  specialize (IH kv1 Hwf1 Hin). destruct (serve_all kv1 reqs) as [kv2 h]; cbn [fst snd] in *.
  unfold accepted_at in *. rewrite filter_cons. cbn [fst snd].
  rewrite u64_small in Hv by (unfold max_u64 in *; lia).
  destruct (decide (ki_Op i = 1 ∧ ki_Key i = key ∧ ko_Err o = OK)) as [Hacc|Hacc].
  - destruct Hacc as (Hop & <- & Herr). pose proof (Ha Hop Herr) as Hver. specialize (IH ltac:(lia)).
    rewrite Hv in IH. destruct (decide (ki_Version i = ver)) as [<-|Hne].
    + rewrite (decide_True (P := _ ∧ _)) by done. rewrite decide_False in IH by lia. rewrite decide_True by lia. cbn [length]. lia.
    + rewrite (decide_False (P := _ ∧ _)) by naive_solver. etrans; [exact IH|]. repeat case_decide; lia.
  - rewrite Hv in IH. rewrite decide_False by naive_solver. apply IH. lia.
Qed.

(** C12: the key/value server on the simulated network. Whatever the network drops, delays or
    reorders, however it is reconfigured, and also when handlers run after their callers were
    told of a failure and went on: all requests that ran, in the order they ran, are one
    history of the sequential server, ending in its state, and it is a run of the
    linearizability model on every key exactly when no Put in it was answered [ErrNoKey], as
    one of a positive version to a missing key is; a positive
    reply is the answer of the one run of its request; a call that was answered comes before
    every call that is sent later; and no two Puts of one key and version are accepted, not
    even the first and the repeated request of one call. *)
Theorem network_linearizable `{Gob PutArgs, Gob PutReply, Gob GetArgs, Gob GetReply}
    `{!GobLaw PutArgs, !GobLaw PutReply, !GobLaw GetArgs, !GobLaw GetReply} es1 es2 rn srv s1 s2 :
  (∀ sid r, srv !! sid = Some r → serves r KVServer_service) → clerks_only (es1 ++ es2) →
  net_run es1 (net_init rn srv MakeKVServer) = Ret s1 → net_run es2 s1 = Ret s2 →
  ∃ h, history s2 = Some h ∧ serve_all MakeKVServer (h.*1) = (nt_st s2, h) ∧
    (Forall (λ part, is_Some (model_run KvModel_Init part)) (KvModel_Partition fst h) ↔ Forall judged h) ∧
    (∀ k q r, nt_reqs s2 !! k = Some q → rs_pc q = RqSent r → rp_ok r = true → runs_of k (nt_log s2) = [(k, r)]) ∧
    (∀ k1 q1 r1 k2 r2, nt_reqs s1 !! k1 = Some q1 → rs_pc q1 = RqSent r1 → rp_ok r1 = true →
       (length (nt_reqs s1) ≤ k2)%nat → (k2, r2) ∈ nt_log s2 →
       ∃ l1 l2 l3, nt_log s2 = l1 ++ (k1, r1) :: l2 ++ (k2, r2) :: l3) ∧
    (zlen h ≤ max_u64 → ∀ key ver, (length (accepted_at key ver h) ≤ 1)%nat).
Proof.
  intros Hsrv Hc E1 E2.
  destruct (kvnet_run es1 _ s1 (λ m t Hm, Hc m t (proj2 (elem_of_app _ _ _) (or_introl Hm))) E1 (net_init_inv _ _ _) (kvnet_init rn srv Hsrv)) as [N1 K1].
  destruct (kvnet_run es2 s1 s2 (λ m t Hm, Hc m t (proj2 (elem_of_app _ _ _) (or_intror Hm))) E2 N1 K1) as [N2 K2].
  destruct (kn_hist s2 K2) as (h & Hh & Hall & Hin). exists h.
  assert (∀ (s : net KVServer) k q r, net_inv s → nt_reqs s !! k = Some q → rs_pc q = RqSent r → rp_ok r = true → runs_of k (nt_log s) = [(k, r)]) as Hrun.
  { intros s k q r [Hk _] Hq Hpc Hok. destruct (Hk k q Hq) as [_ Hr]. rewrite Hpc in Hr. cbn in Hr. rewrite Hok in Hr.
    destruct (rs_handler q); naive_solver. }
  split_and!; [done|done| |by eauto| |].
  - pose proof (serve_all_partitions (h.*1) Hin) as Hp. by rewrite Hall in Hp.
  - intros k1 q1 r1 k2 r2 Hq Hpc Hok Hk2 Hin2. destruct (net_log_grows es2 s1 s2 E2) as [l Hl]. rewrite Hl in Hin2 |- *.
    assert ((k1, r1) ∈ nt_log s1) as Hin1.
    { pose proof (Hrun s1 k1 q1 r1 N1 Hq Hpc Hok) as Hr. unfold runs_of in Hr.
      assert ((k1, r1) ∈ filter (λ e, e.1 = k1) (nt_log s1)) as Hf by (rewrite Hr; by left). by apply list_elem_of_filter in Hf as [_ Hf]. }
    apply elem_of_app in Hin2 as [Hin2|Hin2]; [by pose proof (log_in_range _ _ _ N1 Hin2); lia|].
    apply list_elem_of_split in Hin1 as (a & b & ->). apply list_elem_of_split in Hin2 as (c & d & ->).
    exists a, (b ++ c), d. by rewrite <- !app_assoc.
  - intros Hz key ver. pose proof (one_accept MakeKVServer (h.*1) key ver MakeKVServer_wf Hin) as Ho.
    rewrite Hall in Ho. cbn [snd] in Ho. etrans; [apply Ho|case_decide; lia]. unfold version_of. cbn. rewrite lookup_empty.
    unfold zlen in *. rewrite length_fmap. lia.
Qed.

(** ** An instance: the first request runs after its repetition was answered *)

#[local] Instance gob_PutArgs : Gob PutArgs :=
  iso_gob (λ a, (pa_Key a, pa_Value a, pa_Version a)) (λ x, {| pa_Key := x.1.1; pa_Value := x.1.2; pa_Version := x.2 |}).
#[local] Instance gob_PutReply : Gob PutReply := iso_gob pr_Err (λ x, {| pr_Err := x |}).
#[local] Instance gob_GetArgs : Gob GetArgs := iso_gob ga_Key (λ x, {| ga_Key := x |}).
#[local] Instance gob_GetReply : Gob GetReply :=
  iso_gob (λ g, (gr_Value g, gr_Version g, gr_Err g)) (λ x, {| gr_Value := x.1.1; gr_Version := x.1.2; gr_Err := x.2 |}).
#[local] Instance law_PutArgs : GobLaw PutArgs.
Proof. apply iso_gob_law. by intros []. Defined.
#[local] Instance law_PutReply : GobLaw PutReply.
Proof. apply iso_gob_law. by intros []. Defined.
#[local] Instance law_GetArgs : GobLaw GetArgs.
Proof. apply iso_gob_law. by intros []. Defined.
#[local] Instance law_GetReply : GobLaw GetReply.
Proof. apply iso_gob_law. by intros []. Defined.

Definition late_put : reqMsg := call_msg "e" (CPut {| pa_Key := "k"; pa_Value := "v"; pa_Version := 0 |}).
Definition late_rn : Network := Enable "e" true (Connect "e" "s" (AddServer "s" 0 MakeNetwork)).
Definition late_srv : gmap nat (Server KVServer) := {[0%nat := AddService KVServer_service MakeServer]}.

(** The end is disabled while the handler has not run: the caller gets a failure. *)
Definition given_up : list net_event :=
  [NvSend late_put true; NvStep 0 7 7 false; NvStep 0 7 7 false; NvConfig (OEnable "e" false); NvStep 0 7 7 true; NvStep 0 7 7 false].
(** The call is repeated and answered; then the first handler runs. *)
Definition repeated : list net_event :=
  [NvConfig (OEnable "e" true); NvSend late_put true; NvStep 1 7 7 false; NvStep 1 7 7 false; NvHandle 1;
   NvStep 1 7 7 false; NvStep 1 7 7 false; NvHandle 0].

Definition run_or (es : list net_event) (s : net KVServer) : net KVServer :=
  match net_run es s with Ret s => s | _ => s end.
Definition late_first : net KVServer := run_or given_up (net_init late_rn late_srv MakeKVServer).
Definition late_last : net KVServer := run_or repeated late_first.

Definition runs (es : list net_event) (s : net KVServer) : bool := match net_run es s with Ret _ => true | _ => false end.

Lemma runs_or es s : runs es s = true → net_run es s = Ret (run_or es s).
Proof. unfold runs, run_or. by destruct (net_run es s). Qed.

Example late_ran :
  runs given_up (net_init late_rn late_srv MakeKVServer) && runs repeated late_first &&
  match history late_last with
  | Some h => bool_decide ((nt_log late_last).*1 = [1%nat; 0%nat] ∧ (λ io, ko_Err (io.2)) <$> h = [OK; ErrVersion] ∧
                           Forall judged h ∧ (length h ≤ 10)%nat)
  | None => false
  end = true.
Proof. vm_compute. reflexivity. Qed.

Lemma network_linearizable_witness :
  ∃ h, net_run repeated late_first = Ret late_last ∧ history late_last = Some h ∧ (nt_log late_last).*1 = [1%nat; 0%nat] ∧
    (λ io, ko_Err (io.2)) <$> h = [OK; ErrVersion] ∧ (length (accepted_at "k" 0 h) ≤ 1)%nat ∧
    Forall (λ part, is_Some (model_run KvModel_Init part)) (KvModel_Partition fst h).
Proof.
  pose proof late_ran as Hl. apply andb_true_iff in Hl as [Hl Hhist]. apply andb_true_iff in Hl as [E1 E2].
  apply runs_or in E1, E2.
  assert (∀ sid r, late_srv !! sid = Some r → serves r KVServer_service) as Hsrv.
  { intros sid r. unfold late_srv. intros [_ <-]%lookup_singleton_Some. split; reflexivity. }
  assert (clerks_only (given_up ++ repeated)) as Hc.
  { assert (Forall (λ e, match e with NvSend m _ => m = late_put | _ => True end) (given_up ++ repeated)) as Hf by by repeat constructor.
    intros m t Hm. rewrite Forall_forall in Hf. rewrite (Hf _ Hm). by do 2 eexists. }
  destruct (network_linearizable given_up repeated late_rn late_srv late_first late_last Hsrv Hc E1 E2)
    as (h & Hh & _ & Hm & _ & _ & Hone).
  rewrite Hh in Hhist. apply bool_decide_eq_true in Hhist as (Hlog & Herr & Hj & Hlen).
  exists h. split; [exact E2|]. split; [exact Hh|]. split; [exact Hlog|]. split; [exact Herr|].
  split; [apply Hone; unfold zlen, max_u64; lia|exact (proj2 Hm Hj)].
Defined.
