(* ===== verification/ShardTest.v ===== *)
(** * The sharded store's tester: groups join and leave

    [src/src/shardkv1/test.go]: group numbers, setting the store up with one group, and the
    groups that join and leave through a shard controller ([join], [joinGroups], [leave],
    [leaveGroups], [checkMember]).  The controller is an interface, [ShardCtrler], with what its
    methods promise; in this repository their bodies are empty.  The groups' processes are
    those of [TesterNet.v], and here a group is known by the names of its servers. *)
From stdpp Require Import base tactics numbers list fin_maps gmap strings pretty.
From S2P Require Import Prelude GoLib GoStrings GoStrconv TesterNet ShardCfg.

Definition NSRV : nat := 3.

(** [ts.Group(gid).SrvNames()] of a group of [NSRV] servers. *)
Definition grp_names (gid : Tgid) : list string := (λ i, ServerName gid (Z.of_nat i)) <$> seq 0 NSRV.

(** ** Group numbers *)

Record Test := { ts_ngid : Tgid }.

Definition MakeTestMaxRaft : Test := {| ts_ngid := Gid1 + 1 |}.
Definition newGid (ts : Test) : Test * Tgid := ({| ts_ngid := i64 (ts_ngid ts + 1) |}, ts_ngid ts).

Fixpoint groups (n : nat) (ts : Test) : Test * list Tgid :=
  match n with
  | O => (ts, [])
  | S n => let '(ts, g) := newGid ts in let '(ts, gs) := groups n ts in (ts, g :: gs)
  end.

(** ** The controller *)

(** [Query] returns a pointer, which may be nil. *)
Class ShardCtrler (W : Type) := {
  Query : W → option ShardConfig;
  InitConfig : ShardConfig → W → W;
  ChangeConfigTo : ShardConfig → W → W
}.

(** What the tester expects of it: a configuration that follows the current one is taken. *)
Class ShardCtrlerLaws (W : Type) `{ShardCtrler W} := {
  Query_InitConfig cfg w : Query w = None → Query (InitConfig cfg w) = Some cfg;
  Query_ChangeConfigTo cfg new w :
    Query w = Some cfg → Num new = Num cfg + 1 → Query (ChangeConfigTo new w) = Some new
}.

(** The methods of [shardctrler.go] as they are: a skeleton that keeps no configuration. *)
Definition shardctrler_skeleton : ShardCtrler unit := {|
  Query _ := None;
  InitConfig _ w := w;
  ChangeConfigTo _ w := w
|}.

(** ** Joining and leaving *)

Section test.
Context {W : Type} `{ShardCtrler W}.

Definition deref (c : option ShardConfig) : outcome ShardConfig :=
  match c with Some c => Ret c | None => Panic "nil pointer dereference" end.

Definition checkMember (gid : Tgid) (w : W) : outcome bool :=
  cfg ← deref (Query w); Ret (IsMember cfg gid).

Definition join (gid : Tgid) (srvs : list string) (w : W) : outcome W :=
  cfg ← deref (Query w);
  '(newcfg, ok) ← JoinBalance (ShardConfig_Copy cfg) [(gid, srvs)];
  if negb ok then Fatal ("join: group " +:+ pretty gid +:+ " is already present")
  else Ret (ChangeConfigTo newcfg w).

(** The groups are started first; [grp_names] are their servers. *)
Fixpoint joinGroups (gids : list Tgid) (w : W) : outcome (W * bool) :=
  match gids with
  | [] => Ret (w, true)
  | gid :: gids =>
      w ← join gid (grp_names gid) w;
      ok ← checkMember gid w;
      if negb ok then Ret (w, false) else joinGroups gids w
  end.

Definition leave (gid : Tgid) (w : W) : outcome W :=
  cfg ← deref (Query w);
  '(newcfg, ok) ← LeaveBalance (ShardConfig_Copy cfg) [gid];
  if negb ok then Fatal ("leave: group " +:+ pretty gid +:+ " is already not present")
  else Ret (ChangeConfigTo newcfg w).

Fixpoint leaveGroups (gids : list Tgid) (w : W) : outcome (W * bool) :=
  match gids with
  | [] => Ret (w, true)
  | gid :: gids =>
      w ← leave gid w;
      ok ← checkMember gid w;
      if (ok : bool) then Ret (w, false) else leaveGroups gids w
  end.

Definition setupKVService (w : W) : outcome (W * Tgid) :=
  '(scfg, _) ← JoinBalance MakeShardConfig [(Gid1, grp_names Gid1)];
  Ret (InitConfig scfg w, Gid1).
End test.

(** ** Names of servers *)

Lemma ServerName_inj g g' i i' : 0 ≤ g → 0 ≤ g' → ServerName g i = ServerName g' i' → g = g'.
Proof.
  intros Hg Hg'. unfold ServerName. intros E. injection E as E.
  rewrite (pretty_Z_cases g), (pretty_Z_cases g'), !decide_False in E by lia.
  change (pretty (Z.to_N g) +:+ "-" +:+ pretty i = pretty (Z.to_N g') +:+ "-" +:+ pretty i') in E.
  pose proof (scan_pretty (Z.to_N g) ("-" +:+ pretty i) eq_refl) as H1.
  pose proof (scan_pretty (Z.to_N g') ("-" +:+ pretty i') eq_refl) as H2.
  rewrite E in H1. rewrite H2 in H1. injection H1 as H1 _. lia.
Qed.

Lemma grp_names_disjoint g g' s : 0 ≤ g → 0 ≤ g' → s ∈ grp_names g → s ∈ grp_names g' → g = g'.
Proof.
  intros Hg Hg' (i & -> & _)%list_elem_of_fmap (i' & E & _)%list_elem_of_fmap.
  by eapply ServerName_inj.
Qed.

(** ** What the controller goes through *)

(** A configuration of the test: balanced, every group with its own servers. *)
Record test_cfg (c : ShardConfig) : Prop := {
  tc_len : length (Shards c) = NShards;
  tc_bal : balanced c;
  tc_grp g l : Groups c !! g = Some l → 0 < g ∧ l = grp_names g
}.

Lemma count_occ_NoDup (l : list Tgid) : (∀ x, (count_occ x l ≤ 1)%nat) → NoDup l.
Proof.
  induction l as [|y l IH]; intros Hc; constructor.
  - intros Hy%count_occ_elem. specialize (Hc y). rewrite count_occ_cons, decide_True in Hc by done. lia.
  - apply IH. intros x. specialize (Hc x). rewrite count_occ_cons in Hc. lia.
Qed.

(** With no more groups than shards every group has one. *)
Lemma balanced_IsMember c g :
  length (Shards c) = NShards → balanced c → (size (Groups c) ≤ NShards)%nat →
  is_Some (Groups c !! g) → IsMember c g = true.
Proof.
  intros Hlen [_ Hb] Hsz Hg. apply not_false_iff_true. intros Hm.
  assert (g ∉ Shards c) as Hno.
  { intros Hin. apply not_true_iff_false in Hm. apply Hm. apply existsb_exists.
    exists g. split; [by apply list_elem_of_In|by apply bool_decide_eq_true]. }
  assert (Groups c ≠ ∅) as Hne by (intros He; rewrite He, lookup_empty in Hg; by destruct Hg).
  destruct (Hb Hne) as [Ha Hl]. unfold assigned in Ha. rewrite Forall_forall in Ha.
  assert (load c g = 0%nat) as H0.
  { unfold load, count_occ. rewrite filter_none; [done|]. by intros x Hx ->. }
  assert (NoDup (Shards c)) as Hnd.
  { apply count_occ_NoDup. intros x. destruct (decide (x ∈ Shards c)) as [Hx|Hx].
    - specialize (Hl x g (Ha x Hx) Hg). unfold load in *. lia.
    - unfold count_occ. rewrite filter_none; [cbn; lia|]. by intros y Hy ->. }
  assert (g :: Shards c ⊆+ group_list c) as Hsub%submseteq_length.
  { apply NoDup_submseteq; [by constructor|]. intros x [->|Hx]%elem_of_cons; by apply elem_of_group_list; auto. }
  cbn in Hsub. unfold group_list in Hsub. rewrite length_fmap, length_map_to_list in Hsub. lia.
Qed.

Lemma not_IsMember c g :
  length (Shards c) = NShards → balanced c → Groups c !! g = None → g ≠ 0 → IsMember c g = false.
Proof.
  intros Hlen [He Hb] Hg Hg0. apply not_true_iff_false. intros (x & Hx & ->%bool_decide_eq_true)%existsb_exists.
  apply list_elem_of_In in Hx. destruct (decide (Groups c = ∅)) as [He'|Hne].
  - specialize (He He'). rewrite Forall_forall in He. by apply Hg0, He.
  - destruct (Hb Hne) as [Ha _]. unfold assigned in Ha. rewrite Forall_forall in Ha.
    apply Ha in Hx as [? ?]. congruence.
Qed.

Lemma shares_server_true l1 l2 : shares_server l1 l2 = true → ∃ s, s ∈ l1 ∧ s ∈ l2.
Proof.
  intros (s & H1 & (s' & H2 & ->%bool_decide_eq_true)%existsb_exists)%existsb_exists.
  exists s'. by rewrite !list_elem_of_In.
Qed.

Lemma test_cfg_rebalanced c :
  length (Shards c) = NShards → (∀ g l, Groups c !! g = Some l → 0 < g ∧ l = grp_names g) →
  test_cfg (rebalanced c) ∧ Num (rebalanced c) = Num c ∧ Groups (rebalanced c) = Groups c.
Proof.
  intros Hl Hg. destruct (rebalanced_spec c Hl) as (Hgr & Hn & Hl' & Hb).
  split; [|done]. split; [done|done|by rewrite Hgr].
Qed.

(** A group with servers of its own can join; a group that is there can leave. *)
Lemma JoinBalance_one c gid :
  length (Shards c) = NShards → (∀ g l, Groups c !! g = Some l → 0 < g ∧ l = grp_names g) →
  0 < gid → Groups c !! gid = None → - 2 ^ 63 ≤ Num c < max_i64 →
  ∃ c', JoinBalance c [(gid, grp_names gid)] = Ret (c', true) ∧ test_cfg c' ∧ Num c' = Num c + 1 ∧
    Groups c' = <[gid := grp_names gid]> (Groups c) ∧
    c' = rebalanced (c <| Groups := <[gid := grp_names gid]> (Groups c) |> <| Num := Num c + 1 |>).
Proof.
  intros Hl Hg Hpos Hno Hn. unfold JoinBalance, Join, join_loop. rewrite Hno.
  replace (existsb _ _) with false; cycle 1.
  { symmetry. apply not_true_iff_false. intros ([g l] & Hin & Hs)%existsb_exists.
    apply list_elem_of_In, elem_of_map_to_list in Hin. pose proof (Hg g l Hin) as [Hg0 ->].
    change (shares_server (grp_names g) (grp_names gid) = true) in Hs.
    apply shares_server_true in Hs as (s & H1 & H2).
    assert (g = gid) as -> by (eapply grp_names_disjoint; [lia|lia|done|done]). congruence. }
  cbn. rewrite i64_small by (unfold max_i64 in *; lia). eexists. split; [reflexivity|].
  destruct (test_cfg_rebalanced (c <| Groups := <[gid := grp_names gid]> (Groups c) |> <| Num := Num c + 1 |>))
    as (Ht & Hn' & Hgr); [done| |by split_and!].
  cbn. intros g l. rewrite lookup_insert. case_decide; [|by apply Hg]. subst. intros [= <-]. done.
Qed.

Lemma LeaveBalance_one c gid :
  test_cfg c → is_Some (Groups c !! gid) → - 2 ^ 63 ≤ Num c < max_i64 →
  ∃ c', LeaveBalance c [gid] = Ret (c', true) ∧ test_cfg c' ∧ Num c' = Num c + 1 ∧
    Groups c' = delete gid (Groups c).
Proof.
  intros [Hl Hb Hg] [l Hgid] Hn. unfold LeaveBalance, Leave, leave_loop. rewrite Hgid.
  cbn. rewrite i64_small by (unfold max_i64 in *; lia). eexists. split; [reflexivity|].
  destruct (test_cfg_rebalanced (c <| Groups := delete gid (Groups c) |> <| Num := Num c + 1 |>))
    as (Ht & Hn' & Hgr); [done| |by split_and!].
  cbn. intros g l'. rewrite lookup_delete. case_decide; [done|]. by apply Hg.
Qed.

Lemma Copy_eq c : ShardConfig_Copy c = c.
Proof.
  assert (map_fold (λ k srvs g, <[k := srvs]> g) ∅ (Groups c) = Groups c) as E.
  { generalize (Groups c). apply map_fold_weak_ind; [done|]. by intros i x m r _ ->. }
  destruct c. unfold ShardConfig_Copy. cbn in *. by rewrite E.
Qed.

(** With a group for every shard each has one shard. *)
Lemma full_perm c :
  test_cfg c → size (Groups c) = NShards → Shards c ≡ₚ group_list c.
Proof.
  intros [Hl Hb _] Hsz. symmetry. apply submseteq_length_Permutation.
  - apply NoDup_submseteq; [apply NoDup_group_list|]. intros g Hg%elem_of_group_list.
    pose proof (balanced_IsMember c g Hl Hb ltac:(lia) Hg) as Hm. apply existsb_exists in Hm as (x & Hx & ->%bool_decide_eq_true).
    by apply list_elem_of_In.
  - rewrite Hl, <- Hsz. unfold group_list. rewrite length_fmap, length_map_to_list. done.
Qed.

(** A group that joins a full configuration gets no shard. *)
Lemma full_IsMember c gid n :
  test_cfg c → size (Groups c) = NShards → Groups c !! gid = None →
  IsMember (rebalanced (c <| Groups := <[gid := grp_names gid]> (Groups c) |> <| Num := n |>)) gid = false.
Proof.
  intros T Hsz Hno. pose proof (full_perm c T Hsz) as Hp. pose proof (tc_len c T) as Hl.
  assert (∀ g, g ∈ Shards c → is_Some (Groups c !! g)) as Hin by (intros g; rewrite Hp; apply elem_of_group_list).
  set (c1 := c <| Groups := <[gid := grp_names gid]> (Groups c) |> <| Num := n |>).
  assert (Groups c1 ≠ ∅) as Hne by apply insert_non_empty.
  destruct (assign_unassigned_spec c1 Hl Hne) as (Hg1 & _ & Hl1 & _ & Hkeep).
  assert (Shards (assign_unassigned c1) = Shards c) as Hs.
  { apply list_eq_same_length with NShards; [done..|]. intros i x y _ Hx Hy.
    assert (is_Some (Groups c1 !! y)) as Hy1.
    { cbn. rewrite lookup_insert. case_decide; [by eexists|]. apply Hin. by eapply list_elem_of_lookup_2. }
    specialize (Hkeep i y Hy Hy1). congruence. }
  assert (rebalance_step (assign_unassigned c1) = None) as Hstep.
  { unfold rebalance_step. pose proof (analyze_extremes (assign_unassigned c1) Hl1) as Hx. rewrite Hg1 in Hx. specialize (Hx Hne).
    destruct (analyze (assign_unassigned c1)) as [[[mg mn] lg] ln]. destruct Hx as (_ & <- & _ & <- & _).
    rewrite decide_True; [done|]. unfold load. rewrite Hs.
    assert (NoDup (Shards c)) as Hnd by (rewrite Hp; apply NoDup_group_list).
    assert (count_occ mg (Shards c) ≤ 1)%nat; [|lia]. unfold count_occ.
    apply (NoDup_filter (λ x, x = mg)) in Hnd. destruct (filter _ _) as [|x [|y l]] eqn:E; cbn; [lia..|].
    assert (x = mg ∧ y = mg) as [-> ->].
    { assert (∀ z, z ∈ filter (λ x, x = mg) (Shards c) → z = mg) as Hz by (by intros z [? _]%list_elem_of_filter).
      rewrite E in Hz. split; apply Hz; [left|right; left]. }
    apply NoDup_cons in Hnd as [Hnd _]. by destruct Hnd; left. }
  assert (rebalanced c1 = assign_unassigned c1) as ->.
  { unfold rebalanced, Rebalance. rewrite decide_False.
    - unfold rebalance_fuel. change (NShards * NShards)%nat with (S 143). cbn [rebalance_loop]. by rewrite Hstep.
    - intros Hlt. apply Hne, map_size_empty_iff. lia. }
  apply not_true_iff_false. intros (x & Hx & ->%bool_decide_eq_true)%existsb_exists.
  rewrite Hs in Hx. apply list_elem_of_In, Hin in Hx as [? ?]. congruence.
Qed.

(** A configuration of one group. *)
Lemma one_group c g :
  test_cfg c → Groups c = {[g := grp_names g]} → Shards c = replicate NShards g.
Proof.
  intros [Hl [_ Hb] _] G. destruct Hb as [Ha _]; [rewrite G; apply map_non_empty_singleton|].
  rewrite <- Hl. symmetry. apply replicate_as_elem_of. split; [done|]. intros x Hx.
  unfold assigned in Ha. rewrite Forall_forall in Ha. apply Ha in Hx. rewrite G in Hx.
  destruct Hx as [l [Hx _]%lookup_singleton_Some]. done.
Qed.

(** ** The loops *)

Section loops.
Context {W : Type} `{ShardCtrlerLaws W}.

Lemma joinGroups_spec gids c w :
  Query w = Some c → length (Shards c) = NShards →
  (∀ g l, Groups c !! g = Some l → 0 < g ∧ l = grp_names g) → (gids = [] → test_cfg c) →
  NoDup gids → (∀ g, g ∈ gids → 0 < g ∧ Groups c !! g = None) →
  (size (Groups c) + length gids ≤ NShards)%nat → - 2 ^ 63 ≤ Num c → Num c + zlen gids ≤ max_i64 →
  ∃ w' c', joinGroups gids w = Ret (w', true) ∧ Query w' = Some c' ∧ test_cfg c' ∧
    Num c' = Num c + zlen gids ∧ size (Groups c') = (size (Groups c) + length gids)%nat ∧
    ∀ g, Groups c' !! g = if decide (g ∈ gids) then Some (grp_names g) else Groups c !! g.
Proof.
  revert c w. induction gids as [|gid gids IH]; intros c w Hq Hl Hg Hnil Hnd Hin Hsz Hlo Hhi.
  { exists w, c. specialize (Hnil eq_refl). split_and!; [done..|rewrite zlen_nil; lia|cbn; lia|intros g].
    by rewrite decide_False by apply not_elem_of_nil. }
  apply NoDup_cons in Hnd as [Hnew Hnd]. rewrite zlen_cons in *. pose proof (zlen_nonneg gids).
  destruct (Hin gid) as [Hpos Hno]; [left|].
  destruct (JoinBalance_one c gid) as (c1 & E1 & T1 & N1 & G1 & _); [done..|lia|].
  cbn [joinGroups]. unfold join. rewrite Hq. cbn [deref]. rewrite bind_ret_l, Copy_eq, E1. rewrite bind_ret_l. cbn [negb].
  rewrite bind_ret_l. pose proof (Query_ChangeConfigTo c c1 w Hq N1) as Hq1.
  unfold checkMember. rewrite Hq1. cbn [deref]. rewrite !bind_ret_l.
  assert (size (Groups c1) = S (size (Groups c))) as Hs1 by (rewrite G1; by apply map_size_insert_None).
  rewrite balanced_IsMember; [|apply T1|apply T1|cbn in Hsz; lia|rewrite G1, lookup_insert_eq; by eexists].
  cbn [negb]. destruct (IH c1 (ChangeConfigTo c1 w)) as (w' & c' & E & Hq' & T' & N' & S' & G'); try done.
  - apply T1.
  - apply T1.
  - intros g Hgg. destruct (Hin g) as [? ?]; [by right|]. split; [done|].
    rewrite G1, lookup_insert_ne; [done|]. by intros <-.
  - cbn in Hsz. lia.
  - lia.
  - lia.
  - exists w', c'. split_and!; [done..|lia|cbn; lia|]. intros g. rewrite G', G1, lookup_insert.
    destruct (decide (g ∈ gids)); [by rewrite decide_True by by right|].
    destruct (decide (gid = g)) as [->|Hne]; [by rewrite decide_True by left|].
    rewrite decide_False; [done|]. by intros [->|]%elem_of_cons.
Qed.

Lemma leaveGroups_spec gids c w :
  Query w = Some c → test_cfg c → NoDup gids → (∀ g, g ∈ gids → is_Some (Groups c !! g)) →
  - 2 ^ 63 ≤ Num c → Num c + zlen gids ≤ max_i64 →
  ∃ w' c', leaveGroups gids w = Ret (w', true) ∧ Query w' = Some c' ∧ test_cfg c' ∧
    Num c' = Num c + zlen gids ∧
    ∀ g, Groups c' !! g = if decide (g ∈ gids) then None else Groups c !! g.
Proof.
  revert c w. induction gids as [|gid gids IH]; intros c w Hq T Hnd Hin Hlo Hhi.
  { exists w, c. split_and!; [done..|rewrite zlen_nil; lia|intros g].
    by rewrite decide_False by apply not_elem_of_nil. }
  apply NoDup_cons in Hnd as [Hnew Hnd]. rewrite zlen_cons in *. pose proof (zlen_nonneg gids).
  destruct (Hin gid) as [l Hgid]; [left|]. pose proof (tc_grp c T gid l Hgid) as [Hpos _].
  destruct (LeaveBalance_one c gid) as (c1 & E1 & T1 & N1 & G1); [done|by eexists|lia|].
  cbn [leaveGroups]. unfold leave. rewrite Hq. cbn [deref]. rewrite bind_ret_l, Copy_eq, E1. rewrite bind_ret_l. cbn [negb].
  rewrite bind_ret_l. pose proof (Query_ChangeConfigTo c c1 w Hq N1) as Hq1.
  unfold checkMember. rewrite Hq1. cbn [deref]. rewrite !bind_ret_l.
  rewrite not_IsMember; [|apply T1|apply T1|by rewrite G1, lookup_delete_eq|lia].
  destruct (IH c1 (ChangeConfigTo c1 w)) as (w' & c' & E & Hq' & T' & N' & G'); try done.
  - intros g Hgg. rewrite G1, lookup_delete_ne by (by intros <-). apply Hin. by right.
  - lia.
  - lia.
  - exists w', c'. split_and!; try done; [lia|]. intros g. rewrite G', G1, lookup_delete.
    destruct (decide (g ∈ gids)); [by rewrite decide_True by by right|].
    destruct (decide (gid = g)) as [->|Hne]; [by rewrite decide_True by left|].
    rewrite decide_False; [done|]. by intros [->|]%elem_of_cons.
Qed.

Lemma joinGroups_app gids gids' w w' :
  joinGroups gids w = Ret (w', true) → joinGroups (gids ++ gids') w = joinGroups gids' w'.
Proof.
  revert w. induction gids as [|gid gids IH]; intros w; cbn [app joinGroups]; [by intros [= ->]|].
  intros (w1 & -> & (ok & Hc & E)%bind_ret_inv)%bind_ret_inv. rewrite bind_ret_l, Hc, bind_ret_l.
  destruct ok; [by apply IH|done].
Qed.

(** The first group that finds no shard left ends the joins. *)
Lemma joinGroups_full gid gids c w :
  Query w = Some c → test_cfg c → size (Groups c) = NShards → 0 < gid → Groups c !! gid = None →
  - 2 ^ 63 ≤ Num c < max_i64 → ∃ w', joinGroups (gid :: gids) w = Ret (w', false).
Proof.
  intros Hq T Hsz Hpos Hno Hn.
  destruct (JoinBalance_one c gid) as (c1 & E1 & T1 & N1 & G1 & Hc1); [apply T|apply T|done..|].
  exists (ChangeConfigTo c1 w). cbn [joinGroups]. unfold join. rewrite Hq. cbn [deref].
  rewrite bind_ret_l, Copy_eq, E1. rewrite bind_ret_l. cbn [negb]. rewrite bind_ret_l.
  unfold checkMember. rewrite (Query_ChangeConfigTo c c1 w Hq N1). cbn [deref]. rewrite !bind_ret_l.
  by rewrite Hc1, full_IsMember.
Qed.

Lemma setupKVService_spec w :
  Query w = None →
  ∃ c, setupKVService w = Ret (InitConfig c w, Gid1) ∧ Query (InitConfig c w) = Some c ∧ test_cfg c ∧
    Num c = 1 ∧ Groups c = {[Gid1 := grp_names Gid1]}.
Proof.
  intros Hw. destruct (JoinBalance_one MakeShardConfig Gid1) as (c & E & T & N & G & _).
  { done. }
  { intros g l. cbn. by rewrite lookup_empty. }
  { done. }
  { by apply lookup_empty. }
  { change (- 2 ^ 63 ≤ 0 < max_i64). unfold max_i64. lia. }
  exists c. split; [unfold setupKVService; by rewrite E|]. split; [by apply Query_InitConfig|].
  split; [exact T|]. split; [rewrite N; reflexivity|]. rewrite G. apply insert_empty.
Qed.

Lemma joined_groups (gids : list Tgid) (m : gmap Tgid (list string)) g :
  m !! g = (if decide (g ∈ gids) then Some (grp_names g) else ({[Gid1 := grp_names Gid1]} : gmap Tgid (list string)) !! g) →
  is_Some (m !! g) ↔ g = Gid1 ∨ g ∈ gids.
Proof.
  intros ->. case_decide; [split; [auto|by eexists]|]. rewrite lookup_singleton.
  case_decide as Hc; split.
  - intros _. left. exact (eq_sym Hc).
  - intros _. by eexists.
  - by intros []%is_Some_None.
  - intros [->|Hg]; [by destruct Hc|contradiction].
Qed.

Lemma too_many_groups gids c w :
  Query w = Some c → test_cfg c → Groups c = {[Gid1 := grp_names Gid1]} → Num c = 1 →
  NoDup gids → (∀ g, g ∈ gids → 0 < g ∧ Groups c !! g = None) → ¬ (length gids < NShards)%nat →
  ∃ w', joinGroups gids w = Ret (w', false).
Proof.
  intros Hq T G Hnum Hnd Hfresh Hlen. rewrite <- (take_drop (NShards - 1) gids) in *.
  destruct (drop (NShards - 1) gids) as [|gid rest] eqn:Ed.
  { assert (length (drop (NShards - 1) gids) = 0%nat) as E0 by (by rewrite Ed). rewrite length_drop in E0.
    rewrite app_nil_r, length_take in Hlen. unfold NShards in *. lia. }
  assert (length (take (NShards - 1) gids) = 11%nat) as E11.
  { apply (f_equal length) in Ed. rewrite length_drop in Ed. cbn in Ed. rewrite length_take. unfold NShards in *. lia. }
  set (pre := take (NShards - 1) gids) in *. apply NoDup_app in Hnd as (Hnd & Hdis & Hnd2).
  destruct (joinGroups_spec pre c w) as (w2 & c2 & E2 & Hq2 & T2 & N2 & S2 & G2);
    [done|apply T|apply T|done|done| |rewrite G, map_size_singleton; unfold NShards; lia|lia|unfold max_i64, zlen; lia|].
  { intros g Hg. apply Hfresh, elem_of_app. by left. }
  rewrite (joinGroups_app _ _ _ _ E2). destruct (Hfresh gid) as [Hpos Hno]; [apply elem_of_app; right; left|].
  eapply joinGroups_full; [done|done| |done| |].
  - rewrite S2, G, map_size_singleton, E11. done.
  - rewrite G2. rewrite decide_False; [done|]. intros Hin. apply (Hdis gid Hin). left.
  - rewrite N2, Hnum. unfold zlen, max_i64. lia.
Qed.

(** C20: on a controller that takes every next configuration, [setupKVService] and then
    fresh groups that join one by one all succeed exactly when with the first group there are
    no more groups than shards.  Then every join is seen by [checkMember], the configuration
    stays balanced and its number counts the changes; and when the same groups leave, the first
    group is alone again with every shard.  With more groups [joinGroups] ends with false: the
    group after the last shard joins, but gets no shard, and [checkMember] does not see it. *)
Theorem join_leave_roundtrip gids w :
  Query w = None → NoDup gids → (∀ g, g ∈ gids → Gid1 < g) →
  ∃ w1, setupKVService w = Ret (w1, Gid1) ∧
    if decide (length gids < NShards)%nat then
      ∃ w2 c2 w3 c3,
        joinGroups gids w1 = Ret (w2, true) ∧ Query w2 = Some c2 ∧ balanced c2 ∧
        (∀ g, is_Some (Groups c2 !! g) ↔ g = Gid1 ∨ g ∈ gids) ∧ (∀ g, is_Some (Groups c2 !! g) → IsMember c2 g = true) ∧
        leaveGroups gids w2 = Ret (w3, true) ∧ Query w3 = Some c3 ∧
        c3 = {| Num := 1 + 2 * zlen gids; Shards := replicate NShards Gid1; Groups := {[Gid1 := grp_names Gid1]} |}
    else ∃ w2, joinGroups gids w1 = Ret (w2, false).
Proof.
  intros Hw Hnd Hgt. destruct (setupKVService_spec w Hw) as (c1 & E1 & Hq1 & T1 & N1 & G1).
  exists (InitConfig c1 w). split; [exact E1|].
  assert (∀ g, g ∈ gids → 0 < g ∧ Groups c1 !! g = None) as Hfresh.
  { intros g Hg%Hgt. rewrite G1, lookup_singleton_ne; [|lia]. unfold Gid1 in *. split; [lia|done]. }
  case_decide as Hlen; [|by eapply too_many_groups].
  assert (zlen gids < 12) by (unfold zlen, NShards in *; lia). pose proof (zlen_nonneg gids).
  destruct (joinGroups_spec gids c1 (InitConfig c1 w)) as (w2 & c2 & E2 & Hq2 & T2 & N2 & S2 & G2);
    [done|apply T1|apply T1|done|done|done|rewrite G1, map_size_singleton; lia|lia|unfold max_i64; lia|].
  destruct (leaveGroups_spec gids c2 w2) as (w3 & c3 & E3 & Hq3 & T3 & N3 & G3);
    [done|done|done| |lia|unfold max_i64; lia|].
  { intros g Hg. rewrite G2, decide_True by done. by eexists. }
  exists w2, c2, w3, c3.
  split; [exact E2|split; [exact Hq2|split; [apply T2|split; [|split; [|split; [exact E3|split; [exact Hq3|]]]]]]].
  - intros g. apply joined_groups. by rewrite G2, G1.
  - intros g Hg. apply balanced_IsMember; [apply T2|apply T2| |done].
    rewrite S2, G1, map_size_singleton. lia.
  - assert (Groups c3 = {[Gid1 := grp_names Gid1]}) as G.
    { apply map_eq. intros g. rewrite G3, G2, G1. case_decide as Hg; [|done].
      apply Hgt in Hg. rewrite lookup_singleton_ne; [done|lia]. }
    pose proof (one_group c3 Gid1 T3 G) as S3. destruct c3 as [n s g]. cbn in N3, G, S3.
    rewrite S3, G. f_equal. lia.
Qed.
End loops.

(** The numbers the tester hands out are such groups. *)
Lemma groups_seq (n : nat) ts :
  - 2 ^ 63 ≤ ts_ngid ts → ts_ngid ts + Z.of_nat n < 2 ^ 63 →
  groups n ts = ({| ts_ngid := ts_ngid ts + Z.of_nat n |}, (λ k, ts_ngid ts + Z.of_nat k) <$> seq 0 n).
Proof.
  revert ts. induction n as [|n IH]; intros [g] Hlo Hhi; cbn [ts_ngid] in *.
  { cbn. by rewrite Z.add_0_r. }
  cbn [groups newGid ts_ngid]. rewrite i64_small by lia. rewrite IH by (cbn; lia). cbn [ts_ngid seq fmap list_fmap].
  rewrite Z.add_0_r, <- fmap_S_seq, <- list_fmap_compose. f_equal; [f_equal; lia|f_equal].
  apply list_fmap_ext. intros ? k _. cbn. lia.
Qed.

Lemma groups_fresh (n : nat) :
  Z.of_nat n < 2 ^ 62 →
  NoDup (groups n MakeTestMaxRaft).2 ∧ (∀ g, g ∈ (groups n MakeTestMaxRaft).2 → Gid1 < g) ∧
  length (groups n MakeTestMaxRaft).2 = n.
Proof.
  intros Hn. rewrite groups_seq by (cbn; unfold Gid1; lia). cbn [snd MakeTestMaxRaft ts_ngid]. split_and!.
  - apply NoDup_fmap_2; [intros x y; lia|apply NoDup_seq].
  - intros g (k & -> & _)%list_elem_of_fmap. lia.
  - by rewrite length_fmap, length_seq.
Qed.

(** A controller that keeps its promise: the configuration alone, replaced by its successor. *)
#[export] Instance spec_ctrler : ShardCtrler (option ShardConfig) := {|
  Query w := w;
  InitConfig c w := match w with None => Some c | Some _ => w end;
  ChangeConfigTo c w :=
    match w with Some cfg => if decide (Num c = Num cfg + 1) then Some c else w | None => None end
|}.

#[export] Instance spec_ctrler_laws : ShardCtrlerLaws (option ShardConfig).
Proof. split; cbn; [by intros cfg w ->|]. intros cfg new w -> Hn. by rewrite decide_True. Qed.

Lemma join_leave_roundtrip_witness :
  (groups 3 MakeTestMaxRaft).2 = [2; 3; 4] ∧
  ∃ w1, setupKVService (W := option ShardConfig) None = Ret (w1, Gid1) ∧
    (∃ w2 c2 w3 c3,
      joinGroups [2; 3; 4] w1 = Ret (w2, true) ∧ Query w2 = Some c2 ∧ balanced c2 ∧
      (∀ g, is_Some (Groups c2 !! g) ↔ g = Gid1 ∨ g ∈ [2; 3; 4]) ∧
      (∀ g, is_Some (Groups c2 !! g) → IsMember c2 g = true) ∧
      leaveGroups [2; 3; 4] w2 = Ret (w3, true) ∧ Query w3 = Some c3 ∧
      c3 = {| Num := 1 + 2 * zlen [2; 3; 4]; Shards := replicate NShards Gid1; Groups := {[Gid1 := grp_names Gid1]} |}).
Proof.
  split; [reflexivity|].
  destruct (groups_fresh 3) as (Hnd & Hgt & _); [lia|].
  exact (join_leave_roundtrip [2; 3; 4] None eq_refl Hnd Hgt).
Defined.

(** A thirteenth group joins without getting a shard, and [checkMember] does not see it. *)
Lemma thirteenth_not_member :
  ∃ w, joinGroups (groups 12 MakeTestMaxRaft).2
         (Some (rebalanced {| Num := 1; Shards := replicate NShards 1; Groups := {[ 1 := grp_names 1 ]} |})) =
         Ret (w, false) ∧
       ∃ c, Query w = Some c ∧ size (Groups c) = 13%nat ∧ IsMember c 13 = false.
Proof. eexists. split; [vm_compute; reflexivity|]. eexists. split; [reflexivity|]. split; reflexivity. Qed.

(** On the skeleton the first join stops the test. *)
Lemma skeleton_join gid srvs :
  @join unit shardctrler_skeleton gid srvs tt = Panic "nil pointer dereference".
Proof. done. Qed.
