(* ===== verification/ShardCtrlTest.v ===== *)
(** * The sharded store's tester: groups that are down, controllers that compete

    The rest of src/src/shardkv1/test.go: [shutdownLeader], [checkShutdownSharding],
    [partitionCtrler] and [concurCtrler], and the clerks of src/src/shardkv1/client.go and
    src/src/shardkv1/shardgrp/client.go, which are skeletons.

    What runs at the same time comes in as a list of events: the answers of the concurrent
    Gets, in the order the tester receives them, and the two seconds without one. The
    controllers share the world of the class [ShardCtrler]; a turn of one is one step here, and
    taken apart in [ShardRace]. *)
From stdpp Require Import base tactics numbers list fin_maps gmap strings pretty.
From S2P Require Import Prelude GoLib TesterNet Annotation TesterConfig KVGroupTest ShardCfg ShardTest.

(** ** The clerks *)

(** [shardgrp.Clerk] and [shardkv.Clerk]; clients and the controller are left out. *)
Record grp_Clerk := { gc_servers : list string; gc_leader : Z }.
Definition grp_MakeClerk (servers : list string) : grp_Clerk := {| gc_servers := servers; gc_leader := 0 |}.
Definition grp_Leader (ck : grp_Clerk) : Z := gc_leader ck.

Record shard_Clerk := { rcks : gmap Tgid grp_Clerk }.
Definition shard_MakeClerk : shard_Clerk := {| rcks := ∅ |}.
Definition GetClerk (gid : Tgid) (ck : shard_Clerk) : option grp_Clerk := rcks ck !! gid.
Definition shard_Get (key : string) : string * Z * string := ("", 0, "").
Definition shard_Put (key value : string) (version : Z) : string := "".

(** ** The test

    Its configuration, annotations and group numbers; the controller is a client with a clerk
    for the first server of group 0. *)
Record ShardCtrler_clnt := { sck_clnt : nat; sck_clerk : kvsrv_clerk }.
Definition MakeShardCtrler (clnt : nat) : ShardCtrler_clnt :=
  {| sck_clnt := clnt; sck_clerk := kvsrv_MakeClerk clnt (ServerName GRP0 0) |}.

Record shard_test := {
  sh_cfg : Config; sh_an : globals; sh_gids : Test; sh_partition : bool; sh_maxraftstate : Z
}.
#[export] Instance eta_shard_test : Eta shard_test := λ t,
  {| sh_cfg := sh_cfg t; sh_an := sh_an t; sh_gids := sh_gids t; sh_partition := sh_partition t;
     sh_maxraftstate := sh_maxraftstate t |}.

(** [names] has one element; [t] is the time of the annotation, [now] and [now'] those of the
    configuration and of the test. *)
Definition shard_MakeTestMaxRaft (part : string) (reliable partition : bool) (maxraftstate : Z) (names : list (list string))
    (fresh : list (list string * nat)) (now t now' : Z) (an : globals) : outcome shard_test :=
  cfg ← MakeConfig names reliable fresh now;
  Ret {| sh_cfg := Begin part now' cfg; sh_an := AnnotateTest part 1 t an; sh_gids := MakeTestMaxRaft;
         sh_partition := partition; sh_maxraftstate := maxraftstate |}.
Definition shard_MakeTest part reliable := shard_MakeTestMaxRaft part reliable false (-1).
Definition shard_MakeTestLeases part reliable := shard_MakeTestMaxRaft part reliable true (-1).

Definition new_client (id : nat) (ts : shard_test) : shard_test :=
  ts <| sh_cfg := (sh_cfg ts) <| cf_clnts := MakeClient id (cf_clnts (sh_cfg ts)) |> |>.

(** [ids] are the numbers of the new clients. *)
Definition makeShardCtrlerClnt (id : nat) (ts : shard_test) : shard_test * (ShardCtrler_clnt * nat) :=
  (new_client id ts, (MakeShardCtrler id, id)).
Definition makeShardCtrler (id : nat) (ts : shard_test) : shard_test * ShardCtrler_clnt :=
  let '(ts, (ck, _)) := makeShardCtrlerClnt id ts in (ts, ck).
Definition shard_test_MakeClerk (ids : nat * nat) (ts : shard_test) : shard_test * (shard_Clerk * nat) :=
  let ts := new_client (ids.1) ts in let '(ts, _) := makeShardCtrler (ids.2) ts in (ts, (shard_MakeClerk, ids.1)).
Definition makeKVClerk (id : nat) (ts : shard_test) : shard_test * kvsrv_clerk :=
  (new_client id ts, kvsrv_MakeClerk id (ServerName GRP0 0)).
Definition shard_test_DeleteClerk (range_order : list (string * string) → list (string * string)) (tck : shard_Clerk * nat)
    (ts : shard_test) : outcome shard_test :=
  '(clnts, net) ← DeleteClient range_order (tck.2) (cf_clnts (sh_cfg ts), cf_net (sh_cfg ts));
  Ret (ts <| sh_cfg := (sh_cfg ts) <| cf_clnts := clnts |> <| cf_net := net |> |>).

(** The new controller's client is not the clerk's: deleting the clerk leaves it. *)
Lemma shard_clerk_leaves_ctrler ro ids ts :
  ro [] = [] → ids.1 ≠ ids.2 →
  let '(ts1, ck) := shard_test_MakeClerk ids ts in
  ∃ ts2, shard_test_DeleteClerk ro ck ts1 = Ret ts2 ∧
    cf_clnts (sh_cfg ts2) !! ids.1 = None ∧ cf_clnts (sh_cfg ts2) !! ids.2 = Some (makeClntTo None) ∧
    cf_net (sh_cfg ts2) = cf_net (sh_cfg ts).
Proof.
  intros Hro Hne. unfold shard_test_MakeClerk, makeShardCtrler, makeShardCtrlerClnt, new_client, shard_test_DeleteClerk,
    DeleteClient, MakeClient, MakeClientTo. cbn.
  assert ((<[ids.2:=makeClntTo None]> (<[ids.1:=makeClntTo None]> (cf_clnts (sh_cfg ts))) : Clnts) !! ids.1 = Some (makeClntTo None)) as ->.
  { etrans; [by apply lookup_insert_ne|]. apply lookup_insert_eq. }
  unfold remove, makeClntTo. cbn. rewrite map_to_list_empty, Hro. cbn. eexists. split; [done|]. cbn. split_and!; [|etrans; [by apply lookup_delete_ne|apply lookup_insert_eq]|done].
  apply (lookup_delete_eq (M := gmap nat)).
Qed.

(** [ShutdownServer] on the leader of group [gid], in the world of that group. *)
Definition shutdownLeader (lives : Z → life) (ck : shard_Clerk) (gid : Tgid) (w : world) : outcome (world * Z) :=
  match GetClerk gid ck with
  | None => Fatal ("shutdownLeader: no shardgrp clerk for " +:+ pretty gid)
  | Some c => let l := grp_Leader c in w ← Group_ShutdownServer lives l w; Ret (w, l)
  end.

(** ** [checkShutdownSharding] *)

(** Goroutine [i] sends what its Get answered; or two seconds pass. *)
Inductive shut_event := Answer (i : Z) (v : string) | Timeout.

(** [None]: the tester still waits. *)
Fixpoint shut_loop (va : list string) (es : list shut_event) (ndone : Z) : outcome (option Z) :=
  match es with
  | [] => Ret None
  | Timeout :: _ => Ret (Some ndone)
  | Answer i v :: es =>
      expected ← go_index va i;
      if decide (v ≠ expected) then Fatal "Get: expected another value" else shut_loop va es (ndone + 1)
  end.

(** The group is shut down before and started again after. *)
Definition checkShutdownSharding (ka va : list string) (es : list shut_event) : outcome (option unit) :=
  r ← shut_loop va es 0;
  match r with
  | None => Ret None
  | Some ndone =>
      if decide (zlen ka ≤ ndone) then Fatal "expected less completions with shard down" else Ret (Some tt)
  end.

Lemma shut_loop_counts va (vs : list (Z * string)) ndone :
  Forall (λ iv, 0 ≤ iv.1 < zlen va) vs →
  (Forall (λ iv, va !! Z.to_nat iv.1 = Some iv.2) vs ∧
   shut_loop va (((λ iv, Answer (iv.1) (iv.2)) <$> vs) ++ [Timeout]) ndone = Ret (Some (ndone + zlen vs))) ∨
  (¬ Forall (λ iv, va !! Z.to_nat iv.1 = Some iv.2) vs ∧
   shut_loop va (((λ iv, Answer (iv.1) (iv.2)) <$> vs) ++ [Timeout]) ndone = Fatal "Get: expected another value").
Proof.
  intros Hr. revert ndone. induction Hr as [|[i v] vs Hi _ IH]; intros ndone.
  { left. split; [done|]. cbn. by rewrite zlen_nil, Z.add_0_r. }
  cbn [fmap list_fmap app shut_loop fst snd] in *. destruct (go_index_in_range va i Hi) as (x & -> & Hx).
  rewrite bind_ret_l, zlen_cons. case_decide as Hv.
  - right. split; [|done]. intros [H _]%Forall_cons. cbn in H. congruence.
  - assert (v = x) as -> by (by destruct (decide (v = x))).
    destruct (IH (ndone + 1)) as [[H1 H2]|[H1 H2]]; [left|right]; rewrite H2.
    + split; [by constructor|]. do 2 f_equal. lia.
    + split; [|done]. by intros [_ H]%Forall_cons.
Qed.

(** The check passes exactly when every answer is right and at least one key, on the group
    that is down, has none; goroutines answer at most once. *)
Lemma checkShutdownSharding_passes ka va (vs : list (Z * string)) :
  length ka = length va → NoDup vs.*1 → Forall (λ iv, 0 ≤ iv.1 < zlen va) vs →
  checkShutdownSharding ka va (((λ iv, Answer (iv.1) (iv.2)) <$> vs) ++ [Timeout]) = Ret (Some tt) ↔
  Forall (λ iv, va !! Z.to_nat iv.1 = Some iv.2) vs ∧ ∃ i, 0 ≤ i < zlen ka ∧ i ∉ vs.*1.
Proof.
  intros Hlen Hnd Hr. unfold checkShutdownSharding.
  assert (zlen ka ≤ zlen vs ↔ ¬ ∃ i, 0 ≤ i < zlen ka ∧ i ∉ vs.*1) as Hall.
  { unfold zlen in *. rewrite Hlen. split.
    - intros Hge (i & Hi & Hni).
      assert (NoDup (i :: vs.*1)) as Hnd' by by constructor.
      assert (i :: vs.*1 ⊆+ seqZ 0 (Z.of_nat (length va))) as Hsub%submseteq_length.
      { apply NoDup_submseteq; [done|]. intros x [->|Hx]%elem_of_cons; apply elem_of_seqZ; [lia|].
        apply list_elem_of_fmap in Hx as (iv & -> & Hiv). rewrite Forall_forall in Hr. specialize (Hr iv Hiv). lia. }
      rewrite length_cons, length_fmap, length_seqZ in Hsub. lia.
    - intros Hno. assert (seqZ 0 (Z.of_nat (length va)) ⊆+ vs.*1) as Hsub%submseteq_length.
      { apply NoDup_submseteq; [apply NoDup_seqZ|]. intros x Hx%elem_of_seqZ.
        destruct (decide (x ∈ vs.*1)); [done|]. destruct Hno. exists x. split; [lia|done]. }
      rewrite length_fmap, length_seqZ in Hsub. lia. }
  destruct (shut_loop_counts va vs 0 Hr) as [[H1 ->]|[H1 ->]]; cbn; [|naive_solver].
  case_decide as Hd; [|split; [|done]].
  - split; [done|]. intros [_ Hex]. by apply Hall in Hd.
  - intros _. split; [done|]. destruct (decide (Exists (λ i, i ∉ vs.*1) (seqZ 0 (zlen ka)))) as [He|He].
    + apply Exists_exists in He as (i & Hi%elem_of_seqZ & Hni). exists i. split; [lia|done].
    + destruct Hd. apply Hall. intros (i & Hi & Hni). apply He, Exists_exists. exists i.
      split; [apply elem_of_seqZ; lia|done].
Qed.

(** The skeleton's Gets answer at once, with nothing. *)
Lemma skeleton_gets_fail ka va v es :
  va !! 0%nat = Some v → v ≠ "" →
  checkShutdownSharding ka va (Answer 0 (shard_Get "k").1.1 :: es) = Fatal "Get: expected another value".
Proof.
  intros Hv Hne. unfold checkShutdownSharding. cbn [shut_loop]. change 0 with (Z.of_nat 0).
  rewrite (go_index_nat _ _ _ Hv), bind_ret_l. by rewrite decide_True.
Qed.

(** ** Competing controllers *)

Section controllers.
Context {W : Type} `{ShardCtrler W}.

(** A turn of [concurCtrler]'s goroutine, and of [partitionCtrler]'s while it is not deposed. *)
Definition ctrler_turn (ts : Test) (w : W) : outcome (Test * W) :=
  let '(ts, ngid) := newGid ts in
  '(w, _) ← joinGroups [ngid] w;
  ok ← checkMember ngid w;
  if (ok : bool) then '(w, _) ← leaveGroups [ngid] w; Ret (ts, w) else Ret (ts, w).

Fixpoint ctrler_turns (k : nat) (ts : Test) (w : W) : outcome (Test * W) :=
  match k with O => Ret (ts, w) | S k => '(ts, w) ← ctrler_turn ts w; ctrler_turns k ts w end.

(** What the first controller was at when it was cut off; [Idle] before its first turn. *)
Inductive ctrler_state := Idle | Joining | Leaving.

#[export] Instance ctrler_state_eq_dec : EqDecision ctrler_state.
Proof. solve_decision. Defined.

(** [partitionCtrler] once the second controller has taken over: [num] is the number of the
    configuration before the first one started. *)
Definition partition_recovered (num : Z) (state : ctrler_state) (ngid : Tgid) (w : W) : outcome W :=
  cfg ← deref (Query w);
  if decide (Num cfg <= num) then Fatal "didn't recover; expected a later configuration"
  else
    let present := IsMember cfg ngid in
    if decide ((state = Joining ∧ present = false) ∨ (state = Leaving ∧ present = true))
    then Fatal "didn't recover correctly"
    else if decide (state = Joining ∧ present = true) then '(w, _) ← leaveGroups [ngid] w; Ret w
    else Ret w.
End controllers.

Section turns.
Context {W : Type} `{ShardCtrlerLaws W}.

Lemma ctrler_turn_spec ts w c :
  Query w = Some c → test_cfg c → (size (Groups c) < NShards)%nat → 0 < ts_ngid ts < 2 ^ 63 - 1 →
  (∀ g, ts_ngid ts ≤ g → Groups c !! g = None) → - 2 ^ 63 ≤ Num c → Num c + 2 ≤ max_i64 →
  ∃ w' c', ctrler_turn ts w = Ret ({| ts_ngid := ts_ngid ts + 1 |}, w') ∧ Query w' = Some c' ∧ test_cfg c' ∧
    Num c' = Num c + 2 ∧ Groups c' = Groups c.
Proof.
  intros Hq T Hsz Hid Hnew Hlo Hhi. unfold ctrler_turn, newGid. set (g := ts_ngid ts) in *.
  assert (zlen [g] = 1) as Hlen by done.
  destruct (joinGroups_spec [g] c w Hq) as (w1 & c1 & E1 & Hq1 & T1 & N1 & S1 & G1); [apply T|apply T|done|apply NoDup_singleton| |cbn; lia|lia|lia|].
  { intros x ->%list_elem_of_singleton. split; [lia|]. by apply Hnew. }
  destruct (leaveGroups_spec [g] c1 w1 Hq1 T1) as (w2 & c2 & E2 & Hq2 & T2 & N2 & G2); [apply NoDup_singleton| |lia|lia|].
  { intros x ->%list_elem_of_singleton. rewrite G1, decide_True by left. by eexists. }
  rewrite E1, bind_ret_l. unfold checkMember. rewrite Hq1. cbn [deref]. rewrite !bind_ret_l.
  rewrite balanced_IsMember; [|apply T1|apply T1|rewrite S1; cbn; lia|rewrite G1, decide_True by left; by eexists].
  rewrite E2, bind_ret_l, i64_small by lia. exists w2, c2. split_and!; [done..|lia|].
  apply map_eq. intros x. rewrite G2, G1. case_decide as Hx; [|done].
  apply list_elem_of_singleton in Hx as ->. symmetry. by apply Hnew.
Qed.

(** However many turns the controllers take one after the other, the groups are the same
    again after each, and the configuration stays balanced. *)
Lemma ctrler_turns_keep k ts w c :
  Query w = Some c → test_cfg c → (size (Groups c) < NShards)%nat →
  0 < ts_ngid ts → ts_ngid ts + Z.of_nat k < 2 ^ 63 →
  (∀ g, ts_ngid ts ≤ g → Groups c !! g = None) → - 2 ^ 63 ≤ Num c → Num c + 2 * Z.of_nat k ≤ max_i64 →
  ∃ w' c', ctrler_turns k ts w = Ret ({| ts_ngid := ts_ngid ts + Z.of_nat k |}, w') ∧ Query w' = Some c' ∧
    test_cfg c' ∧ Num c' = Num c + 2 * Z.of_nat k ∧ Groups c' = Groups c.
Proof.
  revert ts w c. induction k as [|k IH]; intros ts w c Hq T Hsz Hid Hk Hnew Hlo Hhi.
  { exists w, c. split_and!; [|done..|lia|done]. cbn. rewrite Z.add_0_r. by destruct ts. }
  cbn [ctrler_turns]. destruct (ctrler_turn_spec ts w c Hq T Hsz) as (w1 & c1 & -> & Hq1 & T1 & N1 & G1);
    [lia|done|lia|lia|]. rewrite bind_ret_l.
  destruct (IH {| ts_ngid := ts_ngid ts + 1 |} w1 c1 Hq1 T1) as (w' & c' & -> & Hq' & T' & N' & G');
    rewrite ?G1; cbn [ts_ngid]; [done|lia|lia|intros g Hg; apply Hnew; lia|lia|lia|].
  exists w', c'. split_and!; [do 2 f_equal; cbn; f_equal; lia|done..|lia|congruence].
Qed.

(** The second controller finds the first one's join done, or its leave, and the groups end
    as they were before the first one's turn. *)
Lemma partition_recovered_join ts w c w1 :
  Query w = Some c → test_cfg c → (size (Groups c) < NShards)%nat → 0 < ts_ngid ts →
  Groups c !! ts_ngid ts = None → - 2 ^ 63 ≤ Num c → Num c + 2 ≤ max_i64 →
  joinGroups [ts_ngid ts] w = Ret (w1, true) →
  ∃ w' c', partition_recovered (Num c) Joining (ts_ngid ts) w1 = Ret w' ∧ Query w' = Some c' ∧ test_cfg c' ∧
    Groups c' = Groups c.
Proof.
  intros Hq T Hsz Hid Hnew Hlo Hhi E. set (g := ts_ngid ts) in *. assert (zlen [g] = 1) as Hlen by done.
  destruct (joinGroups_spec [g] c w Hq) as (w1' & c1 & E1 & Hq1 & T1 & N1 & S1 & G1); [apply T|apply T|done|apply NoDup_singleton| |cbn; lia|lia|lia|].
  { intros x ->%list_elem_of_singleton. done. }
  rewrite E in E1. injection E1 as <-.
  destruct (leaveGroups_spec [g] c1 w1 Hq1 T1) as (w2 & c2 & E2 & Hq2 & T2 & N2 & G2); [apply NoDup_singleton| |lia|lia|].
  { intros x ->%list_elem_of_singleton. rewrite G1, decide_True by left. by eexists. }
  exists w2, c2. unfold partition_recovered. rewrite Hq1. cbn [deref]. rewrite bind_ret_l, decide_False by lia.
  rewrite balanced_IsMember; [|apply T1|apply T1|rewrite S1; cbn; lia|rewrite G1, decide_True by left; by eexists].
  cbv zeta. rewrite decide_False, decide_True by naive_solver. rewrite E2, bind_ret_l. split_and!; [done..|].
  apply map_eq. intros x. rewrite G2, G1. case_decide as Hx; [|done].
  apply list_elem_of_singleton in Hx as ->. by symmetry.
Qed.
End turns.
