(* ===== verification/ShardRace.v ===== *)
(** * The sharded store's tester: controllers that race

    [concurCtrler] of src/src/shardkv1/test.go.  Its goroutines each take a fresh group number,
    start the group, and let it join and leave again through a controller of their own, over the
    one configuration that all controllers share.  A query, a change and the start or exit of a
    group are one step each, and the steps of the goroutines interleave in every way.

    While a controller changes the configuration it may be superseded by another one
    (src/src/shardkv1/shardctrler/shardctrler.go): then its change does not happen.  What the
    tester has to get by with is that no two changes follow the same configuration. *)
From stdpp Require Import base tactics numbers list fin_maps fin_sets gmap strings pretty.
From S2P Require Import Prelude GoLib TesterNet ShardCfg ShardTest.

(** A controller that was superseded changes nothing. *)
Class ShardCtrlerRace (W : Type) `{ShardCtrler W} :=
  Query_superseded cfg new w :
    Query w = Some cfg → Num new ≠ Num cfg + 1 → Query (ChangeConfigTo new w) = Some cfg.

#[export] Instance spec_ctrler_race : ShardCtrlerRace (option ShardConfig).
Proof. intros cfg new w Hw Hn. cbn in *. rewrite Hw. by rewrite decide_False. Qed.

(** ** The goroutines *)

(** Where a goroutine of [concurCtrler] is: between two turns; with a number; its group started;
    with the configuration that has the group ([joinGroups], up to its [checkMember]); before
    its own [checkMember]; with the configuration that lacks the group again ([leaveGroups], up
    to its [checkMember]); told to stop. *)
Inductive race_pc :=
  | RIdle | RMake (gid : Tgid) | RJoin (gid : Tgid) | RPostJoin (gid : Tgid) (newcfg : ShardConfig)
  | RJoined (gid : Tgid) | RMember (gid : Tgid) | RLeave (gid : Tgid)
  | RPostLeave (gid : Tgid) (newcfg : ShardConfig) | RLeft (gid : Tgid) | RDone.

Section race.
Context {W : Type} `{ShardCtrler W}.

Definition join_read (gid : Tgid) (srvs : list string) (w : W) : outcome ShardConfig :=
  cfg ← deref (Query w);
  '(newcfg, ok) ← JoinBalance (ShardConfig_Copy cfg) [(gid, srvs)];
  if negb ok then Fatal ("join: group " +:+ pretty gid +:+ " is already present") else Ret newcfg.

Definition leave_read (gid : Tgid) (w : W) : outcome ShardConfig :=
  cfg ← deref (Query w);
  '(newcfg, ok) ← LeaveBalance (ShardConfig_Copy cfg) [gid];
  if negb ok then Fatal ("leave: group " +:+ pretty gid +:+ " is already not present") else Ret newcfg.

(** The parts make up the whole. *)
Lemma join_sections gid srvs w : join gid srvs w = (c ← join_read gid srvs w; Ret (ChangeConfigTo c w)).
Proof.
  unfold join, join_read. destruct (deref (Query w)) as [c| |]; [|done..]. rewrite !bind_ret_l.
  by destruct (JoinBalance (ShardConfig_Copy c) [(gid, srvs)]) as [[c' []]| |].
Qed.
Lemma leave_sections gid w : leave gid w = (c ← leave_read gid w; Ret (ChangeConfigTo c w)).
Proof.
  unfold leave, leave_read. destruct (deref (Query w)) as [c| |]; [|done..]. rewrite !bind_ret_l.
  by destruct (LeaveBalance (ShardConfig_Copy c) [gid]) as [[c' []]| |].
Qed.

(** The test's group numbers, the world of the controllers, the groups whose servers run, and
    the goroutines. *)
Record race := { ra_ts : Test; ra_w : W; ra_running : gset Tgid; ra_pcs : list race_pc }.
#[export] Instance eta_race : Eta race := λ s,
  {| ra_ts := ra_ts s; ra_w := ra_w s; ra_running := ra_running s; ra_pcs := ra_pcs s |}.

(** The next step of a goroutine: [stop] says that the tester's message is there when it looks. *)
Definition race_turn (stop : bool) (pc : race_pc) (s : race) : outcome (race * race_pc) :=
  let w := ra_w s in
  match pc with
  | RIdle =>
      if stop then Ret (s, RDone)
      else let '(ts, ngid) := newGid (ra_ts s) in Ret (s <| ra_ts := ts |>, RMake ngid)
  | RMake gid => Ret (s <| ra_running := {[gid]} ∪ ra_running s |>, RJoin gid)
  | RJoin gid => newcfg ← join_read gid (grp_names gid) w; Ret (s, RPostJoin gid newcfg)
  | RPostJoin gid newcfg => Ret (s <| ra_w := ChangeConfigTo newcfg w |>, RJoined gid)
  | RJoined gid => _ ← checkMember gid w; Ret (s, RMember gid)
  | RMember gid => ok ← checkMember gid w; Ret (s, if ok : bool then RLeave gid else RIdle)
  | RLeave gid => newcfg ← leave_read gid w; Ret (s, RPostLeave gid newcfg)
  | RPostLeave gid newcfg => Ret (s <| ra_w := ChangeConfigTo newcfg w |>, RLeft gid)
  | RLeft gid =>
      ok ← checkMember gid w;
      if (ok : bool) then Ret (s, RIdle) else Ret (s <| ra_running := ra_running s ∖ {[gid]} |>, RIdle)
  | RDone => Ret (s, RDone)
  end.

(** Goroutine [i] takes its next step. *)
Definition race_step (e : nat * bool) (s : race) : outcome race :=
  match ra_pcs s !! e.1 with
  | None => Ret s
  | Some pc => '(s, pc) ← race_turn e.2 pc s; Ret (s <| ra_pcs := <[e.1 := pc]> (ra_pcs s) |>)
  end.

Definition race_run : list (nat * bool) → race → outcome race := go_for race_step.

(** [concurCtrler] starts [n] goroutines. *)
Definition concurCtrler (n : nat) (ts : Test) (w : W) (running : gset Tgid) : race :=
  {| ra_ts := ts; ra_w := w; ra_running := running; ra_pcs := replicate n RIdle |}.
End race.
Arguments race : clear implicits.

(** ** What holds between the steps *)

Section safety.
Context {W : Type} `{ShardCtrlerLaws W} `{!ShardCtrlerRace W}.
Implicit Types (s : race W) (c : ShardConfig) (pc : race_pc).

Definition pc_gid pc : option Tgid :=
  match pc with
  | RIdle | RDone => None
  | RMake g | RJoin g | RPostJoin g _ | RJoined g | RMember g | RLeave g | RPostLeave g _ | RLeft g => Some g
  end.

(** A change that is on its way follows an earlier configuration, or the current one; and the
    group whose membership it changes is nobody else's. *)
Definition pending c new (groups : gmap Tgid (list string)) : Prop :=
  Num new ≤ Num c + 1 ∧ (Num new = Num c + 1 → test_cfg new ∧ Groups new = groups).

Definition pc_ok c (running : gset Tgid) pc : Prop :=
  match pc with
  | RIdle | RDone => True
  | RMake g => Groups c !! g = None
  | RJoin g => Groups c !! g = None ∧ g ∈ running
  | RPostJoin g new => Groups c !! g = None ∧ g ∈ running ∧ pending c new (<[g := grp_names g]> (Groups c))
  | RJoined g | RMember g | RLeft g => g ∈ running
  | RLeave g => is_Some (Groups c !! g) ∧ g ∈ running
  | RPostLeave g new => is_Some (Groups c !! g) ∧ g ∈ running ∧ pending c new (delete g (Groups c))
  end.

(** The groups of the beginning, [c0], and those of the numbers from [g0] on. *)
Record race_inv (c0 : ShardConfig) (g0 : Tgid) c s : Prop := {
  rc_query : Query (ra_w s) = Some c;
  rc_cfg : test_cfg c;
  rc_num : Num c0 ≤ Num c;
  rc_ngid : g0 ≤ ts_ngid (ra_ts s);
  rc_from g : is_Some (Groups c !! g) → is_Some (Groups c0 !! g) ∨ g0 ≤ g < ts_ngid (ra_ts s);
  rc_keep g : is_Some (Groups c0 !! g) → is_Some (Groups c !! g);
  rc_pc i pc : ra_pcs s !! i = Some pc → pc_ok c (ra_running s) pc;
  rc_range i pc g : ra_pcs s !! i = Some pc → pc_gid pc = Some g → g0 ≤ g < ts_ngid (ra_ts s);
  rc_own i j pc pc' g : ra_pcs s !! i = Some pc → ra_pcs s !! j = Some pc' → pc_gid pc = Some g →
    pc_gid pc' = Some g → i = j;
  rc_running : (size (Groups c0) + Z.to_nat (ts_ngid (ra_ts s) - g0) ≤ NShards)%nat →
    ∀ g, is_Some (Groups c !! g) → g ∈ ra_running s
}.

(** What a step of goroutine [i] has to show. *)
Lemma race_inv_step c0 g0 c s c' s' i pc pc' :
  race_inv c0 g0 c s → ra_pcs s !! i = Some pc → ra_pcs s' = <[i := pc']> (ra_pcs s) →
  Query (ra_w s') = Some c' → test_cfg c' → Num c ≤ Num c' → ts_ngid (ra_ts s) ≤ ts_ngid (ra_ts s') →
  (∀ g, is_Some (Groups c' !! g) → is_Some (Groups c !! g) ∨ pc_gid pc = Some g) →
  (∀ g, is_Some (Groups c0 !! g) → is_Some (Groups c' !! g)) →
  pc_ok c' (ra_running s') pc' →
  (∀ j p, j ≠ i → ra_pcs s !! j = Some p → pc_ok c' (ra_running s') p) →
  (∀ g, pc_gid pc' = Some g → pc_gid pc = Some g ∨ ts_ngid (ra_ts s) ≤ g < ts_ngid (ra_ts s')) →
  ((size (Groups c0) + Z.to_nat (ts_ngid (ra_ts s') - g0) ≤ NShards)%nat →
    ∀ g, is_Some (Groups c' !! g) → g ∈ ra_running s') →
  race_inv c0 g0 c' s'.
Proof.
  intros [Hq T N Hge Hfrom Hkeep Hpc Hran Hown Hrun] Hi Hs Hq' T' N' Hng Hfrom' Hkeep' Hpc' Hoth Hgid Hrun'.
  split; rewrite ?Hs; try done; [lia|lia|..].
  - intros g [Hg|Hg]%Hfrom'; [destruct (Hfrom g Hg); [by left|right; lia]|].
    right. pose proof (Hran _ _ _ Hi Hg). lia.
  - intros j p [(<- & <- & _)|[Hne Hj]]%list_lookup_insert_Some; [done|eauto].
  - intros j p g [(<- & <- & _)|[_ Hj]]%list_lookup_insert_Some Hg.
    + destruct (Hgid g Hg) as [Hg'|]; [pose proof (Hran _ _ _ Hi Hg'); lia|lia].
    + pose proof (Hran _ _ _ Hj Hg). lia.
  - assert (∀ j p g, j ≠ i → ra_pcs s !! j = Some p → pc_gid p = Some g → pc_gid pc' = Some g → False) as Hno.
    { intros j p g Hne Hj Hp [Hg|Hg]%Hgid; [by apply Hne, (Hown j i p pc g)|].
      pose proof (Hran _ _ _ Hj Hp). lia. }
    intros j k p p' g [(<- & <- & _)|[? Hj]]%list_lookup_insert_Some
      [(<- & <- & _)|[? Hk]]%list_lookup_insert_Some Hp Hp'; [done| | |by eapply Hown].
    + exfalso. by apply (Hno k p' g).
    + exfalso. by apply (Hno j p g).
Qed.

(** Neither the world nor the groups that run change. *)
Lemma race_inv_pc c0 g0 c s i pc pc' :
  race_inv c0 g0 c s → ra_pcs s !! i = Some pc → pc_ok c (ra_running s) pc' →
  (∀ g, pc_gid pc' = Some g → pc_gid pc = Some g) →
  race_inv c0 g0 c (s <| ra_pcs := <[i := pc']> (ra_pcs s) |>).
Proof.
  intros Hinv Hi Hok Hg. eapply race_inv_step; [exact Hinv|exact Hi|done|apply Hinv|apply Hinv|lia|cbn; lia|auto|
    apply Hinv|done| |auto|apply Hinv].
  intros j p _ Hj. exact (rc_pc _ _ _ _ Hinv j p Hj).
Qed.

Lemma pc_ok_running c running running' pc :
  (∀ g, pc_gid pc = Some g → g ∈ running → g ∈ running') → pc_ok c running pc → pc_ok c running' pc.
Proof. destruct pc; naive_solver. Qed.

(** The change of a group is none of the other goroutines' concern, but for that theirs fall
    behind. *)
Lemma pc_ok_change c c' running pc :
  Num c' = Num c + 1 → (∀ g, pc_gid pc = Some g → Groups c' !! g = Groups c !! g) →
  pc_ok c running pc → pc_ok c' running pc.
Proof.
  intros Hn Hg. assert (∀ new gs gs', pending c new gs → pending c' new gs') as Hp.
  { intros new gs gs' [Hle _]. split; [lia|]. intros ?. lia. }
  destruct pc as [|g|g|g new|g|g|g|g new|g|]; cbn in *; try done; rewrite (Hg g eq_refl); naive_solver.
Qed.

(** The goroutine's change is made, and it was the next one, or it was superseded. *)
Lemma race_inv_change c0 g0 c s i pc pc' new g gs :
  race_inv c0 g0 c s → ra_pcs s !! i = Some pc → pc_gid pc = Some g → pc_gid pc' = Some g →
  (∀ c', pc_ok c' (ra_running s) pc') → pending c new gs → g ∈ ra_running s →
  (∀ x, x ≠ g → gs !! x = Groups c !! x) → (∀ x, is_Some (Groups c0 !! x) → x < g) →
  ∃ c', race_inv c0 g0 c' (s <| ra_w := ChangeConfigTo new (ra_w s) |> <| ra_pcs := <[i := pc']> (ra_pcs s) |>) ∧
    Num c' ≤ Num c + 1.
Proof.
  intros Hinv Hi Hg Hg' Hok [Hle Hnext] Hin Hgs Hc0.
  destruct (decide (Num new = Num c + 1)) as [Hn|Hn].
  - destruct (Hnext Hn) as [T G]. exists new. split; [|lia]. rewrite <- G in Hgs.
    eapply race_inv_step; [exact Hinv|exact Hi|done|by eapply Query_ChangeConfigTo; [apply Hinv|]|done|lia|cbn; lia|..].
    + intros x Hx. destruct (decide (x = g)) as [->|]; [by right|left]. by rewrite <- Hgs.
    + intros x Hx. rewrite Hgs; [by eapply rc_keep|]. pose proof (Hc0 x Hx). lia.
    + apply Hok.
    + intros j p Hne Hj. cbn. apply (pc_ok_change c); [done| |exact (rc_pc _ _ _ _ Hinv j p Hj)]. intros x Hx. apply Hgs.
      intros ->. by apply Hne, (rc_own _ _ _ _ Hinv j i p pc g).
    + rewrite Hg, Hg'. auto.
    + cbn. intros Hb x Hx. destruct (decide (x = g)) as [->|]; [done|].
      eapply rc_running; [exact Hinv|done|]. by rewrite <- Hgs.
  - exists c. split; [|lia].
    eapply race_inv_step; [exact Hinv|exact Hi|done|by eapply Query_superseded; [apply Hinv|]|apply Hinv|lia|cbn; lia|
      auto|apply Hinv|apply Hok| |rewrite Hg, Hg'; auto|apply Hinv].
    intros j p _ Hj. exact (rc_pc _ _ _ _ Hinv j p Hj).
Qed.

(** There are no more groups than numbers were given out. *)
Lemma race_size c0 g0 c s :
  race_inv c0 g0 c s → (size (Groups c) ≤ size (Groups c0) + Z.to_nat (ts_ngid (ra_ts s) - g0))%nat.
Proof.
  intros Hinv. rewrite <- !(size_dom (D := gset Tgid)).
  set (fresh := list_to_set (seqZ g0 (ts_ngid (ra_ts s) - g0)) : gset Tgid).
  assert (size fresh = Z.to_nat (ts_ngid (ra_ts s) - g0)) as <-.
  { unfold fresh. rewrite size_list_to_set by apply NoDup_seqZ. apply length_seqZ. }
  transitivity (size (dom (Groups c0) ∪ fresh)); [|rewrite size_union_alt; pose proof (subseteq_size (fresh ∖ dom (Groups c0)) fresh); set_solver by lia].
  apply subseteq_size. intros g Hg%elem_of_dom. apply elem_of_union.
  destruct (rc_from _ _ _ _ Hinv g Hg) as [|Hr]; [left; by apply elem_of_dom|right].
  apply elem_of_list_to_set, elem_of_seqZ. lia.
Qed.

Lemma member_group c g : test_cfg c → 0 < g → IsMember c g = true → is_Some (Groups c !! g).
Proof.
  intros [Hl Hb _] Hg Hm. apply not_eq_None_Some. intros Hn.
  rewrite (not_IsMember c g) in Hm; [done|done|done|done|lia].
Qed.

(** The joins and leaves of the goroutines' own groups go through. *)
Lemma join_read_spec c g w :
  Query w = Some c → test_cfg c → 0 < g → Groups c !! g = None → - 2 ^ 63 ≤ Num c < max_i64 →
  ∃ new, join_read g (grp_names g) w = Ret new ∧ pending c new (<[g := grp_names g]> (Groups c)).
Proof.
  intros Hq T Hg Hno Hn. destruct (JoinBalance_one c g) as (new & E & T' & N' & G' & _);
    [apply T|apply T|done|done|done|].
  exists new. unfold join_read. rewrite Hq. cbn [deref]. rewrite bind_ret_l, Copy_eq, E. split; [done|].
  split; [lia|done].
Qed.

Lemma leave_read_spec c g w :
  Query w = Some c → test_cfg c → is_Some (Groups c !! g) → - 2 ^ 63 ≤ Num c < max_i64 →
  ∃ new, leave_read g w = Ret new ∧ pending c new (delete g (Groups c)).
Proof.
  intros Hq T Hg Hn. destruct (LeaveBalance_one c g) as (new & E & T' & N' & G'); [done..|].
  exists new. unfold leave_read. rewrite Hq. cbn [deref]. rewrite bind_ret_l, Copy_eq, E. split; [done|].
  split; [lia|done].
Qed.

Context (c0 : ShardConfig) (g0 : Tgid).
Context (Hg0 : 0 < g0) (Hc0 : ∀ g, is_Some (Groups c0 !! g) → g < g0) (Hn0 : - 2 ^ 63 ≤ Num c0).

(** A fresh number. *)
Lemma race_inv_new c s i :
  race_inv c0 g0 c s → ra_pcs s !! i = Some RIdle → ts_ngid (ra_ts s) < 2 ^ 63 - 1 →
  race_inv c0 g0 c (s <| ra_ts := {| ts_ngid := ts_ngid (ra_ts s) + 1 |} |>
                      <| ra_pcs := <[i := RMake (ts_ngid (ra_ts s))]> (ra_pcs s) |>).
Proof.
  intros Hinv Hi Hlt. pose proof (rc_ngid _ _ _ _ Hinv).
  eapply race_inv_step; [exact Hinv|exact Hi|done|apply Hinv|apply Hinv|lia|cbn; lia|auto|apply Hinv|..]; cbn.
  - destruct (Groups c !! ts_ngid (ra_ts s)) eqn:E; [|done].
    destruct (rc_from _ _ _ _ Hinv (ts_ngid (ra_ts s))) as [Hx%Hc0|]; [by eexists|lia|lia].
  - intros j p _ Hj. exact (rc_pc _ _ _ _ Hinv j p Hj).
  - intros g [= <-]. right. lia.
  - intros Hb. apply Hinv. lia.
Qed.

(** The group starts, or exits once no shard is left with it. *)
Lemma race_inv_running c s i pc pc' g running' :
  race_inv c0 g0 c s → ra_pcs s !! i = Some pc → pc_gid pc = Some g →
  pc_ok c running' pc' → (∀ x, pc_gid pc' = Some x → x = g) →
  (∀ x, x ≠ g → x ∈ ra_running s → x ∈ running') →
  (g ∈ running' ∨ ((size (Groups c) ≤ NShards)%nat → Groups c !! g = None)) →
  race_inv c0 g0 c (s <| ra_running := running' |> <| ra_pcs := <[i := pc']> (ra_pcs s) |>).
Proof.
  intros Hinv Hi Hg Hok Hg' Hrun Hgone.
  eapply race_inv_step; [exact Hinv|exact Hi|done|apply Hinv|apply Hinv|lia|cbn; lia|auto|apply Hinv|exact Hok|..]; cbn.
  - intros j p Hne Hj. apply (pc_ok_running c (ra_running s)); [|exact (rc_pc _ _ _ _ Hinv j p Hj)].
    intros x Hx. apply Hrun. intros ->. by apply Hne, (rc_own _ _ _ _ Hinv j i p pc g).
  - intros x ->%Hg'. by left.
  - intros Hb x Hx. pose proof (race_size _ _ _ _ Hinv).
    destruct (decide (x = g)) as [->|Hne]; [|by apply Hrun, (rc_running _ _ _ _ Hinv)].
    destruct Hgone as [|Hgone]; [done|]. rewrite Hgone in Hx by lia. by destruct Hx.
Qed.

Lemma race_step_inv e c s :
  race_inv c0 g0 c s → Num c < max_i64 → ts_ngid (ra_ts s) < 2 ^ 63 - 1 →
  ∃ s' c', race_step e s = Ret s' ∧ race_inv c0 g0 c' s' ∧ Num c' ≤ Num c + 1 ∧
    ts_ngid (ra_ts s) ≤ ts_ngid (ra_ts s') ≤ ts_ngid (ra_ts s) + 1.
Proof.
  intros Hinv Hn Hng. destruct e as [i stop]. unfold race_step. cbn [fst snd].
  pose proof (rc_query _ _ _ _ Hinv) as Hq. pose proof (rc_cfg _ _ _ _ Hinv) as T.
  pose proof (rc_num _ _ _ _ Hinv). pose proof (rc_ngid _ _ _ _ Hinv).
  destruct (ra_pcs s !! i) as [pc|] eqn:Hi; [|exists s, c; split_and!; [done|done|lia..]].
  pose proof (rc_pc _ _ _ _ Hinv i pc Hi) as Hpc. pose proof (rc_range _ _ _ _ Hinv i pc) as Hr.
  assert (∀ pc', pc_ok c (ra_running s) pc' → (∀ g, pc_gid pc' = Some g → pc_gid pc = Some g) →
    ∃ s' c', Ret (s <| ra_pcs := <[i := pc']> (ra_pcs s) |>) = Ret s' ∧ race_inv c0 g0 c' s' ∧
      Num c' ≤ Num c + 1 ∧ ts_ngid (ra_ts s) ≤ ts_ngid (ra_ts s') ≤ ts_ngid (ra_ts s) + 1) as Hmove.
  { intros pc' Hok Hg. eexists _, c. split; [done|]. split; [by eapply race_inv_pc|]. cbn. lia. }
  destruct pc as [|g|g|g new|g|g|g|g new|g|]; cbn [race_turn pc_ok pc_gid] in *;
    try (specialize (Hr g Hi eq_refl)); unfold checkMember; try rewrite Hq; cbn [deref]; rewrite ?bind_ret_l.
  - destruct stop; rewrite ?bind_ret_l; [by apply Hmove|]. unfold newGid. rewrite i64_small by lia. rewrite bind_ret_l.
    eexists _, c. split; [done|]. split; [exact (race_inv_new c s i Hinv Hi Hng)|]. cbn. lia.
  - eexists _, c. split; [done|]. split; [|cbn; lia].
    eapply (race_inv_running c s i _ _ g); [done|done|done|cbn; split; [done|set_solver]|by intros ? [= ->]|set_solver|left; set_solver].
  - destruct Hpc as [Hno Hin]. destruct (join_read_spec c g (ra_w s)) as (new & -> & Hp); [done|done|lia|done|lia|].
    rewrite bind_ret_l. by apply Hmove.
  - destruct Hpc as (Hno & Hin & Hp).
    destruct (race_inv_change c0 g0 c s i _ (RJoined g) new g (<[g := grp_names g]> (Groups c)) Hinv Hi) as (c' & Hinv' & Hle); try done.
    { intros x Hx. by apply lookup_insert_ne. } { intros x Hx%Hc0. lia. }
    eexists _, c'. split; [done|]. split; [exact Hinv'|]. cbn. lia.
  - by apply Hmove.
  - destruct (IsMember c g) eqn:Hm; apply Hmove; try done. cbn. split; [|done]. apply member_group; [done|lia|done].
  - destruct Hpc as [Hsome Hin]. destruct (leave_read_spec c g (ra_w s)) as (new & -> & Hp); [done|done|done|lia|].
    rewrite bind_ret_l. by apply Hmove.
  - destruct Hpc as (Hsome & Hin & Hp).
    destruct (race_inv_change c0 g0 c s i _ (RLeft g) new g (delete g (Groups c)) Hinv Hi) as (c' & Hinv' & Hle); try done.
    { intros x Hx. by apply lookup_delete_ne. } { intros x Hx%Hc0. lia. }
    eexists _, c'. split; [done|]. split; [exact Hinv'|]. cbn. lia.
  - destruct (IsMember c g) eqn:Hm; rewrite bind_ret_l; [by apply Hmove|].
    eexists _, c. split; [done|]. split; [|cbn; lia].
    eapply (race_inv_running c s i _ _ g); [done|done|done|done|done|set_solver|right].
    intros Hsz. destruct (Groups c !! g) eqn:E; [|done].
    rewrite balanced_IsMember in Hm; [done|apply T|apply T|done|by eexists].
  - by apply Hmove.
Qed.

Lemma race_run_inv es c s :
  race_inv c0 g0 c s → Num c + zlen es ≤ max_i64 → ts_ngid (ra_ts s) + zlen es < 2 ^ 63 →
  ∃ s' c', race_run es s = Ret s' ∧ race_inv c0 g0 c' s'.
Proof.
  revert c s. induction es as [|e es IH]; intros c s Hinv Hn Hng; [by exists s, c|].
  rewrite zlen_cons in *. pose proof (zlen_nonneg es).
  destruct (race_step_inv e c s Hinv) as (s1 & c1 & E & Hinv1 & Hn1 & _ & Hng1); [lia|lia|].
  unfold race_run. cbn [go_for]. rewrite E, bind_ret_l. apply (IH c1); [done|lia|lia].
Qed.

Lemma concurCtrler_inv n w running :
  Query w = Some c0 → test_cfg c0 → (∀ g, is_Some (Groups c0 !! g) → g ∈ running) →
  race_inv c0 g0 c0 (concurCtrler n {| ts_ngid := g0 |} w running).
Proof.
  intros Hq T Hrun. unfold concurCtrler. split; cbn; try done; try lia; [by left|..].
  - by intros i pc [-> _]%lookup_replicate.
  - by intros i pc g [-> _]%lookup_replicate.
  - by intros i j pc pc' g [-> _]%lookup_replicate.
Qed.
End safety.

(** C21: controllers that compete never break the test. Whatever number of goroutines of
    [concurCtrler] run beside each other and however their queries, changes and starts and exits
    of groups interleave, over a controller that takes the next configuration and no other,
    none of them stops the test: no join finds its group present and no leave finds it absent.
    The configuration stays balanced, keeps the groups that were there, and has beside them only
    groups with a number the test gave out; and as long as there are no more groups than shards,
    every group in it has its servers running. *)
Theorem controllers_race {W} `{ShardCtrlerLaws W} `{!ShardCtrlerRace W} es n ts (w : W) c0 running :
  Query w = Some c0 → test_cfg c0 → - 2 ^ 63 ≤ Num c0 → 0 < ts_ngid ts →
  (∀ g, is_Some (Groups c0 !! g) → g < ts_ngid ts ∧ g ∈ running) →
  Num c0 + zlen es ≤ max_i64 → ts_ngid ts + zlen es < 2 ^ 63 →
  ∃ s c, race_run es (concurCtrler n ts w running) = Ret s ∧ Query (ra_w s) = Some c ∧ test_cfg c ∧
    Num c0 ≤ Num c ∧
    (∀ g, is_Some (Groups c0 !! g) → is_Some (Groups c !! g)) ∧
    (∀ g, is_Some (Groups c !! g) → is_Some (Groups c0 !! g) ∨ ts_ngid ts ≤ g < ts_ngid (ra_ts s)) ∧
    ((size (Groups c0) + Z.to_nat (ts_ngid (ra_ts s) - ts_ngid ts) ≤ NShards)%nat →
       ∀ g, is_Some (Groups c !! g) → g ∈ ra_running s).
Proof.
  intros Hq T Hn0 Hpos Hg Hn Hng. destruct ts as [g0]. cbn [ts_ngid] in *.
  destruct (race_run_inv c0 g0 Hpos (λ g Hx, proj1 (Hg g Hx)) Hn0 es c0
    (concurCtrler n {| ts_ngid := g0 |} w running)) as (s & c & E & Hinv); [|done|done|].
  - apply concurCtrler_inv; try done. intros g Hx. by apply Hg.
  - exists s, c. split; [exact E|]. destruct Hinv. by split_and!.
Qed.

(** Two goroutines: both read the first configuration, the second one's join is superseded. *)
Definition two_race : list (nat * bool) :=
  [(0, false); (1, false); (0, false); (1, false); (0, false); (1, false); (0, false); (1, false);
   (0, false); (1, false); (0, false); (1, false)]%nat.

Definition race_view (s : race (option ShardConfig)) : list race_pc * option (bool * bool) * Tgid :=
  (ra_pcs s, match ra_w s with Some c => Some (IsMember c 2, IsMember c 3) | None => None end, ts_ngid (ra_ts s)).

Lemma controllers_race_witness :
  let c0 := rebalanced {| Num := 1; Shards := replicate NShards 1; Groups := {[ 1 := grp_names 1 ]} |} in
  ∃ s c, race_run two_race (concurCtrler 2 MakeTestMaxRaft (Some c0) {[1]}) = Ret s ∧ ra_w s = Some c ∧
    test_cfg c ∧ ra_pcs s = [RLeave 2; RIdle] ∧ IsMember c 2 = true ∧ IsMember c 3 = false ∧
    (∀ g, is_Some (Groups c !! g) → g ∈ ra_running s).
Proof.
  cbv zeta. set (c0 := rebalanced _).
  assert (test_cfg c0 ∧ Num c0 = 1 ∧ Groups c0 = {[ 1 := grp_names 1 ]}) as (T & N & G).
  { apply test_cfg_rebalanced; [reflexivity|]. intros g l Hl. cbn in Hl. apply lookup_singleton_Some in Hl as [<- <-]. split; [lia|reflexivity]. }
  destruct (controllers_race two_race 2 MakeTestMaxRaft (Some c0) c0 {[1]}) as (s & c & E & Hq & T' & _ & _ & _ & Hrun);
    [reflexivity|exact T|rewrite N; lia|cbn; unfold Gid1; lia| |rewrite N; unfold max_i64; vm_compute; discriminate|vm_compute; reflexivity|].
  { intros g Hg. rewrite G in Hg. apply lookup_singleton_is_Some in Hg as <-. split; [vm_compute; reflexivity|set_solver]. }
  exists s, c. split; [exact E|]. split; [exact Hq|]. split; [exact T'|].
  assert (race_view <$> race_run two_race (concurCtrler 2 MakeTestMaxRaft (Some c0) {[1]}) =
          Ret ([RLeave 2; RIdle], Some (true, false), 4)) as Hs by (vm_compute; reflexivity).
  rewrite E in Hs. cbn in Hq. unfold race_view in Hs. cbn in Hs. rewrite Hq in Hs. injection Hs as Hp Hm2 Hm3 Hid.
  split; [exact Hp|]. split; [exact Hm2|]. split; [exact Hm3|]. apply Hrun.
  rewrite Hid, G. vm_compute. repeat constructor.
Defined.
